(** * clouddrift.ragged: ragged-array transformations

    A shallow embedding of [src/clouddrift/ragged.py] and the properties
    of its index arithmetic.

    Conventions of the embedding.
    - Python [int]s are [Z]; floor division [//] is [Z.div].
    - A raised exception is a value of [exn]; a function that can raise
      returns [result].  The messages of the exceptions the module raises
      itself are the ones of the source, so that every condition can be
      told apart from the ones NumPy or Python raise underneath.
    - A NumPy array is a shape with its elements in row-major order.
    - Slices [x[a:b]] follow Python: negative bounds count from the end
      and bounds are clamped to the length. *)

From Stdlib Require Import String.
From Stdlib Require Import QArith Qround.
From Stdlib Require Import List ZArith Lia Bool Permutation.
Import ListNotations.

Set Implicit Arguments.
Open Scope Z_scope.

(** ** Exceptions and the error monad *)

Inductive exn : Type :=
| ValueError (msg : string)
| IndexError (msg : string)
| TypeError (msg : string)
| KeyError (key : string)
| AxisError
| ZeroDivisionError.

Inductive result (A : Type) : Type :=
| Ok (a : A)
| Raise (e : exn).

Arguments Ok {A} a.
Arguments Raise {A} e.

Definition bind {A B} (m : result A) (k : A -> result B) : result B :=
  match m with
  | Ok a => k a
  | Raise e => Raise e
  end.

Declare Scope result_scope.
Delimit Scope result_scope with result.
Notation "x <- m ;; k" := (bind m (fun x => k))
  (at level 61, m at next level, right associativity) : result_scope.
Notation "' p <- m ;; k" := (bind m (fun x => let p := x in k))
  (at level 61, p pattern, m at next level, right associativity) : result_scope.
Open Scope result_scope.

Fixpoint mapM {A B} (f : A -> result B) (l : list A) : result (list B) :=
  match l with
  | [] => Ok []
  | a :: l' => b <- f a ;; bs <- mapM f l' ;; Ok (b :: bs)
  end.

(** The messages of the conditions raised by the module itself. *)

Definition msg_rowsize_arr : string :=
  "The sum of rowsize must equal the length of arr.".
Definition msg_rowsize_x : string :=
  "The sum of rowsize must equal the length of x.".
Definition msg_align : string :=
  "align must be one of 'start', 'middle', or 'end'.".
Definition msg_index_type : string :=
  "The index must be an integer or a list of integers.".
Definition msg_index_bounds : string :=
  "Input index out of bounds based on input rowsize".
Definition msg_callable_length : string :=
  "The `Callable` function must return a masked array that matches the length of the variable to filter.".
Definition msg_callable_dims : string :=
  "Variables passed to the Callable must share the same dimension.".
(** The text of the key is left out of this message. *)
Definition msg_unknown_variable : string := "Unknown variable".
Definition msg_callable_list : string :=
  "The `var` parameter can be a `list` only if the `criterion` is a `Callable`.".

(** Conditions raised underneath, by Python or NumPy. *)

Definition msg_negative_dims : string := "negative dimensions are not allowed".
Definition msg_broadcast : string := "could not broadcast input array".
Definition msg_concat_empty : string := "need at least one array to concatenate".
Definition msg_concat_zero_dim : string :=
  "zero-dimensional arrays cannot be concatenated".
Definition msg_concat_ndim : string :=
  "all the input arrays must have same number of dimensions".
Definition msg_concat_shape : string :=
  "all the input array dimensions except for the concatenation axis must match exactly".
Definition msg_max_empty : string := "max() arg is an empty sequence".
Definition msg_inhomogeneous : string :=
  "setting an array element with a sequence: inhomogeneous shape".
Definition msg_unsized : string := "len() of unsized object".
Definition msg_out_of_range : string := "index out of range".
Definition msg_bool_index : string :=
  "boolean index did not match indexed array".
Definition msg_repeat_negative : string := "repeats may not contain negative values".
Definition msg_not_iterable : string := "object is not iterable".
Definition msg_replace_shape : string :=
  "replacement data must match the Variable's shape".
Definition msg_operands : string := "operands could not be broadcast together".
Definition msg_data_dims : string :=
  "different number of dimensions on data and dims".
Definition msg_index_values : string :=
  "Cannot assign to the .values attribute of dimension coordinate".

(** ** Python sequences *)

Definition len {A} (l : list A) : Z := Z.of_nat (length l).

(** A slice bound [i] of a sequence of length [n], as Python resolves it. *)
Definition slice_bound (n i : Z) : Z :=
  if i <? 0 then Z.max 0 (i + n) else Z.min i n.

(** [x[start:stop]] *)
Definition py_slice {A} (x : list A) (start stop : Z) : list A :=
  let lo := slice_bound (len x) start in
  let hi := slice_bound (len x) stop in
  firstn (Z.to_nat (hi - lo)) (skipn (Z.to_nat lo) x).

(** [x[i]] on a list or tuple. *)
Definition py_getitem {A} (x : list A) (i : Z) : result A :=
  let j := if i <? 0 then i + len x else i in
  if (j <? 0) || (len x <=? j) then Raise (IndexError msg_out_of_range)
  else match nth_error x (Z.to_nat j) with
       | Some a => Ok a
       | None => Raise (IndexError msg_out_of_range)
       end.

(** [np.sum] of integers, exact: the sum of int64 arithmetic as long as
    it is an int64. *)
Fixpoint sumZ (l : list Z) : Z :=
  match l with
  | [] => 0
  | a :: l' => a + sumZ l'
  end.

(** ** NumPy arrays *)

Record ndarray (A : Type) : Type := mk_nd { shape : list nat; data : list A }.

Arguments mk_nd {A} shape data.

Definition nd_size (sh : list nat) : nat := fold_right Nat.mul 1%nat sh.

(** A one-dimensional array. *)
Definition array1 {A} (l : list A) : ndarray A := mk_nd [length l] l.

(** [blocks n m d]: the [n] consecutive blocks of [m] elements of [d]. *)
Fixpoint blocks {A} (n m : nat) (d : list A) : list (list A) :=
  match n with
  | O => []
  | S n' => firstn m d :: blocks n' m (skipn m d)
  end.

(** An axis number, resolved against the number of dimensions. *)
Definition norm_axis (ndim : nat) (axis : Z) : option nat :=
  let n := Z.of_nat ndim in
  if (0 <=? axis) && (axis <? n) then Some (Z.to_nat axis)
  else if (- n <=? axis) && (axis <? 0) then Some (Z.to_nat (axis + n))
  else None.

(** [arr.shape[axis]] *)
Definition shape_at {A} (a : ndarray A) (axis : Z) : result Z :=
  match norm_axis (length (shape a)) axis with
  | Some k => Ok (Z.of_nat (nth k (shape a) O))
  | None => Raise (IndexError msg_out_of_range)
  end.

(** [len(arr)] *)
Definition nd_len {A} (a : ndarray A) : result Z :=
  match shape a with
  | n :: _ => Ok (Z.of_nat n)
  | [] => Raise (TypeError msg_unsized)
  end.

(** ** chunk *)

(** [res[n] = v] where [res[n]] is a row of [width] elements: NumPy
    broadcasts a one-element value and refuses every other length. *)
Definition assign_row {A} (width : nat) (v : list A) : result (list A) :=
  if Nat.eqb (List.length v) width then Ok v
  else match v with
       | [a] => Ok (repeat a width)
       | _ => Raise (ValueError msg_broadcast)
       end.

(** The loop [for n in range(num_chunks)], with [start] threaded through. *)
Fixpoint chunk_loop {A} (x : list A) (length overlap : Z) (n : nat) (start : Z)
  : result (list (list A)) :=
  match n with
  | O => Ok []
  | S n' =>
      let end_ := start + length in
      row <- assign_row (Z.to_nat length) (py_slice x start end_) ;;
      rest <- chunk_loop x length overlap n' (end_ - overlap) ;;
      Ok (row :: rest)
  end.

Definition chunk {A} (x : list A) (length overlap : Z) (align : string)
  : result (ndarray A) :=
  num_chunks <-
    (if length <=? len x then
       if length - overlap =? 0 then Raise ZeroDivisionError
       else Ok ((len x - length) / (length - overlap) + 1)
     else Ok 0) ;;
  let remainder := len x - num_chunks * length + (num_chunks - 1) * overlap in
  (* np.empty((num_chunks, length)) *)
  if (num_chunks <? 0) || (length <? 0) then Raise (ValueError msg_negative_dims)
  else
    start <-
      (if String.eqb align "start" then Ok 0
       else if String.eqb align "middle" then Ok (remainder / 2)
       else if String.eqb align "end" then Ok remainder
       else Raise (ValueError msg_align)) ;;
    rows <- chunk_loop x length overlap (Z.to_nat num_chunks) start ;;
    Ok (mk_nd [Z.to_nat num_chunks; Z.to_nat length] (concat rows)).

(** The window of [length] elements of [x] that starts at offset [start]. *)
Definition window {A} (x : list A) (start length : Z) : list A :=
  firstn (Z.to_nat length) (skipn (Z.to_nat start) x).

(** The rows of a two-dimensional array. *)
Definition nd_rows {A} (a : ndarray A) : list (list A) :=
  match shape a with
  | [r; c] => blocks r c (data a)
  | _ => []
  end.

(** A two-dimensional array given by its rows. *)
Definition array2 {A} (rows : list (list A)) : ndarray A :=
  mk_nd [List.length rows; List.length (hd [] rows)] (concat rows).

(** ** rowsize_to_index *)

(** The partial sums, exact: the ones of [np.cumsum] on int64 as long as
    each of them is an int64, as the sums of sizes that are not negative
    and sum to the length of an array are.  [rowsize_to_index_int64] adds
    as int64 does. *)
Fixpoint cumsum_from (acc : Z) (l : list Z) : list Z :=
  match l with
  | [] => []
  | a :: l' => (acc + a) :: cumsum_from (acc + a) l'
  end.

Definition np_cumsum (l : list Z) : list Z := cumsum_from 0 l.

Definition rowsize_to_index (rowsize : list Z) : list Z :=
  np_cumsum (0 :: rowsize).

(** ** segment *)

(** [np.diff] on integers. *)
Fixpoint np_diffZ (l : list Z) : list Z :=
  match l with
  | a :: (b :: _) as l' => (b - a) :: np_diffZ l'
  | _ => []
  end.

(** [np.where(mask)[0]]: the positions of the true entries. *)
Fixpoint np_where_from (i : Z) (mask : list bool) : list Z :=
  match mask with
  | [] => []
  | b :: mask' =>
      if b then i :: np_where_from (i + 1) mask' else np_where_from (i + 1) mask'
  end.

Definition np_where (mask : list bool) : list Z := np_where_from 0 mask.

(** [np.concatenate] on a list of one-dimensional arrays. *)
Definition np_concatenate1 {A} (arrays : list (list A)) : result (list A) :=
  match arrays with
  | [] => Raise (ValueError msg_concat_empty)
  | _ => Ok (concat arrays)
  end.

Section Segment.
(** The elements of [x] are numbers or times, their differences numbers
    or durations; [tolerance] is a difference. *)
Variables T D : Type.
Variable sub : T -> T -> D.
Variables gt lt : D -> D -> bool.
(** [tolerance >= 0], after the normalisation of a duration. *)
Variable ge0 : D -> bool.

Fixpoint np_diff (x : list T) : list D :=
  match x with
  | a :: (b :: _) as x' => sub b a :: np_diff x'
  | _ => []
  end.

(** The mask [exceeds_tolerance]. *)
Definition exceeds (x : list T) (tolerance : D) : list bool :=
  let positive_tol := ge0 tolerance in
  if positive_tol then map (fun d => gt d tolerance) (np_diff x)
  else map (fun d => lt d tolerance) (np_diff x).

(** The branch [rowsize is None] of [segment]. *)
Definition segment_flat (x : list T) (tolerance : D) : list Z :=
  let exceeds_tolerance := exceeds x tolerance in
  let segment_sizes :=
    np_diffZ (0 :: map (fun i => i + 1) (np_where exceeds_tolerance)) in
  segment_sizes ++ [len x - sumZ segment_sizes].

(** The loop over the rows in the branch with a [rowsize]. *)
Fixpoint segment_rows (x : list T) (tolerance : D) (rowsize : list Z)
         (start : Z) : list (list Z) :=
  match rowsize with
  | [] => []
  | r :: rowsize' =>
      let end_ := start + r in
      segment_flat (py_slice x start end_) tolerance
        :: segment_rows x tolerance rowsize' end_
  end.

Definition segment (x : list T) (tolerance : D) (rowsize : option (list Z))
  : result (list Z) :=
  match rowsize with
  | None => Ok (segment_flat x tolerance)
  | Some rowsize =>
      if negb (sumZ rowsize =? len x) then Raise (ValueError msg_rowsize_x)
      else np_concatenate1 (segment_rows x tolerance rowsize 0)
  end.

(** A break between two consecutive elements [a] and [b]. *)
Definition flagged (tolerance : D) (a b : T) : bool :=
  if ge0 tolerance then gt (sub b a) tolerance else lt (sub b a) tolerance.

End Segment.

(** Rational numbers, for sequences of integers or of exact decimals. *)
Definition Qgt_bool (a b : Q) : bool := negb (Qle_bool a b).
Definition Qlt_bool (a b : Q) : bool := negb (Qle_bool b a).
Definition segmentQ (x : list Q) (tolerance : Q) (rowsize : option (list Z))
  : result (list Z) :=
  segment Qminus Qgt_bool Qlt_bool (Qle_bool 0) x tolerance rowsize.

(** Strictly increasing, above [lo]. *)
Fixpoint increasing_from (lo : Z) (l : list Z) : Prop :=
  match l with
  | [] => True
  | a :: l' => lo < a /\ increasing_from a l'
  end.

(** ** obs_index_to_row *)

(** A scalar that a caller may pass as an index. *)
Inductive scalar : Type :=
| PyInt (z : Z)      (* a Python [int] *)
| NpInt (z : Z)      (* a NumPy integer scalar *)
| PyFloat (q : Q).   (* a float *)

(** [int(i)]: the integer itself, a float truncated towards zero. *)
Definition py_int (s : scalar) : Z :=
  match s with
  | PyInt z | NpInt z => z
  | PyFloat q => if Qle_bool 0 q then Qfloor q else Qceiling q
  end.

(** [isinstance(i, int)] *)
Definition is_py_int (s : scalar) : bool :=
  match s with PyInt _ => true | _ => false end.

(** The argument [index], by the type the function dispatches on. *)
Inductive index_arg : Type :=
| IndexDataArray (values : list scalar)   (* [xr.DataArray] *)
| IndexNdarray (values : list scalar)     (* [np.ndarray] *)
| IndexInt (z : Z)                        (* [int] *)
| IndexList (items : list scalar)         (* a list *)
| IndexScalar (s : scalar).               (* another scalar, not iterable *)

(** [np.searchsorted(a, v, side="right")] for a sorted [a]: the number of
    elements of [a] that are at most [v]. *)
Definition np_searchsorted_right (a : list Z) (v : Z) : Z :=
  len (filter (fun e => e <=? v) a).

Definition obs_index_to_row (index : index_arg) (rowsize : list Z)
  : result (list Z) :=
  (* convert index to list if it is not *)
  index_list <-
    match index with
    | IndexDataArray values => Ok (map (fun i => PyInt (py_int i)) values)
    | IndexNdarray values => Ok (map (fun i => PyInt (py_int i)) values)
    | IndexInt z => Ok [PyInt z]
    | IndexList items => Ok items
    | IndexScalar _ => Raise (TypeError msg_not_iterable)
    end ;;
  (* if index is not a list of integers or integer-likes, raise an error *)
  if negb (forallb is_py_int index_list) then Raise (ValueError msg_index_type)
  else
    let rowsize_index := rowsize_to_index rowsize in
    let ints := map py_int index_list in
    (* test that no index is out of bounds *)
    if existsb (fun i => (i <? hd 0 rowsize_index) || (last rowsize_index 0 <=? i))
               ints
    then Raise (ValueError msg_index_bounds)
    else Ok (map (fun i => np_searchsorted_right rowsize_index i - 1) ints).

(** ** Slicing and joining arrays along an axis *)

(** The elements [lo, hi) along axis [k] of the row-major data [d] of an
    array of shape [sh]. *)
Fixpoint slice_axis {A} (sh : list nat) (k lo hi : nat) (d : list A) : list A :=
  match sh with
  | [] => d
  | n :: rest =>
      match k with
      | O => firstn ((hi - lo) * nd_size rest) (skipn (lo * nd_size rest) d)
      | S k' => concat (map (slice_axis rest k' lo hi) (blocks n (nd_size rest) d))
      end
  end.

Fixpoint set_nth {A} (k : nat) (v : A) (l : list A) : list A :=
  match l, k with
  | [], _ => []
  | _ :: l', O => v :: l'
  | a :: l', S k' => a :: set_nth k' v l'
  end.

(** [ary[st:en]] taken along axis [k]. *)
Definition nd_slice {A} (ary : ndarray A) (k : nat) (st en : Z) : ndarray A :=
  let n := Z.of_nat (nth k (shape ary) O) in
  let lo := Z.to_nat (slice_bound n st) in
  let hi := Z.to_nat (slice_bound n en) in
  mk_nd (set_nth k (hi - lo)%nat (shape ary))
        (slice_axis (shape ary) k lo hi (data ary)).

(** The pairs of consecutive elements. *)
Fixpoint consecutive {A} (l : list A) : list (A * A) :=
  match l with
  | a :: (b :: _) as l' => (a, b) :: consecutive l'
  | _ => []
  end.

(** [np.split(ary, indices, axis)] with a list of indices. *)
Definition np_split {A} (ary : ndarray A) (indices : list Z) (axis : Z)
  : result (list (ndarray A)) :=
  Ntotal <- shape_at ary axis ;;
  match norm_axis (List.length (shape ary)) axis with
  | None => Raise AxisError
  | Some k =>
      let div_points := 0 :: indices ++ [Ntotal] in
      Ok (map (fun p => nd_slice ary k (fst p) (snd p)) (consecutive div_points))
  end.

(** The data of [parts], arrays given by shape and data that agree on
    every dimension but the [k]-th, joined along axis [k]. *)
Fixpoint concat_axis {A} (k : nat) (parts : list (list nat * list A)) : list A :=
  match k with
  | O => concat (map snd parts)
  | S k' =>
      let n := match parts with (n :: _, _) :: _ => n | _ => O end in
      concat
        (map (fun j =>
                concat_axis k'
                  (map (fun p =>
                          (tl (fst p),
                           nth j (blocks n (nd_size (tl (fst p))) (snd p)) []))
                       parts))
             (seq 0 n))
  end.

Definition shape_eqb (s1 s2 : list nat) : bool :=
  if list_eq_dec Nat.eq_dec s1 s2 then true else false.

(** [np.concatenate(arrays, axis=axis)] *)
Definition np_concatenate {A} (arrays : list (ndarray A)) (axis : Z)
  : result (ndarray A) :=
  match arrays with
  | [] => Raise (ValueError msg_concat_empty)
  | a0 :: _ =>
      if existsb (fun a => Nat.eqb (List.length (shape a)) 0) arrays
      then Raise (ValueError msg_concat_zero_dim)
      else
        match norm_axis (List.length (shape a0)) axis with
        | None => Raise AxisError
        | Some k =>
            if negb (forallb (fun a => Nat.eqb (List.length (shape a))
                                               (List.length (shape a0))) arrays)
            then Raise (ValueError msg_concat_ndim)
            else if negb (forallb (fun a => shape_eqb (set_nth k O (shape a))
                                                      (set_nth k O (shape a0)))
                                  arrays)
            then Raise (ValueError msg_concat_shape)
            else
              let total := fold_right Nat.add O (map (fun a => nth k (shape a) O) arrays) in
              Ok (mk_nd (set_nth k total (shape a0))
                        (concat_axis k (map (fun a => (shape a, data a)) arrays)))
        end
  end.

(** ** unpack *)

(** The argument [rows]: one row number or several. *)
Inductive rows_arg : Type :=
| RowsInt (i : Z)
| RowsList (l : list Z).

(** The rows that are selected, [rows is None] selecting all. *)
Definition selected_rows (rowsize : list Z) (rows : option rows_arg) : list Z :=
  match rows with
  | None => map Z.of_nat (seq 0 (List.length (rowsize_to_index rowsize) - 1))
  | Some (RowsInt i) => [i]
  | Some (RowsList l) => l
  end.

Definition unpack {A} (ragged_array : ndarray A) (rowsize : list Z)
           (rows : option rows_arg) (axis : Z) : result (list (ndarray A)) :=
  let indices := rowsize_to_index rowsize in
  let rows := selected_rows rowsize rows in
  unpacked <- np_split ragged_array (py_slice indices 1 (-1)) axis ;;
  mapM (py_getitem unpacked) rows.

(** ** ragged_to_regular and regular_to_ragged *)

(** Python's [max] of a sequence. *)
Definition py_max (l : list Z) : result Z :=
  match l with
  | [] => Raise (ValueError msg_max_empty)
  | a :: l' => Ok (fold_left Z.max l' a)
  end.

(** [row[:stop] = v] *)
Definition assign_prefix {A} (row : list A) (stop : Z) (v : list A)
  : result (list A) :=
  let w := Z.to_nat (slice_bound (len row) stop) in
  filled <- assign_row w v ;;
  Ok (filled ++ skipn w row).

(** [data[mask]]: the elements at the true positions of a mask of the
    same length. *)
Fixpoint np_compress {A} (mask : list bool) (d : list A) : list A :=
  match mask, d with
  | b :: mask', a :: d' => if b then a :: np_compress mask' d' else np_compress mask' d'
  | _, _ => []
  end.

(** Element-wise sum of integer vectors of length [s]. *)
Fixpoint sum_vectors (s : nat) (vs : list (list Z)) : list Z :=
  match vs with
  | [] => repeat 0 s
  | v :: vs' => map (fun p => fst p + snd p) (combine v (sum_vectors s vs'))
  end.

Definition bool_to_Z (b : bool) : Z := if b then 1 else 0.

(** [np.sum(mask, axis=1)] *)
Definition np_sum_axis1 (mask : ndarray bool) : result (ndarray Z) :=
  match shape mask with
  | r :: c :: rest =>
      let s := nd_size rest in
      Ok (mk_nd (r :: rest)
            (concat (map (fun blk => sum_vectors s (blocks c s (map bool_to_Z blk)))
                         (blocks r (c * s) (data mask)))))
  | _ => Raise AxisError
  end.

Section Regular.
(** The elements of the regular array and the fill value, with [np.isnan]
    and [!=] on them. *)
Variable T : Type.
Variable isnan : T -> bool.
Variable neq : T -> T -> bool.
(** The elements of the ragged array, of the dtype [ragged.dtype], and
    what that dtype does to the result.  [times_ones fill_value] is what
    [fill_value * np.ones(shape, dtype=ragged.dtype)] holds at every
    position, a value of the dtype of that product, or the exception of
    the multiplication (a TypeError, for an array of dates or of strings).
    [astype a] is the element [a] converted to the dtype of the product,
    as the assignment into the result converts it (an integer to float64,
    when the fill value is a float). *)
Variable E : Type.
Variable times_ones : T -> result T.
Variable astype : E -> T.

Definition ragged_to_regular (ragged : list E) (rowsize : list Z)
           (fill_value : T) : result (ndarray T) :=
  m <- py_max rowsize ;;
  (* fill_value * np.ones((len(rowsize), int(max(rowsize))), dtype=ragged.dtype) *)
  if m <? 0 then Raise (ValueError msg_negative_dims)
  else
    fill <- times_ones fill_value ;;
    let blank := repeat fill (Z.to_nat m) in
    unpacked <- unpack (array1 ragged) rowsize None 0 ;;
    (* res[n, : int(rowsize[n])] = unpacked[n] *)
    rows <- mapM (fun p => assign_prefix blank (fst p) (map astype (data (snd p))))
                 (combine rowsize unpacked) ;;
    Ok (mk_nd [List.length rowsize; Z.to_nat m] (concat rows)).

(** The mask [valid] of [regular_to_ragged], on one element. *)
Definition is_valid (fill_value : T) (a : T) : bool :=
  if isnan fill_value then negb (isnan a) else neq a fill_value.

Definition regular_to_ragged (array : ndarray T) (fill_value : T)
  : result (list T * ndarray Z) :=
  let valid := mk_nd (shape array) (map (is_valid fill_value) (data array)) in
  rowsize <- np_sum_axis1 valid ;;
  Ok (np_compress (data valid) (data array), rowsize).

End Regular.

(** The rows of a flat sequence, cut after each row size in turn. *)
Fixpoint split_rows {A} (flat : list A) (rowsize : list Z) : list (list A) :=
  match rowsize with
  | [] => []
  | r :: rowsize' =>
      firstn (Z.to_nat r) flat :: split_rows (skipn (Z.to_nat r) flat) rowsize'
  end.

(** Integers as elements: no NaN among them. *)
Definition Z_isnan (a : Z) : bool := false.
Definition Z_neq (a b : Z) : bool := negb (a =? b).

(** An int64 array with an int64 fill value: the product is an int64
    array again, and nothing is converted. *)
Definition int64_times_ones (fill_value : Z) : result Z := Ok fill_value.
Definition int64_astype (a : Z) : Z := a.

(** The float64 values of the examples: NaN, and the floats whose value
    is an integer. *)
Inductive float64 : Type :=
| NaN
| Float (z : Z).

Definition float64_isnan (a : float64) : bool :=
  match a with NaN => true | Float _ => false end.

Definition float64_neq (a b : float64) : bool :=
  match a, b with
  | Float x, Float y => negb (x =? y)
  | _, _ => true
  end.

(** The float64 nearest to an integer: 53 significant bits are kept, and
    a tie goes to the even one.  Its value is an integer again. *)
Definition nearest_float64 (z : Z) : Z :=
  let a := Z.abs z in
  let e := Z.log2 a - 52 in
  if e <=? 0 then z
  else
    let q := Z.shiftr a e in
    let r := a - Z.shiftl q e in
    let half := Z.shiftl 1 (e - 1) in
    let q' := if (half <? r) || ((r =? half) && Z.odd q) then q + 1 else q in
    Z.sgn z * Z.shiftl q' e.

(** An int64 array with a fill value that is a float, as the default NaN
    is: the product is a float64 array that holds the fill value, and the
    integers are converted to float64. *)
Definition float64_times_ones (fill_value : float64) : result float64 := Ok fill_value.
Definition float64_astype (a : Z) : float64 := Float (nearest_float64 a).

(** ** apply_ragged *)


(** One output of the row-wise function: a scalar, not iterable, or an
    array. *)
Inductive out (B : Type) : Type :=
| OScalar (v : B)
| OArr (a : ndarray B).

Arguments OScalar {B} v.
Arguments OArr {B} a.

(** What the row-wise function returns: one output or a tuple of them. *)
Inductive pyval (B : Type) : Type :=
| Single (o : out B)
| Tuple (l : list (out B)).

Arguments Single {B} o.
Arguments Tuple {B} l.

(** A returned value after [item if isinstance(item, Iterable) else [item]]:
    the one-element list [[v]], an array or a tuple. *)
Inductive item (B : Type) : Type :=
| IList (v : B)
| IArray (a : ndarray B)
| ITuple (l : list (out B)).

Arguments IList {B} v.
Arguments IArray {B} a.
Arguments ITuple {B} l.

Definition wrap_out {B} (o : out B) : item B :=
  match o with
  | OScalar v => IList v
  | OArr a => IArray a
  end.

Definition wrap {B} (r : pyval B) : item B :=
  match r with
  | Single o => wrap_out o
  | Tuple l => ITuple l
  end.

(** [len(r)] *)
Definition item_len {B} (r : item B) : result Z :=
  match r with
  | IList _ => Ok 1
  | IArray a => nd_len a
  | ITuple l => Ok (len l)
  end.

(** [a[i]] on an array: a scalar of a one-dimensional array, a sub-array
    otherwise. *)
Definition nd_getitem {B} (a : ndarray B) (i : nat) : result (out B) :=
  match shape a with
  | [] => Raise (IndexError msg_out_of_range)
  | n :: rest =>
      if Nat.ltb i n then
        match rest with
        | [] => match nth_error (data a) i with
                | Some v => Ok (OScalar v)
                | None => Raise (IndexError msg_out_of_range)
                end
        | _ => Ok (OArr (mk_nd rest (nth i (blocks n (nd_size rest) (data a)) [])))
        end
      else Raise (IndexError msg_out_of_range)
  end.

(** [r[i]] *)
Definition item_getitem {B} (r : item B) (i : nat) : result (out B) :=
  match r with
  | IList v => match i with O => Ok (OScalar v) | S _ => Raise (IndexError msg_out_of_range) end
  | IArray a => nd_getitem a i
  | ITuple l => match nth_error l i with
                | Some o => Ok o
                | None => Raise (IndexError msg_out_of_range)
                end
  end.

(** A scalar seen as an array without dimension. *)
Definition out_array {B} (o : out B) : ndarray B :=
  match o with
  | OScalar v => mk_nd [] [v]
  | OArr a => a
  end.

(** The array NumPy makes of an item that is handed to [np.concatenate]. *)
Definition item_array {B} (r : item B) : result (ndarray B) :=
  match r with
  | IList v => Ok (array1 [v])
  | IArray a => Ok a
  | ITuple [] => Ok (mk_nd [O] [])
  | ITuple ((o :: _) as l) =>
      let sh := shape (out_array o) in
      if forallb (fun o' => shape_eqb (shape (out_array o')) sh) l
      then Ok (mk_nd (List.length l :: sh) (concat (map (fun o' => data (out_array o')) l)))
      else Raise (ValueError msg_inhomogeneous)
  end.

(** What [apply_ragged] returns: one array or a tuple of arrays. *)
Inductive ragged_result (B : Type) : Type :=
| ROne (a : ndarray B)
| RTuple (l : list (ndarray B)).

Arguments ROne {B} a.
Arguments RTuple {B} l.

Definition is_tuple {B} (r : item B) : bool :=
  match r with ITuple _ => true | _ => false end.

Section ApplyRagged.
Variables A B : Type.
(** The row-wise function, with [*args] and [**kwargs] already applied:
    it receives the row of every array.  The executor runs the tasks and
    hands their results back in the order of submission. *)
Variable func : list (ndarray A) -> result (pyval B).

(** The body of the loop that validates [rowsize]. *)
Definition validate_rowsize (rowsize : list Z) (axis : Z) (arr : ndarray A)
  : result unit :=
  n <- shape_at arr axis ;;
  if negb (sumZ rowsize =? n) then Raise (ValueError msg_rowsize_arr)
  else Ok tt.

(** The rows and the call of [func] on each of them. *)
Definition apply_rows (arrays : list (ndarray A)) (rowsize : list Z)
           (rows : option rows_arg) (axis : Z) : result (list (item B)) :=
  _ <- mapM (validate_rowsize rowsize axis) arrays ;;
  (* split the array(s) into rows *)
  arrays <- mapM (fun arr => unpack arr rowsize rows axis) arrays ;;
  first <- py_getitem arrays 0 ;;
  iter <- mapM (fun j => mapM (fun arr => py_getitem arr (Z.of_nat j)) arrays)
               (seq 0 (List.length first)) ;;
  (* parallel execution *)
  res <- mapM func iter ;;
  (* wraps items in a list if they are not already iterable *)
  Ok (map wrap res).

(** The choice of the axis and the concatenation of one output. *)
Definition concatenate_output (pieces : list (item B)) (axis : Z)
  : result (ndarray B) :=
  first <- py_getitem pieces 0 ;;
  n <- item_len first ;;
  arrays <- mapM item_array pieces ;;
  if 1 <? n then np_concatenate arrays axis else np_concatenate arrays 0.

(** Concatenate the outputs. *)
Definition reassemble (res : list (item B)) (axis : Z)
  : result (ragged_result B) :=
  first <- py_getitem res 0 ;;
  match first with
  | ITuple l0 =>
      outputs <-
        mapM (fun i =>
                pieces <- mapM (fun r => o <- item_getitem r i ;; Ok (wrap_out o)) res ;;
                concatenate_output pieces axis)
             (seq 0 (List.length l0)) ;;
      Ok (RTuple outputs)
  | _ =>
      a <- concatenate_output res axis ;;
      Ok (ROne a)
  end.

Definition apply_ragged (arrays : list (ndarray A)) (rowsize : list Z)
           (rows : option rows_arg) (axis : Z) : result (ragged_result B) :=
  res <- apply_rows arrays rowsize rows axis ;;
  reassemble res axis.

(** The rule of reassembly in the words of the specification: along
    [axis] if every row's value has a length above one, along the leading
    axis otherwise. *)
Definition every_length_above_one (pieces : list (item B)) : bool :=
  forallb (fun r => match item_len r with Ok n => 1 <? n | Raise _ => false end)
          pieces.

Definition concatenate_output_spec (pieces : list (item B)) (axis : Z)
  : result (ndarray B) :=
  arrays <- mapM item_array pieces ;;
  if every_length_above_one pieces then np_concatenate arrays axis
  else np_concatenate arrays 0.

End ApplyRagged.

(** A row-wise function for the examples: [lambda x: x.reshape(-1, 2)]. *)
Definition reshape_pairs (rows : list (ndarray Z)) : result (pyval Z) :=
  match rows with
  | [x] => Ok (Single (OArr (mk_nd [Nat.div (List.length (data x)) 2; 2%nat] (data x))))
  | _ => Raise (TypeError "takes 1 positional argument"%string)
  end.

(** A row-wise reduction for the examples: [lambda x: np.sum(x)]. *)
Definition row_sum (rows : list (ndarray Z)) : result (pyval Z) :=
  match rows with
  | [x] => Ok (Single (OScalar (sumZ (data x))))
  | _ => Raise (TypeError "takes 1 positional argument"%string)
  end.

(** The value of a row that was reduced to one element: a scalar or a
    one-dimensional array of length one. *)
Definition reduced_value {B} (r : item B) : option B :=
  match r with
  | IList v => Some v
  | IArray a =>
      match shape a, data a with
      | [1%nat], [v] => Some v
      | _, _ => None
      end
  | ITuple _ => None
  end.

(** A row-wise function of one array that reduces a row to a scalar, and
    one that maps a row to a vector. *)
Definition msg_arity : string := "takes 1 positional argument".

Definition reduction {A B} (g : list A -> B) (rows : list (ndarray A))
  : result (pyval B) :=
  match rows with
  | [x] => Ok (Single (OScalar (g (data x))))
  | _ => Raise (TypeError msg_arity)
  end.

Definition transform {A B} (h : list A -> list B) (rows : list (ndarray A))
  : result (pyval B) :=
  match rows with
  | [x] => Ok (Single (OArr (array1 (h (data x)))))
  | _ => Raise (TypeError msg_arity)
  end.

(** A row-wise function with two outputs for the examples:
    [lambda x: (x, np.sum(x))]. *)
Definition row_and_sum (rows : list (ndarray Z)) : result (pyval Z) :=
  match rows with
  | [x] => Ok (Tuple [OArr x; OScalar (sumZ (data x))])
  | _ => Raise (TypeError "takes 1 positional argument"%string)
  end.

(** ** Datasets *)

(** A variable of a dataset: the names of its dimensions and its values in
    row-major order, integers here.  A variable over one dimension is a
    flat sequence. *)
Record variable : Type := mk_var { var_dims : list string; var_values : list Z }.

(** An [xr.Dataset]: the size of every dimension and the variables by
    name. *)
Record Dataset : Type :=
  mk_ds { ds_sizes : list (string * nat); ds_variables : list (string * variable) }.

Fixpoint lookup {V} (k : string) (m : list (string * V)) : option V :=
  match m with
  | [] => None
  | (k', v) :: m' => if String.eqb k k' then Some v else lookup k m'
  end.

Definition mem (k : string) (l : list string) : bool :=
  existsb (String.eqb k) l.

(** [ds.sizes[name]] *)
Definition ds_size (ds : Dataset) (name : string) : result nat :=
  match lookup name (ds_sizes ds) with
  | Some n => Ok n
  | None => Raise (KeyError name)
  end.

(** [ds[name]]: a variable, or the positions along a dimension that has
    no variable of its name. *)
Definition ds_getitem (ds : Dataset) (name : string) : result variable :=
  match lookup name (ds_variables ds) with
  | Some v => Ok v
  | None =>
      match lookup name (ds_sizes ds) with
      | Some n => Ok (mk_var [name] (map Z.of_nat (seq 0 n)))
      | None => Raise (KeyError name)
      end
  end.

(** The size of a dimension and the values of a variable, for the
    statements. *)
Definition dim_size (ds : Dataset) (name : string) : nat :=
  match lookup name (ds_sizes ds) with Some n => n | None => O end.

Definition var_data (ds : Dataset) (name : string) : list Z :=
  match lookup name (ds_variables ds) with Some v => var_values v | None => [] end.

(** ** Criteria *)

(** The value of a criterion: a range [(min, max)], a list of values, a
    function that returns a mask, or one value. *)
Inductive criterion : Type :=
| CRange (lo hi : Z)
| CValues (values : list Z)
| CCallable (f : list (ndarray Z) -> result (pyval bool))
| CScalar (v : Z).

(** The key of a criterion: the name of a variable or a tuple of names. *)
Inductive key : Type :=
| KName (name : string)
| KTuple (names : list string).

(** The argument [var] of [_mask_var]: a variable or a list of them. *)
Inductive mask_arg : Type :=
| VarOne (v : variable)
| VarList (l : list variable).

(** [np.logical_and] of two masks over the same dimension. *)
Definition logical_and (a b : list bool) : result (list bool) :=
  if Nat.eqb (List.length a) (List.length b)
  then Ok (map (fun p => andb (fst p) (snd p)) (combine a b))
  else Raise (ValueError msg_operands).

(** The one-dimensional mask that [xr.DataArray(data=mask, dims=[dim_name])]
    makes of what the function returned. *)
Definition mask_of_array (a : ndarray bool) : result (list bool) :=
  match shape a with
  | [_] => Ok (data a)
  | _ => Raise (ValueError msg_data_dims)
  end.

Definition mask_of_pyval (r : pyval bool) : result (list bool) :=
  match r with
  | Single o => mask_of_array (out_array o)
  | Tuple l => a <- item_array (ITuple l) ;; mask_of_array a
  end.

Definition mask_of_ragged (r : ragged_result bool) : result (list bool) :=
  match r with
  | ROne a => mask_of_array a
  | RTuple [] => Ok []
  | RTuple (_ :: _) => Raise (ValueError msg_data_dims)
  end.

(** The branch [callable(criterion)] of [_mask_var]. *)
Definition mask_callable (f : list (ndarray Z) -> result (pyval bool))
           (var : list variable) (rowsize : list Z) : result (list bool) :=
  first <- py_getitem var 0 ;;
  let arrays := map (fun v => array1 (var_values v)) var in
  mask <-
    (if len (var_values first) =? len rowsize
     then r <- f arrays ;; mask_of_pyval r
     else r <- apply_ragged f arrays rowsize None 0 ;; mask_of_ragged r) ;;
  if negb (len (var_values first) =? len mask)
  then Raise (ValueError msg_callable_length)
  else Ok mask.

Definition _mask_var (var : mask_arg) (criterion : criterion) (rowsize : list Z)
  : result (list bool) :=
  match criterion, var with
  | CCallable f, VarOne v => mask_callable f [v] rowsize
  | CCallable f, VarList l => mask_callable f l rowsize
  | _, VarList _ => Raise (TypeError msg_callable_list)
  | CRange lo hi, VarOne v =>
      Ok (map (fun x => (lo <=? x) && (x <=? hi)) (var_values v))
  | CValues values, VarOne v =>
      Ok (map (fun x => existsb (Z.eqb x) values) (var_values v))
  | CScalar c, VarOne v => Ok (map (fun x => x =? c) (var_values v))
  end.

(** ** subset *)

Definition key_names (k : key) : list string :=
  match k with
  | KName name => [name]
  | KTuple names => names
  end.

(** [np.all(np.isin(key, ds.variables) | np.isin(key, ds.dims))] *)
Definition key_known (ds : Dataset) (k : key) : bool :=
  forallb (fun name => mem name (map fst (ds_variables ds))
                       || mem name (map fst (ds_sizes ds)))
          (key_names k).

Definition dims_eqb (d1 d2 : list string) : bool :=
  if list_eq_dec string_dec d1 d2 then true else false.

(** The variables that a key names, with their dimensions. *)
Definition key_variables (ds : Dataset) (k : key) : result (mask_arg * list string) :=
  match k with
  | KTuple names =>
      criterion <- mapM (ds_getitem ds) names ;;
      if negb (forallb (fun c => dims_eqb (var_dims c) (var_dims (hd (mk_var [] []) criterion)))
                       criterion)
      then Raise (TypeError msg_callable_dims)
      else
        first <- py_getitem criterion 0 ;;
        Ok (VarList criterion, var_dims first)
  | KName name =>
      criterion <- ds_getitem ds name ;;
      Ok (VarOne criterion, var_dims criterion)
  end.

(** One turn of the loop over the criteria. *)
Definition subset_criterion (ds : Dataset) (rowsize_var_name row_dim_name obs_dim_name : string)
           (masks : list bool * list bool) (kc : key * criterion)
  : result (list bool * list bool) :=
  let mask_row := fst masks in
  let mask_obs := snd masks in
  if key_known ds (fst kc) then
    vd <- key_variables ds (fst kc) ;;
    let criterion := fst vd in
    let criterion_dims := snd vd in
    if mem row_dim_name criterion_dims then
      rowsize <- ds_getitem ds rowsize_var_name ;;
      m <- _mask_var criterion (snd kc) (var_values rowsize) ;;
      mask_row <- logical_and mask_row m ;;
      Ok (mask_row, mask_obs)
    else if mem obs_dim_name criterion_dims then
      rowsize <- ds_getitem ds rowsize_var_name ;;
      m <- _mask_var criterion (snd kc) (var_values rowsize) ;;
      mask_obs <- logical_and mask_obs m ;;
      Ok (mask_row, mask_obs)
    else Ok (mask_row, mask_obs)
  else Raise (ValueError msg_unknown_variable).

Fixpoint foldM {S X} (f : S -> X -> result S) (l : list X) (s : S) : result S :=
  match l with
  | [] => Ok s
  | x :: l' => s' <- f s x ;; foldM f l' s'
  end.

(** [mask[start:stop] = v] *)
Definition set_slice {A} (mask : list A) (start stop : Z) (v : A) : list A :=
  let lo := Z.to_nat (slice_bound (len mask) start) in
  let hi := Z.to_nat (slice_bound (len mask) stop) in
  if Nat.ltb lo hi
  then firstn lo mask ++ repeat v (hi - lo) ++ skipn hi mask
  else mask.

(** [for i in rows: mask_obs[slice(traj_idx[i], traj_idx[i + 1])] = v] *)
Fixpoint set_rows (traj_idx : list Z) (v : bool) (rows : list Z)
         (mask_obs : list bool) : result (list bool) :=
  match rows with
  | [] => Ok mask_obs
  | i :: rows' =>
      a <- py_getitem traj_idx i ;;
      b <- py_getitem traj_idx (i + 1) ;;
      set_rows traj_idx v rows' (set_slice mask_obs a b v)
  end.

(** [np.repeat(a, repeats)] *)
Definition np_repeat (a repeats : list Z) : result (list Z) :=
  if existsb (fun r => r <? 0) repeats then Raise (ValueError msg_repeat_negative)
  else if Nat.eqb (List.length a) (List.length repeats)
  then Ok (concat (map (fun p => repeat (fst p) (Z.to_nat (snd p))) (combine a repeats)))
  else match repeats with
       | [r] => Ok (concat (map (fun x => repeat x (Z.to_nat r)) a))
       | _ => Raise (ValueError msg_operands)
       end.

(** [a[mask]] with a mask that has to be as long as [a]. *)
Definition bool_index {A} (a : list A) (mask : list bool) : result (list A) :=
  if Nat.eqb (List.length a) (List.length mask) then Ok (np_compress mask a)
  else Raise (IndexError msg_bool_index).

(** [np.unique]: the distinct values in increasing order. *)
Fixpoint insert_unique (x : Z) (l : list Z) : list Z :=
  match l with
  | [] => [x]
  | y :: l' =>
      if x <? y then x :: l
      else if x =? y then l
      else y :: insert_unique x l'
  end.

Definition np_unique (l : list Z) : list Z := fold_right insert_unique [] l.

(** The position of the first occurrence and the number of occurrences,
    for [return_index] and [return_counts]. *)
Fixpoint first_index (x : Z) (l : list Z) : Z :=
  match l with
  | [] => 0
  | y :: l' => if x =? y then 0 else 1 + first_index x l'
  end.

Definition count_of (x : Z) (l : list Z) : Z :=
  len (filter (Z.eqb x) l).

(** [np.argsort]: the positions in the order of their keys. *)
Fixpoint insert_by_key (p : Z * Z) (l : list (Z * Z)) : list (Z * Z) :=
  match l with
  | [] => [p]
  | q :: l' => if fst q <? fst p then q :: insert_by_key p l' else p :: l
  end.

Definition np_argsort (keys : list Z) : list Z :=
  map snd (fold_right insert_by_key []
             (combine keys (map Z.of_nat (seq 0 (List.length keys))))).

(** [a[positions]] *)
Definition np_take (a : list Z) (positions : list Z) : list Z :=
  map (fun i => nth (Z.to_nat i) a 0) positions.

(** [np.in1d(a, values)] *)
Definition np_in1d (a values : list Z) : list bool :=
  map (fun x => existsb (Z.eqb x) values) a.

Definition count_true (mask : list bool) : nat := List.length (filter id mask).

(** The elements of [d], data of shape [sh], where [mask] is true along
    axis [k]. *)
Fixpoint compress_axis {A} (sh : list nat) (k : nat) (mask : list bool)
         (d : list A) : list A :=
  match sh with
  | [] => d
  | n :: rest =>
      match k with
      | O => concat (np_compress mask (blocks n (nd_size rest) d))
      | S k' => concat (map (compress_axis rest k' mask) (blocks n (nd_size rest) d))
      end
  end.

Fixpoint index_of (name : string) (l : list string) : option nat :=
  match l with
  | [] => None
  | x :: l' =>
      if String.eqb name x then Some O
      else match index_of name l' with
           | Some k => Some (S k)
           | None => None
           end
  end.

(** The dictionary [{row_dim_name: mask_row, obs_dim_name: mask_obs}]. *)
Definition indexers (row_dim_name obs_dim_name : string)
           (mask_row mask_obs : list bool) : list (string * list bool) :=
  if String.eqb row_dim_name obs_dim_name then [(obs_dim_name, mask_obs)]
  else [(row_dim_name, mask_row); (obs_dim_name, mask_obs)].

(** The selection along one dimension, on a variable of shape [sh]. *)
Definition isel_dim (dims : list string) (shd : list nat * list Z)
           (ix : string * list bool) : list nat * list Z :=
  match index_of (fst ix) dims with
  | None => shd
  | Some k =>
      (set_nth k (count_true (snd ix)) (fst shd),
       compress_axis (fst shd) k (snd ix) (snd shd))
  end.

Definition isel_variable (ds : Dataset) (ixs : list (string * list bool))
           (v : variable) : variable :=
  let sh := map (dim_size ds) (var_dims v) in
  mk_var (var_dims v) (snd (fold_left (isel_dim (var_dims v)) ixs (sh, var_values v))).

(** [ds.isel(indexers)] with masks. *)
Definition isel (ds : Dataset) (ixs : list (string * list bool)) : result Dataset :=
  _ <- mapM (fun ix =>
               n <- ds_size ds (fst ix) ;;
               if Nat.eqb n (List.length (snd ix)) then Ok tt
               else Raise (IndexError msg_bool_index))
            ixs ;;
  Ok (mk_ds (map (fun dn => match lookup (fst dn) ixs with
                            | Some mask => (fst dn, count_true mask)
                            | None => dn
                            end)
                 (ds_sizes ds))
            (map (fun nv => (fst nv, isel_variable ds ixs (snd nv))) (ds_variables ds))).

(** A dimension coordinate: a variable over the one dimension of its own
    name.  xarray keeps it as an index and refuses to replace its values. *)
Definition is_dimension_coordinate (name : string) (v : variable) : bool :=
  match var_dims v with
  | [d] => String.eqb d name
  | _ => false
  end.

(** [ds[name].values = values] *)
Definition set_values (ds : Dataset) (name : string) (values : list Z)
  : result Dataset :=
  match lookup name (ds_variables ds) with
  | Some v =>
      if is_dimension_coordinate name v then Raise (ValueError msg_index_values)
      else if (Nat.eqb (List.length (var_dims v)) 1)
         && (Nat.eqb (List.length values) (List.length (var_values v)))
      then Ok (mk_ds (ds_sizes ds)
                     (map (fun nv => if String.eqb (fst nv) name
                                     then (fst nv, mk_var (var_dims v) values)
                                     else nv)
                          (ds_variables ds)))
      else Raise (ValueError msg_replace_shape)
  | None =>
      match lookup name (ds_sizes ds) with
      | Some _ => Raise (ValueError msg_index_values)
      | None => Raise (KeyError name)
      end
  end.

(** [xr.Dataset()] *)
Definition empty_dataset : Dataset := mk_ds [] [].

(** The part of [subset] after the loop over the criteria. *)
Definition subset_select (ds : Dataset)
           (id_var_name rowsize_var_name row_dim_name obs_dim_name : string)
           (full_rows : bool) (mask_row mask_obs : list bool) : result Dataset :=
  (* remove data when rows are filtered *)
  rowsize <- ds_getitem ds rowsize_var_name ;;
  let traj_idx := rowsize_to_index (var_values rowsize) in
  mask_obs <- set_rows traj_idx false (np_where (map negb mask_row)) mask_obs ;;
  (* remove rows completely filtered in mask_obs *)
  ids <- ds_getitem ds id_var_name ;;
  repeated <- np_repeat (var_values ids) (var_values rowsize) ;;
  ids_with_mask_obs <- bool_index repeated mask_obs ;;
  mask_row <- logical_and mask_row
                (np_in1d (var_values ids) (np_unique ids_with_mask_obs)) ;;
  (* reset mask_obs to True if we want to keep complete rows *)
  full <-
    (if full_rows then
       mask_obs <- set_rows traj_idx true (np_where mask_row) mask_obs ;;
       ids_with_mask_obs <- bool_index repeated mask_obs ;;
       Ok (mask_obs, ids_with_mask_obs)
     else Ok (mask_obs, ids_with_mask_obs)) ;;
  let mask_obs := fst full in
  let ids_with_mask_obs := snd full in
  if negb (existsb id mask_row) then Ok empty_dataset
  else
    (* apply the filtering for both dimensions *)
    ds_sub <- isel ds (indexers row_dim_name obs_dim_name mask_row mask_obs) ;;
    let unique := np_unique ids_with_mask_obs in
    let unique_idx := map (fun u => first_index u ids_with_mask_obs) unique in
    let sorted_rowsize := map (fun u => count_of u ids_with_mask_obs) unique in
    set_values ds_sub rowsize_var_name (np_take sorted_rowsize (np_argsort unique_idx)).

Definition subset (ds : Dataset) (criteria : list (key * criterion))
           (id_var_name rowsize_var_name row_dim_name obs_dim_name : string)
           (full_rows : bool) : result Dataset :=
  n_rows <- ds_size ds row_dim_name ;;
  n_obs <- ds_size ds obs_dim_name ;;
  let mask_row := repeat true n_rows in
  let mask_obs := repeat true n_obs in
  masks <- foldM (subset_criterion ds rowsize_var_name row_dim_name obs_dim_name)
                 criteria (mask_row, mask_obs) ;;
  subset_select ds id_var_name rowsize_var_name row_dim_name obs_dim_name
                full_rows (fst masks) (snd masks).

(** A ragged dataset with its names resolved: two distinct dimensions,
    and the identifier and the row-size variable, distinct, over the row
    dimension. *)
Definition ragged_dataset (ds : Dataset)
           (id_var_name rowsize_var_name row_dim_name obs_dim_name : string) : Prop :=
  row_dim_name <> obs_dim_name /\
  id_var_name <> rowsize_var_name /\
  (exists ids, lookup id_var_name (ds_variables ds) = Some (mk_var [row_dim_name] ids)
               /\ List.length ids = dim_size ds row_dim_name) /\
  (exists sizes, lookup rowsize_var_name (ds_variables ds)
                 = Some (mk_var [row_dim_name] sizes)
                 /\ List.length sizes = dim_size ds row_dim_name).

(** A small dataset for the examples: two rows, three observations, and a
    variable over a third dimension. *)
Definition example_dataset : Dataset :=
  mk_ds [("rows"%string, 2%nat); ("obs"%string, 3%nat); ("depth"%string, 2%nat)]
        [("id"%string, mk_var ["rows"%string] [7; 8]);
         ("rowsize"%string, mk_var ["rows"%string] [1; 2]);
         ("lat"%string, mk_var ["obs"%string] [10; 20; 30]);
         ("z"%string, mk_var ["depth"%string] [0; 100])].

(** Position [p] lies in row [i] of the boundary offsets [traj_idx]. *)
Definition in_row (traj_idx : list Z) (i : Z) (p : nat) : Prop :=
  nth (Z.to_nat i) traj_idx 0 <= Z.of_nat p < nth (Z.to_nat (i + 1)) traj_idx 0.

(** The identifiers repeated by the row sizes, of as many rows as both
    lists have. *)
Definition repeat_rows (ids sizes : list Z) : list Z :=
  concat (map (fun p => repeat (fst p) (Z.to_nat (snd p))) (combine ids sizes)).

(** The reordered counts that [subset] writes back as the row sizes. *)
Definition recomputed_rowsize (ids_with_mask_obs : list Z) : list Z :=
  let unique := np_unique ids_with_mask_obs in
  let unique_idx := map (fun u => first_index u ids_with_mask_obs) unique in
  let sorted_rowsize := map (fun u => count_of u ids_with_mask_obs) unique in
  np_take sorted_rowsize (np_argsort unique_idx).

(** The steps of [subset_select] on a ragged dataset, by their results:
    the masks after each propagation and the dataset returned. *)
Definition selection (ds : Dataset) (rowsize_var_name row_dim_name obs_dim_name : string)
           (full_rows : bool) (ids sizes : list Z) (mask_row mask_obs : list bool)
           (mask_row1 mask_obs2 : list bool) (ids_with_mask_obs2 : list Z)
           (ds' : Dataset) : Prop :=
  exists mask_obs1 repeated ids_with_mask_obs1,
    set_rows (rowsize_to_index sizes) false (np_where (map negb mask_row)) mask_obs
    = Ok mask_obs1
    /\ np_repeat ids sizes = Ok repeated
    /\ bool_index repeated mask_obs1 = Ok ids_with_mask_obs1
    /\ logical_and mask_row (np_in1d ids (np_unique ids_with_mask_obs1))
       = Ok mask_row1
    /\ (if full_rows
        then set_rows (rowsize_to_index sizes) true (np_where mask_row1) mask_obs1
             = Ok mask_obs2
             /\ bool_index repeated mask_obs2 = Ok ids_with_mask_obs2
        else mask_obs2 = mask_obs1 /\ ids_with_mask_obs2 = ids_with_mask_obs1)
    /\ ((existsb id mask_row1 = false /\ ds' = empty_dataset)
        \/ (existsb id mask_row1 = true
            /\ exists ds_sub,
                isel ds (indexers row_dim_name obs_dim_name mask_row1 mask_obs2)
                = Ok ds_sub
                /\ set_values ds_sub rowsize_var_name
                              (recomputed_rowsize ids_with_mask_obs2) = Ok ds')).

(** ** prune *)

Definition msg_ambiguous : string :=
  "The truth value of an array with more than one element is ambiguous".

(** An array that is kept or replaced by [np.empty(0, dtype=x.dtype)]. *)
Definition keep_if {A} (keep : bool) (x : ndarray A) : ndarray A :=
  if keep then x else mk_nd [O] [].

(** [lambda x, min_len: x if len(x) >= min_len else np.empty(0, dtype=x.dtype)] *)
Definition keep_long {A} (min_len : Q) (rows : list (ndarray A))
  : result (pyval A) :=
  match rows with
  | [x] =>
      n <- nd_len x ;;
      Ok (Single (OArr (keep_if (Qle_bool min_len (inject_Z n)) x)))
  | _ => Raise (TypeError msg_arity)
  end.

(** [lambda x, min_len: x if x >= min_len else np.empty(0, dtype=x.dtype)]:
    the comparison is an array and its truth value is the one of its only
    element; an array of another size has none. *)
Definition keep_large (min_len : Q) (rows : list (ndarray Z))
  : result (pyval Z) :=
  match rows with
  | [x] =>
      match data x with
      | [r] => Ok (Single (OArr (keep_if (Qle_bool min_len (inject_Z r)) x)))
      | _ => Raise (ValueError msg_ambiguous)
      end
  | _ => Raise (TypeError msg_arity)
  end.

Definition prune {A} (ragged : ndarray A) (rowsize : list Z) (min_rowsize : Q)
  : result (ragged_result A * ragged_result Z) :=
  ragged' <- apply_ragged (keep_long min_rowsize) [ragged] rowsize None 0 ;;
  rowsize' <- apply_ragged (keep_large min_rowsize) [array1 rowsize]
                (* np.ones_like(rowsize) *)
                (repeat 1 (List.length rowsize)) None 0 ;;
  Ok (ragged', rowsize').

(** The rows of at least [min_len] elements, and the sizes that are at
    least [min_len]. *)
Definition long_enough {A} (min_len : Q) (row : list A) : bool :=
  Qle_bool min_len (inject_Z (len row)).

Definition large_enough (min_len : Q) (r : Z) : bool :=
  Qle_bool min_len (inject_Z r).

(** ** Breaks of a sequence *)

Section Breaks.
Variables T D : Type.
Variable sub : T -> T -> D.
Variables gt lt : D -> D -> bool.
Variable ge0 : D -> bool.

(** The difference between the elements at [p - 1] and [p] exceeds the
    tolerance: [x] breaks just before position [p]. *)
Definition break_at (tolerance : D) (x : list T) (p : Z) : Prop :=
  exists (i : nat) (a b : T),
    nth_error x i = Some a /\ nth_error x (S i) = Some b /\
    (if ge0 tolerance then gt (sub b a) tolerance else lt (sub b a) tolerance)
    = true /\
    p = Z.of_nat (S i).

End Breaks.

(** ** The rows of a mask *)

(** The number of observations that a mask over the observations keeps
    in every row. *)
Definition row_counts (mask_obs : list bool) (sizes : list Z) : list Z :=
  map (fun m => Z.of_nat (count_true m)) (split_rows mask_obs sizes).

(** The sort behind [np.argsort], on pairs of a key and a value. *)
Definition sort_by_key (l : list (Z * Z)) : list (Z * Z) :=
  fold_right insert_by_key [] l.

Definition on_snd (g : Z -> Z) (p : Z * Z) : Z * Z := (fst p, g (snd p)).

(** A criterion of a range, a list of values or a value, on a variable
    over the row dimension or over the observation dimension alone. *)
Definition plain_criterion (ds : Dataset) (row_dim_name obs_dim_name : string)
           (kc : key * criterion) : Prop :=
  exists (name : string) (v : variable),
    fst kc = KName name
    /\ lookup name (ds_variables ds) = Some v
    /\ ((var_dims v = [row_dim_name]
         /\ List.length (var_values v) = dim_size ds row_dim_name)
        \/ (var_dims v = [obs_dim_name]
            /\ List.length (var_values v) = dim_size ds obs_dim_name))
    /\ forall f, snd kc <> CCallable f.

(** ** rowsize_to_index on int64 *)

(** The integers that an int64 holds. *)
Definition in_int64 (z : Z) : Prop := - 2 ^ 63 <= z < 2 ^ 63.

(** What the sum of two int64 is in NumPy: the int64 of the same residue
    modulo [2 ^ 64]. *)
Definition wrap_int64 (z : Z) : Z := (z + 2 ^ 63) mod 2 ^ 64 - 2 ^ 63.

(** [np.cumsum] on an int64 array: every partial sum wraps around. *)
Fixpoint cumsum_int64_from (acc : Z) (l : list Z) : list Z :=
  match l with
  | [] => []
  | a :: l' =>
      let s := wrap_int64 (acc + a) in
      s :: cumsum_int64_from s l'
  end.

Definition np_cumsum_int64 (l : list Z) : list Z := cumsum_int64_from 0 l.

(** [rowsize_to_index] on row sizes that are int64, as the arrays and
    the lists of integers of that range are. *)
Definition rowsize_to_index_int64 (rowsize : list Z) : list Z :=
  np_cumsum_int64 (0 :: rowsize).

(** * Properties *)

(** ** Python sequences *)

Lemma len_nonneg {A} (l : list A) : 0 <= len l.
Proof. unfold len. lia. Qed.

Lemma py_slice_inside {A} (x : list A) (a b : Z) :
  0 <= a -> a <= b -> b <= len x ->
  py_slice x a b = firstn (Z.to_nat (b - a)) (skipn (Z.to_nat a) x).
Proof.
  intros Ha Hab Hb. unfold py_slice, slice_bound.
  destruct (Z.ltb_spec a 0); [lia|].
  destruct (Z.ltb_spec b 0); [lia|].
  rewrite !Z.min_l by lia. reflexivity.
Qed.

Lemma length_window {A} (x : list A) (start length : Z) :
  0 <= start -> 0 <= length -> start + length <= len x ->
  List.length (window x start length) = Z.to_nat length.
Proof.
  intros Hs Hl Hb. unfold window, len in *.
  rewrite length_firstn, length_skipn. lia.
Qed.

(** ** chunk *)

Lemma assign_row_exact {A} (w : nat) (v : list A) :
  List.length v = w -> assign_row w v = Ok v.
Proof. intros H. unfold assign_row. rewrite H, Nat.eqb_refl. reflexivity. Qed.

Lemma map_seq_S {B} (f : nat -> B) (n : nat) :
  map f (seq 0 (S n)) = f O :: map (fun i => f (S i)) (seq 0 n).
Proof. cbn [seq map]. f_equal. rewrite <- seq_shift, map_map. reflexivity. Qed.

Lemma chunk_loop_windows {A} (x : list A) (length overlap : Z) :
  0 <= length ->
  forall (n : nat) (start : Z),
    0 <= start ->
    0 <= length - overlap ->
    (0 < n)%nat ->
    start + (Z.of_nat n - 1) * (length - overlap) + length <= len x ->
    chunk_loop x length overlap n start =
    Ok (map (fun i => window x (start + Z.of_nat i * (length - overlap)) length)
            (seq 0 n)).
Proof.
  intros Hlen n. induction n as [|n IH]; intros start Hs Hstep Hn Hfit; [lia|].
  cbn [chunk_loop].
  assert (Hrow : py_slice x start (start + length) = window x start length).
  { rewrite py_slice_inside by nia. unfold window. do 2 f_equal. lia. }
  rewrite Hrow, assign_row_exact by (apply length_window; nia).
  cbn [bind]. rewrite map_seq_S. destruct n as [|n'].
  - cbn. do 3 f_equal. lia.
  - rewrite IH by nia. cbn [bind]. f_equal. f_equal.
    + f_equal. lia.
    + apply map_ext. intros i. f_equal. lia.
Qed.

Lemma blocks_concat {A} (m : nat) (rows : list (list A)) :
  Forall (fun r => List.length r = m) rows ->
  blocks (List.length rows) m (concat rows) = rows.
Proof.
  induction 1 as [|r rows Hr _ IH]; [reflexivity|].
  cbn [List.length blocks concat].
  rewrite firstn_app, skipn_app, Hr, Nat.sub_diag, firstn_all2, skipn_all2 by lia.
  cbn. rewrite app_nil_r, IH. reflexivity.
Qed.

Lemma chunk_arith (n length overlap : Z) :
  0 <= length -> overlap < length -> length <= n ->
  let step := length - overlap in
  let num_chunks := (n - length) / step + 1 in
  let remainder := n - num_chunks * length + (num_chunks - 1) * overlap in
  1 <= num_chunks /\ 0 <= remainder < step /\
  remainder + (num_chunks - 1) * step + length = n.
Proof.
  intros Hl Ho Hn step num_chunks remainder.
  assert (Hstep : 0 < step) by (unfold step; lia).
  pose proof (Z.div_mod (n - length) step ltac:(lia)) as Hdm.
  pose proof (Z.mod_pos_bound (n - length) step Hstep) as Hmod.
  assert (Hq : 0 <= (n - length) / step) by (apply Z.div_pos; lia).
  assert (Hr : remainder = (n - length) mod step).
  { unfold remainder, num_chunks, step in *. nia. }
  repeat split; try lia.
Qed.

(** The general case of [chunk]: the windows it returns. *)
Lemma chunk_windows {A} (x : list A) (length overlap : Z) (align : string) :
  0 <= length -> overlap < length -> length <= len x ->
  align = "start"%string \/ align = "middle"%string \/ align = "end"%string ->
  let step := length - overlap in
  let num_chunks := (len x - length) / step + 1 in
  let remainder := len x - num_chunks * length + (num_chunks - 1) * overlap in
  let start :=
    if String.eqb align "start" then 0
    else if String.eqb align "end" then remainder
    else remainder / 2 in
  exists res,
    chunk x length overlap align = Ok res /\
    shape res = [Z.to_nat num_chunks; Z.to_nat length] /\
    nd_rows res =
      map (fun n => window x (start + Z.of_nat n * step) length)
          (seq 0 (Z.to_nat num_chunks)) /\
    (forall n, 0 <= n < num_chunks ->
       0 <= start + n * step /\ start + n * step + length <= len x /\
       List.length (window x (start + n * step) length) = Z.to_nat length).
Proof.
  intros Hl Ho Hn Halign step num_chunks remainder start.
  destruct (chunk_arith Hl Ho Hn) as (Hnum & Hrem & Hfit).
  fold step num_chunks remainder in Hnum, Hrem, Hfit.
  assert (Hstart : 0 <= start <= remainder).
  { unfold start. destruct Halign as [-> | [-> | ->]]; cbn; try lia.
    pose proof (Z.div_mod remainder 2 ltac:(lia)).
    pose proof (Z.mod_pos_bound remainder 2 ltac:(lia)). lia. }
  assert (Hin : forall n, 0 <= n < num_chunks ->
             0 <= start + n * step /\ start + n * step + length <= len x).
  { intros n Hn'. split; nia. }
  set (rows := map (fun n => window x (start + Z.of_nat n * step) length)
                   (seq 0 (Z.to_nat num_chunks))).
  assert (Hrows : Forall (fun r => List.length r = Z.to_nat length) rows).
  { apply Forall_forall. intros r Hr. apply in_map_iff in Hr.
    destruct Hr as (n & <- & Hn'). apply in_seq in Hn'.
    destruct (Hin (Z.of_nat n)) as [? ?]; [lia|].
    apply length_window; lia. }
  exists (mk_nd [Z.to_nat num_chunks; Z.to_nat length] (concat rows)).
  split; [|split; [reflexivity|split]].
  - unfold chunk.
    destruct (Z.leb_spec length (len x)); [|lia].
    destruct (Z.eqb_spec (length - overlap) 0); [lia|].
    cbn [bind]. fold step num_chunks remainder.
    destruct (Z.ltb_spec num_chunks 0); [lia|].
    destruct (Z.ltb_spec length 0); [lia|]. cbn [orb].
    assert (Hs : (if String.eqb align "start" then Ok 0
                  else if String.eqb align "middle" then Ok (remainder / 2)
                  else if String.eqb align "end" then Ok remainder
                  else Raise (ValueError msg_align)) = Ok start).
    { unfold start. destruct Halign as [-> | [-> | ->]]; reflexivity. }
    rewrite Hs. cbn [bind].
    rewrite chunk_loop_windows by lia. reflexivity.
  - unfold nd_rows. cbn [shape data].
    replace (Z.to_nat num_chunks) with (List.length rows) at 1
      by (unfold rows; rewrite length_map, length_seq; reflexivity).
    apply blocks_concat, Hrows.
  - intros n Hn'. destruct (Hin n Hn') as [? ?].
    repeat split; try assumption. apply length_window; lia.
Qed.

(** A sequence shorter than [length] gives no chunk. *)
Lemma chunk_short {A} (x : list A) (length overlap : Z) (align : string) :
  len x < length ->
  align = "start"%string \/ align = "middle"%string \/ align = "end"%string ->
  chunk x length overlap align = Ok (mk_nd [O; Z.to_nat length] []).
Proof.
  intros Hlt Halign. unfold chunk.
  pose proof (len_nonneg x).
  destruct (Z.leb_spec length (len x)); [lia|]. cbn [bind].
  destruct (Z.ltb_spec length 0); [lia|]. cbn [Z.ltb orb].
  destruct Halign as [-> | [-> | ->]]; reflexivity.
Qed.

(** No guard on [length]: a negative one is refused by the allocation of
    the result, and [length = overlap] divides by zero. *)
Lemma chunk_negative_length {A} (x : list A) (length overlap : Z) (align : string) :
  length < 0 -> overlap <> length ->
  chunk x length overlap align = Raise (ValueError msg_negative_dims).
Proof.
  intros Hl Ho. unfold chunk. pose proof (len_nonneg x).
  destruct (Z.leb_spec length (len x)); [|lia].
  destruct (Z.eqb_spec (length - overlap) 0); [lia|]. cbn [bind].
  destruct (Z.ltb_spec length 0); [|lia]. rewrite orb_true_r. reflexivity.
Qed.

Lemma chunk_zero_step {A} (x : list A) (length : Z) (align : string) :
  length <= len x ->
  chunk x length length align = Raise ZeroDivisionError.
Proof.
  intros Hl. unfold chunk.
  destruct (Z.leb_spec length (len x)); [|lia].
  rewrite Z.sub_diag. reflexivity.
Qed.

(** C4 as stated fails for a negative [length]: [len(x) >= length > overlap]
    holds for [chunk([1, 2, 3], -1, -2)], which raises instead of returning
    an array. *)
Lemma chunk_spec_counterexample :
  ~ (forall (x : list Z) (length overlap : Z),
        overlap < length -> length <= len x ->
        exists res, chunk x length overlap "start" = Ok res).
Proof.
  intros H. destruct (H [1; 2; 3] (-1) (-2)) as [res Hres]; [lia | cbn; lia |].
  vm_compute in Hres. discriminate Hres.
Qed.

(** C4 (amended with [0 <= length]).  For every sequence [x] with
    [len(x) >= length > overlap] and [length >= 0], [chunk] returns a
    two-dimensional array of shape [(num_chunks, length)] with
    [num_chunks = floor((len(x) - length) / (length - overlap)) + 1]; row [n]
    is the window of [length] elements of [x] at offset
    [start + n * (length - overlap)], which lies inside [x], where [start] is
    [0] for ["start"], [remainder] for ["end"] and [floor(remainder / 2)] for
    ["middle"], with
    [remainder = len(x) - num_chunks * length + (num_chunks - 1) * overlap].
    When [len(x) < length] the result has no row.  The four examples of the
    documentation are computed. *)
Theorem chunk_spec :
  (forall (A : Type) (x : list A) (length overlap : Z) (align : string),
      0 <= length -> overlap < length -> length <= len x ->
      align = "start"%string \/ align = "middle"%string \/ align = "end"%string ->
      let step := length - overlap in
      let num_chunks := (len x - length) / step + 1 in
      let remainder := len x - num_chunks * length + (num_chunks - 1) * overlap in
      let start :=
        if String.eqb align "start" then 0
        else if String.eqb align "end" then remainder
        else remainder / 2 in
      exists res,
        chunk x length overlap align = Ok res /\
        shape res = [Z.to_nat num_chunks; Z.to_nat length] /\
        nd_rows res =
          map (fun n => window x (start + Z.of_nat n * step) length)
              (seq 0 (Z.to_nat num_chunks)) /\
        (forall n, 0 <= n < num_chunks ->
           0 <= start + n * step /\ start + n * step + length <= len x /\
           List.length (window x (start + n * step) length) = Z.to_nat length))
  /\ (forall (A : Type) (x : list A) (length overlap : Z) (align : string),
      len x < length ->
      align = "start"%string \/ align = "middle"%string \/ align = "end"%string ->
      chunk x length overlap align = Ok (mk_nd [O; Z.to_nat length] []))
  /\ chunk [1; 2; 3; 4; 5] 2 0 "start" = Ok (array2 [[1; 2]; [3; 4]])
  /\ chunk [1; 2; 3; 4; 5] 2 0 "end" = Ok (array2 [[2; 3]; [4; 5]])
  /\ chunk [1; 2; 3; 4; 5; 6; 7; 8] 3 0 "middle"
     = Ok (array2 [[2; 3; 4]; [5; 6; 7]])
  /\ chunk [1; 2; 3; 4; 5] 2 1 "start"
     = Ok (array2 [[1; 2]; [2; 3]; [3; 4]; [4; 5]]).
Proof.
  split; [|split; [|repeat split]].
  - intros A x length overlap align. apply chunk_windows.
  - intros A x length overlap align. apply chunk_short.
Qed.

Lemma chunk_spec_witness :
  exists res,
    chunk [10; 20; 30; 40; 50; 60; 70] 3 1 "end" = Ok res /\
    nd_rows res = [[10; 20; 30]; [30; 40; 50]; [50; 60; 70]].
Proof.
  destruct (proj1 chunk_spec Z [10; 20; 30; 40; 50; 60; 70] 3 1 "end"%string)
    as (res & Hres & _ & Hrows & _).
  - lia.
  - lia.
  - cbn. lia.
  - right. right. reflexivity.
  - exists res. split; [exact Hres|]. rewrite Hrows. reflexivity.
Defined.

(** C7 as stated fails: [chunk([1, 2, 3], 0)] ends in the division-by-zero
    fault, not in an invalid-argument condition. *)
Lemma chunk_length_guard_counterexample :
  ~ (forall (x : list Z) (length overlap : Z) (align : string),
        length <= 0 ->
        exists msg, chunk x length overlap align = Raise (ValueError msg)).
Proof.
  intros H. destruct (H [1; 2; 3] 0 0 "start"%string) as [msg Hmsg]; [lia|].
  vm_compute in Hmsg. discriminate Hmsg.
Qed.

(** C7 (amended).  [chunk] has no guard of its own on [length].  For every
    [x] and every [length < 0] with [overlap <> length] (so with the default
    [overlap = 0]) the call fails with the invalid-argument condition that
    the allocation of the result raises; for [length = overlap <= len(x)],
    and so for [length = 0] with the default [overlap = 0], it fails with
    the division-by-zero fault, as the docstring documents. *)
Theorem chunk_length_guard :
  (forall (A : Type) (x : list A) (length overlap : Z) (align : string),
      length < 0 -> overlap <> length ->
      chunk x length overlap align = Raise (ValueError msg_negative_dims))
  /\ (forall (A : Type) (x : list A) (length : Z) (align : string),
      length <= len x ->
      chunk x length length align = Raise ZeroDivisionError)
  /\ (forall (A : Type) (x : list A) (align : string),
      chunk x 0 0 align = Raise ZeroDivisionError).
Proof.
  split; [|split].
  - intros. apply chunk_negative_length; assumption.
  - intros. apply chunk_zero_step; assumption.
  - intros. apply chunk_zero_step, len_nonneg.
Qed.

Lemma chunk_length_guard_witness :
  chunk [1; 2; 3] (-2) 0 "start" = Raise (ValueError msg_negative_dims)
  /\ chunk [1; 2; 3] 3 3 "middle" = Raise ZeroDivisionError.
Proof.
  split.
  - apply (proj1 chunk_length_guard Z [1; 2; 3] (-2) 0 "start"%string); lia.
  - apply (proj1 (proj2 chunk_length_guard) Z [1; 2; 3] 3 "middle"%string).
    cbn. lia.
Defined.

(** ** rowsize_to_index and the prefix sums *)

Lemma cumsum_from_app (acc : Z) (l1 l2 : list Z) :
  cumsum_from acc (l1 ++ l2) =
  cumsum_from acc l1 ++ cumsum_from (acc + sumZ l1) l2.
Proof.
  revert acc. induction l1 as [|a l1 IH]; intros acc; cbn.
  - rewrite Z.add_0_r. reflexivity.
  - rewrite IH, Z.add_assoc. reflexivity.
Qed.

Lemma length_cumsum_from (acc : Z) (l : list Z) :
  List.length (cumsum_from acc l) = List.length l.
Proof. revert acc. induction l; intros; cbn; auto. Qed.

Lemma sumZ_app (l1 l2 : list Z) : sumZ (l1 ++ l2) = sumZ l1 + sumZ l2.
Proof. induction l1; cbn; lia. Qed.

(** Differences followed by prefix sums give the sequence back. *)
Lemma cumsum_np_diffZ (a0 : Z) (b : list Z) :
  cumsum_from a0 (np_diffZ (a0 :: b)) = b.
Proof.
  revert a0. induction b as [|b0 b IH]; intros a0; [reflexivity|].
  change (np_diffZ (a0 :: b0 :: b)) with ((b0 - a0) :: np_diffZ (b0 :: b)).
  cbn [cumsum_from]. replace (a0 + (b0 - a0)) with b0 by lia.
  rewrite IH. reflexivity.
Qed.

Lemma last_cons_default {A} (a d : A) (l : list A) :
  last (a :: l) d = last l a.
Proof.
  revert a d. induction l as [|b l IH]; intros a d; [reflexivity|].
  change (last (a :: b :: l) d) with (last (b :: l) d).
  rewrite !IH. reflexivity.
Qed.

Lemma sumZ_np_diffZ (a0 : Z) (b : list Z) :
  sumZ (np_diffZ (a0 :: b)) = last b a0 - a0.
Proof.
  revert a0. induction b as [|b0 b IH]; intros a0; [cbn; lia|].
  change (np_diffZ (a0 :: b0 :: b)) with ((b0 - a0) :: np_diffZ (b0 :: b)).
  cbn [sumZ]. rewrite IH, last_cons_default. lia.
Qed.

Lemma np_diffZ_positive (a0 : Z) (b : list Z) :
  increasing_from a0 b -> Forall (fun n => 0 < n) (np_diffZ (a0 :: b)).
Proof.
  revert a0. induction b as [|b0 b IH]; intros a0 H; [constructor|].
  destruct H as [H0 H].
  change (np_diffZ (a0 :: b0 :: b)) with ((b0 - a0) :: np_diffZ (b0 :: b)).
  constructor; [lia|]. apply IH, H.
Qed.

Lemma increasing_from_weaken (lo lo' : Z) (l : list Z) :
  lo' <= lo -> increasing_from lo l -> increasing_from lo' l.
Proof. destruct l; cbn; intuition lia. Qed.

(** ** segment *)

Lemma np_where_from_increasing (i : Z) (mask : list bool) :
  increasing_from i (map (fun p => p + 1) (np_where_from i mask)).
Proof.
  revert i. induction mask as [|b mask IH]; intros i; [exact I|].
  cbn [np_where_from]. destruct b.
  - cbn. split; [lia|]. apply IH.
  - apply increasing_from_weaken with (lo := i + 1); [lia|]. apply IH.
Qed.

Lemma np_where_from_bound (i : Z) (mask : list bool) :
  Forall (fun p => i < p <= i + len mask)
         (map (fun p => p + 1) (np_where_from i mask)).
Proof.
  revert i. induction mask as [|b mask IH]; intros i; [constructor|].
  assert (Hlen : len (b :: mask) = len mask + 1) by (unfold len; cbn; lia).
  pose proof (len_nonneg mask).
  assert (Hrest : Forall (fun p => i < p <= i + len (b :: mask))
                    (map (fun p => p + 1) (np_where_from (i + 1) mask))).
  { eapply Forall_impl; [|apply IH]. cbn beta. intros p Hp. lia. }
  cbn [np_where_from]. destruct b; [|exact Hrest].
  cbn [map]. constructor; [lia | exact Hrest].
Qed.

Lemma np_where_from_In (i : Z) (mask : list bool) (p : Z) :
  In p (map (fun p => p + 1) (np_where_from i mask)) <->
  exists j, nth_error mask j = Some true /\ p = i + Z.of_nat j + 1.
Proof.
  revert i. induction mask as [|b mask IH]; intros i.
  - cbn. split; [tauto|]. intros (j & Hj & _). destruct j; discriminate.
  - assert (Hshift :
      In p (map (fun p => p + 1) (np_where_from (i + 1) mask)) <->
      exists j, nth_error (b :: mask) (S j) = Some true /\
                p = i + Z.of_nat (S j) + 1).
    { rewrite IH. split; intros (j & Hj & ->); exists j; split; auto; lia. }
    cbn [np_where_from]. destruct b.
    + cbn [map In]. rewrite Hshift. split.
      * intros [<- | (j & Hj & ->)]; [exists O | exists (S j)]; split; auto.
        cbn. lia.
      * intros ([|j] & Hj & ->); [left; cbn; lia | right; exists j; auto].
    + rewrite Hshift. split.
      * intros (j & Hj & ->). exists (S j). auto.
      * intros ([|j] & Hj & ->); [discriminate | exists j; auto].
Qed.

Section SegmentFacts.
Variables T D : Type.
Variable sub : T -> T -> D.
Variables gt lt : D -> D -> bool.
Variable ge0 : D -> bool.

Lemma length_np_diff (x : list T) :
  len (np_diff sub x) = Z.max 0 (len x - 1).
Proof.
  unfold len. induction x as [|a [|b x] IH]; try reflexivity.
  cbn [np_diff List.length] in *. lia.
Qed.

Lemma nth_error_np_diff (x : list T) (i : nat) (a b : T) :
  nth_error x i = Some a -> nth_error x (S i) = Some b ->
  nth_error (np_diff sub x) i = Some (sub b a).
Proof.
  revert i. induction x as [|a0 [|b0 x] IH]; intros i Ha Hb.
  - destruct i; discriminate.
  - destruct i as [|[|i]]; discriminate.
  - destruct i as [|i].
    + cbn in *. congruence.
    + cbn [np_diff]. cbn [nth_error]. apply IH; assumption.
Qed.

Lemma length_exceeds (x : list T) (tolerance : D) :
  len (exceeds sub gt lt ge0 x tolerance) = Z.max 0 (len x - 1).
Proof.
  unfold exceeds. rewrite <- length_np_diff.
  unfold len. destruct (ge0 tolerance); rewrite length_map; reflexivity.
Qed.

Lemma nth_error_exceeds (x : list T) (tolerance : D) (i : nat) (a b : T) :
  nth_error x i = Some a -> nth_error x (S i) = Some b ->
  nth_error (exceeds sub gt lt ge0 x tolerance) i
  = Some (flagged sub gt lt ge0 tolerance a b).
Proof.
  intros Ha Hb. unfold exceeds, flagged.
  destruct (ge0 tolerance); rewrite nth_error_map;
    rewrite nth_error_np_diff with (a := a) (b := b) by assumption;
    reflexivity.
Qed.

(** The boundary offsets of the segments: [0], the positions just after
    a flagged difference, and [len(x)]. *)
Lemma segment_flat_index (x : list T) (tolerance : D) :
  rowsize_to_index (segment_flat sub gt lt ge0 x tolerance) =
  0 :: map (fun p => p + 1) (np_where (exceeds sub gt lt ge0 x tolerance))
    ++ [len x].
Proof.
  unfold rowsize_to_index, np_cumsum, segment_flat.
  cbn [cumsum_from]. f_equal. rewrite cumsum_from_app.
  change (0 + 0) with 0. rewrite cumsum_np_diffZ. f_equal.
  cbn. f_equal. lia.
Qed.

Lemma segment_flat_sum (x : list T) (tolerance : D) :
  sumZ (segment_flat sub gt lt ge0 x tolerance) = len x.
Proof. unfold segment_flat. rewrite sumZ_app. cbn. lia. Qed.

Lemma segment_flat_positive (x : list T) (tolerance : D) :
  x <> [] ->
  Forall (fun n => 0 < n) (segment_flat sub gt lt ge0 x tolerance).
Proof.
  intros Hx. unfold segment_flat.
  set (b := map (fun p => p + 1) (np_where (exceeds sub gt lt ge0 x tolerance))).
  assert (Hinc : increasing_from 0 b) by apply np_where_from_increasing.
  assert (Hbound : Forall (fun p => 0 < p <= 0 + len (exceeds sub gt lt ge0 x tolerance)) b)
    by apply np_where_from_bound.
  apply Forall_app. split; [apply np_diffZ_positive, Hinc|].
  constructor; [|constructor].
  rewrite sumZ_np_diffZ, length_exceeds in *.
  assert (Hlen : 0 < len x) by (destruct x; [congruence | unfold len; cbn; lia]).
  destruct b as [|b0 b'] eqn:Eb; [cbn; lia|].
  assert (Hlast : In (last (b0 :: b') 0) (b0 :: b')).
  { rewrite <- Eb. destruct (exists_last (l := b)) as (l' & z & ->);
      [rewrite Eb; discriminate|].
    rewrite last_last. apply in_or_app. right. left. reflexivity. }
  rewrite Forall_forall in Hbound. specialize (Hbound _ Hlast). lia.
Qed.

Lemma segment_flat_breaks (x : list T) (tolerance : D) (i : nat) (a b : T) :
  nth_error x i = Some a -> nth_error x (S i) = Some b ->
  (flagged sub gt lt ge0 tolerance a b = true <->
   In (Z.of_nat (S i))
      (rowsize_to_index (segment_flat sub gt lt ge0 x tolerance))).
Proof.
  intros Ha Hb. rewrite segment_flat_index.
  assert (Hnth := nth_error_exceeds).
  specialize Hnth with (1 := Ha) (2 := Hb) (tolerance := tolerance).
  assert (Hlt : (S i < List.length x)%nat)
    by (apply nth_error_Some; congruence).
  cbn [In]. rewrite in_app_iff. unfold np_where. rewrite np_where_from_In.
  cbn [In]. unfold len. split.
  - intros Hf. right. left. exists i. rewrite Hnth, Hf. split; [reflexivity|lia].
  - intros [H | [(j & Hj & Hp) | [H | []]]]; try lia.
    assert (j = i) by lia. subst j. congruence.
Qed.

End SegmentFacts.

Lemma Qgt_bool_iff (a b : Q) : Qgt_bool a b = true <-> (b < a)%Q.
Proof.
  unfold Qgt_bool. rewrite negb_true_iff, <- not_true_iff_false, Qle_bool_iff.
  split; [apply Qnot_le_lt | apply Qlt_not_le].
Qed.

Lemma Qlt_bool_iff (a b : Q) : Qlt_bool a b = true <-> (a < b)%Q.
Proof. unfold Qlt_bool. apply (Qgt_bool_iff b a). Qed.

Lemma flaggedQ_iff (tolerance a b : Q) :
  flagged Qminus Qgt_bool Qlt_bool (Qle_bool 0) tolerance a b = true <->
  ((0 <= tolerance /\ tolerance < b - a) \/
   (tolerance < 0 /\ b - a < tolerance))%Q.
Proof.
  unfold flagged. destruct (Qle_bool 0 tolerance) eqn:E.
  - rewrite Qgt_bool_iff. apply Qle_bool_iff in E. split; [auto|].
    intros [[_ H] | [H _]]; [exact H|]. exfalso. apply (Qlt_not_le _ _ H E).
  - rewrite Qlt_bool_iff.
    assert (Hneg : (tolerance < 0)%Q).
    { apply Qnot_le_lt. intros H. apply Qle_bool_iff in H. congruence. }
    split; [auto|].
    intros [[H _] | [_ H]]; [|exact H]. exfalso. apply (Qlt_not_le _ _ Hneg H).
Qed.

(** C3.  Without [rowsize], [segment(x, tolerance)] returns sizes [s] that
    sum to [len(x)] and are all positive for a non-empty [x]; position
    [i + 1] is a boundary offset of [s] exactly when the difference
    [x[i+1] - x[i]] is flagged: greater than [tolerance] when [tolerance] is
    non-negative, less than [tolerance] when it is negative.  This holds for
    every element type with its subtraction and comparisons, and is spelled
    out for rational numbers; the two examples of the documentation are
    computed. *)
Theorem segment_spec :
  (forall (T D : Type) (sub : T -> T -> D) (gt lt : D -> D -> bool)
          (ge0 : D -> bool) (x : list T) (tolerance : D),
      exists s,
        segment sub gt lt ge0 x tolerance None = Ok s /\
        sumZ s = len x /\
        (x <> [] -> Forall (fun n => 0 < n) s) /\
        (forall (i : nat) (a b : T),
            nth_error x i = Some a -> nth_error x (S i) = Some b ->
            ((if ge0 tolerance then gt (sub b a) tolerance
              else lt (sub b a) tolerance) = true <->
             In (Z.of_nat (S i)) (rowsize_to_index s))))
  /\ (forall (x : list Q) (tolerance : Q),
      exists s,
        segmentQ x tolerance None = Ok s /\
        sumZ s = len x /\
        (forall (i : nat) (a b : Q),
            nth_error x i = Some a -> nth_error x (S i) = Some b ->
            (((0 <= tolerance /\ tolerance < b - a) \/
              (tolerance < 0 /\ b - a < tolerance))%Q <->
             In (Z.of_nat (S i)) (rowsize_to_index s))))
  /\ segmentQ (map inject_Z [0; 1; 1; 1; 2; 2; 3; 3; 3; 3; 4]) (1 # 2) None
     = Ok [1; 3; 2; 4; 1]
  /\ segmentQ (map inject_Z [0; 1; 2; 0; 1; 2]) (- (1 # 2)) None = Ok [3; 3].
Proof.
  split; [|split; [|split; vm_compute; reflexivity]].
  - intros T D sub gt lt ge0 x tolerance.
    exists (segment_flat sub gt lt ge0 x tolerance).
    split; [reflexivity|]. split; [apply segment_flat_sum|].
    split; [apply segment_flat_positive|].
    intros i a b Ha Hb.
    apply (@segment_flat_breaks T D sub gt lt ge0 x tolerance i a b Ha Hb).
  - intros x tolerance.
    exists (segment_flat Qminus Qgt_bool Qlt_bool (Qle_bool 0) x tolerance).
    split; [reflexivity|]. split; [apply segment_flat_sum|].
    intros i a b Ha Hb. rewrite <- flaggedQ_iff.
    apply (@segment_flat_breaks Q Q Qminus Qgt_bool Qlt_bool (Qle_bool 0)
             x tolerance i a b Ha Hb).
Qed.

Lemma segment_spec_witness :
  exists s,
    segmentQ [0; 3; 4]%Q 1 None = Ok s /\ In 1 (rowsize_to_index s).
Proof.
  destruct (proj1 (proj2 segment_spec) [0; 3; 4]%Q 1%Q) as (s & Hs & _ & Hbr).
  exists s. split; [exact Hs|].
  apply (Hbr O 0%Q 3%Q); [reflexivity | reflexivity |].
  left. split; [discriminate | reflexivity].
Defined.

(** ** obs_index_to_row *)

Lemma rowsize_to_index_cons (rowsize : list Z) :
  rowsize_to_index rowsize = 0 :: cumsum_from 0 rowsize.
Proof. reflexivity. Qed.

Lemma last_cumsum_from (acc : Z) (l : list Z) :
  last (acc :: cumsum_from acc l) 0 = acc + sumZ l.
Proof.
  revert acc. induction l as [|a l IH]; intros acc; [cbn; lia|].
  cbn [cumsum_from sumZ]. rewrite last_cons_default.
  specialize (IH (acc + a)). rewrite last_cons_default in IH.
  rewrite last_cons_default. rewrite IH. lia.
Qed.

Lemma rowsize_to_index_last (rowsize : list Z) :
  last (rowsize_to_index rowsize) 0 = sumZ rowsize.
Proof. rewrite rowsize_to_index_cons, last_cumsum_from. lia. Qed.

Lemma length_rowsize_to_index (rowsize : list Z) :
  List.length (rowsize_to_index rowsize) = S (List.length rowsize).
Proof. rewrite rowsize_to_index_cons. cbn. rewrite length_cumsum_from. reflexivity. Qed.

Lemma cumsum_from_lower (acc : Z) (l : list Z) :
  Forall (fun r => 0 <= r) l -> Forall (fun e => acc <= e) (cumsum_from acc l).
Proof.
  intros H. revert acc. induction H as [|a l Ha _ IH]; intros acc; [constructor|].
  cbn [cumsum_from]. constructor; [lia|].
  eapply Forall_impl; [|apply IH]. cbn beta. intros; lia.
Qed.

Lemma filter_none {A} (f : A -> bool) (l : list A) :
  Forall (fun a => f a = false) l -> filter f l = [].
Proof. induction 1 as [|a l Ha _ IH]; [reflexivity|]. cbn. rewrite Ha. exact IH. Qed.

(** The right-biased search over the boundary offsets finds the row whose
    half-open range holds the observation. *)
Lemma searchsorted_row (acc : Z) (rowsize : list Z) (v : Z) :
  Forall (fun r => 0 <= r) rowsize ->
  acc <= v < acc + sumZ rowsize ->
  let offsets := acc :: cumsum_from acc rowsize in
  let k := List.length (filter (fun e => e <=? v) offsets) in
  (1 <= k <= List.length rowsize)%nat /\
  nth (k - 1) offsets 0 <= v < nth k offsets 0.
Proof.
  intros Hpos. revert acc.
  induction Hpos as [|r rowsize Hr Hpos IH]; intros acc Hv; cbn [sumZ] in Hv; [lia|].
  cbn zeta. cbn [cumsum_from filter].
  destruct (Z.leb_spec acc v); [|lia].
  destruct (Z.leb_spec (acc + r) v) as [Hle | Hgt].
  - specialize (IH (acc + r) ltac:(lia)). cbn zeta in IH.
    cbn [filter] in IH. destruct (Z.leb_spec (acc + r) v); [|lia].
    cbn [List.length] in *.
    set (k' := List.length (filter (fun e => e <=? v) (cumsum_from (acc + r) rowsize))) in *.
    destruct IH as [Hk IH]. split; [lia|].
    replace (S k' - 1)%nat with k' in IH by lia.
    replace (S (S k') - 1)%nat with (S k') by lia.
    cbn [nth] in IH |- *. exact IH.
  - rewrite filter_none.
    + cbn. split; lia.
    + eapply Forall_impl; [|apply cumsum_from_lower, Hpos]. cbn beta.
      intros e He. apply Z.leb_gt. lia.
Qed.

(** For a list of Python integers, the bounds check rejects exactly the
    calls with an index below [0] or at or above the total length. *)
Lemma obs_index_to_row_bounds (idx : list Z) (rowsize : list Z) :
  obs_index_to_row (IndexList (map PyInt idx)) rowsize
    = Raise (ValueError msg_index_bounds)
  <-> exists i, In i idx /\ (i < 0 \/ sumZ rowsize <= i).
Proof.
  unfold obs_index_to_row. cbn [bind].
  assert (Hall : forallb is_py_int (map PyInt idx) = true).
  { apply forallb_forall. intros s Hs. apply in_map_iff in Hs.
    destruct Hs as (z & <- & _). reflexivity. }
  rewrite Hall. cbn [negb]. rewrite map_map. cbn [py_int]. rewrite map_id.
  rewrite rowsize_to_index_last. rewrite rowsize_to_index_cons. cbn [hd].
  destruct (existsb _ idx) eqn:E.
  - split; [intros _|reflexivity]. apply existsb_exists in E.
    destruct E as (i & Hi & Hb). exists i. split; [exact Hi|].
    apply orb_true_iff in Hb. destruct Hb as [Hb | Hb];
      [apply Z.ltb_lt in Hb | apply Z.leb_le in Hb]; lia.
  - split; [discriminate|]. intros (i & Hi & Hb). exfalso.
    assert (Hex : existsb (fun i => (i <? 0) || (sumZ rowsize <=? i)) idx = true).
    { apply existsb_exists. exists i. split; [exact Hi|]. apply orb_true_iff.
      destruct Hb; [left; apply Z.ltb_lt | right; apply Z.leb_le]; lia. }
    congruence.
Qed.

(** In-bounds Python integers are mapped to the row of each observation. *)
Lemma obs_index_to_row_rows (idx : list Z) (rowsize : list Z) :
  Forall (fun r => 0 <= r) rowsize ->
  Forall (fun i => 0 <= i < sumZ rowsize) idx ->
  exists rows,
    obs_index_to_row (IndexList (map PyInt idx)) rowsize = Ok rows /\
    Forall2 (fun i r =>
               0 <= r < len rowsize /\
               nth (Z.to_nat r) (rowsize_to_index rowsize) 0 <= i
                 < nth (Z.to_nat (r + 1)) (rowsize_to_index rowsize) 0)
            idx rows.
Proof.
  intros Hpos Hidx.
  exists (map (fun i => np_searchsorted_right (rowsize_to_index rowsize) i - 1) idx).
  split.
  - destruct (obs_index_to_row (IndexList (map PyInt idx)) rowsize) eqn:E.
    + revert E. unfold obs_index_to_row. cbn [bind].
      destruct (negb _); [discriminate|]. destruct (existsb _ _); [discriminate|].
      intros [= <-]. rewrite !map_map. reflexivity.
    + exfalso. assert (He : e = ValueError msg_index_bounds).
      { revert E. unfold obs_index_to_row. cbn [bind].
        assert (Hall : forallb is_py_int (map PyInt idx) = true).
        { apply forallb_forall. intros s Hs. apply in_map_iff in Hs.
          destruct Hs as (z & <- & _). reflexivity. }
        rewrite Hall. cbn [negb]. destruct (existsb _ _); [|discriminate].
        intros [= <-]. reflexivity. }
      subst e. apply obs_index_to_row_bounds in E. destruct E as (i & Hi & Hb).
      rewrite Forall_forall in Hidx. specialize (Hidx i Hi). lia.
  - induction Hidx as [|i idx Hi _ IH]; [constructor|].
    cbn [map]. constructor; [|exact IH].
    unfold np_searchsorted_right, len. rewrite rowsize_to_index_cons.
    destruct (searchsorted_row (acc := 0) (v := i) Hpos ltac:(lia)) as [Hk Hrow].
    set (k := List.length (filter (fun e => e <=? i) (0 :: cumsum_from 0 rowsize))) in *.
    replace (Z.to_nat (Z.of_nat k - 1)) with (k - 1)%nat by lia.
    replace (Z.to_nat (Z.of_nat k - 1 + 1)) with k by lia.
    split; [lia | exact Hrow].
Qed.

(** C9, the defect: an array index is coerced with [int()] before the type
    check, so that a non-integral index in an array is truncated instead of
    being refused. *)
Theorem obs_index_to_row_truncates :
  obs_index_to_row (IndexNdarray [PyFloat (3 # 2)]) [2; 4; 3] = Ok [0]
  /\ obs_index_to_row (IndexList [PyFloat (3 # 2)]) [2; 4; 3]
     = Raise (ValueError msg_index_type).
Proof. split; reflexivity. Qed.

(** ** The error monad *)

Lemma mapM_ok {A B} (f : A -> result B) (g : A -> B) (l : list A) :
  (forall a, In a l -> f a = Ok (g a)) -> mapM f l = Ok (map g l).
Proof.
  induction l as [|a l IH]; intros H; [reflexivity|].
  cbn [mapM map]. rewrite H by (left; reflexivity). cbn [bind].
  rewrite IH by (intros; apply H; right; assumption). reflexivity.
Qed.


Lemma mapM_Forall2 {A B} (f : A -> result B) (l : list A) (bs : list B) :
  mapM f l = Ok bs -> Forall2 (fun a b => f a = Ok b) l bs.
Proof.
  revert bs. induction l as [|a l IH]; intros bs; cbn [mapM].
  - intros [= <-]. constructor.
  - destruct (f a) as [b|e] eqn:Ea; cbn [bind]; [|discriminate].
    destruct (mapM f l) as [bs'|e] eqn:El; cbn [bind]; [|discriminate].
    intros [= <-]. constructor; [exact Ea | apply IH; reflexivity].
Qed.

Lemma mapM_length {A B} (f : A -> result B) (l : list A) (bs : list B) :
  mapM f l = Ok bs -> List.length bs = List.length l.
Proof.
  intros H. apply mapM_Forall2, Forall2_length in H. symmetry. exact H.
Qed.

Lemma mapM_ext {A B} (f g : A -> result B) (l : list A) :
  (forall a, In a l -> f a = g a) -> mapM f l = mapM g l.
Proof.
  induction l as [|a l IH]; intros H; [reflexivity|].
  cbn [mapM]. rewrite H by (left; reflexivity).
  rewrite IH by (intros; apply H; right; assumption). reflexivity.
Qed.

(** ** unpack on a one-dimensional array *)

Lemma py_getitem_nth {A} (x : list A) (i : nat) (a : A) :
  nth_error x i = Some a -> py_getitem x (Z.of_nat i) = Ok a.
Proof.
  intros H. unfold py_getitem.
  assert (Hlt : (i < List.length x)%nat) by (apply nth_error_Some; congruence).
  destruct (Z.ltb_spec (Z.of_nat i) 0); [lia|].
  destruct (Z.ltb_spec (Z.of_nat i) 0); [lia|]. cbn [orb].
  destruct (Z.leb_spec (len x) (Z.of_nat i)); [unfold len in *; lia|].
  rewrite Nat2Z.id, H. reflexivity.
Qed.

Lemma mapM_getitem_from {A} (pre x : list A) :
  mapM (py_getitem (pre ++ x))
       (map Z.of_nat (seq (List.length pre) (List.length x))) = Ok x.
Proof.
  revert pre. induction x as [|a x IH]; intros pre; [reflexivity|].
  cbn [List.length seq map mapM].
  rewrite py_getitem_nth with (a := a)
    by (rewrite nth_error_app2, Nat.sub_diag by lia; reflexivity).
  cbn [bind]. specialize (IH (pre ++ [a])).
  rewrite <- app_assoc, length_app in IH. cbn [List.length app] in IH.
  rewrite Nat.add_1_r in IH. rewrite IH. reflexivity.
Qed.

Lemma mapM_getitem_all {A} (x : list A) :
  mapM (py_getitem x) (map Z.of_nat (seq 0 (List.length x))) = Ok x.
Proof. apply (mapM_getitem_from [] x). Qed.

Lemma py_slice_interior {A} (a : A) (c : list A) :
  py_slice (a :: c) 1 (-1) = removelast c.
Proof.
  unfold py_slice, slice_bound, len. cbn [List.length].
  destruct c as [|b c]; [reflexivity|].
  destruct (Z.ltb_spec 1 0); [lia|]. destruct (Z.ltb_spec (-1) 0); [|lia].
  rewrite Z.min_l, Z.max_r by (cbn [List.length]; lia).
  change (Z.to_nat 1) with 1%nat. cbn [skipn].
  rewrite removelast_firstn_len. f_equal. cbn [List.length]. lia.
Qed.

Lemma last_cumsum_from_tail (acc r : Z) (l : list Z) :
  last (cumsum_from acc (r :: l)) 0 = acc + sumZ (r :: l).
Proof.
  cbn [cumsum_from sumZ]. rewrite last_cumsum_from. lia.
Qed.

(** The division points of [np.split] in [unpack] are the boundary
    offsets themselves when the row sizes add up to the extent. *)
Lemma unpack_div_points (rowsize : list Z) (n : Z) :
  rowsize <> [] -> sumZ rowsize = n ->
  0 :: py_slice (rowsize_to_index rowsize) 1 (-1) ++ [n]
  = rowsize_to_index rowsize.
Proof.
  intros Hne Hsum. rewrite rowsize_to_index_cons, py_slice_interior.
  destruct rowsize as [|r l]; [congruence|]. f_equal.
  rewrite <- Hsum.
  replace (sumZ (r :: l)) with (last (cumsum_from 0 (r :: l)) 0)
    by (rewrite last_cumsum_from_tail; lia).
  symmetry. apply app_removelast_last. discriminate.
Qed.

Lemma nd_slice_1d {A} (x : list A) (st en : Z) :
  0 <= st -> st <= en -> en <= len x ->
  nd_slice (array1 x) 0 st en
  = array1 (firstn (Z.to_nat (en - st)) (skipn (Z.to_nat st) x)).
Proof.
  intros H0 H1 H2. unfold nd_slice, array1, slice_bound, len in *.
  cbn [shape data nth set_nth slice_axis nd_size fold_right].
  destruct (Z.ltb_spec st 0); [lia|]. destruct (Z.ltb_spec en 0); [lia|].
  rewrite !Z.min_l by lia. rewrite !Nat.mul_1_r.
  rewrite length_firstn, length_skipn.
  replace (Z.to_nat en - Z.to_nat st)%nat with (Z.to_nat (en - st)) by lia.
  f_equal. f_equal. lia.
Qed.

Lemma slices_split_rows {A} (x : list A) (rowsize : list Z) (acc : Z) :
  Forall (fun r => 0 <= r) rowsize ->
  0 <= acc -> acc + sumZ rowsize <= len x ->
  map (fun p => nd_slice (array1 x) 0 (fst p) (snd p))
      (consecutive (acc :: cumsum_from acc rowsize))
  = map array1 (split_rows (skipn (Z.to_nat acc) x) rowsize).
Proof.
  intros Hpos. revert acc.
  induction Hpos as [|r rowsize Hr Hpos IH]; intros acc Hacc Hfit; [reflexivity|].
  cbn [sumZ] in Hfit. pose proof (len_nonneg x).
  assert (0 <= sumZ rowsize).
  { clear -Hpos. induction Hpos; cbn [sumZ]; lia. }
  cbn [cumsum_from split_rows].
  change (consecutive (acc :: acc + r :: cumsum_from (acc + r) rowsize))
    with ((acc, acc + r) :: consecutive (acc + r :: cumsum_from (acc + r) rowsize)).
  cbn [map fst snd]. rewrite IH by lia. rewrite nd_slice_1d by lia.
  rewrite skipn_skipn. do 4 f_equal; lia.
Qed.

Lemma np_split_1d {A} (x : list A) (indices : list Z) :
  np_split (array1 x) indices 0
  = Ok (map (fun p => nd_slice (array1 x) 0 (fst p) (snd p))
            (consecutive (0 :: indices ++ [len x]))).
Proof. reflexivity. Qed.

Lemma length_split_rows {A} (x : list A) (rowsize : list Z) :
  List.length (split_rows x rowsize) = List.length rowsize.
Proof. revert x. induction rowsize; intros; cbn; auto. Qed.

(** [unpack] of a flat sequence: the rows cut after each row size. *)
Lemma unpack_1d {A} (x : list A) (rowsize : list Z) :
  Forall (fun r => 0 <= r) rowsize -> sumZ rowsize = len x ->
  unpack (array1 x) rowsize None 0 = Ok (map array1 (split_rows x rowsize)).
Proof.
  intros Hpos Hsum. unfold unpack. rewrite np_split_1d. cbn [bind].
  destruct (list_eq_dec Z.eq_dec rowsize []) as [-> | Hne]; [reflexivity|].
  rewrite unpack_div_points by assumption.
  rewrite rowsize_to_index_cons.
  rewrite slices_split_rows by (assumption || lia).
  cbn [skipn Z.to_nat]. unfold selected_rows.
  rewrite length_rowsize_to_index, Nat.sub_succ, Nat.sub_0_r.
  replace (List.length rowsize)
    with (List.length (map array1 (split_rows x rowsize)))
    by (rewrite length_map; apply length_split_rows).
  apply mapM_getitem_all.
Qed.

Lemma sumZ_nonneg (l : list Z) : Forall (fun r => 0 <= r) l -> 0 <= sumZ l.
Proof. induction 1; cbn [sumZ]; lia. Qed.

Lemma concat_split_rows {A} (x : list A) (rowsize : list Z) :
  Forall (fun r => 0 <= r) rowsize -> sumZ rowsize = len x ->
  concat (split_rows x rowsize) = x.
Proof.
  intros Hpos. revert x.
  induction Hpos as [|r rowsize Hr Hpos IH]; intros x Hsum; cbn [sumZ] in Hsum.
  - destruct x; [reflexivity | unfold len in Hsum; cbn in Hsum; lia].
  - pose proof (sumZ_nonneg Hpos). cbn [split_rows concat].
    rewrite IH; [apply firstn_skipn|].
    unfold len in *. rewrite length_skipn. lia.
Qed.

Lemma split_rows_lengths {A} (x : list A) (rowsize : list Z) :
  Forall (fun r => 0 <= r) rowsize -> sumZ rowsize = len x ->
  map len (split_rows x rowsize) = rowsize.
Proof.
  intros Hpos. revert x.
  induction Hpos as [|r rowsize Hr Hpos IH]; intros x Hsum; cbn [sumZ] in Hsum;
    [reflexivity|].
  pose proof (sumZ_nonneg Hpos). cbn [split_rows map]. unfold len in *.
  rewrite IH by (rewrite length_skipn; lia).
  rewrite length_firstn. f_equal. lia.
Qed.

(** ** ragged_to_regular and regular_to_ragged *)

Lemma fold_left_max_bound (l : list Z) (a : Z) :
  a <= fold_left Z.max l a /\ Forall (fun r => r <= fold_left Z.max l a) l.
Proof.
  revert a. induction l as [|b l IH]; intros a; cbn [fold_left].
  - split; [lia | constructor].
  - destruct (IH (Z.max a b)) as [H1 H2]. split; [lia|].
    constructor; [lia | exact H2].
Qed.

Lemma py_max_bound (l : list Z) (m : Z) :
  py_max l = Ok m -> Forall (fun r => r <= m) l.
Proof.
  destruct l as [|a l]; [discriminate|]. intros [= <-].
  destruct (fold_left_max_bound l a). constructor; assumption.
Qed.

Lemma py_max_nonempty (l : list Z) :
  l <> [] -> exists m, py_max l = Ok m.
Proof. destruct l; [congruence|]. intros _. eexists. reflexivity. Qed.

(** A row padded on its right up to the width [m]. *)
Lemma assign_prefix_pad {A} (fill : A) (m r : Z) (row : list A) :
  0 <= r <= m -> len row = r ->
  assign_prefix (repeat fill (Z.to_nat m)) r row
  = Ok (row ++ repeat fill (Z.to_nat (m - r))).
Proof.
  intros Hr Hlen. unfold assign_prefix, slice_bound, len in *.
  rewrite repeat_length. destruct (Z.ltb_spec r 0); [lia|].
  rewrite Z.min_l by lia. rewrite assign_row_exact by lia. cbn [bind].
  do 2 f_equal.
  replace (Z.to_nat m) with (Z.to_nat r + Z.to_nat (m - r))%nat by lia.
  rewrite repeat_app, skipn_app, repeat_length, Nat.sub_diag.
  rewrite skipn_all2 by (rewrite repeat_length; lia). reflexivity.
Qed.

Lemma np_compress_filter {A} (f : A -> bool) (d : list A) :
  np_compress (map f d) d = filter f d.
Proof.
  induction d as [|a d IH]; [reflexivity|]. cbn. rewrite IH. reflexivity.
Qed.

Lemma sum_vectors_singletons (l : list Z) :
  sum_vectors 1 (blocks (List.length l) 1 l) = [sumZ l].
Proof.
  induction l as [|a l IH]; [reflexivity|].
  cbn [List.length blocks firstn skipn sum_vectors sumZ].
  rewrite IH. reflexivity.
Qed.

Lemma filter_all {A} (f : A -> bool) (l : list A) :
  Forall (fun a => f a = true) l -> filter f l = l.
Proof. induction 1 as [|a l Ha _ IH]; [reflexivity|]. cbn. rewrite Ha, IH. reflexivity. Qed.

Section RegularFacts.
Variable T : Type.
Variable isnan : T -> bool.
Variable neq : T -> T -> bool.

(** A row followed by values that count as the fill value. *)
Lemma filter_padded (fill_value fill : T) (row : list T) (k : nat) :
  is_valid isnan neq fill_value fill = false ->
  Forall (fun a => is_valid isnan neq fill_value a = true) row ->
  filter (is_valid isnan neq fill_value) (row ++ repeat fill k) = row.
Proof.
  intros Hfill H. rewrite filter_app, filter_all by exact H.
  rewrite filter_none, app_nil_r; [reflexivity|].
  apply Forall_forall. intros a Ha. apply repeat_spec in Ha. subst a.
  exact Hfill.
Qed.

Lemma count_padded (fill_value fill : T) (row : list T) (k : nat) :
  is_valid isnan neq fill_value fill = false ->
  Forall (fun a => is_valid isnan neq fill_value a = true) row ->
  sumZ (map bool_to_Z (map (is_valid isnan neq fill_value)
                           (row ++ repeat fill k))) = len row.
Proof.
  intros Hfill H. rewrite !map_app, sumZ_app.
  assert (H1 : sumZ (map bool_to_Z (map (is_valid isnan neq fill_value) row))
               = len row).
  { unfold len. induction H as [|a row Ha _ IH]; [reflexivity|].
    cbn [map sumZ List.length]. rewrite Ha, IH. cbn [bool_to_Z]. lia. }
  assert (H2 : sumZ (map bool_to_Z (map (is_valid isnan neq fill_value)
                                        (repeat fill k))) = 0).
  { induction k as [|k IH]; [reflexivity|].
    cbn [repeat map sumZ]. rewrite Hfill, IH. reflexivity. }
  lia.
Qed.

(** The regular array built from the rows [rows], of width [m]. *)
Lemma regular_to_ragged_padded (fill_value fill : T) (m : nat)
      (rows : list (list T)) :
  is_valid isnan neq fill_value fill = false ->
  Forall (fun row => (List.length row <= m)%nat) rows ->
  Forall (Forall (fun a => is_valid isnan neq fill_value a = true)) rows ->
  regular_to_ragged isnan neq
    (mk_nd [List.length rows; m]
       (concat (map (fun row => row ++ repeat fill (m - List.length row))
                    rows)))
    fill_value
  = Ok (concat rows, array1 (map len rows)).
Proof.
  intros Hfill Hlen Hvalid. unfold regular_to_ragged, np_sum_axis1.
  cbn [shape data bind nd_size fold_right]. rewrite Nat.mul_1_r.
  rewrite np_compress_filter. f_equal. f_equal.
  - induction Hvalid as [|row rows Hrow _ IH]; [reflexivity|].
    inversion Hlen; subst. cbn [map concat]. rewrite filter_app.
    rewrite filter_padded by assumption. rewrite IH by assumption. reflexivity.
  - unfold array1. rewrite length_map. f_equal.
    rewrite concat_map, map_map.
    replace (List.length rows) with
      (List.length (map (fun row => map (is_valid isnan neq fill_value)
                      (row ++ repeat fill (m - List.length row))) rows))
      by apply length_map.
    rewrite blocks_concat.
    + rewrite map_map.
      induction Hvalid as [|row rows Hrow _ IH]; [reflexivity|].
      inversion Hlen; subst. cbn [map concat]. rewrite IH by assumption.
      replace m with (List.length (map bool_to_Z
                        (map (is_valid isnan neq fill_value)
                             (row ++ repeat fill (m - List.length row)))))
        at 1
        by (rewrite !length_map, length_app, repeat_length; lia).
      rewrite sum_vectors_singletons, count_padded by assumption. reflexivity.
    + apply Forall_forall. intros blk Hblk. apply in_map_iff in Hblk.
      destruct Hblk as (row & <- & Hin).
      rewrite Forall_forall in Hlen. specialize (Hlen row Hin).
      rewrite length_map, length_app, repeat_length. lia.
Qed.

Variable E : Type.
Variable times_ones : T -> result T.
Variable astype : E -> T.

(** The regular array that [ragged_to_regular] builds. *)
Lemma ragged_to_regular_padded (ragged : list E) (rowsize : list Z)
      (fill_value fill : T) (m : Z) :
  py_max rowsize = Ok m ->
  Forall (fun r => 0 <= r) rowsize -> sumZ rowsize = len ragged ->
  times_ones fill_value = Ok fill ->
  ragged_to_regular times_ones astype ragged rowsize fill_value
  = Ok (mk_nd [List.length (split_rows ragged rowsize); Z.to_nat m]
          (concat (map (fun row => map astype row
                                   ++ repeat fill (Z.to_nat m - List.length row))
                       (split_rows ragged rowsize)))).
Proof.
  intros Hmax Hpos Hsum Hfill. unfold ragged_to_regular. rewrite Hmax. cbn [bind].
  pose proof (py_max_bound _ Hmax) as Hbound.
  assert (Hm : 0 <= m).
  { destruct rowsize as [|r l]; [discriminate|].
    inversion Hpos; inversion Hbound; subst. lia. }
  destruct (Z.ltb_spec m 0); [lia|].
  rewrite Hfill. cbn [bind].
  rewrite unpack_1d by assumption. cbn [bind].
  rewrite length_split_rows.
  assert (Hrows : mapM (fun p => assign_prefix (repeat fill (Z.to_nat m))
                                    (fst p) (map astype (data (snd p))))
                    (combine rowsize (map array1 (split_rows ragged rowsize)))
                  = Ok (map (fun row => map astype row
                                        ++ repeat fill
                                             (Z.to_nat m - List.length row))
                            (split_rows ragged rowsize))).
  { clear Hmax. revert ragged Hsum.
    induction Hpos as [|r rowsize Hr Hpos IH]; intros ragged Hsum; [reflexivity|].
    inversion Hbound; subst. cbn [sumZ] in Hsum.
    pose proof (sumZ_nonneg Hpos). unfold len in Hsum.
    cbn [split_rows map combine mapM fst snd array1 data].
    rewrite assign_prefix_pad
      by (unfold len; rewrite ?length_map, ?length_firstn; lia).
    cbn [bind]. rewrite IH; [|assumption|unfold len; rewrite length_skipn; lia].
    cbn [bind]. do 4 f_equal. rewrite length_firstn. lia. }
  rewrite Hrows. reflexivity.
Qed.

(** The exception of the multiplication by the fill value is the
    exception of [ragged_to_regular]. *)
Lemma ragged_to_regular_times_ones_raise (ragged : list E) (rowsize : list Z)
      (fill_value : T) (e : exn) :
  rowsize <> [] -> Forall (fun r => 0 <= r) rowsize ->
  times_ones fill_value = Raise e ->
  ragged_to_regular times_ones astype ragged rowsize fill_value = Raise e.
Proof.
  intros Hne Hpos Hfill. unfold ragged_to_regular.
  destruct (py_max_nonempty Hne) as [m Hmax]. rewrite Hmax. cbn [bind].
  pose proof (py_max_bound _ Hmax) as Hbound.
  assert (Hm : 0 <= m).
  { destruct rowsize as [|r l]; [discriminate|].
    inversion Hpos; inversion Hbound; subst. lia. }
  destruct (Z.ltb_spec m 0); [lia|].
  rewrite Hfill. reflexivity.
Qed.

End RegularFacts.

(** C6 as stated fails twice.  On the ragged array without any row,
    [ragged_to_regular([], [])] raises, [max] having nothing to look at.
    And with at least one row, an array of integers does not come back
    from the default fill value NaN: the regular array is a float64 array,
    and [2**53 + 1] comes back as [2**53]. *)
Lemma ragged_regular_roundtrip_counterexample :
  ~ (forall (A : list Z) (R : list Z) (V : Z),
        Forall (fun r => 0 <= r) R ->
        sumZ R = len A ->
        Forall (fun a => is_valid Z_isnan Z_neq V a = true) A ->
        exists reg,
          ragged_to_regular int64_times_ones int64_astype A R V = Ok reg /\
          regular_to_ragged Z_isnan Z_neq reg V = Ok (A, array1 R))
  /\ ~ (forall (A : list Z) (R : list Z),
          R <> [] ->
          Forall (fun r => 0 <= r) R ->
          sumZ R = len A ->
          exists reg,
            ragged_to_regular float64_times_ones float64_astype A R NaN = Ok reg /\
            regular_to_ragged float64_isnan float64_neq reg NaN
            = Ok (map Float A, array1 R)).
Proof.
  split.
  - intros H. destruct (H [] [] 0) as (reg & Hreg & _); try constructor.
    discriminate Hreg.
  - intros H. destruct (H [2 ^ 53 + 1] [1]) as (reg & Hreg & Hback).
    + discriminate.
    + repeat constructor; lia.
    + reflexivity.
    + vm_compute in Hreg. injection Hreg as <-.
      vm_compute in Hback. discriminate Hback.
Qed.

(** C6 (amended with at least one row and with the dtype of the regular
    array).  For every flat array [A], every row-size vector [R] with at
    least one row, of non-negative sizes that sum to [len(A)], and every
    fill value [V] whose product with the ones of the dtype of [A] is
    defined and still counts as the fill value (it is NaN when [V] is
    NaN, it is not [!= V] otherwise), if no element of [A], converted to
    the dtype of that product, equals [V] (none is NaN when [V] is NaN,
    none is [== V] otherwise), then
    [regular_to_ragged(ragged_to_regular(A, R, V), V)] returns [R] and the
    elements of [A] converted to that dtype: [A] itself where the
    conversion changes nothing. *)
Theorem ragged_regular_roundtrip :
  forall (T : Type) (isnan : T -> bool) (neq : T -> T -> bool)
         (E : Type) (times_ones : T -> result T) (astype : E -> T)
         (A : list E) (R : list Z) (V fill : T),
    R <> [] ->
    Forall (fun r => 0 <= r) R ->
    sumZ R = len A ->
    times_ones V = Ok fill ->
    (if isnan V then negb (isnan fill) else neq fill V) = false ->
    Forall (fun a => (if isnan V then negb (isnan (astype a))
                      else neq (astype a) V) = true) A ->
    exists reg,
      ragged_to_regular times_ones astype A R V = Ok reg /\
      regular_to_ragged isnan neq reg V = Ok (map astype A, array1 R).
Proof.
  intros T isnan neq E times_ones astype A R V fill Hne Hpos Hsum Hones Hfill Hvalid.
  destruct (py_max_nonempty Hne) as [m Hmax].
  pose proof (py_max_bound _ Hmax) as Hbound.
  eexists.
  split; [apply (@ragged_to_regular_padded T E times_ones astype A R V fill m
                   Hmax Hpos Hsum Hones)|].
  pose proof (split_rows_lengths A Hpos Hsum) as Hlens.
  assert (Hrows : map (fun row => map astype row
                                  ++ repeat fill (Z.to_nat m - List.length row))
                      (split_rows A R)
                  = map (fun row => row ++ repeat fill (Z.to_nat m - List.length row))
                        (map (map astype) (split_rows A R))).
  { rewrite map_map. apply map_ext. intros row. rewrite length_map. reflexivity. }
  rewrite Hrows.
  replace (List.length (split_rows A R))
    with (List.length (map (map astype) (split_rows A R)))
    by apply length_map.
  rewrite regular_to_ragged_padded.
  - rewrite <- concat_map, concat_split_rows by assumption.
    rewrite map_map.
    replace (map (fun row => len (map astype row)) (split_rows A R))
      with (map len (split_rows A R))
      by (apply map_ext; intros row; unfold len; rewrite length_map; reflexivity).
    rewrite Hlens. reflexivity.
  - exact Hfill.
  - apply Forall_forall. intros row Hrow. apply in_map_iff in Hrow.
    destruct Hrow as (row0 & <- & Hrow). rewrite length_map.
    assert (Hin : In (len row0) R) by (rewrite <- Hlens; apply in_map, Hrow).
    rewrite Forall_forall in Hbound. specialize (Hbound _ Hin).
    unfold len in Hbound. lia.
  - apply Forall_concat. rewrite <- concat_map, concat_split_rows by assumption.
    apply Forall_map. exact Hvalid.
Qed.

Lemma ragged_regular_roundtrip_witness :
  (exists reg,
      ragged_to_regular int64_times_ones int64_astype [1; 2; 3; 4; 5] [2; 1; 2] 999
      = Ok reg /\
      regular_to_ragged Z_isnan Z_neq reg 999
      = Ok ([1; 2; 3; 4; 5], array1 [2; 1; 2]))
  /\ (exists reg,
        ragged_to_regular float64_times_ones float64_astype [1; 2; 3; 4; 5] [2; 1; 2] NaN
        = Ok reg /\
        regular_to_ragged float64_isnan float64_neq reg NaN
        = Ok ([Float 1; Float 2; Float 3; Float 4; Float 5], array1 [2; 1; 2])).
Proof.
  split.
  - apply (@ragged_regular_roundtrip Z Z_isnan Z_neq Z int64_times_ones int64_astype
             [1; 2; 3; 4; 5] [2; 1; 2] 999 999).
    + discriminate.
    + repeat constructor; lia.
    + reflexivity.
    + reflexivity.
    + reflexivity.
    + repeat constructor.
  - apply (@ragged_regular_roundtrip float64 float64_isnan float64_neq Z
             float64_times_ones float64_astype [1; 2; 3; 4; 5] [2; 1; 2] NaN NaN).
    + discriminate.
    + repeat constructor; lia.
    + reflexivity.
    + reflexivity.
    + reflexivity.
    + repeat constructor.
Defined.

(** ** apply_ragged: the check of the row sizes *)


Lemma py_getitem_raise {A} (x : list A) (i : Z) (e : exn) :
  py_getitem x i = Raise e -> e = IndexError msg_out_of_range.
Proof.
  unfold py_getitem. destruct (_ || _); [congruence|].
  destruct (nth_error _ _); congruence.
Qed.










Lemma validate_agree {A} (arrays : list (ndarray A)) (rowsize : list Z) (axis : Z) :
  (forall arr, In arr arrays -> shape_at arr axis = Ok (sumZ rowsize)) ->
  mapM (validate_rowsize rowsize axis) arrays = Ok (map (fun _ => tt) arrays).
Proof.
  intros H. apply mapM_ok. intros arr Hin. unfold validate_rowsize.
  rewrite (H arr Hin). cbn [bind]. rewrite Z.eqb_refl. reflexivity.
Qed.



(** ** segment with the row sizes *)




(** ** apply_ragged: the reassembly of the outputs *)

Lemma arrays1_not_zero_dim {A} (ls : list (list A)) :
  existsb (fun a : ndarray A => Nat.eqb (List.length (shape a)) 0) (map array1 ls)
  = false.
Proof. induction ls as [|l ls IH]; [reflexivity|]. cbn. exact IH. Qed.

Lemma arrays1_one_dim {A} (ls : list (list A)) :
  forallb (fun a : ndarray A => Nat.eqb (List.length (shape a)) 1) (map array1 ls)
  = true.
Proof. induction ls as [|l ls IH]; [reflexivity|]. cbn. exact IH. Qed.

Lemma arrays1_same_shape {A} (ls : list (list A)) :
  forallb (fun a : ndarray A => shape_eqb (set_nth 0 O (shape a)) [O]) (map array1 ls)
  = true.
Proof.
  induction ls as [|l ls IH]; [reflexivity|]. cbn [map forallb]. rewrite IH.
  reflexivity.
Qed.

Lemma arrays1_total {A} (ls : list (list A)) :
  fold_right Nat.add O (map (fun a : ndarray A => nth 0 (shape a) O) (map array1 ls))
  = List.length (concat ls).
Proof.
  induction ls as [|l ls IH]; [reflexivity|].
  cbn [map fold_right concat]. rewrite length_app, IH. reflexivity.
Qed.

Lemma np_concatenate_1d {A} (ls : list (list A)) (axis : Z) :
  ls <> [] -> norm_axis 1 axis = Some O ->
  np_concatenate (map array1 ls) axis = Ok (array1 (concat ls)).
Proof.
  intros Hne Haxis. unfold np_concatenate.
  destruct (map array1 ls) as [|a0 arrays] eqn:E.
  { destruct ls; [congruence | discriminate]. }
  assert (Ha0 : shape a0 = [List.length (data a0)]).
  { destruct ls as [|l0 ls']; [discriminate|]. injection E as <- _. reflexivity. }
  rewrite <- E, arrays1_not_zero_dim. rewrite Ha0. cbn [List.length].
  rewrite Haxis, arrays1_one_dim. cbn [negb].
  change (set_nth 0 O [List.length (data a0)]) with [O].
  rewrite arrays1_same_shape. cbn [negb set_nth]. rewrite arrays1_total.
  unfold array1. do 2 f_equal.
  cbn [concat_axis]. rewrite !map_map. cbn [snd data]. rewrite map_id. reflexivity.
Qed.

Lemma py_getitem_In {A} (x : list A) (i : Z) (a : A) :
  py_getitem x i = Ok a -> In a x.
Proof.
  unfold py_getitem. destruct (_ || _); [discriminate|].
  destruct (nth_error x _) eqn:E; [|discriminate].
  intros [= <-]. eapply nth_error_In, E.
Qed.

Lemma apply_rows_length {A B} (func : list (ndarray A) -> result (pyval B))
      arrays rowsize rows axis res :
  apply_rows func arrays rowsize rows axis = Ok res ->
  List.length res = List.length (selected_rows rowsize rows).
Proof.
  unfold apply_rows. intros H.
  destruct (mapM (validate_rowsize rowsize axis) arrays); [|discriminate].
  cbn [bind] in H.
  destruct (mapM (fun arr => unpack arr rowsize rows axis) arrays)
    as [arrays'|] eqn:Hunpack; [|discriminate]. cbn [bind] in H.
  destruct (py_getitem arrays' 0) as [first|] eqn:Hfirst; [|discriminate].
  cbn [bind] in H.
  destruct (mapM _ (seq 0 (List.length first))) as [iter|] eqn:Hiter; [|discriminate].
  cbn [bind] in H.
  destruct (mapM func iter) as [vals|] eqn:Hvals; [|discriminate].
  injection H as <-. rewrite length_map.
  apply mapM_length in Hvals, Hiter. rewrite Hvals, Hiter, length_seq.
  assert (Hin : In first arrays') by (eapply py_getitem_In, Hfirst).
  apply mapM_Forall2 in Hunpack.
  assert (Hall : Forall (fun u => List.length u = List.length (selected_rows rowsize rows))
                        arrays').
  { clear -Hunpack. induction Hunpack as [|arr u arrays arrays' Hu _ IH]; constructor.
    - unfold unpack in Hu. destruct (np_split _ _ _); [|discriminate].
      cbn [bind] in Hu. apply mapM_length in Hu. exact Hu.
    - exact IH. }
  rewrite Forall_forall in Hall. apply Hall, Hin.
Qed.

Lemma py_getitem_head {A} (a : A) (l : list A) : py_getitem (a :: l) 0 = Ok a.
Proof. apply (py_getitem_nth (a :: l) O). reflexivity. Qed.

Lemma reduced_values_arrays {B} (res : list (item B)) (vals : list B) :
  Forall2 (fun r v => reduced_value r = Some v) res vals ->
  mapM item_array res = Ok (map array1 (map (fun v => [v]) vals)).
Proof.
  induction 1 as [|r v res vals Hr _ IH]; [reflexivity|].
  cbn [mapM map]. rewrite IH.
  destruct r as [w|[sh d]|l]; cbn in Hr; try discriminate.
  - injection Hr as ->. reflexivity.
  - destruct sh as [|[|[|?]] [|? ?]]; try discriminate.
    destruct d as [|w [|? ?]]; try discriminate.
    injection Hr as ->. reflexivity.
Qed.

Lemma reduced_value_len {B} (r : item B) (v : B) :
  reduced_value r = Some v -> item_len r = Ok 1 /\ is_tuple r = false.
Proof.
  destruct r as [w|[sh d]|l]; cbn; try discriminate; [auto|].
  destruct sh as [|[|[|?]] [|? ?]]; try discriminate.
  destruct d as [|w [|? ?]]; try discriminate. auto.
Qed.

Lemma concat_singletons {B} (vals : list B) : concat (map (fun v => [v]) vals) = vals.
Proof. induction vals as [|v vals IH]; [reflexivity|]. cbn. rewrite IH. reflexivity. Qed.

Lemma reassemble_single {B} (first : item B) (rest : list (item B)) (axis n : Z) :
  is_tuple first = false -> item_len first = Ok n ->
  reassemble (first :: rest) axis
  = (arrays <- mapM item_array (first :: rest) ;;
     a <- np_concatenate arrays (if 1 <? n then axis else 0) ;;
     Ok (ROne a)).
Proof.
  intros Htuple Hlen. unfold reassemble. rewrite py_getitem_head. cbn [bind].
  assert (H : concatenate_output (first :: rest) axis
              = (arrays <- mapM item_array (first :: rest) ;;
                 np_concatenate arrays (if 1 <? n then axis else 0))).
  { unfold concatenate_output. rewrite py_getitem_head. cbn [bind].
    rewrite Hlen. cbn [bind]. destruct (mapM item_array (first :: rest)); [|reflexivity].
    cbn [bind]. destruct (1 <? n); reflexivity. }
  destruct first; try discriminate; rewrite H;
    destruct (mapM item_array _); reflexivity.
Qed.

(** The outputs at position [i] of a tuple-returning function. *)
Lemma reassemble_tuple {B} (l0 : list (out B)) (rest : list (item B)) (axis : Z) :
  reassemble (ITuple l0 :: rest) axis
  = (outputs <-
       mapM (fun i =>
               pieces <- mapM (fun r => o <- item_getitem r i ;; Ok (wrap_out o))
                              (ITuple l0 :: rest) ;;
               first <- py_getitem pieces 0 ;;
               n <- item_len first ;;
               arrays <- mapM item_array pieces ;;
               np_concatenate arrays (if 1 <? n then axis else 0))
            (seq 0 (List.length l0)) ;;
     Ok (RTuple outputs)).
Proof.
  unfold reassemble. rewrite py_getitem_head. cbn [bind].
  match goal with
  | |- bind ?m1 _ = bind ?m2 _ => assert (Hm : m1 = m2)
  end.
  { apply mapM_ext. intros i _.
    destruct (mapM (fun r => o <- item_getitem r i ;; Ok (wrap_out o))
                   (ITuple l0 :: rest)) as [pieces|]; [|reflexivity].
    cbn [bind]. unfold concatenate_output.
    destruct (py_getitem pieces 0) as [first|]; [|reflexivity]. cbn [bind].
    destruct (item_len first) as [n|]; [|reflexivity]. cbn [bind].
    destruct (mapM item_array pieces); [|reflexivity]. cbn [bind].
    destruct (1 <? n); reflexivity. }
  rewrite Hm. reflexivity.
Qed.

Lemma mapM_cons {A B} (f : A -> result B) (a : A) (l : list A) :
  mapM f (a :: l) = (b <- f a ;; bs <- mapM f l ;; Ok (b :: bs)).
Proof. reflexivity. Qed.

Lemma mapM_nil {A B} (f : A -> result B) : mapM f [] = Ok [].
Proof. reflexivity. Qed.

Lemma zip_rows_single {A} (pre u : list A) :
  mapM (fun j => mapM (fun arr => py_getitem arr (Z.of_nat j)) [pre ++ u])
       (seq (List.length pre) (List.length u))
  = Ok (map (fun r => [r]) u).
Proof.
  revert pre. induction u as [|a u IH]; intros pre; [reflexivity|].
  cbn [List.length seq]. rewrite mapM_cons. rewrite (mapM_cons _ (pre ++ a :: u) []).
  rewrite py_getitem_nth with (a := a)
    by (rewrite nth_error_app2, Nat.sub_diag by lia; reflexivity).
  cbn [bind]. rewrite mapM_nil. cbn [bind]. specialize (IH (pre ++ [a])).
  rewrite <- app_assoc, length_app in IH. cbn [List.length app] in IH.
  rewrite Nat.add_1_r in IH. rewrite IH. reflexivity.
Qed.

(** The rows that [func] is called on, for one flat array. *)
Lemma apply_rows_1d {A B} (func : list (ndarray A) -> result (pyval B))
      (x : list A) (rowsize : list Z) :
  Forall (fun r => 0 <= r) rowsize -> sumZ rowsize = len x ->
  apply_rows func [array1 x] rowsize None 0
  = (vals <- mapM func (map (fun row => [array1 row]) (split_rows x rowsize)) ;;
     Ok (map wrap vals)).
Proof.
  intros Hpos Hsum. unfold apply_rows.
  rewrite validate_agree
    by (intros arr [<- | []]; rewrite Hsum; reflexivity).
  cbn [bind]. rewrite (mapM_cons _ (array1 x) []).
  rewrite unpack_1d by assumption. cbn [bind]. rewrite mapM_nil. cbn [bind].
  rewrite py_getitem_head. cbn [bind].
  pose proof (zip_rows_single [] (map array1 (split_rows x rowsize))) as Hz.
  cbn [app List.length] in Hz. rewrite Hz. cbn [bind].
  rewrite map_map. reflexivity.
Qed.

(** Values that are all scalars or one-element vectors give one element
    per value, along axis 0, whatever [axis] is. *)
Lemma reassemble_reduction {B} (res : list (item B)) (vals : list B) (axis : Z) :
  res <> [] ->
  Forall2 (fun r v => reduced_value r = Some v) res vals ->
  reassemble res axis = Ok (ROne (array1 vals)).
Proof.
  intros Hne Hvals. destruct Hvals as [|r v res vals Hr Hrest]; [congruence|].
  destruct (reduced_value_len _ Hr) as [Hn Htuple].
  rewrite reassemble_single with (n := 1) by assumption.
  rewrite (reduced_values_arrays (Forall2_cons _ _ Hr Hrest)). cbn [bind].
  change (1 <? 1) with false. cbv iota.
  rewrite np_concatenate_1d by (cbn; (discriminate || reflexivity)).
  cbn [bind]. rewrite concat_singletons. reflexivity.
Qed.

(** Values that are all vectors are joined along the axis of a vector. *)
Lemma reassemble_vectors {B} (ls : list (list B)) (axis : Z) :
  ls <> [] -> norm_axis 1 axis = Some O ->
  reassemble (map (fun l => IArray (array1 l)) ls) axis
  = Ok (ROne (array1 (concat ls))).
Proof.
  intros Hne Haxis. destruct ls as [|l0 ls']; [congruence|]. cbn [map].
  rewrite reassemble_single with (n := len l0) by reflexivity.
  assert (Harr : forall l : list (list B),
             mapM item_array (map (fun l => IArray (array1 l)) l)
             = Ok (map array1 l)).
  { induction l as [|a l IH]; [reflexivity|].
    cbn [map]. rewrite mapM_cons, IH. reflexivity. }
  change (IArray (array1 l0) :: map (fun l => IArray (array1 l)) ls')
    with (map (fun l => IArray (array1 l)) (l0 :: ls')).
  rewrite Harr. cbn [bind].
  destruct (1 <? len l0).
  - rewrite np_concatenate_1d by (assumption || discriminate). reflexivity.
  - rewrite np_concatenate_1d by (reflexivity || discriminate). reflexivity.
Qed.

Lemma split_rows_nonempty {A} (x : list A) (rowsize : list Z) :
  rowsize <> [] -> split_rows x rowsize <> [].
Proof. destruct rowsize; [congruence | discriminate]. Qed.

(** A reduction over the rows of a flat array: one element per row. *)
Lemma apply_ragged_reduction {A B} (g : list A -> B) (x : list A) (rowsize : list Z) :
  rowsize <> [] -> Forall (fun r => 0 <= r) rowsize -> sumZ rowsize = len x ->
  apply_ragged (reduction g) [array1 x] rowsize None 0
  = Ok (ROne (array1 (map g (split_rows x rowsize)))).
Proof.
  intros Hne Hpos Hsum. unfold apply_ragged.
  rewrite apply_rows_1d by assumption.
  rewrite mapM_ok with (g := fun rows : list (ndarray A) =>
                               Single (OScalar (g (data (hd (array1 []) rows))))).
  - cbn [bind]. rewrite !map_map. cbn [hd array1 data wrap wrap_out].
    apply reassemble_reduction.
    + intros H. apply map_eq_nil in H. apply (split_rows_nonempty x Hne H).
    + clear. induction (split_rows x rowsize) as [|row rows IH]; constructor;
        [reflexivity | exact IH].
  - intros rows Hin. apply in_map_iff in Hin. destruct Hin as (row & <- & _).
    reflexivity.
Qed.

(** A transformation of the rows of a flat array: the transformed rows one
    after the other. *)
Lemma apply_ragged_transform {A B} (h : list A -> list B) (x : list A)
      (rowsize : list Z) :
  rowsize <> [] -> Forall (fun r => 0 <= r) rowsize -> sumZ rowsize = len x ->
  apply_ragged (transform h) [array1 x] rowsize None 0
  = Ok (ROne (array1 (concat (map h (split_rows x rowsize))))).
Proof.
  intros Hne Hpos Hsum. unfold apply_ragged.
  rewrite apply_rows_1d by assumption.
  rewrite mapM_ok with (g := fun rows : list (ndarray A) =>
                               Single (OArr (array1 (h (data (hd (array1 []) rows)))))).
  - cbn [bind]. rewrite !map_map. cbn [hd array1 data wrap wrap_out].
    rewrite <- (map_map h (fun l => IArray (mk_nd [List.length l] l))).
    apply reassemble_vectors; [|reflexivity].
    intros H. apply map_eq_nil in H. apply (split_rows_nonempty x Hne H).
  - intros rows Hin. apply in_map_iff in Hin. destruct Hin as (row & <- & _).
    reflexivity.
Qed.

(** ** apply_ragged: the rule on every row's value *)

Lemma norm_axis_zero (ndim : nat) : (0 < ndim)%nat -> norm_axis ndim 0 = Some O.
Proof.
  intros H. unfold norm_axis. destruct (Z.ltb_spec 0 (Z.of_nat ndim)); [|lia].
  reflexivity.
Qed.

Lemma np_concatenate_axis {A} (arrays : list (ndarray A)) (a0 : ndarray A)
      (axis1 axis2 : Z) :
  hd_error arrays = Some a0 ->
  norm_axis (List.length (shape a0)) axis1 = norm_axis (List.length (shape a0)) axis2 ->
  np_concatenate arrays axis1 = np_concatenate arrays axis2.
Proof.
  intros Hhd Haxis. unfold np_concatenate.
  destruct arrays as [|a arrays]; [reflexivity|]. injection Hhd as ->.
  rewrite Haxis. reflexivity.
Qed.

Lemma set_nth_succ_hd (k n : nat) (sh sh0 : list nat) :
  set_nth (S k) n sh = set_nth (S k) n sh0 -> hd O sh = hd O sh0.
Proof. destruct sh, sh0; cbn; congruence. Qed.

Lemma np_concatenate_leading_extent {A} (arrays : list (ndarray A))
      (a0 a r : ndarray A) (axis : Z) (k : nat) :
  hd_error arrays = Some a0 ->
  np_concatenate arrays axis = Ok r ->
  norm_axis (List.length (shape a0)) axis = Some (S k) ->
  In a arrays -> hd O (shape a) = hd O (shape a0).
Proof.
  intros Hhd Hcat Haxis Hin. unfold np_concatenate in Hcat.
  destruct arrays as [|a' arrays]; [discriminate|]. injection Hhd as ->.
  destruct (existsb _ _); [discriminate|]. rewrite Haxis in Hcat.
  destruct (forallb _ _); [|discriminate]. cbn [negb] in Hcat.
  destruct (forallb (fun a => shape_eqb (set_nth (S k) O (shape a))
                                        (set_nth (S k) O (shape a0)))
                    (a0 :: arrays)) eqn:E; [|discriminate].
  rewrite forallb_forall in E. specialize (E a Hin). unfold shape_eqb in E.
  destruct (list_eq_dec Nat.eq_dec _ _) as [Heq|]; [|discriminate].
  eapply set_nth_succ_hd, Heq.
Qed.

Lemma item_len_extent {B} (r : item B) (a : ndarray B) (n : Z) :
  is_tuple r = false -> item_array r = Ok a -> item_len r = Ok n ->
  n = Z.of_nat (hd O (shape a)).
Proof.
  destruct r as [v|a'|l]; cbn; try discriminate.
  - intros _ [= <-] [= <-]. reflexivity.
  - intros _ [= <-]. unfold nd_len. destruct (shape a'); [discriminate|].
    intros [= <-]. reflexivity.
Qed.

Lemma item_len_defined {B} (r : item B) (a : ndarray B) :
  is_tuple r = false -> item_array r = Ok a -> shape a <> [] ->
  item_len r = Ok (Z.of_nat (hd O (shape a))).
Proof.
  destruct r as [v|a'|l]; cbn; try discriminate.
  - intros _ [= <-] _. reflexivity.
  - intros _ [= <-] Hsh. unfold nd_len. destruct (shape a'); [congruence|reflexivity].
Qed.

Lemma np_concatenate_ndim {A} (arrays : list (ndarray A)) (r a : ndarray A) (axis : Z) :
  np_concatenate arrays axis = Ok r -> In a arrays -> shape a <> [].
Proof.
  unfold np_concatenate. destruct arrays as [|a0 arrays']; [discriminate|].
  destruct (existsb _ (a0 :: arrays')) eqn:E; [discriminate|]. intros _ Hin Hsh.
  assert (existsb (fun a : ndarray A => Nat.eqb (List.length (shape a)) 0)
                  (a0 :: arrays') = true).
  { apply existsb_exists. exists a. split; [exact Hin|]. rewrite Hsh. reflexivity. }
  congruence.
Qed.

Lemma Forall2_In_left {A B} (R : A -> B -> Prop) (l : list A) (l' : list B) (a : A) :
  Forall2 R l l' -> In a l -> exists b, In b l' /\ R a b.
Proof.
  induction 1 as [|x y l l' Hxy _ IH]; intros Hin; [destruct Hin|].
  destruct Hin as [<- | Hin].
  - exists y. split; [left; reflexivity | exact Hxy].
  - destruct (IH Hin) as (b & Hb & Hab). exists b. split; [right; exact Hb | exact Hab].
Qed.

(** Whenever one output is returned, it is also what the rule on every
    row's value gives: the first value stands for all of them as soon as
    the concatenation along [axis] goes through. *)
Lemma concatenate_output_as_stated {B} (res : list (item B)) (axis : Z)
      (a : ndarray B) :
  existsb (@is_tuple B) res = false ->
  concatenate_output res axis = Ok a ->
  concatenate_output_spec res axis = Ok a.
Proof.
  intros Htuple. unfold concatenate_output, concatenate_output_spec.
  destruct res as [|first rest]; [discriminate|]. rewrite py_getitem_head.
  cbn [bind]. destruct (item_len first) as [n|] eqn:En; [|discriminate].
  cbn [bind].
  destruct (mapM item_array (first :: rest)) as [arrays|] eqn:Earr; [|discriminate].
  cbn [bind]. destruct (Z.ltb_spec 1 n) as [Hn | Hn].
  - intros Hcat.
    destruct (every_length_above_one (first :: rest)) eqn:Eall; [exact Hcat|].
    pose proof (mapM_Forall2 _ _ Earr) as Hall.
    destruct arrays as [|a0 arrays']; [inversion Hall|].
    assert (Hsh0 : shape a0 <> [])
      by (eapply np_concatenate_ndim; [exact Hcat | left; reflexivity]).
    destruct (norm_axis (List.length (shape a0)) axis) as [[|k]|] eqn:Eaxis.
    + rewrite <- Hcat. apply np_concatenate_axis with (a0 := a0); [reflexivity|].
      rewrite Eaxis. apply norm_axis_zero.
      destruct (shape a0); [congruence | cbn; lia].
    + exfalso.
      assert (Hfirst : n = Z.of_nat (hd O (shape a0))).
      { inversion Hall; subst. eapply item_len_extent; try eassumption.
        cbn in Htuple. apply orb_false_iff in Htuple. apply Htuple. }
      assert (Hevery : every_length_above_one (first :: rest) = true).
      { unfold every_length_above_one. apply forallb_forall. intros r Hr.
        destruct (@Forall2_In_left _ _ _ _ _ r Hall Hr) as (ar & Har_in & Har).
        assert (Hr_tuple : is_tuple r = false).
        { destruct (is_tuple r) eqn:E; [|reflexivity].
          assert (existsb (@is_tuple B) (first :: rest) = true)
            by (apply existsb_exists; exists r; auto).
          congruence. }
        rewrite item_len_defined with (a := ar);
          [|exact Hr_tuple | exact Har | eapply np_concatenate_ndim; eassumption].
        rewrite np_concatenate_leading_extent
          with (arrays := a0 :: arrays') (a0 := a0) (axis := axis) (k := k) (r := a);
          [|reflexivity | exact Hcat | exact Eaxis | exact Har_in].
        apply Z.ltb_lt. lia. }
      congruence.
    + unfold np_concatenate in Hcat. rewrite Eaxis in Hcat.
      destruct (existsb _ _) in Hcat; discriminate.
  - assert (Eall : every_length_above_one (first :: rest) = false).
    { unfold every_length_above_one. cbn [forallb]. rewrite En.
      destruct (Z.ltb_spec 1 n); [lia | reflexivity]. }
    rewrite Eall. intros Hcat. exact Hcat.
Qed.

(** A function with two outputs: each output is reassembled on its own. *)
Example apply_ragged_two_outputs :
  apply_ragged row_and_sum [array1 [1; 2; 3; 4; 5]] [2; 1; 2] None 0
  = Ok (RTuple [array1 [1; 2; 3; 4; 5]; array1 [3; 3; 9]]).
Proof. reflexivity. Qed.

(** C1 as stated fails: the axis is chosen on the first row's value alone.
    With rows of a two-dimensional array cut along axis 1 and
    [lambda x: x.reshape(-1, 2)] the first value has length 2 and the second
    length 1; the values are not all longer than one element, yet they are
    concatenated along axis 1, which raises, and not along the leading
    axis. *)
Lemma apply_ragged_reassembly_counterexample :
  ~ (forall (func : list (ndarray Z) -> result (pyval Z))
            (arrays : list (ndarray Z)) (rowsize : list Z) (axis : Z)
            (res : list (item Z)),
        apply_rows func arrays rowsize None axis = Ok res ->
        existsb (@is_tuple Z) res = false ->
        apply_ragged func arrays rowsize None axis
        = (a <- concatenate_output_spec res axis ;; Ok (ROne a))).
Proof.
  intros H.
  specialize (H reshape_pairs [mk_nd [2; 3]%nat [1; 2; 5; 3; 4; 6]] [2; 1] 1
                _ eq_refl eq_refl).
  vm_compute in H. discriminate H.
Qed.

(** C1 (amended: the first row's value decides).  On every input on which
    the rows are cut and [func] returns on each of them, with at least one
    row: there is one value per selected row; when the first value is not a
    tuple the values are concatenated along [axis] if the first value has a
    length above one and along the leading axis otherwise; when it is a
    tuple the same rule is applied to each output position, on the first
    row's value at that position; values that are all scalars or
    one-element vectors (a reduction) give exactly one output element per
    row, stacked along axis 0, whatever [axis] is; values that are all
    vectors are concatenated along the ragged axis of a flat array.  On a
    flat array with at least one row and row sizes that sum to its length,
    a reduction returns one element per row and a transformation returns
    the transformed rows one after the other. *)
Theorem apply_ragged_reassembly :
  (forall (A B : Type) (func : list (ndarray A) -> result (pyval B))
          (arrays : list (ndarray A)) (rowsize : list Z)
          (rows : option rows_arg) (axis : Z)
          (res : list (item B)) (first : item B) (rest : list (item B)),
      apply_rows func arrays rowsize rows axis = Ok res ->
      res = first :: rest ->
      List.length res = List.length (selected_rows rowsize rows)
      /\ (forall n, is_tuple first = false -> item_len first = Ok n ->
          apply_ragged func arrays rowsize rows axis
          = (values <- mapM item_array res ;;
             a <- np_concatenate values (if 1 <? n then axis else 0) ;;
             Ok (ROne a)))
      /\ (forall l0, first = ITuple l0 ->
          apply_ragged func arrays rowsize rows axis
          = (outputs <-
               mapM (fun i =>
                       pieces <- mapM (fun r => o <- item_getitem r i ;; Ok (wrap_out o))
                                      res ;;
                       piece <- py_getitem pieces 0 ;;
                       n <- item_len piece ;;
                       values <- mapM item_array pieces ;;
                       np_concatenate values (if 1 <? n then axis else 0))
                    (seq 0 (List.length l0)) ;;
             Ok (RTuple outputs)))
      /\ (forall vals,
          Forall2 (fun r v => reduced_value r = Some v) res vals ->
          apply_ragged func arrays rowsize rows axis = Ok (ROne (array1 vals))
          /\ List.length vals = List.length (selected_rows rowsize rows))
      /\ (forall ls,
          res = map (fun l => IArray (array1 l)) ls -> norm_axis 1 axis = Some O ->
          apply_ragged func arrays rowsize rows axis
          = Ok (ROne (array1 (concat ls)))))
  /\ (forall (A B : Type) (g : list A -> B) (x : list A) (rowsize : list Z),
      rowsize <> [] -> Forall (fun r => 0 <= r) rowsize -> sumZ rowsize = len x ->
      apply_ragged (reduction g) [array1 x] rowsize None 0
      = Ok (ROne (array1 (map g (split_rows x rowsize))))
      /\ List.length (map g (split_rows x rowsize)) = List.length rowsize)
  /\ (forall (A B : Type) (h : list A -> list B) (x : list A) (rowsize : list Z),
      rowsize <> [] -> Forall (fun r => 0 <= r) rowsize -> sumZ rowsize = len x ->
      apply_ragged (transform h) [array1 x] rowsize None 0
      = Ok (ROne (array1 (concat (map h (split_rows x rowsize)))))).
Proof.
  split; [|split].
  - intros A B func arrays rowsize rows axis res first rest Hrows Hres.
    pose proof (apply_rows_length _ _ _ _ _ Hrows) as Hlen.
    assert (Happly : apply_ragged func arrays rowsize rows axis = reassemble res axis).
    { unfold apply_ragged. rewrite Hrows. reflexivity. }
    rewrite Happly. split; [exact Hlen|]. split; [|split; [|split]].
    + intros n Htuple Hn. subst res. apply reassemble_single; assumption.
    + intros l0 ->. subst res. apply reassemble_tuple.
    + intros vals Hvals. split.
      * apply reassemble_reduction; [subst res; discriminate | exact Hvals].
      * apply Forall2_length in Hvals. lia.
    + intros ls Hls Haxis. rewrite Hls. apply reassemble_vectors; [|exact Haxis].
      intros ->. subst res. discriminate.
  - intros A B g x rowsize Hne Hpos Hsum. split.
    + apply apply_ragged_reduction; assumption.
    + rewrite length_map. apply length_split_rows.
  - intros A B h x rowsize Hne Hpos Hsum. apply apply_ragged_transform; assumption.
Qed.

Lemma apply_ragged_reassembly_witness :
  apply_ragged row_sum [mk_nd [2; 3]%nat [1; 2; 5; 3; 4; 6]] [2; 1] None 1
  = Ok (ROne (array1 [10; 11]))
  /\ apply_ragged (reduction sumZ) [array1 [1; 2; 3; 4; 5]] [2; 1; 2] None 0
     = Ok (ROne (array1 [3; 3; 9]))
  /\ apply_ragged (transform (map Z.succ)) [array1 [1; 2; 3; 4; 5]] [2; 1; 2] None 0
     = Ok (ROne (array1 [2; 3; 4; 5; 6])).
Proof.
  destruct apply_ragged_reassembly as (Hrule & Hred & Htrans).
  split; [|split].
  - refine (proj1 (proj1 (proj2 (proj2 (proj2
      (Hrule Z Z row_sum [mk_nd [2; 3]%nat [1; 2; 5; 3; 4; 6]]
         [2; 1] None 1 [IList 10; IList 11] (IList 10) [IList 11] _ _))))
      [10; 11] _)).
    + reflexivity.
    + reflexivity.
    + repeat constructor.
  - apply (proj1 (Hred Z Z sumZ [1; 2; 3; 4; 5] [2; 1; 2]
                   ltac:(discriminate) ltac:(repeat constructor; lia) eq_refl)).
  - apply (Htrans Z Z (map Z.succ) [1; 2; 3; 4; 5] [2; 1; 2]
             ltac:(discriminate) ltac:(repeat constructor; lia) eq_refl).
Defined.

(** ** subset: a criterion on another dimension *)

Lemma lookup_mem {V} (k : string) (m : list (string * V)) (v : V) :
  lookup k m = Some v -> mem k (map fst m) = true.
Proof.
  induction m as [|[k' v'] m IH]; [discriminate|]. cbn [lookup map fst mem existsb].
  destruct (String.eqb k k'); [reflexivity|]. intros H. apply IH, H.
Qed.

Lemma ds_getitem_known (ds : Dataset) (name : string) (v : variable) :
  ds_getitem ds name = Ok v -> key_known ds (KName name) = true.
Proof.
  unfold ds_getitem, key_known. cbn [key_names forallb]. rewrite andb_true_r.
  destruct (lookup name (ds_variables ds)) eqn:Ev.
  - intros _. rewrite (lookup_mem _ _ Ev). reflexivity.
  - destruct (lookup name (ds_sizes ds)) eqn:Es; [|discriminate].
    intros _. rewrite (lookup_mem _ _ Es). apply orb_true_r.
Qed.

Lemma subset_criterion_other_dimension (ds : Dataset)
      (rowsize_var_name row_dim_name obs_dim_name : string)
      (masks : list bool * list bool) (name : string) (c : criterion) (v : variable) :
  ds_getitem ds name = Ok v ->
  mem row_dim_name (var_dims v) = false ->
  mem obs_dim_name (var_dims v) = false ->
  subset_criterion ds rowsize_var_name row_dim_name obs_dim_name masks (KName name, c)
  = Ok masks.
Proof.
  intros Hv Hrow Hobs. unfold subset_criterion. cbn [fst snd].
  rewrite (ds_getitem_known _ _ Hv). unfold key_variables. rewrite Hv.
  cbn [bind fst snd]. rewrite Hrow, Hobs. destruct masks. reflexivity.
Qed.

Lemma foldM_app {S X} (f : S -> X -> result S) (l1 l2 : list X) (s : S) :
  foldM f (l1 ++ l2) s = (s' <- foldM f l1 s ;; foldM f l2 s').
Proof.
  revert s. induction l1 as [|x l1 IH]; intros s; [reflexivity|].
  cbn [app foldM]. destruct (f s x); [apply IH | reflexivity].
Qed.

(** C10.  A criterion whose key names one variable (or dimension) of the
    dataset whose dimensions include neither the row dimension nor the
    observation dimension is passed over: its turn of the loop raises
    nothing and leaves both masks as they are, whatever the value of the
    criterion, and [subset] returns what it returns without the
    criterion. *)
Theorem subset_ignores_other_dimension :
  forall (ds : Dataset) (id_var_name rowsize_var_name row_dim_name obs_dim_name : string)
         (name : string) (c : criterion) (v : variable),
    ds_getitem ds name = Ok v ->
    mem row_dim_name (var_dims v) = false ->
    mem obs_dim_name (var_dims v) = false ->
    (forall masks,
        subset_criterion ds rowsize_var_name row_dim_name obs_dim_name masks
                         (KName name, c) = Ok masks)
    /\ (forall criteria1 criteria2 full_rows,
        subset ds (criteria1 ++ (KName name, c) :: criteria2)
               id_var_name rowsize_var_name row_dim_name obs_dim_name full_rows
        = subset ds (criteria1 ++ criteria2)
                 id_var_name rowsize_var_name row_dim_name obs_dim_name full_rows).
Proof.
  intros ds id_var_name rowsize_var_name row_dim_name obs_dim_name name c v
         Hv Hrow Hobs.
  assert (Hstep : forall masks,
             subset_criterion ds rowsize_var_name row_dim_name obs_dim_name masks
                              (KName name, c) = Ok masks).
  { intros masks. eapply subset_criterion_other_dimension; eassumption. }
  split; [exact Hstep|].
  intros criteria1 criteria2 full_rows. unfold subset.
  destruct (ds_size ds row_dim_name); [|reflexivity].
  destruct (ds_size ds obs_dim_name); [|reflexivity]. cbn [bind].
  rewrite !foldM_app.
  destruct (foldM _ criteria1 _) as [masks|]; [|reflexivity].
  cbn [bind foldM]. rewrite Hstep. reflexivity.
Qed.

Lemma subset_ignores_other_dimension_witness :
  subset example_dataset
         ([(KName "lat", CRange 20 30)] ++ (KName "z", CScalar 5) :: [])
         "id" "rowsize" "rows" "obs" false
  = subset example_dataset ([(KName "lat", CRange 20 30)] ++ [])
           "id" "rowsize" "rows" "obs" false.
Proof.
  refine (proj2 (@subset_ignores_other_dimension example_dataset "id" "rowsize"
                   "rows" "obs" "z" (CScalar 5) (mk_var ["depth"%string] [0; 100])
                   _ _ _)
                _ _ _); reflexivity.
Defined.

(** ** Masks over the observations *)

Lemma slice_bound_inside (n i : Z) : 0 <= n -> 0 <= slice_bound n i <= n.
Proof. intros Hn. unfold slice_bound. destruct (Z.ltb_spec i 0); lia. Qed.

Lemma length_set_slice {A} (mask : list A) (start stop : Z) (v : A) :
  List.length (set_slice mask start stop v) = List.length mask.
Proof.
  unfold set_slice.
  pose proof (slice_bound_inside start (len_nonneg mask)) as H1.
  pose proof (slice_bound_inside stop (len_nonneg mask)) as H2.
  unfold len in *.
  match goal with
  | |- context [Nat.ltb ?x ?y] => destruct (Nat.ltb_spec x y) as [Hlt|]
  end; [|reflexivity].
  rewrite !length_app, length_firstn, repeat_length, length_skipn. lia.
Qed.

Lemma nth_set_slice {A} (mask : list A) (a b : Z) (v : A) (p : nat) :
  0 <= a -> 0 <= b -> (p < List.length mask)%nat ->
  nth_error (set_slice mask a b v) p
  = if (a <=? Z.of_nat p) && (Z.of_nat p <? b) then Some v else nth_error mask p.
Proof.
  intros Ha Hb Hp. unfold set_slice, slice_bound, len.
  destruct (Z.ltb_spec a 0); [lia|]. destruct (Z.ltb_spec b 0); [lia|].
  set (n := List.length mask) in *.
  set (lo := Z.to_nat (Z.min a (Z.of_nat n))).
  set (hi := Z.to_nat (Z.min b (Z.of_nat n))).
  assert (Hlo : (lo <= n)%nat) by (unfold lo; lia).
  assert (Hhi : (hi <= n)%nat) by (unfold hi; lia).
  destruct (Nat.ltb_spec lo hi) as [Hlt | Hge].
  - destruct (Nat.lt_ge_cases p lo) as [Hp1 | Hp1].
    + rewrite nth_error_app1 by (rewrite length_firstn; fold n; lia).
      rewrite nth_error_firstn. destruct (Nat.ltb_spec p lo); [|lia].
      destruct (Z.leb_spec a (Z.of_nat p)); [unfold lo in *; lia | reflexivity].
    + rewrite nth_error_app2 by (rewrite length_firstn; fold n; lia).
      rewrite length_firstn. fold n. replace (Nat.min lo n) with lo by lia.
      destruct (Nat.lt_ge_cases p hi) as [Hp2 | Hp2].
      * rewrite nth_error_app1 by (rewrite repeat_length; lia).
        rewrite nth_error_repeat by lia.
        destruct (Z.leb_spec a (Z.of_nat p)); [|unfold lo in *; lia].
        destruct (Z.ltb_spec (Z.of_nat p) b); [reflexivity | unfold hi in *; lia].
      * rewrite nth_error_app2 by (rewrite repeat_length; lia).
        rewrite repeat_length, nth_error_skipn.
        replace (hi + (p - lo - (hi - lo)))%nat with p by lia.
        destruct (Z.ltb_spec (Z.of_nat p) b); [unfold hi in *; lia|].
        rewrite andb_false_r. reflexivity.
  - destruct (Z.leb_spec a (Z.of_nat p)); [|reflexivity].
    destruct (Z.ltb_spec (Z.of_nat p) b); [unfold lo, hi in *; lia | reflexivity].
Qed.

Lemma py_getitem_value (x : list Z) (i a : Z) :
  0 <= i -> py_getitem x i = Ok a -> a = nth (Z.to_nat i) x 0.
Proof.
  intros Hi. unfold py_getitem. destruct (Z.ltb_spec i 0); [lia|].
  destruct (_ || _); [discriminate|].
  destruct (nth_error x (Z.to_nat i)) eqn:E; [|discriminate].
  intros [= <-]. symmetry. apply nth_error_nth, E.
Qed.

(** After [set_rows] a position holds [v] if it lies in one of the rows,
    and what it held otherwise. *)
Lemma set_rows_nth (traj_idx : list Z) (v : bool) (rows : list Z)
      (mask mask' : list bool) :
  Forall (fun t => 0 <= t) traj_idx ->
  Forall (fun i => 0 <= i) rows ->
  set_rows traj_idx v rows mask = Ok mask' ->
  List.length mask' = List.length mask /\
  forall p, (p < List.length mask)%nat ->
    (nth_error mask' p = Some v /\ exists i, In i rows /\ in_row traj_idx i p)
    \/ (nth_error mask' p = nth_error mask p
        /\ forall i, In i rows -> ~ in_row traj_idx i p).
Proof.
  intros Htraj Hrows. revert mask.
  induction Hrows as [|i rows Hi Hrows IH]; intros mask H.
  - injection H as <-. split; [reflexivity|]. intros p _. right.
    split; [reflexivity | intros i []].
  - cbn [set_rows] in H.
    destruct (py_getitem traj_idx i) as [a|] eqn:Ea; [|discriminate].
    destruct (py_getitem traj_idx (i + 1)) as [b|] eqn:Eb; [|discriminate].
    cbn [bind] in H. apply IH in H. destruct H as [Hlen Hnth].
    rewrite length_set_slice in Hlen, Hnth. split; [exact Hlen|].
    apply py_getitem_value in Ea; [|lia]. apply py_getitem_value in Eb; [|lia].
    assert (Ha : 0 <= a).
    { subst a. destruct (nth_in_or_default (Z.to_nat i) traj_idx 0) as [Hin | ->];
        [|lia]. rewrite Forall_forall in Htraj. apply Htraj, Hin. }
    assert (Hb : 0 <= b).
    { subst b. destruct (nth_in_or_default (Z.to_nat (i + 1)) traj_idx 0) as [Hin | ->];
        [|lia]. rewrite Forall_forall in Htraj. apply Htraj, Hin. }
    intros p Hp. specialize (Hnth p Hp).
    destruct Hnth as [[Hv (j & Hj & Hin)] | [Hsame Hout]].
    + left. split; [exact Hv|]. exists j. split; [right; exact Hj | exact Hin].
    + rewrite (nth_set_slice mask v Ha Hb Hp) in Hsame.
      destruct ((a <=? Z.of_nat p) && (Z.of_nat p <? b)) eqn:E.
      * left. split; [exact Hsame|]. exists i. split; [left; reflexivity|].
        apply andb_true_iff in E. destruct E as [E1 E2].
        apply Z.leb_le in E1. apply Z.ltb_lt in E2. unfold in_row. lia.
      * right. split; [exact Hsame|]. intros j [<- | Hj]; [|apply Hout, Hj].
        unfold in_row. intros [H1 H2]. rewrite <- Ea, <- Eb in *.
        apply andb_false_iff in E.
        destruct E as [E | E]; [apply Z.leb_gt in E | apply Z.ltb_ge in E]; lia.
Qed.

Lemma np_where_from_spec (k : Z) (mask : list bool) (j : Z) :
  In j (np_where_from k mask) <->
  exists i, nth_error mask i = Some true /\ j = k + Z.of_nat i.
Proof.
  revert k. induction mask as [|b mask IH]; intros k.
  - cbn. split; [tauto|]. intros (i & Hi & _). destruct i; discriminate.
  - assert (Hshift : In j (np_where_from (k + 1) mask) <->
                     exists i, nth_error (b :: mask) (S i) = Some true
                               /\ j = k + Z.of_nat (S i)).
    { rewrite IH. split; intros (i & Hi & ->); exists i; split; auto; lia. }
    cbn [np_where_from]. destruct b.
    + cbn [In]. rewrite Hshift. split.
      * intros [<- | (i & Hi & ->)]; [exists O | exists (S i)]; split; auto.
        cbn. lia.
      * intros ([|i] & Hi & ->); [left; cbn; lia | right; exists i; auto].
    + rewrite Hshift. split.
      * intros (i & Hi & ->). exists (S i). auto.
      * intros ([|i] & Hi & ->); [discriminate | exists i; auto].
Qed.

Lemma np_where_spec (mask : list bool) (j : Z) :
  In j (np_where mask) <-> exists i, nth_error mask i = Some true /\ j = Z.of_nat i.
Proof. unfold np_where. rewrite np_where_from_spec. reflexivity. Qed.

Lemma np_where_nonneg (mask : list bool) : Forall (fun i => 0 <= i) (np_where mask).
Proof.
  apply Forall_forall. intros j Hj. apply np_where_spec in Hj.
  destruct Hj as (i & _ & ->). lia.
Qed.

Lemma In_np_compress {A} (mask : list bool) (d : list A) (u : A) :
  In u (np_compress mask d) <->
  exists p, nth_error mask p = Some true /\ nth_error d p = Some u.
Proof.
  revert d. induction mask as [|b mask IH]; intros d.
  - cbn. split; [tauto|]. intros (p & Hp & _). destruct p; discriminate.
  - destruct d as [|a d].
    + cbn. split; [tauto|]. intros (p & _ & Hp). destruct p; discriminate.
    + assert (Hshift : In u (np_compress mask d) <->
                       exists p, nth_error (b :: mask) (S p) = Some true
                                 /\ nth_error (a :: d) (S p) = Some u)
        by apply IH.
      cbn [np_compress]. destruct b.
      * cbn [In]. rewrite Hshift. split.
        -- intros [<- | (p & Hp)]; [exists O; auto | exists (S p); exact Hp].
        -- intros ([|p] & Hm & Hd); [left; cbn in Hd; congruence | right; exists p; auto].
      * rewrite Hshift. split.
        -- intros (p & Hp). exists (S p). exact Hp.
        -- intros ([|p] & Hm & Hd); [discriminate | exists p; auto].
Qed.

Lemma length_np_compress {A} (mask : list bool) (d : list A) :
  List.length mask = List.length d ->
  List.length (np_compress mask d) = count_true mask.
Proof.
  revert d. induction mask as [|b mask IH]; intros d H; [reflexivity|].
  destruct d as [|a d]; [discriminate|]. injection H as H.
  unfold count_true in *. cbn [np_compress filter id]. destruct b; cbn [List.length];
    rewrite IH by exact H; reflexivity.
Qed.

(** ** Identifiers repeated by the row sizes *)

Lemma np_repeat_rows (ids sizes rep : list Z) :
  List.length ids = List.length sizes ->
  np_repeat ids sizes = Ok rep ->
  rep = repeat_rows ids sizes /\ Forall (fun r => 0 <= r) sizes.
Proof.
  intros Hlen. unfold np_repeat.
  destruct (existsb (fun r => r <? 0) sizes) eqn:E; [discriminate|].
  rewrite Hlen, Nat.eqb_refl. intros [= <-]. split; [reflexivity|].
  apply Forall_forall. intros r Hr.
  destruct (Z.ltb_spec r 0) as [Hneg|]; [|assumption].
  assert (existsb (fun r => r <? 0) sizes = true).
  { apply existsb_exists. exists r. split; [exact Hr | apply Z.ltb_lt, Hneg]. }
  congruence.
Qed.

Lemma cumsum_from_nonneg (acc : Z) (l : list Z) :
  0 <= acc -> Forall (fun r => 0 <= r) l ->
  Forall (fun t => 0 <= t) (acc :: cumsum_from acc l).
Proof.
  intros Hacc Hl. constructor; [exact Hacc|].
  eapply Forall_impl; [|apply cumsum_from_lower, Hl]. cbn beta. intros; lia.
Qed.

(** A position inside the range of row [i] holds the identifier of row
    [i]. *)
Lemma repeat_rows_row (ids sizes : list Z) (acc : Z) (i p : nat) (u : Z) :
  Forall (fun r => 0 <= r) sizes ->
  List.length ids = List.length sizes ->
  nth_error ids i = Some u ->
  nth i (acc :: cumsum_from acc sizes) 0 <= acc + Z.of_nat p
    < nth (S i) (acc :: cumsum_from acc sizes) 0 ->
  nth_error (repeat_rows ids sizes) p = Some u.
Proof.
  intros Hpos. revert ids acc i p.
  induction Hpos as [|r sizes Hr Hpos IH]; intros ids acc i p Hlen Hi Hin.
  - destruct ids; [destruct i; discriminate | discriminate].
  - destruct ids as [|id ids]; [discriminate|]. injection Hlen as Hlen.
    unfold repeat_rows. cbn [combine map concat fst snd].
    fold (repeat_rows ids sizes). cbn [cumsum_from] in Hin.
    destruct i as [|i].
    + cbn [nth] in Hin. cbn in Hi. injection Hi as ->.
      rewrite nth_error_app1 by (rewrite repeat_length; lia).
      apply nth_error_repeat. lia.
    + cbn [nth_error] in Hi.
      change (nth (S i) (acc :: acc + r :: cumsum_from (acc + r) sizes) 0)
        with (nth i (acc + r :: cumsum_from (acc + r) sizes) 0) in Hin.
      change (nth (S (S i)) (acc :: acc + r :: cumsum_from (acc + r) sizes) 0)
        with (nth (S i) (acc + r :: cumsum_from (acc + r) sizes) 0) in Hin.
      assert (Hlow : acc + r <= nth i (acc + r :: cumsum_from (acc + r) sizes) 0).
      { assert (Hi' : (i < List.length ((acc + r)%Z :: cumsum_from (acc + r)%Z sizes))%nat).
        { cbn [List.length]. rewrite length_cumsum_from, <- Hlen.
          assert (i < List.length ids)%nat by (apply nth_error_Some; congruence). lia. }
        pose proof (@cumsum_from_lower (acc + r) sizes Hpos) as Hl.
        assert (Hall : Forall (fun e => acc + r <= e)
                         (acc + r :: cumsum_from (acc + r) sizes))
          by (constructor; [lia | exact Hl]).
        rewrite Forall_forall in Hall. apply Hall, nth_In, Hi'. }
      rewrite nth_error_app2 by (rewrite repeat_length; lia).
      rewrite repeat_length.
      apply (IH ids (acc + r) i (p - Z.to_nat r)%nat Hlen Hi). lia.
Qed.

(** Every position of the repeated identifiers lies in the range of a row
    and holds its identifier. *)
Lemma repeat_rows_position (ids sizes : list Z) (acc : Z) (p : nat) (u : Z) :
  Forall (fun r => 0 <= r) sizes ->
  List.length ids = List.length sizes ->
  nth_error (repeat_rows ids sizes) p = Some u ->
  exists i, nth_error ids i = Some u /\
            nth i (acc :: cumsum_from acc sizes) 0 <= acc + Z.of_nat p
              < nth (S i) (acc :: cumsum_from acc sizes) 0.
Proof.
  intros Hpos. revert ids acc p.
  induction Hpos as [|r sizes Hr Hpos IH]; intros ids acc p Hlen Hp.
  - destruct ids; [|discriminate]. destruct p; discriminate.
  - destruct ids as [|id ids]; [discriminate|]. injection Hlen as Hlen.
    unfold repeat_rows in Hp. cbn [combine map concat fst snd] in Hp.
    fold (repeat_rows ids sizes) in Hp.
    destruct (Nat.lt_ge_cases p (Z.to_nat r)) as [Hlt | Hge].
    + rewrite nth_error_app1 in Hp by (rewrite repeat_length; lia).
      rewrite nth_error_repeat in Hp by lia. injection Hp as <-.
      exists O. split; [reflexivity|]. cbn [cumsum_from nth]. lia.
    + rewrite nth_error_app2 in Hp by (rewrite repeat_length; lia).
      rewrite repeat_length in Hp.
      destruct (IH ids (acc + r) _ Hlen Hp) as (i & Hi & Hin).
      exists (S i). split; [exact Hi|]. cbn [cumsum_from].
      change (nth (S i) (acc :: acc + r :: cumsum_from (acc + r) sizes) 0)
        with (nth i (acc + r :: cumsum_from (acc + r) sizes) 0).
      change (nth (S (S i)) (acc :: acc + r :: cumsum_from (acc + r) sizes) 0)
        with (nth (S i) (acc + r :: cumsum_from (acc + r) sizes) 0).
      lia.
Qed.

(** ** np.unique and np.argsort *)

Lemma In_insert_unique (x y : Z) (l : list Z) :
  In y (insert_unique x l) <-> y = x \/ In y l.
Proof.
  induction l as [|z l IH]; cbn [insert_unique].
  - cbn. intuition.
  - destruct (Z.ltb_spec x z); [cbn; intuition|].
    destruct (Z.eqb_spec x z); [subst; cbn; intuition|].
    cbn [In]. rewrite IH. intuition.
Qed.

Lemma insert_unique_increasing (lo x : Z) (l : list Z) :
  lo < x -> increasing_from lo l -> increasing_from lo (insert_unique x l).
Proof.
  revert lo. induction l as [|z l IH]; intros lo Hlo Hl; cbn [insert_unique].
  - cbn. auto.
  - destruct Hl as [Hz Hl].
    destruct (Z.ltb_spec x z); [cbn; auto|].
    destruct (Z.eqb_spec x z); [cbn; auto|].
    cbn [increasing_from]. split; [exact Hz|]. apply IH; [lia | exact Hl].
Qed.

Lemma increasing_from_bound (lo : Z) (l : list Z) :
  increasing_from lo l -> Forall (fun x => lo < x) l.
Proof.
  revert lo. induction l as [|z l IH]; intros lo H; [constructor|].
  destruct H as [Hz H]. constructor; [exact Hz|].
  eapply Forall_impl; [|apply IH, H]. cbn beta. intros; lia.
Qed.

Lemma increasing_from_NoDup (lo : Z) (l : list Z) :
  increasing_from lo l -> NoDup l.
Proof.
  revert lo. induction l as [|z l IH]; intros lo H; [constructor|].
  destruct H as [Hz H]. constructor; [|apply (IH z), H].
  intros Hin. apply increasing_from_bound in H.
  rewrite Forall_forall in H. specialize (H z Hin). lia.
Qed.

Lemma np_unique_increasing (l : list Z) :
  exists lo, increasing_from lo (np_unique l).
Proof.
  induction l as [|x l [lo IH]]; [exists 0; exact I|].
  exists (Z.min lo x - 1). cbn [np_unique fold_right]. fold (np_unique l).
  apply insert_unique_increasing; [lia|].
  apply increasing_from_weaken with (lo := lo); [lia | exact IH].
Qed.

Lemma np_unique_NoDup (l : list Z) : NoDup (np_unique l).
Proof. destruct (np_unique_increasing l) as [lo H]. eapply increasing_from_NoDup, H. Qed.

Lemma In_np_unique (x : Z) (l : list Z) : In x (np_unique l) <-> In x l.
Proof.
  induction l as [|y l IH]; [reflexivity|].
  cbn [np_unique fold_right]. fold (np_unique l).
  rewrite In_insert_unique, IH. cbn. intuition.
Qed.

Lemma insert_by_key_perm (p : Z * Z) (l : list (Z * Z)) :
  Permutation (insert_by_key p l) (p :: l).
Proof.
  induction l as [|q l IH]; [reflexivity|]. cbn [insert_by_key].
  destruct (fst q <? fst p); [|reflexivity].
  rewrite IH. apply perm_swap.
Qed.

Lemma np_argsort_perm (keys : list Z) :
  Permutation (np_argsort keys) (map Z.of_nat (seq 0 (List.length keys))).
Proof.
  unfold np_argsort.
  set (positions := map Z.of_nat (seq 0 (List.length keys))).
  assert (Hlen : List.length keys = List.length positions)
    by (unfold positions; rewrite length_map, length_seq; reflexivity).
  assert (Hsort : forall l : list (Z * Z),
             Permutation (fold_right insert_by_key [] l) l).
  { induction l as [|p l IH]; [reflexivity|]. cbn [fold_right].
    rewrite insert_by_key_perm, IH. reflexivity. }
  rewrite (Permutation_map snd (Hsort (combine keys positions))).
  clearbody positions. revert positions Hlen.
  induction keys as [|k keys IH]; intros [|q positions] Hlen; try discriminate;
    [reflexivity|].
  cbn [combine map snd]. rewrite IH by (injection Hlen; auto). reflexivity.
Qed.

Lemma sumZ_perm (l l' : list Z) : Permutation l l' -> sumZ l = sumZ l'.
Proof. induction 1; cbn [sumZ]; lia. Qed.

Lemma map_nth_positions (a : list Z) :
  map (fun i => nth (Z.to_nat i) a 0) (map Z.of_nat (seq 0 (List.length a))) = a.
Proof.
  rewrite map_map.
  assert (H : forall pre, map (fun i => nth (Z.to_nat (Z.of_nat i)) (pre ++ a) 0)
                              (seq (List.length pre) (List.length a)) = a).
  { induction a as [|x a IH]; intros pre; [reflexivity|].
    cbn [List.length seq map]. rewrite Nat2Z.id, app_nth2, Nat.sub_diag by lia.
    cbn [nth]. f_equal. specialize (IH (pre ++ [x])).
    rewrite <- app_assoc, length_app in IH. cbn [List.length app] in IH.
    rewrite Nat.add_1_r in IH. exact IH. }
  apply (H []).
Qed.

(** Reordering the counts does not change their sum. *)
Lemma sumZ_np_take_argsort (counts keys : list Z) :
  List.length keys = List.length counts ->
  sumZ (np_take counts (np_argsort keys)) = sumZ counts
  /\ List.length (np_take counts (np_argsort keys)) = List.length counts.
Proof.
  intros Hlen. unfold np_take. split.
  - rewrite (sumZ_perm (Permutation_map _ (np_argsort_perm keys))).
    rewrite Hlen, map_nth_positions. reflexivity.
  - rewrite length_map, (Permutation_length (np_argsort_perm keys)).
    rewrite length_map, length_seq. exact Hlen.
Qed.

Lemma sumZ_indicator (a : Z) (U : list Z) :
  NoDup U -> In a U -> sumZ (map (fun u => if u =? a then 1 else 0) U) = 1.
Proof.
  induction 1 as [|u U Hu Hnd IH]; intros Hin; [destruct Hin|].
  cbn [map sumZ]. destruct Hin as [-> | Hin].
  - rewrite Z.eqb_refl.
    assert (H0 : sumZ (map (fun u => if u =? a then 1 else 0) U) = 0).
    { clear IH Hnd. induction U as [|w U IH]; [reflexivity|].
      cbn [map sumZ]. destruct (Z.eqb_spec w a) as [-> | _];
        [exfalso; apply Hu; left; reflexivity|].
      rewrite IH; [reflexivity|]. intros H. apply Hu. right. exact H. }
    lia.
  - destruct (Z.eqb_spec u a) as [-> | _]; [contradiction|]. rewrite IH by exact Hin.
    reflexivity.
Qed.

(** The numbers of occurrences of the distinct values add up to the
    length. *)
Lemma sumZ_counts (U l : list Z) :
  NoDup U -> (forall x, In x l -> In x U) ->
  sumZ (map (fun u => count_of u l) U) = len l.
Proof.
  intros Hnd. induction l as [|a l IH]; intros Hin.
  - unfold count_of, len. cbn. clear. induction U; cbn [map sumZ]; lia.
  - assert (Hsplit : forall V,
               sumZ (map (fun u => count_of u (a :: l)) V)
               = sumZ (map (fun u => if u =? a then 1 else 0) V)
                 + sumZ (map (fun u => count_of u l) V)).
    { induction V as [|w V IHV]; [reflexivity|]. cbn [map sumZ]. rewrite IHV.
      unfold count_of, len. cbn [filter]. destruct (w =? a); cbn [List.length]; lia. }
    rewrite Hsplit, sumZ_indicator, IH.
    + unfold len. cbn [List.length]. lia.
    + intros x Hx. apply Hin. right. exact Hx.
    + exact Hnd.
    + apply Hin. left. reflexivity.
Qed.

Lemma sumZ_unique_counts (l : list Z) :
  sumZ (map (fun u => count_of u l) (np_unique l)) = len l.
Proof.
  apply sumZ_counts; [apply np_unique_NoDup|]. intros x Hx. apply In_np_unique, Hx.
Qed.

(** ** Selection in a dataset *)

Lemma lookup_map_values {V W} (h : string -> V -> W) (k : string)
      (m : list (string * V)) :
  lookup k (map (fun kv => (fst kv, h (fst kv) (snd kv))) m)
  = match lookup k m with Some v => Some (h k v) | None => None end.
Proof.
  induction m as [|[k' v] m IH]; [reflexivity|]. cbn [map lookup fst snd].
  destruct (String.eqb_spec k k') as [-> | _]; [reflexivity | exact IH].
Qed.

Lemma lookup_indexers_obs (row_dim_name obs_dim_name : string) (mr mo : list bool) :
  lookup obs_dim_name (indexers row_dim_name obs_dim_name mr mo) = Some mo.
Proof.
  unfold indexers. destruct (String.eqb_spec row_dim_name obs_dim_name) as [-> | Hne].
  - cbn. rewrite String.eqb_refl. reflexivity.
  - cbn. destruct (String.eqb_spec obs_dim_name row_dim_name); [congruence|].
    rewrite String.eqb_refl. reflexivity.
Qed.

Lemma lookup_indexers_row (row_dim_name obs_dim_name : string) (mr mo : list bool) :
  row_dim_name <> obs_dim_name ->
  lookup row_dim_name (indexers row_dim_name obs_dim_name mr mo) = Some mr.
Proof.
  intros Hne. unfold indexers.
  destruct (String.eqb_spec row_dim_name obs_dim_name); [congruence|].
  cbn. rewrite String.eqb_refl. reflexivity.
Qed.

Lemma isel_sizes (ds ds_sub : Dataset) (ixs : list (string * list bool))
      (name : string) (mask : list bool) :
  isel ds ixs = Ok ds_sub -> lookup name ixs = Some mask ->
  lookup name (ds_sizes ds) <> None ->
  dim_size ds_sub name = count_true mask.
Proof.
  unfold isel. destruct (mapM _ ixs); [|discriminate]. cbn [bind].
  intros [= <-] Hmask Hsome. unfold dim_size. cbn [ds_sizes].
  assert (Hmap : map (fun dn : string * nat =>
                        match lookup (fst dn) ixs with
                        | Some mask => (fst dn, count_true mask)
                        | None => dn
                        end) (ds_sizes ds)
                 = map (fun dn => (fst dn,
                                   match lookup (fst dn) ixs with
                                   | Some mask => count_true mask
                                   | None => snd dn
                                   end)) (ds_sizes ds)).
  { apply map_ext. intros [d n]. cbn [fst snd]. destruct (lookup d ixs); reflexivity. }
  rewrite Hmap.
  rewrite (lookup_map_values (fun d n => match lookup d ixs with
                                         | Some mask => count_true mask
                                         | None => n
                                         end)).
  destruct (lookup name (ds_sizes ds)); [|congruence]. rewrite Hmask. reflexivity.
Qed.

Lemma isel_mask_length (ds ds_sub : Dataset) (ixs : list (string * list bool))
      (name : string) (mask : list bool) :
  isel ds ixs = Ok ds_sub -> In (name, mask) ixs ->
  lookup name (ds_sizes ds) = Some (List.length mask).
Proof.
  unfold isel. destruct (mapM _ ixs) as [us|] eqn:E; [|discriminate]. intros _ Hin.
  apply mapM_Forall2 in E.
  assert (Hall : forall ix, In ix ixs ->
             exists n, ds_size ds (fst ix) = Ok n /\ n = List.length (snd ix)).
  { clear -E. induction E as [|ix u ixs us Hix _ IH]; intros ix' Hin';
      [destruct Hin'|].
    destruct Hin' as [<- | Hin']; [|apply IH, Hin'].
    destruct (ds_size ds (fst ix)) as [n|]; [|discriminate]. cbn [bind] in Hix.
    destruct (Nat.eqb_spec n (List.length (snd ix))); [|discriminate].
    exists n. auto. }
  destruct (Hall _ Hin) as (n & Hn & ->). cbn [fst snd] in Hn.
  unfold ds_size in Hn. destruct (lookup name (ds_sizes ds)); [|discriminate].
  congruence.
Qed.

Lemma isel_variables (ds ds_sub : Dataset) (ixs : list (string * list bool))
      (name : string) :
  isel ds ixs = Ok ds_sub ->
  lookup name (ds_variables ds_sub)
  = match lookup name (ds_variables ds) with
    | Some v => Some (isel_variable ds ixs v)
    | None => None
    end.
Proof.
  unfold isel. destruct (mapM _ ixs); [|discriminate]. cbn [bind].
  intros [= <-]. cbn [ds_variables].
  apply (lookup_map_values (fun _ v => isel_variable ds ixs v)).
Qed.

Lemma blocks_singletons {A} (d : list A) :
  blocks (List.length d) 1 d = map (fun x => [x]) d.
Proof. induction d as [|a d IH]; [reflexivity|]. cbn. rewrite IH. reflexivity. Qed.

Lemma np_compress_map {A B} (f : A -> B) (mask : list bool) (d : list A) :
  np_compress mask (map f d) = map f (np_compress mask d).
Proof.
  revert d. induction mask as [|b mask IH]; intros [|a d]; try reflexivity.
  cbn [map np_compress]. destruct b; cbn [map]; rewrite IH; reflexivity.
Qed.

(** A variable over the row dimension keeps the values of the rows of the
    mask. *)
Lemma isel_row_variable (ds : Dataset) (row_dim_name obs_dim_name : string)
      (mr mo : list bool) (values : list Z) :
  row_dim_name <> obs_dim_name ->
  List.length values = dim_size ds row_dim_name ->
  isel_variable ds (indexers row_dim_name obs_dim_name mr mo)
                (mk_var [row_dim_name] values)
  = mk_var [row_dim_name] (np_compress mr values).
Proof.
  intros Hne Hlen. unfold isel_variable, indexers.
  destruct (String.eqb_spec row_dim_name obs_dim_name); [congruence|].
  cbn [var_dims var_values map fold_left]. unfold isel_dim at 2.
  cbn [fst snd index_of]. rewrite String.eqb_refl.
  unfold isel_dim. cbn [fst snd index_of].
  destruct (String.eqb_spec obs_dim_name row_dim_name); [congruence|].
  cbn [snd compress_axis nd_size fold_right]. rewrite <- Hlen.
  rewrite blocks_singletons, np_compress_map, concat_singletons. reflexivity.
Qed.

Lemma set_values_sizes (ds ds' : Dataset) (name : string) (values : list Z) :
  set_values ds name values = Ok ds' -> ds_sizes ds' = ds_sizes ds.
Proof.
  unfold set_values. destruct (lookup name (ds_variables ds)).
  - destruct (is_dimension_coordinate _ _); [discriminate|].
    destruct (_ && _); [|discriminate]. intros [= <-]. reflexivity.
  - destruct (lookup name (ds_sizes ds)); discriminate.
Qed.

Lemma lookup_replace {V} (name k : string) (w : V) (m : list (string * V)) :
  lookup k (map (fun nv => if String.eqb (fst nv) name then (fst nv, w) else nv) m)
  = if String.eqb k name
    then match lookup k m with Some _ => Some w | None => None end
    else lookup k m.
Proof.
  induction m as [|[k' v] m IH]; [destruct (String.eqb k name); reflexivity|].
  cbn [map lookup fst].
  destruct (String.eqb_spec k' name) as [Hk' | Hk']; cbn [lookup];
    destruct (String.eqb_spec k k') as [Hk | Hk].
  - subst. rewrite String.eqb_refl. reflexivity.
  - exact IH.
  - subst. destruct (String.eqb_spec k' name); [congruence | reflexivity].
  - exact IH.
Qed.

Lemma set_values_variables (ds ds' : Dataset) (name : string) (values : list Z) :
  set_values ds name values = Ok ds' ->
  exists v, lookup name (ds_variables ds) = Some v
            /\ List.length values = List.length (var_values v)
            /\ lookup name (ds_variables ds') = Some (mk_var (var_dims v) values)
            /\ forall k, k <> name ->
                 lookup k (ds_variables ds') = lookup k (ds_variables ds).
Proof.
  unfold set_values. destruct (lookup name (ds_variables ds)) as [v|] eqn:Ev.
  - destruct (is_dimension_coordinate _ _); [discriminate|].
    destruct (Nat.eqb _ 1); [|discriminate]. cbn [andb].
    destruct (Nat.eqb_spec (List.length values) (List.length (var_values v)));
      [|discriminate].
    intros [= <-]. exists v. cbn [ds_variables]. repeat split; try assumption.
    + rewrite lookup_replace, String.eqb_refl, Ev. reflexivity.
    + intros k Hk. rewrite lookup_replace.
      destruct (String.eqb_spec k name); [congruence | reflexivity].
  - destruct (lookup name (ds_sizes ds)); discriminate.
Qed.

Lemma np_repeat_nonneg (a repeats rep : list Z) :
  np_repeat a repeats = Ok rep -> Forall (fun r => 0 <= r) repeats.
Proof.
  unfold np_repeat. destruct (existsb (fun r => r <? 0) repeats) eqn:E; [discriminate|].
  intros _. apply Forall_forall. intros r Hr.
  destruct (Z.ltb_spec r 0) as [Hneg|]; [|assumption].
  assert (existsb (fun r => r <? 0) repeats = true).
  { apply existsb_exists. exists r. split; [exact Hr | apply Z.ltb_lt, Hneg]. }
  congruence.
Qed.

Lemma bool_index_inv {A} (a : list A) (mask : list bool) (r : list A) :
  bool_index a mask = Ok r ->
  List.length a = List.length mask /\ r = np_compress mask a.
Proof.
  unfold bool_index. destruct (Nat.eqb_spec (List.length a) (List.length mask));
    [|discriminate].
  intros [= <-]. auto.
Qed.

Lemma logical_and_inv (a b r : list bool) :
  logical_and a b = Ok r ->
  List.length a = List.length b /\ List.length r = List.length a /\
  forall i x y, nth_error a i = Some x -> nth_error b i = Some y ->
                nth_error r i = Some (x && y).
Proof.
  unfold logical_and. destruct (Nat.eqb_spec (List.length a) (List.length b)) as [Hlen|];
    [|discriminate].
  intros [= <-]. split; [exact Hlen|]. split.
  - rewrite length_map, length_combine. lia.
  - clear Hlen. revert b. induction a as [|x0 a IH]; intros b i x y Ha Hb.
    + destruct i; discriminate.
    + destruct b as [|y0 b]; [destruct i; discriminate|].
      destruct i as [|i]; cbn in *; [congruence | eapply IH; eassumption].
Qed.

Lemma count_true_mono (a b : list bool) :
  List.length a = List.length b ->
  (forall p, nth_error a p = Some true -> nth_error b p = Some true) ->
  (count_true a <= count_true b)%nat.
Proof.
  revert b. induction a as [|x a IH]; intros [|y b] Hlen H; try discriminate;
    [unfold count_true; cbn; lia|].
  injection Hlen as Hlen.
  assert (Hrest : (count_true a <= count_true b)%nat).
  { apply IH; [exact Hlen|]. intros p Hp. apply (H (S p)), Hp. }
  unfold count_true in *. destruct x.
  - specialize (H O eq_refl). injection H as ->. cbn. lia.
  - destruct y; cbn; lia.
Qed.

(** ** subset: what a successful call went through *)

Lemma ds_getitem_variable (ds : Dataset) (name : string) (v : variable) :
  lookup name (ds_variables ds) = Some v -> ds_getitem ds name = Ok v.
Proof. intros H. unfold ds_getitem. rewrite H. reflexivity. Qed.

Lemma subset_select_selection (ds ds' : Dataset)
      (id_var_name rowsize_var_name row_dim_name obs_dim_name : string)
      (full_rows : bool) (ids sizes : list Z) (mask_row mask_obs : list bool) :
  lookup id_var_name (ds_variables ds) = Some (mk_var [row_dim_name] ids) ->
  lookup rowsize_var_name (ds_variables ds) = Some (mk_var [row_dim_name] sizes) ->
  subset_select ds id_var_name rowsize_var_name row_dim_name obs_dim_name
                full_rows mask_row mask_obs = Ok ds' ->
  exists mask_row1 mask_obs2 ids_with_mask_obs2,
    selection ds rowsize_var_name row_dim_name obs_dim_name full_rows ids sizes
              mask_row mask_obs mask_row1 mask_obs2 ids_with_mask_obs2 ds'.
Proof.
  intros Hid Hsize. unfold subset_select.
  rewrite (ds_getitem_variable _ _ Hsize). cbn [bind var_values].
  destruct (set_rows _ false _ mask_obs) as [mask_obs1|] eqn:E1; [|discriminate].
  cbn [bind]. rewrite (ds_getitem_variable _ _ Hid). cbn [bind var_values].
  destruct (np_repeat ids sizes) as [repeated|] eqn:E2; [|discriminate]. cbn [bind].
  destruct (bool_index repeated mask_obs1) as [iw1|] eqn:E3; [|discriminate].
  cbn [bind].
  destruct (logical_and mask_row _) as [mask_row1|] eqn:E4; [|discriminate].
  cbn [bind]. destruct full_rows.
  - destruct (set_rows _ true _ mask_obs1) as [mask_obs2|] eqn:E5; [|discriminate].
    cbn [bind].
    destruct (bool_index repeated mask_obs2) as [iw2|] eqn:E6; [|discriminate].
    cbn [bind fst snd]. intros H.
    exists mask_row1, mask_obs2, iw2. exists mask_obs1, repeated, iw1.
    repeat (split; [assumption|]). split; [split; assumption|].
    destruct (existsb id mask_row1); cbn [negb] in H.
    + right. split; [reflexivity|].
      destruct (isel ds _) as [ds_sub|] eqn:E7; [|discriminate]. cbn [bind] in H.
      exists ds_sub. split; [reflexivity | exact H].
    + left. injection H as <-. auto.
  - cbn [bind fst snd]. intros H.
    exists mask_row1, mask_obs1, iw1. exists mask_obs1, repeated, iw1.
    repeat (split; [assumption|]). split; [split; reflexivity|].
    destruct (existsb id mask_row1); cbn [negb] in H.
    + right. split; [reflexivity|].
      destruct (isel ds _) as [ds_sub|] eqn:E7; [|discriminate]. cbn [bind] in H.
      exists ds_sub. split; [reflexivity | exact H].
    + left. injection H as <-. auto.
Qed.

Lemma subset_selection (ds ds' : Dataset) (criteria : list (key * criterion))
      (id_var_name rowsize_var_name row_dim_name obs_dim_name : string)
      (full_rows : bool) (ids sizes : list Z) :
  lookup id_var_name (ds_variables ds) = Some (mk_var [row_dim_name] ids) ->
  lookup rowsize_var_name (ds_variables ds) = Some (mk_var [row_dim_name] sizes) ->
  subset ds criteria id_var_name rowsize_var_name row_dim_name obs_dim_name full_rows
  = Ok ds' ->
  exists masks mask_row1 mask_obs2 ids_with_mask_obs2,
    foldM (subset_criterion ds rowsize_var_name row_dim_name obs_dim_name) criteria
          (repeat true (dim_size ds row_dim_name),
           repeat true (dim_size ds obs_dim_name)) = Ok masks
    /\ selection ds rowsize_var_name row_dim_name obs_dim_name full_rows ids sizes
                 (fst masks) (snd masks) mask_row1 mask_obs2 ids_with_mask_obs2 ds'.
Proof.
  intros Hid Hsize. unfold subset, ds_size, dim_size.
  destruct (lookup row_dim_name (ds_sizes ds)) as [n_rows|]; [|discriminate].
  destruct (lookup obs_dim_name (ds_sizes ds)) as [n_obs|]; [|discriminate].
  cbn [bind].
  destruct (foldM _ criteria _) as [masks|] eqn:E; [|discriminate]. cbn [bind].
  intros H. exists masks.
  destruct (subset_select_selection _ _ _ _ _ _ _ Hid Hsize H) as (mr1 & mo2 & iw2 & Hsel).
  exists mr1, mo2, iw2. split; [reflexivity | exact Hsel].
Qed.

Lemma In_indexers_row (row_dim_name obs_dim_name : string) (mr mo : list bool) :
  row_dim_name <> obs_dim_name ->
  In (row_dim_name, mr) (indexers row_dim_name obs_dim_name mr mo).
Proof.
  intros Hne. unfold indexers.
  destruct (String.eqb_spec row_dim_name obs_dim_name); [congruence|].
  left. reflexivity.
Qed.

Lemma In_indexers_obs (row_dim_name obs_dim_name : string) (mr mo : list bool) :
  In (obs_dim_name, mo) (indexers row_dim_name obs_dim_name mr mo).
Proof.
  unfold indexers. destruct (String.eqb row_dim_name obs_dim_name);
    [left | right; left]; reflexivity.
Qed.

(** The dataset that is materialized from the two final masks. *)
Lemma materialized (ds ds_sub ds' : Dataset)
      (id_var_name rowsize_var_name row_dim_name obs_dim_name : string)
      (ids sizes : list Z) (mr mo : list bool) (values : list Z) :
  row_dim_name <> obs_dim_name ->
  id_var_name <> rowsize_var_name ->
  lookup id_var_name (ds_variables ds) = Some (mk_var [row_dim_name] ids) ->
  List.length ids = dim_size ds row_dim_name ->
  lookup rowsize_var_name (ds_variables ds) = Some (mk_var [row_dim_name] sizes) ->
  List.length sizes = dim_size ds row_dim_name ->
  isel ds (indexers row_dim_name obs_dim_name mr mo) = Ok ds_sub ->
  set_values ds_sub rowsize_var_name values = Ok ds' ->
  dim_size ds' obs_dim_name = count_true mo
  /\ dim_size ds' row_dim_name = count_true mr
  /\ var_data ds' rowsize_var_name = values
  /\ var_data ds' id_var_name = np_compress mr ids
  /\ List.length values = count_true mr
  /\ List.length mr = List.length ids
  /\ List.length mo = dim_size ds obs_dim_name.
Proof.
  intros Hdims Hnames Hid Hidlen Hsize Hsizelen Hisel Hset.
  assert (Hrow : lookup row_dim_name (ds_sizes ds) = Some (List.length mr))
    by (eapply isel_mask_length; [exact Hisel | apply In_indexers_row, Hdims]).
  assert (Hobs : lookup obs_dim_name (ds_sizes ds) = Some (List.length mo))
    by (eapply isel_mask_length; [exact Hisel | apply In_indexers_obs]).
  assert (Hmr : List.length mr = dim_size ds row_dim_name)
    by (unfold dim_size; rewrite Hrow; reflexivity).
  assert (Hmo : List.length mo = dim_size ds obs_dim_name)
    by (unfold dim_size; rewrite Hobs; reflexivity).
  assert (Hsizes : ds_sizes ds' = ds_sizes ds_sub)
    by (eapply set_values_sizes, Hset).
  destruct (set_values_variables _ _ _ Hset) as (v & Hv & Hvlen & Hnew & Hother).
  rewrite isel_variables with (ds := ds) (ixs := indexers row_dim_name obs_dim_name mr mo)
    in Hv by exact Hisel.
  rewrite Hsize in Hv.
  rewrite isel_row_variable in Hv by assumption. injection Hv as <-.
  cbn [var_values] in Hvlen.
  rewrite length_np_compress in Hvlen by congruence.
  split; [|split; [|split; [|split; [|split; [|split]]]]].
  - unfold dim_size at 1. rewrite Hsizes. fold (dim_size ds_sub obs_dim_name).
    eapply isel_sizes; [exact Hisel | apply lookup_indexers_obs | congruence].
  - unfold dim_size at 1. rewrite Hsizes. fold (dim_size ds_sub row_dim_name).
    eapply isel_sizes; [exact Hisel | apply lookup_indexers_row, Hdims | congruence].
  - unfold var_data. rewrite Hnew. reflexivity.
  - unfold var_data. rewrite (Hother _ Hnames).
    rewrite isel_variables with (ds := ds) (ixs := indexers row_dim_name obs_dim_name mr mo)
      by exact Hisel.
    rewrite Hid, isel_row_variable by assumption. reflexivity.
  - exact Hvlen.
  - congruence.
  - exact Hmo.
Qed.

(** C5.  On a ragged dataset, when [subset] returns with [full_rows=False]
    and with [full_rows=True] for the same criteria, the second result has
    at least as many observations as the first and both hold the same
    rows: the same number of rows and the same identifiers, in the same
    order. *)
Theorem subset_full_rows :
  forall (ds : Dataset) (criteria : list (key * criterion))
         (id_var_name rowsize_var_name row_dim_name obs_dim_name : string)
         (ds_part ds_full : Dataset),
    ragged_dataset ds id_var_name rowsize_var_name row_dim_name obs_dim_name ->
    subset ds criteria id_var_name rowsize_var_name row_dim_name obs_dim_name false
    = Ok ds_part ->
    subset ds criteria id_var_name rowsize_var_name row_dim_name obs_dim_name true
    = Ok ds_full ->
    (dim_size ds_part obs_dim_name <= dim_size ds_full obs_dim_name)%nat
    /\ dim_size ds_full row_dim_name = dim_size ds_part row_dim_name
    /\ var_data ds_full id_var_name = var_data ds_part id_var_name.
Proof.
  intros ds criteria id_var_name rowsize_var_name row_dim_name obs_dim_name
         ds_part ds_full (Hdims & Hnames & (ids & Hid & Hidlen) & (sizes & Hsize & Hsizelen))
         Hpart Hfull.
  destruct (@subset_selection ds ds_part criteria id_var_name rowsize_var_name
              row_dim_name obs_dim_name false ids sizes Hid Hsize Hpart)
    as (masks & mr1 & mo2 & iw2 & Hfold & Hsel).
  destruct (@subset_selection ds ds_full criteria id_var_name rowsize_var_name
              row_dim_name obs_dim_name true ids sizes Hid Hsize Hfull)
    as (masks' & mr1' & mo2' & iw2' & Hfold' & Hsel').
  rewrite Hfold in Hfold'. injection Hfold' as <-.
  destruct Hsel as (mo1 & rep & iw1 & E1 & E2 & E3 & E4 & [-> ->] & Hres).
  destruct Hsel' as (mo1' & rep' & iw1' & E1' & E2' & E3' & E4' & [E5 E6] & Hres').
  rewrite E1 in E1'. injection E1' as <-.
  rewrite E2 in E2'. injection E2' as <-.
  rewrite E3 in E3'. injection E3' as <-.
  rewrite E4 in E4'. injection E4' as <-.
  destruct Hres as [[Hnone ->] | [Hsome (ds_sub & Hisel & Hset)]];
    destruct Hres' as [[Hnone' ->] | [Hsome' (ds_sub' & Hisel' & Hset')]];
    try congruence.
  - repeat split. apply Nat.le_refl.
  - destruct (@materialized ds ds_sub ds_part id_var_name rowsize_var_name
                row_dim_name obs_dim_name ids sizes mr1 mo1 _
                Hdims Hnames Hid Hidlen Hsize Hsizelen Hisel Hset)
      as (Ho & Hr & _ & Hi & _ & _ & Hmo).
    destruct (@materialized ds ds_sub' ds_full id_var_name rowsize_var_name
                row_dim_name obs_dim_name ids sizes mr1 mo2' _
                Hdims Hnames Hid Hidlen Hsize Hsizelen Hisel' Hset')
      as (Ho' & Hr' & _ & Hi' & _ & _ & Hmo').
    rewrite Ho, Ho', Hr, Hr', Hi, Hi'. split; [|split; reflexivity].
    assert (Hpos : Forall (fun r => 0 <= r) sizes)
      by (eapply np_repeat_nonneg, E2).
    assert (Htraj : Forall (fun t => 0 <= t) (rowsize_to_index sizes)).
    { rewrite rowsize_to_index_cons. apply cumsum_from_nonneg; [lia | exact Hpos]. }
    destruct (@set_rows_nth (rowsize_to_index sizes) true (np_where mr1) mo1 mo2'
                Htraj (np_where_nonneg mr1) E5) as [Hlen Hnth].
    apply count_true_mono; [symmetry; exact Hlen|].
    intros p Hp.
    assert (Hlt : (p < List.length mo1)%nat) by (apply nth_error_Some; congruence).
    destruct (Hnth p Hlt) as [[Hv _] | [Hsame _]]; [exact Hv | congruence].
Qed.

Lemma subset_full_rows_witness :
  exists ds_part ds_full,
    subset example_dataset [(KName "lat", CRange 20 20)]
           "id" "rowsize" "rows" "obs" false = Ok ds_part
    /\ subset example_dataset [(KName "lat", CRange 20 20)]
              "id" "rowsize" "rows" "obs" true = Ok ds_full
    /\ (dim_size ds_part "obs" <= dim_size ds_full "obs")%nat
    /\ var_data ds_full "id" = var_data ds_part "id".
Proof.
  eexists. eexists. split; [reflexivity|]. split; [reflexivity|].
  refine ((fun H => conj (proj1 H) (proj2 (proj2 H)))
            (@subset_full_rows example_dataset [(KName "lat", CRange 20 20)]
               "id" "rowsize" "rows" "obs" _ _ _ eq_refl eq_refl)).
  split; [discriminate|]. split; [discriminate|]. split.
  - exists [7; 8]. split; reflexivity.
  - exists [1; 2]. split; reflexivity.
Defined.

(** ** subset: the rows that survive *)

Lemma in_row_of_nat (traj_idx : list Z) (i p : nat) :
  in_row traj_idx (Z.of_nat i) p <->
  nth i traj_idx 0 <= 0 + Z.of_nat p < nth (S i) traj_idx 0.
Proof.
  unfold in_row. rewrite Nat2Z.id.
  replace (Z.to_nat (Z.of_nat i + 1)) with (S i) by lia.
  rewrite Z.add_0_l. reflexivity.
Qed.

Lemma nth_error_np_in1d (a values : list Z) (i : nat) (x : Z) :
  nth_error a i = Some x ->
  nth_error (np_in1d a values) i = Some (existsb (Z.eqb x) values).
Proof. intros H. unfold np_in1d. rewrite nth_error_map, H. reflexivity. Qed.

Lemma existsb_eqb_In (x : Z) (l : list Z) : In x l -> existsb (Z.eqb x) l = true.
Proof.
  intros H. apply existsb_exists. exists x. split; [exact H | apply Z.eqb_refl].
Qed.

Section Survivors.
Variables ids sizes : list Z.
Variables mask_row mask_obs mask_obs1 mask_row1 : list bool.
Variables repeated ids_with_mask_obs1 : list Z.
Hypothesis Hlen : List.length ids = List.length sizes.
Hypothesis Hrows :
  set_rows (rowsize_to_index sizes) false (np_where (map negb mask_row)) mask_obs
  = Ok mask_obs1.
Hypothesis Hrepeat : np_repeat ids sizes = Ok repeated.
Hypothesis Hindex : bool_index repeated mask_obs1 = Ok ids_with_mask_obs1.
Hypothesis Hand :
  logical_and mask_row (np_in1d ids (np_unique ids_with_mask_obs1)) = Ok mask_row1.

Lemma survivors_sizes_nonneg : Forall (fun r => 0 <= r) sizes.
Proof using Hrepeat. eapply np_repeat_nonneg, Hrepeat. Qed.

Lemma survivors_traj_nonneg : Forall (fun t => 0 <= t) (rowsize_to_index sizes).
Proof.
  rewrite rowsize_to_index_cons.
  apply cumsum_from_nonneg; [lia | apply survivors_sizes_nonneg].
Qed.

Lemma survivors_repeated : repeated = repeat_rows ids sizes.
Proof using Hlen Hrepeat. apply (np_repeat_rows ids sizes Hlen Hrepeat). Qed.

(** An observation kept after the first propagation belongs to a row that
    is kept after the second. *)
Lemma kept_observation_row (p : nat) (u : Z) :
  nth_error mask_obs1 p = Some true ->
  nth_error repeated p = Some u ->
  exists i, nth_error mask_row1 i = Some true /\ nth_error ids i = Some u.
Proof.
  intros Hp Hu.
  destruct (logical_and_inv _ _ Hand) as (Hlen_and & _ & Hnth_and).
  unfold np_in1d in Hlen_and. rewrite length_map in Hlen_and.
  destruct (bool_index_inv _ _ Hindex) as [Hlen_rep Hiw].
  destruct (@set_rows_nth (rowsize_to_index sizes) false
              (np_where (map negb mask_row)) mask_obs mask_obs1
              survivors_traj_nonneg (np_where_nonneg _) Hrows) as [Hlen1 Hnth1].
  rewrite survivors_repeated in Hu.
  destruct (@repeat_rows_position ids sizes 0 p u survivors_sizes_nonneg Hlen Hu)
    as (i & Hi & Hin).
  exists i. split; [|exact Hi].
  assert (Hlt : (i < List.length mask_row)%nat)
    by (rewrite Hlen_and; apply nth_error_Some; congruence).
  destruct (nth_error mask_row i) as [x|] eqn:Ex;
    [|apply nth_error_None in Ex; lia].
  assert (Hx : x = true).
  { destruct x; [reflexivity|]. exfalso.
    assert (Hplt : (p < List.length mask_obs)%nat)
      by (rewrite <- Hlen1; apply nth_error_Some; congruence).
    assert (Hrow : In (Z.of_nat i) (np_where (map negb mask_row))).
    { apply np_where_spec. exists i. split; [|reflexivity].
      rewrite nth_error_map, Ex. reflexivity. }
    destruct (Hnth1 p Hplt) as [[Hv _] | [_ Hout]]; [congruence|].
    apply (Hout _ Hrow). apply in_row_of_nat.
    rewrite rowsize_to_index_cons. exact Hin. }
  subst x.
  rewrite (Hnth_and i true _ Ex
             (@nth_error_np_in1d ids (np_unique ids_with_mask_obs1) i u Hi)).
  rewrite existsb_eqb_In; [reflexivity|].
  apply In_np_unique. rewrite Hiw. apply In_np_compress. exists p.
  rewrite survivors_repeated. auto.
Qed.

(** The same after the observations of the kept rows are all taken back. *)
Lemma kept_observation_row_full (mask_obs2 : list bool) (p : nat) (u : Z) :
  set_rows (rowsize_to_index sizes) true (np_where mask_row1) mask_obs1
  = Ok mask_obs2 ->
  nth_error mask_obs2 p = Some true ->
  nth_error repeated p = Some u ->
  exists i, nth_error mask_row1 i = Some true /\ nth_error ids i = Some u.
Proof.
  intros Hfull Hp Hu.
  destruct (logical_and_inv _ _ Hand) as (Hlen_and & Hlen_r1 & _).
  unfold np_in1d in Hlen_and. rewrite length_map in Hlen_and.
  destruct (@set_rows_nth (rowsize_to_index sizes) true (np_where mask_row1)
              mask_obs1 mask_obs2 survivors_traj_nonneg (np_where_nonneg _) Hfull)
    as [Hlen2 Hnth2].
  assert (Hplt : (p < List.length mask_obs1)%nat)
    by (rewrite <- Hlen2; apply nth_error_Some; congruence).
  destruct (Hnth2 p Hplt) as [[_ (j & Hj & Hin)] | [Hsame _]].
  - apply np_where_spec in Hj. destruct Hj as (i & Hi & ->).
    exists i. split; [exact Hi|].
    assert (Hlt : (i < List.length ids)%nat)
      by (rewrite <- Hlen_and, <- Hlen_r1; apply nth_error_Some; congruence).
    destruct (nth_error ids i) as [u'|] eqn:Eu; [|apply nth_error_None in Eu; lia].
    apply in_row_of_nat in Hin. rewrite rowsize_to_index_cons in Hin.
    pose proof (@repeat_rows_row ids sizes 0 i p u' survivors_sizes_nonneg Hlen Eu Hin)
      as Hrep.
    rewrite survivors_repeated in Hu. congruence.
  - apply kept_observation_row with (p := p); congruence.
Qed.

End Survivors.

Lemma sumZ_recomputed_rowsize (l : list Z) :
  sumZ (recomputed_rowsize l) = len l
  /\ List.length (recomputed_rowsize l) = List.length (np_unique l).
Proof.
  unfold recomputed_rowsize.
  destruct (@sumZ_np_take_argsort (map (fun u => count_of u l) (np_unique l))
              (map (fun u => first_index u l) (np_unique l)))
    as [Hsum Hlen]; [rewrite !length_map; reflexivity|].
  split.
  - rewrite Hsum. apply sumZ_unique_counts.
  - rewrite Hlen, length_map. reflexivity.
Qed.

(** C2.  On a ragged dataset, whatever the criteria and [full_rows], the
    dataset that [subset] returns has row sizes that sum to the number of
    its observations, and the identifiers of its rows are distinct and are
    identifiers of the original dataset. *)
Theorem subset_invariant :
  forall (ds : Dataset) (criteria : list (key * criterion))
         (id_var_name rowsize_var_name row_dim_name obs_dim_name : string)
         (full_rows : bool) (ds' : Dataset),
    ragged_dataset ds id_var_name rowsize_var_name row_dim_name obs_dim_name ->
    subset ds criteria id_var_name rowsize_var_name row_dim_name obs_dim_name full_rows
    = Ok ds' ->
    sumZ (var_data ds' rowsize_var_name) = Z.of_nat (dim_size ds' obs_dim_name)
    /\ NoDup (var_data ds' id_var_name)
    /\ incl (var_data ds' id_var_name) (var_data ds id_var_name).
Proof.
  intros ds criteria id_var_name rowsize_var_name row_dim_name obs_dim_name
         full_rows ds'
         (Hdims & Hnames & (ids & Hid & Hidlen) & (sizes & Hsize & Hsizelen)) Hsub.
  destruct (@subset_selection ds ds' criteria id_var_name rowsize_var_name
              row_dim_name obs_dim_name full_rows ids sizes Hid Hsize Hsub)
    as (masks & mr1 & mo2 & iw2 & _ & Hsel).
  destruct Hsel as (mo1 & rep & iw1 & E1 & E2 & E3 & E4 & E5 & Hres).
  destruct Hres as [[_ ->] | [_ (ds_sub & Hisel & Hset)]].
  { repeat split; [constructor | intros x []]. }
  destruct (@materialized ds ds_sub ds' id_var_name rowsize_var_name
              row_dim_name obs_dim_name ids sizes mr1 mo2 _
              Hdims Hnames Hid Hidlen Hsize Hsizelen Hisel Hset)
    as (Hobs & _ & Hvalues & Hids & Hvlen & Hmr & _).
  assert (Hlen : List.length ids = List.length sizes) by congruence.
  assert (Hiw2 : List.length rep = List.length mo2 /\ iw2 = np_compress mo2 rep).
  { destruct full_rows.
    - destruct E5 as [_ E6]. apply bool_index_inv, E6.
    - destruct E5 as [-> ->]. apply bool_index_inv, E3. }
  destruct Hiw2 as [Hreplen Hiw2].
  destruct (sumZ_recomputed_rowsize iw2) as [Hsum Hcount].
  rewrite Hvalues, Hids, Hobs. split; [|split].
  - rewrite Hsum. unfold len. rewrite Hiw2, length_np_compress by congruence.
    reflexivity.
  - apply NoDup_incl_NoDup with (l := np_unique iw2).
    + apply np_unique_NoDup.
    + rewrite length_np_compress by exact Hmr. rewrite <- Hcount, Hvlen.
      apply Nat.le_refl.
    + intros u Hu. apply (proj1 (In_np_unique _ _)) in Hu. rewrite Hiw2 in Hu.
      apply (proj1 (In_np_compress _ _ _)) in Hu. destruct Hu as (p & Hp & Hrep).
      apply In_np_compress.
      destruct full_rows.
      * destruct E5 as [E5 _].
        apply (@kept_observation_row_full ids sizes (fst masks) (snd masks) mo1 mr1
                 rep iw1 Hlen E1 E2 E3 E4 mo2 p u E5 Hp Hrep).
      * destruct E5 as [-> _].
        apply (@kept_observation_row ids sizes (fst masks) (snd masks) mo1 mr1
                 rep iw1 Hlen E1 E2 E3 E4 p u Hp Hrep).
  - unfold var_data. rewrite Hid. cbn [var_values]. intros u Hu.
    apply (proj1 (In_np_compress _ _ _)) in Hu. destruct Hu as (p & _ & Hp).
    eapply nth_error_In, Hp.
Qed.

Lemma subset_invariant_witness :
  exists ds',
    subset example_dataset [(KName "lat", CRange 20 20)]
           "id" "rowsize" "rows" "obs" false = Ok ds'
    /\ sumZ (var_data ds' "rowsize") = Z.of_nat (dim_size ds' "obs")
    /\ NoDup (var_data ds' "id").
Proof.
  eexists. split; [reflexivity|].
  refine ((fun H => conj (proj1 H) (proj1 (proj2 H)))
            (@subset_invariant example_dataset [(KName "lat", CRange 20 20)]
               "id" "rowsize" "rows" "obs" false _ _ eq_refl)).
  split; [discriminate|]. split; [discriminate|]. split.
  - exists [7; 8]. split; reflexivity.
  - exists [1; 2]. split; reflexivity.
Defined.

(** * Further properties *)

(** ** apply_ragged on one flat array, row by row *)

(** A function that maps every row to a vector gives the vectors one after
    the other. *)
Lemma apply_ragged_rowwise {A B} (func : list (ndarray A) -> result (pyval B))
      (h : list A -> list B) (x : list A) (rowsize : list Z) :
  (forall row, func [array1 row] = Ok (Single (OArr (array1 (h row))))) ->
  rowsize <> [] -> Forall (fun r => 0 <= r) rowsize -> sumZ rowsize = len x ->
  apply_ragged func [array1 x] rowsize None 0
  = Ok (ROne (array1 (concat (map h (split_rows x rowsize))))).
Proof.
  intros Hfunc Hne Hpos Hsum. unfold apply_ragged.
  rewrite apply_rows_1d by assumption.
  rewrite mapM_ok with (g := fun rows : list (ndarray A) =>
                               Single (OArr (array1 (h (data (hd (array1 []) rows)))))).
  - cbn [bind]. rewrite !map_map. cbn [hd array1 data wrap wrap_out].
    rewrite <- (map_map h (fun l => IArray (mk_nd [List.length l] l))).
    apply reassemble_vectors; [|reflexivity].
    intros H. apply map_eq_nil in H. apply (split_rows_nonempty x Hne H).
  - intros rows Hin. apply in_map_iff in Hin. destruct Hin as (row & <- & _).
    apply Hfunc.
Qed.

(** ** prune *)

Lemma keep_long_row {A} (min_len : Q) (row : list A) :
  keep_long min_len [array1 row]
  = Ok (Single (OArr (array1 (if long_enough min_len row then row else [])))).
Proof.
  unfold keep_long, long_enough. cbn [array1 nd_len shape bind keep_if].
  change (Z.of_nat (List.length row)) with (len row).
  destruct (Qle_bool min_len (inject_Z (len row))); reflexivity.
Qed.

Lemma concat_map_if {A} (P : list A -> bool) (rows : list (list A)) :
  concat (map (fun row => if P row then row else []) rows)
  = concat (filter P rows).
Proof.
  induction rows as [|row rows IH]; [reflexivity|].
  cbn [map filter concat]. destruct (P row); cbn [concat app]; rewrite IH; reflexivity.
Qed.

Lemma split_rows_ones {A} (x : list A) :
  split_rows x (repeat 1 (List.length x)) = map (fun a => [a]) x.
Proof.
  induction x as [|a x IH]; [reflexivity|].
  cbn [List.length repeat split_rows map]. change (Z.to_nat 1) with 1%nat.
  cbn [firstn skipn]. rewrite IH. reflexivity.
Qed.

Lemma sumZ_ones (n : nat) : sumZ (repeat 1 n) = Z.of_nat n.
Proof. induction n as [|n IH]; [reflexivity|]. cbn [repeat sumZ]. lia. Qed.

Lemma Forall_repeat {A} (P : A -> Prop) (a : A) (n : nat) :
  P a -> Forall P (repeat a n).
Proof. intros H. induction n; constructor; assumption. Qed.

Lemma concat_map_keep (P : Z -> bool) (l : list Z) :
  concat (map (fun r => if P r then [r] else []) l) = filter P l.
Proof.
  induction l as [|r l IH]; [reflexivity|].
  cbn [map filter concat]. destruct (P r); cbn [app]; rewrite IH; reflexivity.
Qed.

(** The two parts of [prune] on a flat ragged array. *)
Lemma prune_ragged_part {A} (x : list A) (rowsize : list Z) (min_rowsize : Q) :
  rowsize <> [] -> Forall (fun r => 0 <= r) rowsize -> sumZ rowsize = len x ->
  apply_ragged (keep_long min_rowsize) [array1 x] rowsize None 0
  = Ok (ROne (array1 (concat (filter (long_enough min_rowsize)
                                     (split_rows x rowsize))))).
Proof.
  intros Hne Hpos Hsum.
  rewrite apply_ragged_rowwise
    with (h := fun row => if long_enough min_rowsize row then row else [])
    by (assumption || apply keep_long_row).
  rewrite concat_map_if. reflexivity.
Qed.

Lemma prune_rowsize_part (rowsize : list Z) (min_rowsize : Q) :
  rowsize <> [] ->
  apply_ragged (keep_large min_rowsize) [array1 rowsize]
               (repeat 1 (List.length rowsize)) None 0
  = Ok (ROne (array1 (filter (large_enough min_rowsize) rowsize))).
Proof.
  intros Hne.
  assert (Hrows : repeat 1 (List.length rowsize) <> [])
    by (destruct rowsize; [congruence | discriminate]).
  unfold apply_ragged. rewrite apply_rows_1d.
  2: apply Forall_repeat; lia.
  2: rewrite sumZ_ones; reflexivity.
  rewrite split_rows_ones, map_map.
  rewrite mapM_ok with (g := fun rows : list (ndarray Z) =>
      Single (OArr (array1 (if large_enough min_rowsize
                                  (hd 0 (data (hd (array1 []) rows)))
                            then data (hd (array1 []) rows) else [])))).
  - cbn [bind]. rewrite !map_map. cbn [hd array1 data wrap wrap_out].
    rewrite <- (map_map (fun r => if large_enough min_rowsize r then [r] else [])
                        (fun l => IArray (mk_nd [List.length l] l))).
    rewrite <- concat_map_keep.
    apply reassemble_vectors; [|reflexivity].
    destruct rowsize; [congruence | discriminate].
  - intros rows Hin. apply in_map_iff in Hin. destruct Hin as (r & <- & _).
    unfold keep_large, large_enough. cbn [array1 data hd keep_if].
    destruct (Qle_bool min_rowsize (inject_Z r)); reflexivity.
Qed.

Lemma filter_map_comm {A B} (f : A -> B) (P : B -> bool) (l : list A) :
  filter P (map f l) = map f (filter (fun a => P (f a)) l).
Proof.
  induction l as [|a l IH]; [reflexivity|].
  cbn [map filter]. destruct (P (f a)); cbn [map]; rewrite IH; reflexivity.
Qed.

Lemma split_rows_concat {A} (rows : list (list A)) :
  split_rows (concat rows) (map len rows) = rows.
Proof.
  induction rows as [|row rows IH]; [reflexivity|].
  cbn [concat map split_rows]. unfold len at 1 2. rewrite !Nat2Z.id.
  rewrite firstn_app, Nat.sub_diag, firstn_all. cbn [firstn]. rewrite app_nil_r.
  rewrite skipn_app, Nat.sub_diag, skipn_all. cbn [skipn app].
  rewrite IH. reflexivity.
Qed.

Lemma sumZ_lengths {A} (rows : list (list A)) :
  sumZ (map len rows) = len (concat rows).
Proof.
  induction rows as [|row rows IH]; [reflexivity|].
  cbn [map sumZ concat]. rewrite IH. unfold len. rewrite length_app. lia.
Qed.

(** The sizes that are kept are the lengths of the rows that are kept. *)
Lemma kept_sizes {A} (x : list A) (rowsize : list Z) (min_rowsize : Q) :
  Forall (fun r => 0 <= r) rowsize -> sumZ rowsize = len x ->
  filter (large_enough min_rowsize) rowsize
  = map len (filter (long_enough min_rowsize) (split_rows x rowsize)).
Proof.
  intros Hpos Hsum.
  rewrite <- (split_rows_lengths x Hpos Hsum) at 1.
  exact (@filter_map_comm _ _ len (large_enough min_rowsize) (split_rows x rowsize)).
Qed.

(** [prune] on a flat ragged array. *)
Lemma prune_flat {A} (x : list A) (rowsize : list Z) (min_rowsize : Q) :
  rowsize <> [] -> Forall (fun r => 0 <= r) rowsize -> sumZ rowsize = len x ->
  prune (array1 x) rowsize min_rowsize
  = Ok (ROne (array1 (concat (filter (long_enough min_rowsize)
                                     (split_rows x rowsize)))),
        ROne (array1 (filter (large_enough min_rowsize) rowsize))).
Proof.
  intros Hne Hpos Hsum. unfold prune.
  rewrite prune_ragged_part by assumption. cbn [bind].
  rewrite prune_rowsize_part by assumption. reflexivity.
Qed.

Lemma Forall_filter {A} (P : A -> Prop) (f : A -> bool) (l : list A) :
  Forall P l -> Forall P (filter f l).
Proof.
  induction 1 as [|a l Ha _ IH]; [constructor|].
  cbn [filter]. destruct (f a); [constructor|]; assumption.
Qed.

Lemma Forall_filter_true {A} (f : A -> bool) (l : list A) :
  Forall (fun a => f a = true) (filter f l).
Proof.
  induction l as [|a l IH]; [constructor|].
  cbn [filter]. destruct (f a) eqn:E; [constructor|]; assumption.
Qed.

(** When every row is long enough, nothing is removed. *)
Lemma prune_all_kept {A} (x : list A) (rowsize : list Z) (min_rowsize : Q) :
  rowsize <> [] -> Forall (fun r => 0 <= r) rowsize -> sumZ rowsize = len x ->
  Forall (fun r => large_enough min_rowsize r = true) rowsize ->
  prune (array1 x) rowsize min_rowsize
  = Ok (ROne (array1 x), ROne (array1 rowsize)).
Proof.
  intros Hne Hpos Hsum Hall. rewrite prune_flat by assumption.
  assert (Hrows : filter (long_enough min_rowsize) (split_rows x rowsize)
                  = split_rows x rowsize).
  { apply filter_all. rewrite <- (split_rows_lengths x Hpos Hsum) in Hall.
    rewrite Forall_map in Hall. exact Hall. }
  rewrite Hrows, concat_split_rows by assumption.
  rewrite filter_all by assumption. reflexivity.
Qed.

(** What [prune] returns on a flat ragged array: the rows of at least
    [min_rowsize] elements, one after the other, and their sizes (X1). *)
Theorem prune_spec :
  forall (A : Type) (x : list A) (rowsize : list Z) (min_rowsize : Q),
    rowsize <> [] -> Forall (fun r => 0 <= r) rowsize -> sumZ rowsize = len x ->
    prune (array1 x) rowsize min_rowsize
    = Ok (ROne (array1 (concat
                  (filter (fun row => Qle_bool min_rowsize (inject_Z (len row)))
                          (split_rows x rowsize)))),
          ROne (array1 (filter (fun r => Qle_bool min_rowsize (inject_Z r))
                               rowsize))).
Proof. intros A x rowsize min_rowsize. apply prune_flat. Qed.

Lemma prune_spec_witness :
  prune (array1 [1; 2; 3; 0; -1; -2]) [3; 1; 2] 2
  = Ok (ROne (array1 [1; 2; 3; -1; -2]), ROne (array1 [3; 2])).
Proof.
  apply (@prune_spec Z [1; 2; 3; 0; -1; -2] [3; 1; 2] 2).
  - discriminate.
  - repeat constructor; lia.
  - reflexivity.
Defined.

(** The result of [prune] is a ragged array again: its sizes sum to its
    length, none of them is below [min_rowsize], and its rows are the rows
    of the input that are long enough, in their order (X2). *)
Theorem prune_consistent :
  forall (A : Type) (x : list A) (rowsize : list Z) (min_rowsize : Q),
    rowsize <> [] -> Forall (fun r => 0 <= r) rowsize -> sumZ rowsize = len x ->
    exists x' rowsize',
      prune (array1 x) rowsize min_rowsize
      = Ok (ROne (array1 x'), ROne (array1 rowsize'))
      /\ sumZ rowsize' = len x'
      /\ Forall (fun r => 0 <= r /\ (min_rowsize <= inject_Z r)%Q) rowsize'
      /\ split_rows x' rowsize'
         = filter (fun row => Qle_bool min_rowsize (inject_Z (len row)))
                  (split_rows x rowsize).
Proof.
  intros A x rowsize min_rowsize Hne Hpos Hsum.
  exists (concat (filter (long_enough min_rowsize) (split_rows x rowsize))),
         (filter (large_enough min_rowsize) rowsize).
  split; [apply prune_flat; assumption|].
  rewrite (kept_sizes x min_rowsize Hpos Hsum).
  split; [apply sumZ_lengths|]. split; [|apply split_rows_concat].
  rewrite <- (kept_sizes x min_rowsize Hpos Hsum).
  pose proof (Forall_filter (large_enough min_rowsize) Hpos) as H1.
  pose proof (Forall_filter_true (large_enough min_rowsize) rowsize) as H2.
  rewrite Forall_forall in *. intros r Hr. split; [apply H1; exact Hr|].
  apply Qle_bool_iff. apply (H2 r Hr).
Qed.

Lemma prune_consistent_witness :
  exists x' rowsize',
    prune (array1 [1; 2; 3; 0; -1; -2]) [3; 1; 2] 2
    = Ok (ROne (array1 x'), ROne (array1 rowsize'))
    /\ sumZ rowsize' = len x'
    /\ Forall (fun r => 0 <= r /\ (2 <= inject_Z r)%Q) rowsize'
    /\ split_rows x' rowsize'
       = filter (fun row => Qle_bool 2 (inject_Z (len row)))
                (split_rows [1; 2; 3; 0; -1; -2] [3; 1; 2]).
Proof.
  apply (@prune_consistent Z [1; 2; 3; 0; -1; -2] [3; 1; 2] 2).
  - discriminate.
  - repeat constructor; lia.
  - reflexivity.
Defined.

(** Pruning twice is pruning once, as long as a row is left; when no row
    is left, the result is a pair of empty arrays, which [prune] does not
    accept (X3). *)
Theorem prune_idempotent :
  forall (A : Type) (x x' : list A) (rowsize rowsize' : list Z) (min_rowsize : Q),
    rowsize <> [] -> Forall (fun r => 0 <= r) rowsize -> sumZ rowsize = len x ->
    prune (array1 x) rowsize min_rowsize
    = Ok (ROne (array1 x'), ROne (array1 rowsize')) ->
    (rowsize' <> [] ->
     prune (array1 x') rowsize' min_rowsize
     = Ok (ROne (array1 x'), ROne (array1 rowsize')))
    /\ (rowsize' = [] ->
        x' = []
        /\ prune (array1 x') rowsize' min_rowsize
           = Raise (IndexError msg_out_of_range)).
Proof.
  intros A x x' rowsize rowsize' min_rowsize Hne Hpos Hsum Hprune.
  rewrite prune_flat in Hprune by assumption.
  injection Hprune as _ Hx _ Hs.
  pose proof (kept_sizes x min_rowsize Hpos Hsum) as Hkept.
  rewrite Hs in Hkept.
  assert (Hsum' : sumZ rowsize' = len x').
  { rewrite Hkept, <- Hx. apply sumZ_lengths. }
  assert (Hpos' : Forall (fun r => 0 <= r) rowsize').
  { rewrite <- Hs. apply Forall_filter. exact Hpos. }
  split.
  - intros Hne'. apply prune_all_kept; try assumption.
    rewrite <- Hs. apply Forall_filter_true.
  - intros ->. assert (Hx' : x' = []).
    { destruct x'; [reflexivity|]. cbn in Hsum'. unfold len in Hsum'.
      cbn [List.length] in Hsum'. lia. }
    split; [exact Hx'|]. rewrite Hx'. reflexivity.
Qed.

Lemma prune_idempotent_witness :
  (([3; 2] : list Z) <> [] ->
   prune (array1 [1; 2; 3; -1; -2]) [3; 2] 2
   = Ok (ROne (array1 [1; 2; 3; -1; -2]), ROne (array1 [3; 2])))
  /\ (([3; 2] : list Z) = [] ->
      [1; 2; 3; -1; -2] = []
      /\ prune (array1 [1; 2; 3; -1; -2]) [3; 2] 2
         = Raise (IndexError msg_out_of_range)).
Proof.
  apply (@prune_idempotent Z [1; 2; 3; 0; -1; -2] [1; 2; 3; -1; -2]
                           [3; 1; 2] [3; 2] 2).
  - discriminate.
  - repeat constructor; lia.
  - reflexivity.
  - reflexivity.
Defined.



(** ** rowsize_to_index *)

Lemma nth_cumsum_from (acc : Z) (l : list Z) (i : nat) :
  (i <= List.length l)%nat ->
  nth i (acc :: cumsum_from acc l) 0 = acc + sumZ (firstn i l).
Proof.
  revert acc i. induction l as [|a l IH]; intros acc i Hi.
  - cbn [List.length] in Hi. assert (i = O) by lia. subst i. cbn. lia.
  - destruct i as [|i]; [cbn; lia|].
    cbn [cumsum_from firstn sumZ]. cbn [List.length] in Hi.
    change (nth (S i) (acc :: (acc + a) :: cumsum_from (acc + a) l) 0)
      with (nth i ((acc + a) :: cumsum_from (acc + a) l) 0).
    rewrite IH by lia. lia.
Qed.

Lemma np_diffZ_cumsum_from (acc : Z) (l : list Z) :
  np_diffZ (acc :: cumsum_from acc l) = l.
Proof.
  revert acc. induction l as [|a l IH]; intros acc; [reflexivity|].
  cbn [cumsum_from].
  change (np_diffZ (acc :: (acc + a) :: cumsum_from (acc + a) l))
    with ((acc + a - acc) :: np_diffZ ((acc + a) :: cumsum_from (acc + a) l)).
  rewrite IH. f_equal. lia.
Qed.

Lemma wrap_int64_range (z : Z) : in_int64 (wrap_int64 z).
Proof.
  unfold in_int64, wrap_int64.
  pose proof (Z.mod_pos_bound (z + 2 ^ 63) (2 ^ 64) ltac:(lia)). lia.
Qed.

Lemma wrap_int64_exact (z : Z) : in_int64 z -> wrap_int64 z = z.
Proof.
  unfold in_int64, wrap_int64. intros H.
  rewrite Z.mod_small by lia. lia.
Qed.

Lemma cumsum_int64_from_range (acc : Z) (l : list Z) :
  Forall in_int64 (cumsum_int64_from acc l).
Proof.
  revert acc. induction l as [|a l IH]; intros acc; [constructor|].
  cbn [cumsum_int64_from]. constructor; [apply wrap_int64_range | apply IH].
Qed.

(** The sums of int64 arithmetic are the exact sums as long as these
    exact sums are int64. *)
Lemma cumsum_int64_from_exact (acc : Z) (l : list Z) :
  Forall in_int64 (cumsum_from acc l) ->
  cumsum_int64_from acc l = cumsum_from acc l.
Proof.
  revert acc. induction l as [|a l IH]; intros acc H; [reflexivity|].
  cbn [cumsum_from] in H. inversion H as [|s l' Hs Hl]; subst.
  cbn [cumsum_int64_from cumsum_from].
  rewrite (wrap_int64_exact Hs), IH by exact Hl. reflexivity.
Qed.

Lemma cumsum_from_upper (acc : Z) (l : list Z) :
  Forall (fun r => 0 <= r) l ->
  Forall (fun e => e <= acc + sumZ l) (cumsum_from acc l).
Proof.
  intros H. revert acc. induction H as [|a l Ha Hl IH]; intros acc; [constructor|].
  cbn [cumsum_from sumZ]. pose proof (sumZ_nonneg Hl).
  constructor; [lia|].
  eapply Forall_impl; [|apply IH]. cbn beta. intros; lia.
Qed.

(** X5.  On row sizes that are int64, [rowsize_to_index] adds in int64;
    its sums are the exact ones if and only if every exact partial sum is
    an int64, which it is for sizes that are not negative and sum to less
    than [2 ** 63].  Then the result has one more entry than there are
    rows, entry [i] being the sum of the first [i] sizes, from 0 to the
    sum of the sizes, and the differences of consecutive entries are the
    sizes again.  Beyond that range a partial sum wraps around. *)
Theorem rowsize_to_index_spec :
  forall rowsize : list Z,
    Forall in_int64 rowsize ->
    (rowsize_to_index_int64 rowsize = rowsize_to_index rowsize
     <-> Forall in_int64 (rowsize_to_index rowsize))
    /\ (Forall (fun r => 0 <= r) rowsize -> sumZ rowsize < 2 ^ 63 ->
        Forall in_int64 (rowsize_to_index rowsize))
    /\ (Forall in_int64 (rowsize_to_index rowsize) ->
        List.length (rowsize_to_index_int64 rowsize) = S (List.length rowsize)
        /\ (forall i, (i <= List.length rowsize)%nat ->
              nth i (rowsize_to_index_int64 rowsize) 0 = sumZ (firstn i rowsize))
        /\ last (rowsize_to_index_int64 rowsize) 0 = sumZ rowsize
        /\ np_diffZ (rowsize_to_index_int64 rowsize) = rowsize).
Proof.
  intros rowsize _.
  assert (Hexact : Forall in_int64 (rowsize_to_index rowsize) ->
                   rowsize_to_index_int64 rowsize = rowsize_to_index rowsize).
  { intros H. apply cumsum_int64_from_exact, H. }
  split; [split; [|exact Hexact]|split].
  - intros <-. apply cumsum_int64_from_range.
  - intros Hpos Hsum. rewrite rowsize_to_index_cons.
    pose proof (sumZ_nonneg Hpos) as Hnn.
    pose proof (cumsum_from_lower 0 Hpos) as Hlo.
    pose proof (cumsum_from_upper 0 Hpos) as Hup.
    constructor; [unfold in_int64; lia|].
    rewrite Forall_forall in *. intros e He.
    specialize (Hlo e He). specialize (Hup e He). cbn beta in Hlo, Hup.
    unfold in_int64. lia.
  - intros H. rewrite (Hexact H).
    split; [apply length_rowsize_to_index|].
    split; [|split].
    + intros i Hi. rewrite rowsize_to_index_cons, nth_cumsum_from by exact Hi. lia.
    + apply rowsize_to_index_last.
    + rewrite rowsize_to_index_cons. apply np_diffZ_cumsum_from.
Qed.

(** The offsets of the example of [rowsize_to_index], and sizes whose sum
    is not an int64. *)
Lemma rowsize_to_index_spec_witness :
  rowsize_to_index_int64 [100; 202; 53] = [0; 100; 302; 355]
  /\ rowsize_to_index_int64 [2 ^ 62; 2 ^ 62] <> rowsize_to_index [2 ^ 62; 2 ^ 62].
Proof.
  split.
  - destruct (@rowsize_to_index_spec [100; 202; 53]) as ((_ & Hexact) & Hrange & _).
    + repeat constructor; unfold in_int64; lia.
    + rewrite Hexact; [reflexivity|].
      apply Hrange; [repeat constructor; lia | reflexivity].
  - destruct (@rowsize_to_index_spec [2 ^ 62; 2 ^ 62]) as ((Hwrap & _) & _).
    + repeat constructor; unfold in_int64; lia.
    + intros H. apply Hwrap in H.
      inversion H as [|? ? _ H1]; subst. inversion H1 as [|? ? _ H2]; subst.
      inversion H2 as [|? ? H3 _]; subst. unfold in_int64 in H3.
      vm_compute in H3. destruct H3 as [_ H3]. discriminate H3.
Defined.

(** ** unpack *)

Lemma rowsize_to_index_app (rs : list Z) (a : Z) :
  rowsize_to_index (rs ++ [a]) = rowsize_to_index rs ++ [sumZ rs + a].
Proof.
  rewrite !rowsize_to_index_cons, cumsum_from_app. reflexivity.
Qed.

(** The offsets between the rows do not depend on the last size. *)
Lemma interior_offsets (rs : list Z) (a : Z) :
  py_slice (rowsize_to_index (rs ++ [a])) 1 (-1) = cumsum_from 0 rs.
Proof.
  rewrite rowsize_to_index_app, rowsize_to_index_cons.
  change ((0 :: cumsum_from 0 rs) ++ [sumZ rs + a])
    with (0 :: (cumsum_from 0 rs ++ [sumZ rs + a])).
  rewrite py_slice_interior. apply removelast_last.
Qed.

Lemma unpack_last_any {A} (arr : ndarray A) (rs : list Z) (a b : Z)
      (rows : option rows_arg) (axis : Z) :
  unpack arr (rs ++ [a]) rows axis = unpack arr (rs ++ [b]) rows axis.
Proof.
  unfold unpack. rewrite !interior_offsets.
  assert (Hrows : selected_rows (rs ++ [a]) rows = selected_rows (rs ++ [b]) rows).
  { unfold selected_rows. rewrite !length_rowsize_to_index, !length_app. reflexivity. }
  rewrite Hrows. reflexivity.
Qed.

Lemma split_rows_app {A} (x : list A) (r1 r2 : list Z) :
  Forall (fun r => 0 <= r) r1 ->
  split_rows x (r1 ++ r2)
  = split_rows x r1 ++ split_rows (skipn (Z.to_nat (sumZ r1)) x) r2.
Proof.
  intros Hpos. revert x. induction Hpos as [|r r1 Hr Hpos IH]; intros x.
  - reflexivity.
  - cbn [app split_rows sumZ]. rewrite IH. rewrite skipn_skipn.
    pose proof (sumZ_nonneg Hpos).
    replace (Z.to_nat (sumZ r1) + Z.to_nat r)%nat with (Z.to_nat (r + sumZ r1)) by lia.
    reflexivity.
Qed.

(** [unpack] of a flat array into all its rows: the rows have the given
    sizes and, one after the other, they are the array (X6). *)
Theorem unpack_roundtrip :
  forall (A : Type) (x : list A) (rowsize : list Z),
    Forall (fun r => 0 <= r) rowsize -> sumZ rowsize = len x ->
    exists rows,
      unpack (array1 x) rowsize None 0 = Ok (map array1 rows)
      /\ List.length rows = List.length rowsize
      /\ map len rows = rowsize
      /\ concat rows = x.
Proof.
  intros A x rowsize Hpos Hsum. exists (split_rows x rowsize).
  split; [apply unpack_1d; assumption|].
  split; [apply length_split_rows|].
  split; [apply split_rows_lengths | apply concat_split_rows]; assumption.
Qed.

Lemma unpack_roundtrip_witness :
  exists rows,
    unpack (array1 [1; 2; 3; 4; 5]) [2; 0; 3] None 0 = Ok (map array1 rows)
    /\ List.length rows = List.length [2; 0; 3]
    /\ map len rows = [2; 0; 3]
    /\ concat rows = [1; 2; 3; 4; 5].
Proof.
  apply (@unpack_roundtrip Z [1; 2; 3; 4; 5] [2; 0; 3]).
  - repeat constructor; lia.
  - reflexivity.
Defined.

(** [unpack] does not look at the last size: the array is cut after the
    other rows and the last row is what is left of it, whether the sizes
    sum to the length or not (X7). *)
Theorem unpack_last_row :
  (forall (A : Type) (arr : ndarray A) (rs : list Z) (a b : Z)
          (rows : option rows_arg) (axis : Z),
      unpack arr (rs ++ [a]) rows axis = unpack arr (rs ++ [b]) rows axis)
  /\ (forall (A : Type) (x : list A) (rs : list Z) (a : Z),
      Forall (fun r => 0 <= r) rs -> sumZ rs <= len x ->
      unpack (array1 x) (rs ++ [a]) None 0
      = Ok (map array1 (split_rows x rs ++ [skipn (Z.to_nat (sumZ rs)) x]))).
Proof.
  split; [intros; apply unpack_last_any|].
  intros A x rs a Hpos Hle.
  rewrite unpack_last_any with (b := len x - sumZ rs).
  rewrite unpack_1d.
  - rewrite split_rows_app by exact Hpos. cbn [split_rows].
    rewrite firstn_all2; [reflexivity|].
    rewrite length_skipn. unfold len. lia.
  - apply Forall_app. split; [exact Hpos|]. constructor; [lia | constructor].
  - rewrite sumZ_app. cbn [sumZ]. lia.
Qed.

Lemma unpack_last_row_witness :
  unpack (array1 [1; 2; 3; 4; 5]) ([2] ++ [1]) None 0
  = Ok (map array1 (split_rows [1; 2; 3; 4; 5] [2]
                    ++ [skipn (Z.to_nat (sumZ [2])) [1; 2; 3; 4; 5]])).
Proof.
  apply (proj2 unpack_last_row Z [1; 2; 3; 4; 5] [2] 1).
  - repeat constructor; lia.
  - cbn. unfold len. cbn. lia.
Defined.

(** The pieces that [unpack] selects the rows from. *)
Lemma unpack_1d_rows {A} (x : list A) (rowsize : list Z) (rows : option rows_arg) :
  rowsize <> [] -> Forall (fun r => 0 <= r) rowsize -> sumZ rowsize = len x ->
  unpack (array1 x) rowsize rows 0
  = mapM (py_getitem (map array1 (split_rows x rowsize)))
         (selected_rows rowsize rows).
Proof.
  intros Hne Hpos Hsum. unfold unpack. rewrite np_split_1d. cbn [bind].
  rewrite unpack_div_points by assumption.
  rewrite rowsize_to_index_cons.
  rewrite slices_split_rows by (assumption || lia).
  reflexivity.
Qed.

(** [x[i]] on a list: a position from the start, or from the end when it
    is negative. *)
Lemma py_getitem_inside {A} (x : list A) (i : Z) (d : A) :
  - len x <= i < len x ->
  py_getitem x i = Ok (nth (Z.to_nat (i mod len x)) x d).
Proof.
  intros Hi. unfold py_getitem.
  assert (Hj : (if i <? 0 then i + len x else i) = i mod len x).
  { destruct (Z.ltb_spec i 0).
    - apply Z.mod_unique with (q := -1); lia.
    - symmetry. apply Z.mod_small. lia. }
  rewrite Hj. pose proof (Z.mod_pos_bound i (len x) ltac:(lia)) as Hm.
  destruct (Z.ltb_spec (i mod len x) 0); [lia|].
  destruct (Z.leb_spec (len x) (i mod len x)); [lia|]. cbn [orb].
  destruct (nth_error x (Z.to_nat (i mod len x))) as [a|] eqn:E.
  - rewrite (nth_error_nth _ _ d E). reflexivity.
  - apply nth_error_None in E. unfold len in *. lia.
Qed.

Lemma py_getitem_outside {A} (x : list A) (i : Z) :
  i < - len x \/ len x <= i ->
  py_getitem x i = Raise (IndexError msg_out_of_range).
Proof.
  intros Hi. unfold py_getitem. pose proof (len_nonneg x).
  destruct (Z.ltb_spec i 0).
  - destruct (Z.ltb_spec (i + len x) 0); [reflexivity | lia].
  - destruct (Z.ltb_spec i 0); [lia|].
    destruct (Z.leb_spec (len x) i); [reflexivity | lia].
Qed.

Lemma mapM_getitem_outside {A} (x : list A) (l : list Z) :
  Exists (fun i => i < - len x \/ len x <= i) l ->
  mapM (py_getitem x) l = Raise (IndexError msg_out_of_range).
Proof.
  induction 1 as [i l Hi | i l _ IH].
  - rewrite mapM_cons, py_getitem_outside by exact Hi. reflexivity.
  - rewrite mapM_cons, IH.
    destruct (py_getitem x i) as [a|e] eqn:E; [reflexivity|].
    rewrite (py_getitem_raise _ _ E). reflexivity.
Qed.

(** [unpack] with [rows]: the rows that are named, in the order they are
    named in, a negative number counting from the last row; a number
    that is not one of a row is an [IndexError]; one number stands for
    the list of it (X8). *)
Theorem unpack_rows :
  forall (A : Type) (x : list A) (rowsize : list Z),
    rowsize <> [] -> Forall (fun r => 0 <= r) rowsize -> sumZ rowsize = len x ->
    (forall l : list Z,
        Forall (fun i => - len rowsize <= i < len rowsize) l ->
        unpack (array1 x) rowsize (Some (RowsList l)) 0
        = Ok (map (fun i => array1 (nth (Z.to_nat (i mod len rowsize))
                                        (split_rows x rowsize) []))
                  l))
    /\ (forall l : list Z,
        Exists (fun i => i < - len rowsize \/ len rowsize <= i) l ->
        unpack (array1 x) rowsize (Some (RowsList l)) 0
        = Raise (IndexError msg_out_of_range))
    /\ (forall i : Z,
        unpack (array1 x) rowsize (Some (RowsInt i)) 0
        = unpack (array1 x) rowsize (Some (RowsList [i])) 0).
Proof.
  intros A x rowsize Hne Hpos Hsum.
  assert (Hlen : len (map array1 (split_rows x rowsize)) = len rowsize).
  { unfold len. rewrite length_map, length_split_rows. reflexivity. }
  split; [|split].
  - intros l Hl. rewrite unpack_1d_rows by assumption. cbn [selected_rows].
    apply mapM_ok. intros i Hi. rewrite Forall_forall in Hl.
    rewrite py_getitem_inside with (d := array1 [])
      by (rewrite Hlen; apply Hl; exact Hi).
    rewrite Hlen. f_equal.
    change (array1 (@nil A)) with (array1 (A := A) []).
    apply (map_nth array1).
  - intros l Hl. rewrite unpack_1d_rows by assumption. cbn [selected_rows].
    apply mapM_getitem_outside. rewrite Hlen. exact Hl.
  - intros i. rewrite !unpack_1d_rows by assumption. reflexivity.
Qed.

Lemma unpack_rows_witness :
  unpack (array1 [1; 2; 3; 4; 5]) [2; 1; 2] (Some (RowsList [-1; 0])) 0
  = Ok [array1 [4; 5]; array1 [1; 2]]
  /\ unpack (array1 [1; 2; 3; 4; 5]) [2; 1; 2] (Some (RowsList [0; 3])) 0
     = Raise (IndexError msg_out_of_range).
Proof.
  destruct (@unpack_rows Z [1; 2; 3; 4; 5] [2; 1; 2]) as (Hin & Hout & _).
  - discriminate.
  - repeat constructor; lia.
  - reflexivity.
  - split.
    + apply (Hin [-1; 0]). repeat constructor; cbn; lia.
    + apply (Hout [0; 3]). right. left. right. cbn. lia.
Defined.

(** ** apply_ragged: the rows *)

Lemma unpack_no_rows {A} (arr : ndarray A) (rowsize : list Z)
      (rows : option rows_arg) (axis n : Z) :
  shape_at arr axis = Ok n -> selected_rows rowsize rows = [] ->
  unpack arr rowsize rows axis = Ok [].
Proof.
  intros Hn Hrows. unfold unpack, np_split. rewrite Hn, Hrows. cbn [bind].
  unfold shape_at in Hn.
  destruct (norm_axis (List.length (shape arr)) axis); [reflexivity | discriminate].
Qed.

Lemma reassemble_nothing {B} (axis : Z) :
  reassemble (@nil (item B)) axis = Raise (IndexError msg_out_of_range).
Proof. reflexivity. Qed.

(** Without an array, or without a row to work on, [apply_ragged] raises
    an [IndexError], and the function is not called (X9). *)
Theorem apply_ragged_no_rows :
  forall (A B : Type) (func : list (ndarray A) -> result (pyval B))
         (arrays : list (ndarray A)) (rowsize : list Z)
         (rows : option rows_arg) (axis : Z),
    (forall arr, In arr arrays -> shape_at arr axis = Ok (sumZ rowsize)) ->
    arrays = [] \/ selected_rows rowsize rows = [] ->
    apply_ragged func arrays rowsize rows axis
    = Raise (IndexError msg_out_of_range).
Proof.
  intros A B func arrays rowsize rows axis Hshape Hnone.
  unfold apply_ragged, apply_rows.
  rewrite validate_agree by exact Hshape. cbn [bind].
  destruct arrays as [|arr arrays]; [reflexivity|].
  destruct Hnone as [Hnone | Hnone]; [discriminate|].
  rewrite mapM_ok with (g := fun _ : ndarray A => @nil (ndarray A)).
  - cbn [bind map]. rewrite py_getitem_head. cbn [bind List.length seq].
    rewrite mapM_nil. cbn [bind]. rewrite mapM_nil. cbn [bind map].
    apply reassemble_nothing.
  - intros a Ha. apply unpack_no_rows with (n := sumZ rowsize); [|exact Hnone].
    apply Hshape. exact Ha.
Qed.

Lemma apply_ragged_no_rows_witness :
  apply_ragged row_sum [array1 [1; 2; 3]] [1; 2] (Some (RowsList [])) 0
  = Raise (IndexError msg_out_of_range).
Proof.
  apply (@apply_ragged_no_rows Z Z row_sum [array1 [1; 2; 3]] [1; 2]
                               (Some (RowsList [])) 0).
  - intros arr [<- | []]. reflexivity.
  - right. reflexivity.
Defined.

(** The rows of every array at each row number. *)
Lemma zip_rows {A} (arrs : list (list A)) (n : nat) (d : A) :
  Forall (fun arr => List.length arr = n) arrs ->
  mapM (fun j => mapM (fun arr => py_getitem arr (Z.of_nat j)) arrs) (seq 0 n)
  = Ok (map (fun j => map (fun arr => nth j arr d) arrs) (seq 0 n)).
Proof.
  intros Hlen. apply mapM_ok. intros j Hj. apply in_seq in Hj.
  apply mapM_ok. intros arr Harr. rewrite Forall_forall in Hlen.
  apply py_getitem_nth. apply nth_error_nth'. rewrite (Hlen arr Harr). lia.
Qed.

(** The calls of the function, for one flat array and the rows that are
    selected. *)
Lemma apply_rows_selected {A B} (func : list (ndarray A) -> result (pyval B))
      (x : list A) (rowsize : list Z) (rows : option rows_arg)
      (sel : list (list A)) :
  sumZ rowsize = len x ->
  unpack (array1 x) rowsize rows 0 = Ok (map array1 sel) ->
  apply_rows func [array1 x] rowsize rows 0
  = (vals <- mapM func (map (fun row => [array1 row]) sel) ;;
     Ok (map wrap vals)).
Proof.
  intros Hsum Hsel. unfold apply_rows.
  rewrite validate_agree
    by (intros arr [<- | []]; rewrite Hsum; reflexivity).
  cbn [bind]. rewrite (mapM_cons _ (array1 x) []).
  rewrite Hsel. cbn [bind]. rewrite mapM_nil. cbn [bind].
  rewrite py_getitem_head. cbn [bind].
  pose proof (zip_rows_single [] (map array1 sel)) as Hz.
  cbn [app List.length] in Hz. rewrite Hz. cbn [bind].
  rewrite map_map. reflexivity.
Qed.

(** Working on the rows [rows] of a flat ragged array is working on the
    ragged array that these rows make (X10). *)
Theorem apply_ragged_rows :
  forall (A B : Type) (func : list (ndarray A) -> result (pyval B))
         (x : list A) (rowsize : list Z) (l : list Z),
    rowsize <> [] -> Forall (fun r => 0 <= r) rowsize -> sumZ rowsize = len x ->
    Forall (fun i => - len rowsize <= i < len rowsize) l ->
    let sel := map (fun i => nth (Z.to_nat (i mod len rowsize))
                                 (split_rows x rowsize) [])
                   l in
    apply_ragged func [array1 x] rowsize (Some (RowsList l)) 0
    = apply_ragged func [array1 (concat sel)] (map len sel) None 0.
Proof.
  intros A B func x rowsize l Hne Hpos Hsum Hl sel.
  assert (Hlen : len (map array1 (split_rows x rowsize)) = len rowsize).
  { unfold len. rewrite length_map, length_split_rows. reflexivity. }
  unfold apply_ragged.
  rewrite apply_rows_selected with (sel := sel); [|exact Hsum|].
  - rewrite apply_rows_1d.
    + rewrite split_rows_concat. reflexivity.
    + apply Forall_map. apply Forall_forall. intros row _. apply len_nonneg.
    + apply sumZ_lengths.
  - rewrite unpack_1d_rows by assumption. cbn [selected_rows].
    unfold sel. rewrite map_map. apply mapM_ok. intros i Hi.
    rewrite Forall_forall in Hl.
    rewrite py_getitem_inside with (d := array1 [])
      by (rewrite Hlen; apply Hl; exact Hi).
    rewrite Hlen. f_equal.
    change (array1 (@nil A)) with (array1 (A := A) []).
    apply (map_nth array1).
Qed.

Lemma apply_ragged_rows_witness :
  apply_ragged row_sum [array1 [1; 2; 3; 4; 5]] [2; 1; 2] (Some (RowsList [2; 0])) 0
  = apply_ragged row_sum [array1 [4; 5; 1; 2]] [2; 2] None 0.
Proof.
  apply (@apply_ragged_rows Z Z row_sum [1; 2; 3; 4; 5] [2; 1; 2] [2; 0]).
  - discriminate.
  - repeat constructor; lia.
  - reflexivity.
  - repeat constructor; cbn; lia.
Defined.

(** With several flat arrays, the function is called once for every row,
    in the order of the rows, on the row of every array, in the order of
    the arrays (X11). *)
Theorem apply_ragged_arrays :
  forall (A B : Type) (func : list (ndarray A) -> result (pyval B))
         (xs : list (list A)) (rowsize : list Z),
    xs <> [] -> Forall (fun r => 0 <= r) rowsize ->
    Forall (fun x => sumZ rowsize = len x) xs ->
    apply_ragged func (map array1 xs) rowsize None 0
    = (vals <- mapM func
                 (map (fun j => map (fun x => array1 (nth j (split_rows x rowsize) []))
                                    xs)
                      (seq 0 (List.length rowsize))) ;;
       reassemble (map wrap vals) 0).
Proof.
  intros A B func xs rowsize Hne Hpos Hsum. rewrite Forall_forall in Hsum.
  unfold apply_ragged, apply_rows.
  rewrite validate_agree.
  2:{ intros arr Harr. apply in_map_iff in Harr. destruct Harr as (x & <- & Hx).
      cbn. rewrite (Hsum x Hx). reflexivity. }
  cbn [bind].
  rewrite mapM_ok with (g := fun arr : ndarray A =>
                               map array1 (split_rows (data arr) rowsize)).
  2:{ intros arr Harr. apply in_map_iff in Harr. destruct Harr as (x & <- & Hx).
      apply unpack_1d; [exact Hpos | apply Hsum; exact Hx]. }
  cbn [bind]. rewrite map_map. cbn [array1 data].
  destruct xs as [|x0 xs']; [congruence|].
  cbn [map]. rewrite py_getitem_head. cbn [bind].
  rewrite length_map, length_split_rows.
  change (map array1 (split_rows x0 rowsize)
          :: map (fun x => map array1 (split_rows x rowsize)) xs')
    with (map (fun x => map array1 (split_rows x rowsize)) (x0 :: xs')).
  rewrite zip_rows with (d := array1 []).
  2:{ apply Forall_map. apply Forall_forall. intros x _.
      rewrite length_map. apply length_split_rows. }
  cbn [bind].
  assert (Hiter : map (fun j => map (fun arr : list (ndarray A) => nth j arr (array1 []))
                                    (map (fun x => map array1 (split_rows x rowsize))
                                         (x0 :: xs')))
                      (seq 0 (List.length rowsize))
                  = map (fun j => map (fun x => array1 (nth j (split_rows x rowsize) []))
                                      (x0 :: xs'))
                        (seq 0 (List.length rowsize))).
  { apply map_ext. intros j. rewrite map_map. apply map_ext. intros x.
    change (array1 (@nil A)) with (array1 (A := A) []).
    apply (map_nth array1). }
  rewrite Hiter.
  destruct (mapM func _); reflexivity.
Qed.

Lemma apply_ragged_arrays_witness :
  apply_ragged (fun rows => Ok (Single (OScalar (sumZ (concat (map (@data Z) rows))))))
               (map array1 [[1; 2; 3]; [10; 20; 30]]) [1; 2] None 0
  = Ok (ROne (array1 [11; 55])).
Proof.
  rewrite (@apply_ragged_arrays Z Z _ [[1; 2; 3]; [10; 20; 30]] [1; 2]).
  - reflexivity.
  - discriminate.
  - repeat constructor; lia.
  - repeat constructor.
Defined.

(** ** segment with row sizes *)

Lemma cumsum_from_shift (acc c : Z) (l : list Z) :
  cumsum_from (acc + c) l = map (fun e => e + c) (cumsum_from acc l).
Proof.
  revert acc. induction l as [|a l IH]; intros acc; [reflexivity|].
  cbn [cumsum_from map]. replace (acc + c + a) with (acc + a + c) by lia.
  rewrite IH. reflexivity.
Qed.

Lemma In_sum_offsets (s : list Z) : In (sumZ s) (rowsize_to_index s).
Proof.
  rewrite rowsize_to_index_cons.
  pose proof (@nth_cumsum_from 0 s (List.length s) (le_n _)) as H.
  rewrite firstn_all in H. cbn [Z.add] in H. rewrite <- H.
  apply nth_In. cbn [List.length]. rewrite length_cumsum_from. lia.
Qed.

(** The offsets of two lists of sizes, one after the other. *)
Lemma In_rowsize_to_index_app (s1 s2 : list Z) (p : Z) :
  In p (rowsize_to_index (s1 ++ s2)) <->
  In p (rowsize_to_index s1)
  \/ exists q, In q (rowsize_to_index s2) /\ p = sumZ s1 + q.
Proof.
  pose proof (In_sum_offsets s1) as Hsum.
  rewrite !rowsize_to_index_cons in *. rewrite cumsum_from_app.
  rewrite (cumsum_from_shift 0 (sumZ s1) s2).
  cbn [In] in *. rewrite in_app_iff, in_map_iff. split.
  - intros [H | [H | (e & <- & He)]].
    + left. left. exact H.
    + left. right. exact H.
    + right. exists e. split; [right; exact He | lia].
  - intros [[H | H] | (q & [<- | Hq] & ->)].
    + left. exact H.
    + right. left. exact H.
    + rewrite Z.add_0_r. destruct Hsum as [H | H]; [left | right; left]; exact H.
    + right. right. exists q. split; [lia | exact Hq].
Qed.

Section SegmentRows.
Variables T D : Type.
Variable sub : T -> T -> D.
Variables gt lt : D -> D -> bool.
Variable ge0 : D -> bool.
Variable tolerance : D.

(** The offsets of the segments of a sequence: its two ends and its
    breaks. *)
Lemma segment_flat_boundaries (x : list T) (p : Z) :
  In p (rowsize_to_index (segment_flat sub gt lt ge0 x tolerance)) <->
  p = 0 \/ p = len x \/ break_at sub gt lt ge0 tolerance x p.
Proof.
  rewrite segment_flat_index. cbn [In]. rewrite in_app_iff. cbn [In].
  unfold np_where. rewrite np_where_from_In. split.
  - intros [H | [(j & Hj & ->) | [H | []]]]; [left; lia | | right; left; lia].
    right. right.
    assert (Hlt : (j < List.length (exceeds sub gt lt ge0 x tolerance))%nat)
      by (apply nth_error_Some; congruence).
    pose proof (length_exceeds sub gt lt ge0 x tolerance) as Hlen.
    unfold len in Hlen.
    assert (Hj1 : (S j < List.length x)%nat) by lia.
    destruct (nth_error x j) as [a|] eqn:Ea;
      [|apply nth_error_None in Ea; lia].
    destruct (nth_error x (S j)) as [b|] eqn:Eb;
      [|apply nth_error_None in Eb; lia].
    exists j, a, b. split; [exact Ea|]. split; [exact Eb|].
    rewrite (nth_error_exceeds sub gt lt ge0 x tolerance j Ea Eb) in Hj.
    unfold flagged in Hj. split; [congruence | lia].
  - intros [-> | [-> | (i & a & b & Ha & Hb & Hf & ->)]].
    + left. reflexivity.
    + right. right. left. reflexivity.
    + right. left. exists i.
      rewrite (nth_error_exceeds sub gt lt ge0 x tolerance i Ha Hb).
      unfold flagged. rewrite Hf. split; [reflexivity | lia].
Qed.

(** The breaks of a sequence, by the place of a cut after [r] elements:
    before it, across it or after it. *)
Lemma break_at_cut (x : list T) (r : nat) (p : Z) :
  (r <= List.length x)%nat ->
  break_at sub gt lt ge0 tolerance x p <->
  break_at sub gt lt ge0 tolerance (firstn r x) p
  \/ (p = Z.of_nat r /\ break_at sub gt lt ge0 tolerance x p)
  \/ exists q, break_at sub gt lt ge0 tolerance (skipn r x) q /\ p = Z.of_nat r + q.
Proof.
  intros Hr. split.
  - intros (i & a & b & Ha & Hb & Hf & ->).
    destruct (Nat.lt_trichotomy (S i) r) as [Hlt | [Heq | Hgt]].
    + left. exists i, a, b. rewrite !nth_error_firstn.
      destruct (Nat.ltb_spec i r); [|lia].
      destruct (Nat.ltb_spec (S i) r); [|lia]. auto.
    + right. left. split; [lia|]. exists i, a, b. auto.
    + right. right. exists (Z.of_nat (S (i - r))). split; [|lia].
      exists (i - r)%nat, a, b. rewrite !nth_error_skipn.
      replace (r + (i - r))%nat with i by lia.
      replace (r + S (i - r))%nat with (S i) by lia. auto.
  - intros [(i & a & b & Ha & Hb & Hf & ->) | [[_ H] | (q & (i & a & b & Ha & Hb & Hf & ->) & ->)]].
    + rewrite nth_error_firstn in Ha, Hb.
      destruct (Nat.ltb_spec i r); [|discriminate].
      destruct (Nat.ltb_spec (S i) r); [|discriminate].
      exists i, a, b. auto.
    + exact H.
    + rewrite nth_error_skipn in Ha, Hb.
      exists (r + i)%nat, a, b. rewrite <- Nat.add_succ_r.
      split; [exact Ha|]. split; [exact Hb|]. split; [exact Hf | lia].
Qed.

(** The offsets of the segments made row by row: the offsets of the rows
    and the breaks. *)
Lemma rows_boundaries (rowsize : list Z) :
  Forall (fun r => 0 <= r) rowsize ->
  forall (x : list T) (p : Z),
    sumZ rowsize = len x ->
    In p (rowsize_to_index
            (concat (map (fun row => segment_flat sub gt lt ge0 row tolerance)
                         (split_rows x rowsize)))) <->
    In p (rowsize_to_index rowsize) \/ break_at sub gt lt ge0 tolerance x p.
Proof.
  induction 1 as [|r rowsize Hr Hpos IH]; intros x p Hsum.
  - cbn [sumZ] in Hsum. destruct x; [|unfold len in Hsum; cbn in Hsum; lia].
    cbn. split; [intros H; left; exact H|].
    intros [H | (i & a & b & Ha & _)]; [exact H | destruct i; discriminate].
  - cbn [sumZ] in Hsum. pose proof (sumZ_nonneg Hpos) as Hs.
    assert (Hrx : (Z.to_nat r <= List.length x)%nat) by (unfold len in Hsum; lia).
    cbn [split_rows map concat].
    rewrite In_rowsize_to_index_app, segment_flat_sum, segment_flat_boundaries.
    change (r :: rowsize) with ([r] ++ rowsize).
    rewrite In_rowsize_to_index_app.
    assert (Hlen : len (firstn (Z.to_nat r) x) = r).
    { unfold len. rewrite length_firstn. lia. }
    rewrite Hlen.
    assert (Hrest : sumZ rowsize = len (skipn (Z.to_nat r) x)).
    { unfold len in *. rewrite length_skipn. lia. }
    rewrite (break_at_cut x p Hrx). rewrite Z2Nat.id by exact Hr.
    cbn [rowsize_to_index np_cumsum cumsum_from In sumZ].
    rewrite Z.add_0_r. change (0 + 0) with 0. change (0 + r) with r.
    split.
    + intros [[-> | [-> | Hb]] | (q & Hq & ->)].
      * left. left. left. reflexivity.
      * left. left. right. left. lia.
      * right. left. exact Hb.
      * apply (IH _ _ Hrest) in Hq. destruct Hq as [Hq | Hq].
        -- left. right. exists q. split; [exact Hq | lia].
        -- right. right. right. exists q. split; [exact Hq | lia].
    + intros [[[H | [H | []]] | (q & Hq & ->)] | [Hb | [[-> Hb] | (q & Hq & ->)]]].
      * left. left. lia.
      * left. right. left. lia.
      * right. exists q. split; [|lia]. apply (IH _ _ Hrest). left. exact Hq.
      * left. right. right. exact Hb.
      * left. right. left. reflexivity.
      * right. exists q. split; [|lia]. apply (IH _ _ Hrest). right. exact Hq.
Qed.

(** The loop over the rows of [segment]. *)
Lemma segment_rows_split (rowsize : list Z) :
  Forall (fun r => 0 <= r) rowsize ->
  forall (x : list T) (start : Z),
    0 <= start -> start + sumZ rowsize <= len x ->
    segment_rows sub gt lt ge0 x tolerance rowsize start
    = map (fun row => segment_flat sub gt lt ge0 row tolerance)
          (split_rows (skipn (Z.to_nat start) x) rowsize).
Proof.
  induction 1 as [|r rowsize Hr Hpos IH]; intros x start Hstart Hfit;
    [reflexivity|].
  cbn [sumZ] in Hfit. pose proof (sumZ_nonneg Hpos) as Hs.
  cbn [segment_rows split_rows map].
  rewrite py_slice_inside by lia. rewrite IH by lia.
  rewrite skipn_skipn.
  replace (start + r - start) with r by lia.
  replace (Z.to_nat r + Z.to_nat start)%nat with (Z.to_nat (start + r)) by lia.
  reflexivity.
Qed.

Lemma segment_by_rows (x : list T) (rowsize : list Z) :
  rowsize <> [] -> Forall (fun r => 0 <= r) rowsize -> sumZ rowsize = len x ->
  segment sub gt lt ge0 x tolerance (Some rowsize)
  = Ok (concat (map (fun row => segment_flat sub gt lt ge0 row tolerance)
                    (split_rows x rowsize))).
Proof.
  intros Hne Hpos Hsum. unfold segment.
  rewrite Hsum, Z.eqb_refl. cbn [negb].
  rewrite segment_rows_split by (assumption || lia).
  cbn [Z.to_nat skipn]. unfold np_concatenate1.
  destruct rowsize; [congruence | reflexivity].
Qed.

End SegmentRows.

Lemma sumZ_concat (l : list (list Z)) : sumZ (concat l) = sumZ (map sumZ l).
Proof.
  induction l as [|a l IH]; [reflexivity|].
  cbn [concat map sumZ]. rewrite sumZ_app, IH. reflexivity.
Qed.

Lemma cumsum_from_increasing (acc : Z) (s : list Z) :
  Forall (fun n => 0 < n) s -> increasing_from acc (cumsum_from acc s).
Proof.
  intros Hpos. revert acc. induction Hpos as [|a s Ha _ IH]; intros acc; [exact I|].
  cbn [cumsum_from increasing_from]. split; [lia | apply IH].
Qed.

(** Two increasing lists with the same elements are the same list. *)
Lemma increasing_from_ext (l1 : list Z) :
  forall (lo : Z) (l2 : list Z),
    increasing_from lo l1 -> increasing_from lo l2 ->
    (forall p, In p l1 <-> In p l2) -> l1 = l2.
Proof.
  induction l1 as [|a1 l1 IH]; intros lo l2 H1 H2 Hin.
  - destruct l2 as [|a2 l2]; [reflexivity|].
    destruct (proj2 (Hin a2) (or_introl eq_refl)).
  - destruct l2 as [|a2 l2]; [destruct (proj1 (Hin a1) (or_introl eq_refl))|].
    destruct H1 as [Hlo1 H1], H2 as [Hlo2 H2].
    pose proof (increasing_from_bound _ _ H1) as Hb1.
    pose proof (increasing_from_bound _ _ H2) as Hb2.
    rewrite Forall_forall in Hb1, Hb2.
    assert (Heq : a1 = a2).
    { destruct (proj1 (Hin a1) (or_introl eq_refl)) as [E | E]; [congruence|].
      destruct (proj2 (Hin a2) (or_introl eq_refl)) as [E' | E']; [congruence|].
      specialize (Hb1 _ E'). specialize (Hb2 _ E). lia. }
    subst a2. f_equal. apply (IH a1); [exact H1 | exact H2 |].
    intros p. split; intros Hp.
    + destruct (proj1 (Hin p) (or_intror Hp)) as [E | E]; [|exact E].
      specialize (Hb1 _ Hp). lia.
    + destruct (proj2 (Hin p) (or_intror Hp)) as [E | E]; [|exact E].
      specialize (Hb2 _ Hp). lia.
Qed.

(** Positive sizes are told by their offsets. *)
Lemma sizes_by_offsets (s1 s2 : list Z) :
  Forall (fun n => 0 < n) s1 -> Forall (fun n => 0 < n) s2 ->
  (forall p, In p (rowsize_to_index s1) <-> In p (rowsize_to_index s2)) ->
  s1 = s2.
Proof.
  intros H1 H2 Hin.
  rewrite <- (np_diffZ_cumsum_from 0 s1), <- (np_diffZ_cumsum_from 0 s2).
  rewrite <- !rowsize_to_index_cons. f_equal.
  apply increasing_from_ext with (lo := -1); [| |exact Hin];
    rewrite rowsize_to_index_cons; (split; [lia|]);
    apply cumsum_from_increasing; assumption.
Qed.

Section SegmentTwice.
Variables T D : Type.
Variable sub : T -> T -> D.
Variables gt lt : D -> D -> bool.
Variable ge0 : D -> bool.

Lemma segment_flat_nil (tolerance : D) :
  segment_flat sub gt lt ge0 [] tolerance = [0].
Proof. unfold segment_flat, exceeds. destruct (ge0 tolerance); reflexivity. Qed.

Lemma segment_flat_nonneg (x : list T) (tolerance : D) :
  Forall (fun n => 0 <= n) (segment_flat sub gt lt ge0 x tolerance).
Proof.
  destruct x as [|a x].
  - rewrite segment_flat_nil. repeat constructor. lia.
  - eapply Forall_impl; [|apply segment_flat_positive; discriminate].
    intros n Hn. cbn beta in Hn. lia.
Qed.

Lemma segment_flat_not_nil (x : list T) (tolerance : D) :
  segment_flat sub gt lt ge0 x tolerance <> [].
Proof. unfold segment_flat. intros H. apply app_eq_nil in H. destruct H; discriminate. Qed.

(** The sizes made row by row are positive if and only if the sizes of
    the rows are. *)
Lemma rows_positive (tolerance : D) (rowsize : list Z) :
  Forall (fun r => 0 <= r) rowsize ->
  forall x : list T,
    sumZ rowsize = len x ->
    Forall (fun n => 0 < n)
           (concat (map (fun row => segment_flat sub gt lt ge0 row tolerance)
                        (split_rows x rowsize)))
    <-> Forall (fun r => 0 < r) rowsize.
Proof.
  induction 1 as [|r rowsize Hr Hpos IH]; intros x Hsum.
  - cbn. split; constructor.
  - cbn [sumZ] in Hsum. pose proof (sumZ_nonneg Hpos) as Hs.
    assert (Hrest : sumZ rowsize = len (skipn (Z.to_nat r) x)).
    { unfold len in *. rewrite length_skipn. lia. }
    cbn [split_rows map concat]. rewrite Forall_app, (IH _ Hrest). split.
    + intros [Hrow Hrows]. constructor; [|exact Hrows].
      destruct (Z.eq_dec r 0) as [-> | Hne]; [|lia].
      cbn [Z.to_nat firstn] in Hrow. rewrite segment_flat_nil in Hrow.
      inversion Hrow. lia.
    + intros Hall. inversion Hall as [|r' l' Hr' Hrows]. subst. split; [|exact Hrows].
      apply segment_flat_positive.
      intros Hnil. apply (f_equal (@List.length T)) in Hnil.
      rewrite length_firstn in Hnil. cbn [List.length] in Hnil.
      unfold len in Hsum. lia.
Qed.

End SegmentTwice.

Lemma rows_sum {T D} (sub : T -> T -> D) (gt lt : D -> D -> bool) (ge0 : D -> bool)
      (tolerance : D) (x : list T) (rowsize : list Z) :
  Forall (fun r => 0 <= r) rowsize -> sumZ rowsize = len x ->
  sumZ (concat (map (fun row => segment_flat sub gt lt ge0 row tolerance)
                    (split_rows x rowsize))) = len x.
Proof.
  intros Hpos Hsum. rewrite sumZ_concat, map_map.
  rewrite map_ext with (g := fun row : list T => len row)
    by (intros row; apply segment_flat_sum).
  rewrite sumZ_lengths, concat_split_rows by assumption. reflexivity.
Qed.

(** [segment] with row sizes works row by row: the result is the sizes
    of the segments of the first row, then those of the second row, and
    so on, and it sums to the length of the sequence (X12). *)
Theorem segment_per_row :
  forall (T D : Type) (sub : T -> T -> D) (gt lt : D -> D -> bool)
         (ge0 : D -> bool) (x : list T) (tolerance : D) (rowsize : list Z),
    rowsize <> [] -> Forall (fun r => 0 <= r) rowsize -> sumZ rowsize = len x ->
    exists per_row,
      Forall2 (fun row sizes => segment sub gt lt ge0 row tolerance None = Ok sizes)
              (split_rows x rowsize) per_row
      /\ segment sub gt lt ge0 x tolerance (Some rowsize) = Ok (concat per_row)
      /\ sumZ (concat per_row) = len x.
Proof.
  intros T D sub gt lt ge0 x tolerance rowsize Hne Hpos Hsum.
  exists (map (fun row => segment_flat sub gt lt ge0 row tolerance)
              (split_rows x rowsize)).
  split; [|split].
  - induction (split_rows x rowsize) as [|row rows IH]; constructor;
      [reflexivity | exact IH].
  - apply segment_by_rows; assumption.
  - apply rows_sum; assumption.
Qed.

Lemma segment_per_row_witness :
  exists per_row,
    Forall2 (fun row sizes => segmentQ row (1 # 2) None = Ok sizes)
            (split_rows (map inject_Z [0; 1; 1; 1; 2; 2; 3; 3; 3; 3; 4]) [3; 2; 6])
            per_row
    /\ segmentQ (map inject_Z [0; 1; 1; 1; 2; 2; 3; 3; 3; 3; 4]) (1 # 2)
                (Some [3; 2; 6]) = Ok (concat per_row)
    /\ sumZ (concat per_row)
       = len (map inject_Z [0; 1; 1; 1; 2; 2; 3; 3; 3; 3; 4]).
Proof.
  apply (@segment_per_row Q Q Qminus Qgt_bool Qlt_bool (Qle_bool 0)
           (map inject_Z [0; 1; 1; 1; 2; 2; 3; 3; 3; 3; 4]) (1 # 2) [3; 2; 6]).
  - discriminate.
  - repeat constructor; lia.
  - reflexivity.
Defined.

(** [segment] with row sizes cuts the sequence at the ends of the rows
    and at the differences that exceed the tolerance, and nowhere else:
    the offsets of its result are the offsets of the rows and the
    positions [i + 1] at which [x[i + 1] - x[i]] exceeds the tolerance
    (X13). *)
Theorem segment_rows_boundaries :
  forall (T D : Type) (sub : T -> T -> D) (gt lt : D -> D -> bool)
         (ge0 : D -> bool) (x : list T) (tolerance : D) (rowsize : list Z),
    rowsize <> [] -> Forall (fun r => 0 <= r) rowsize -> sumZ rowsize = len x ->
    exists s,
      segment sub gt lt ge0 x tolerance (Some rowsize) = Ok s
      /\ forall p : Z,
           In p (rowsize_to_index s) <->
           In p (rowsize_to_index rowsize)
           \/ exists (i : nat) (a b : T),
                nth_error x i = Some a /\ nth_error x (S i) = Some b /\
                (if ge0 tolerance then gt (sub b a) tolerance
                 else lt (sub b a) tolerance) = true /\
                p = Z.of_nat (S i).
Proof.
  intros T D sub gt lt ge0 x tolerance rowsize Hne Hpos Hsum.
  eexists. split; [apply segment_by_rows; assumption|].
  intros p. apply rows_boundaries; assumption.
Qed.

Lemma segment_rows_boundaries_witness :
  exists s,
    segmentQ (map inject_Z [0; 1; 1; 1; 2; 2; 3; 3; 3; 3; 4]) (1 # 2)
             (Some [3; 2; 6]) = Ok s
    /\ forall p : Z,
         In p (rowsize_to_index s) <->
         In p (rowsize_to_index [3; 2; 6])
         \/ exists (i : nat) (a b : Q),
              nth_error (map inject_Z [0; 1; 1; 1; 2; 2; 3; 3; 3; 3; 4]) i = Some a /\
              nth_error (map inject_Z [0; 1; 1; 1; 2; 2; 3; 3; 3; 3; 4]) (S i) = Some b /\
              (if Qle_bool 0 (1 # 2) then Qgt_bool (b - a) (1 # 2)
               else Qlt_bool (b - a) (1 # 2)) = true /\
              p = Z.of_nat (S i).
Proof.
  apply (@segment_rows_boundaries Q Q Qminus Qgt_bool Qlt_bool (Qle_bool 0)
           (map inject_Z [0; 1; 1; 1; 2; 2; 3; 3; 3; 3; 4]) (1 # 2) [3; 2; 6]).
  - discriminate.
  - repeat constructor; lia.
  - reflexivity.
Defined.



Section SegmentCompose.
Variables T D : Type.
Variable sub : T -> T -> D.
Variables gt lt : D -> D -> bool.
Variable ge0 : D -> bool.

(** The sizes made within the segments that another tolerance makes. *)
Lemma segment_within (x : list T) (t1 t2 : D) :
  let s2 := segment_flat sub gt lt ge0 x t2 in
  let s := concat (map (fun row => segment_flat sub gt lt ge0 row t1)
                       (split_rows x s2)) in
  segment sub gt lt ge0 x t1 (Some s2) = Ok s
  /\ sumZ s = len x
  /\ (x <> [] -> Forall (fun n => 0 < n) s)
  /\ forall p, In p (rowsize_to_index s) <->
               p = 0 \/ p = len x
               \/ break_at sub gt lt ge0 t1 x p \/ break_at sub gt lt ge0 t2 x p.
Proof.
  intros s2 s.
  pose proof (segment_flat_nonneg sub gt lt ge0 x t2) as Hpos.
  pose proof (segment_flat_sum sub gt lt ge0 x t2) as Hsum.
  pose proof (@segment_flat_not_nil _ _ sub gt lt ge0 x t2) as Hne.
  split; [apply segment_by_rows; assumption|].
  split; [apply rows_sum; assumption|]. split.
  - intros Hx. apply rows_positive; try assumption.
    apply segment_flat_positive. exact Hx.
  - intros p. unfold s. rewrite rows_boundaries by assumption.
    unfold s2. rewrite segment_flat_boundaries. tauto.
Qed.

Lemma segment_within_nil (t1 t2 : D) :
  concat (map (fun row => segment_flat sub gt lt ge0 row t1)
              (split_rows [] (segment_flat sub gt lt ge0 [] t2))) = [0].
Proof.
  rewrite segment_flat_nil. cbn [split_rows Z.to_nat firstn skipn map concat].
  rewrite segment_flat_nil. reflexivity.
Qed.

Lemma segment_within_comm (x : list T) (t1 t2 : D) :
  segment sub gt lt ge0 x t1 (Some (segment_flat sub gt lt ge0 x t2))
  = segment sub gt lt ge0 x t2 (Some (segment_flat sub gt lt ge0 x t1)).
Proof.
  destruct (segment_within x t1 t2) as (-> & _ & Hp12 & Hb12).
  destruct (segment_within x t2 t1) as (-> & _ & Hp21 & Hb21).
  f_equal. destruct x as [|a x].
  - rewrite !segment_within_nil. reflexivity.
  - apply sizes_by_offsets;
      [apply Hp12; discriminate | apply Hp21; discriminate |].
    intros p. rewrite Hb12, Hb21. tauto.
Qed.

Lemma segment_within_same (x : list T) (t : D) :
  segment sub gt lt ge0 x t (Some (segment_flat sub gt lt ge0 x t))
  = Ok (segment_flat sub gt lt ge0 x t).
Proof.
  destruct (segment_within x t t) as (-> & _ & Hp & Hb).
  f_equal. destruct x as [|a x].
  - rewrite segment_within_nil, segment_flat_nil. reflexivity.
  - apply sizes_by_offsets;
      [apply Hp; discriminate | apply segment_flat_positive; discriminate |].
    intros p. rewrite Hb, segment_flat_boundaries. tauto.
Qed.

End SegmentCompose.

(** [segment] called on the result of [segment], as documented for gaps
    of both signs: the call is accepted, and it cuts the sequence at the
    differences that exceed either tolerance, whichever tolerance comes
    first (X15). *)
Theorem segment_twice :
  forall (T D : Type) (sub : T -> T -> D) (gt lt : D -> D -> bool)
         (ge0 : D -> bool) (x : list T) (t1 t2 : D) (s1 s2 : list Z),
    segment sub gt lt ge0 x t1 None = Ok s1 ->
    segment sub gt lt ge0 x t2 None = Ok s2 ->
    exists s,
      segment sub gt lt ge0 x t1 (Some s2) = Ok s
      /\ segment sub gt lt ge0 x t2 (Some s1) = Ok s
      /\ sumZ s = len x
      /\ forall p : Z,
           In p (rowsize_to_index s) <->
           p = 0 \/ p = len x
           \/ exists (i : nat) (a b : T),
                nth_error x i = Some a /\ nth_error x (S i) = Some b /\
                ((if ge0 t1 then gt (sub b a) t1 else lt (sub b a) t1) = true
                 \/ (if ge0 t2 then gt (sub b a) t2 else lt (sub b a) t2) = true) /\
                p = Z.of_nat (S i).
Proof.
  intros T D sub gt lt ge0 x t1 t2 s1 s2 H1 H2.
  injection H1 as <-. injection H2 as <-.
  destruct (segment_within sub gt lt ge0 x t1 t2) as (Hs & Hsum & _ & Hb).
  eexists. split; [exact Hs|]. split; [|split; [exact Hsum|]].
  - rewrite <- Hs. symmetry. apply segment_within_comm.
  - intros p. rewrite Hb. unfold break_at. split.
    + intros [H | [H | [(i & a & b & Ha & Hb' & Hf & Hp) | (i & a & b & Ha & Hb' & Hf & Hp)]]];
        [left; exact H | right; left; exact H | |];
        right; right; exists i, a, b; auto.
    + intros [H | [H | (i & a & b & Ha & Hb' & [Hf | Hf] & Hp)]];
        [left; exact H | right; left; exact H | |].
      * right. right. left. exists i, a, b. auto.
      * right. right. right. exists i, a, b. auto.
Qed.

Lemma segment_twice_witness :
  exists s,
    segmentQ (map inject_Z [1; 1; 2; 2; 1; 1; 2; 2]) (1 # 2) (Some [4; 4]) = Ok s
    /\ segmentQ (map inject_Z [1; 1; 2; 2; 1; 1; 2; 2]) (- (1 # 2)) (Some [2; 4; 2])
       = Ok s
    /\ s = [2; 2; 2; 2].
Proof.
  destruct (@segment_twice Q Q Qminus Qgt_bool Qlt_bool (Qle_bool 0)
              (map inject_Z [1; 1; 2; 2; 1; 1; 2; 2]) (1 # 2) (- (1 # 2))%Q
              [2; 4; 2] [4; 4] eq_refl eq_refl) as (s & H1 & H2 & _).
  exists s. split; [exact H1|]. split; [exact H2|].
  assert (E : Ok s = Ok [2; 2; 2; 2]) by (rewrite <- H1; reflexivity).
  injection E as ->. reflexivity.
Defined.

(** The sizes that [segment] returns are accepted as row sizes for the
    same tolerance, and nothing is cut a second time (X16). *)
Theorem segment_idempotent :
  forall (T D : Type) (sub : T -> T -> D) (gt lt : D -> D -> bool)
         (ge0 : D -> bool) (x : list T) (tolerance : D) (s : list Z),
    segment sub gt lt ge0 x tolerance None = Ok s ->
    segment sub gt lt ge0 x tolerance (Some s) = Ok s.
Proof.
  intros T D sub gt lt ge0 x tolerance s H. injection H as <-.
  apply segment_within_same.
Qed.

Lemma segment_idempotent_witness :
  segmentQ (map inject_Z [0; 1; 1; 1; 2; 2; 3; 3; 3; 3; 4]) (1 # 2)
           (Some [1; 3; 2; 4; 1]) = Ok [1; 3; 2; 4; 1].
Proof.
  apply (@segment_idempotent Q Q Qminus Qgt_bool Qlt_bool (Qle_bool 0)
           (map inject_Z [0; 1; 1; 1; 2; 2; 3; 3; 3; 3; 4]) (1 # 2)
           [1; 3; 2; 4; 1]).
  reflexivity.
Defined.

(** ** chunk *)

(** The value of [chunk] in the general case: its windows one after the
    other. *)
Lemma chunk_value {A} (x : list A) (length overlap : Z) (align : string) :
  0 <= length -> overlap < length -> length <= len x ->
  align = "start"%string \/ align = "middle"%string \/ align = "end"%string ->
  let step := length - overlap in
  let num_chunks := (len x - length) / step + 1 in
  let remainder := len x - num_chunks * length + (num_chunks - 1) * overlap in
  let start :=
    if String.eqb align "start" then 0
    else if String.eqb align "end" then remainder
    else remainder / 2 in
  chunk x length overlap align
  = Ok (mk_nd [Z.to_nat num_chunks; Z.to_nat length]
          (concat (map (fun n => window x (start + Z.of_nat n * step) length)
                       (seq 0 (Z.to_nat num_chunks)))))
  /\ 0 <= start <= remainder.
Proof.
  intros Hl Ho Hn Halign step num_chunks remainder start.
  destruct (chunk_arith Hl Ho Hn) as (Hnum & Hrem & Hfit).
  fold step num_chunks remainder in Hnum, Hrem, Hfit.
  assert (Hstart : 0 <= start <= remainder).
  { unfold start. destruct Halign as [-> | [-> | ->]]; cbn; try lia.
    pose proof (Z.div_mod remainder 2 ltac:(lia)).
    pose proof (Z.mod_pos_bound remainder 2 ltac:(lia)). lia. }
  split; [|exact Hstart].
  unfold chunk.
  destruct (Z.leb_spec length (len x)); [|lia].
  destruct (Z.eqb_spec (length - overlap) 0); [lia|].
  cbn [bind]. fold step num_chunks remainder.
  destruct (Z.ltb_spec num_chunks 0); [lia|].
  destruct (Z.ltb_spec length 0); [lia|]. cbn [orb].
  assert (Hs : (if String.eqb align "start" then Ok 0
                else if String.eqb align "middle" then Ok (remainder / 2)
                else if String.eqb align "end" then Ok remainder
                else Raise (ValueError msg_align)) = Ok start).
  { unfold start. destruct Halign as [-> | [-> | ->]]; reflexivity. }
  rewrite Hs. cbn [bind].
  rewrite chunk_loop_windows by nia. reflexivity.
Qed.

Lemma firstn_plus {A} (a b : nat) (l : list A) :
  firstn (a + b) l = firstn a l ++ firstn b (skipn a l).
Proof.
  revert l. induction a as [|a IH]; intros l; [reflexivity|].
  destruct l as [|e l]; [cbn; rewrite firstn_nil; reflexivity|].
  cbn [Nat.add firstn skipn app]. rewrite IH. reflexivity.
Qed.

(** Windows that follow each other without a gap are one part of the
    sequence. *)
Lemma concat_windows {A} (x : list A) (length : Z) (n : nat) :
  0 <= length ->
  forall start : Z,
    0 <= start ->
    concat (map (fun i => window x (start + Z.of_nat i * length) length) (seq 0 n))
    = firstn (n * Z.to_nat length) (skipn (Z.to_nat start) x).
Proof.
  intros Hl. induction n as [|n IH]; intros start Hstart; [reflexivity|].
  rewrite map_seq_S. cbn [concat].
  rewrite map_ext with (g := fun i => window x (start + length + Z.of_nat i * length) length)
    by (intros i; f_equal; lia).
  rewrite IH by lia.
  change (S n * Z.to_nat length)%nat with (Z.to_nat length + n * Z.to_nat length)%nat.
  rewrite firstn_plus, skipn_skipn. unfold window.
  replace (start + Z.of_nat 0 * length) with start by lia.
  replace (Z.to_nat length + Z.to_nat start)%nat with (Z.to_nat (start + length)) by lia.
  reflexivity.
Qed.

Lemma chunk_arith_no_overlap (n length : Z) :
  0 < length -> length <= n ->
  (n - length) / (length - 0) + 1 = n / length
  /\ n - n / length * length + (n / length - 1) * 0 = n mod length.
Proof.
  intros Hl Hn. rewrite Z.sub_0_r.
  assert (H1 : (n - length) / length + 1 = n / length).
  { replace n with ((n - length) + 1 * length) at 2 by lia.
    rewrite Z.div_add by lia. reflexivity. }
  split; [exact H1|]. pose proof (Z.div_mod n length ltac:(lia)). lia.
Qed.

(** [chunk] without overlap. *)
Lemma chunk_no_overlap {A} (x : list A) (length : Z) (align : string) :
  0 < length ->
  align = "start"%string \/ align = "middle"%string \/ align = "end"%string ->
  let num_chunks := len x / length in
  let start :=
    if String.eqb align "start" then 0
    else if String.eqb align "end" then len x mod length
    else len x mod length / 2 in
  chunk x length 0 align
  = Ok (mk_nd [Z.to_nat num_chunks; Z.to_nat length]
          (firstn (Z.to_nat (num_chunks * length)) (skipn (Z.to_nat start) x))).
Proof.
  intros Hl Halign num_chunks start.
  pose proof (len_nonneg x) as Hx.
  pose proof (Z.div_mod (len x) length ltac:(lia)) as Hdm.
  pose proof (Z.mod_pos_bound (len x) length Hl) as Hmod.
  assert (Hq : 0 <= num_chunks) by (apply Z.div_pos; lia).
  destruct (Z.le_gt_cases length (len x)) as [Hle | Hgt].
  - destruct (@chunk_value A x length 0 align ltac:(lia) Hl Hle Halign) as [Hv Hstart].
    destruct (chunk_arith_no_overlap Hl Hle) as [Hn Hr].
    rewrite Hn, Hr in Hv. rewrite Hn, Hr in Hstart. rewrite Z.sub_0_r in Hv.
    fold num_chunks start in Hv, Hstart.
    rewrite Hv. rewrite concat_windows by lia.
    replace (Z.to_nat num_chunks * Z.to_nat length)%nat
      with (Z.to_nat (num_chunks * length)) by nia.
    reflexivity.
  - rewrite chunk_short by assumption.
    assert (H0 : num_chunks = 0) by (apply Z.div_small; lia).
    rewrite H0. reflexivity.
Qed.

(** Without overlap, the chunks one after the other are one part of the
    sequence, in its order: the part of [len(x) // length * length]
    elements that starts at 0, at the remainder or in between, by
    [align]; all of the sequence when [length] divides its length
    (X17). *)
Theorem chunk_contiguous :
  forall (A : Type) (x : list A) (length : Z) (align : string),
    0 < length ->
    align = "start"%string \/ align = "middle"%string \/ align = "end"%string ->
    let num_chunks := len x / length in
    let start :=
      if String.eqb align "start" then 0
      else if String.eqb align "end" then len x mod length
      else len x mod length / 2 in
    exists res,
      chunk x length 0 align = Ok res
      /\ shape res = [Z.to_nat num_chunks; Z.to_nat length]
      /\ data res = firstn (Z.to_nat (num_chunks * length))
                           (skipn (Z.to_nat start) x)
      /\ (len x mod length = 0 -> data res = x).
Proof.
  intros A x length align Hl Halign num_chunks start.
  eexists. split; [apply chunk_no_overlap; assumption|].
  split; [reflexivity|]. split; [reflexivity|].
  cbn [data]. intros H0.
  pose proof (Z.div_mod (len x) length ltac:(lia)) as Hdm.
  assert (Hs : (if String.eqb align "start" then 0
                else if String.eqb align "end" then len x mod length
                else len x mod length / 2) = 0).
  { rewrite H0. destruct (String.eqb align "start"); [reflexivity|].
    destruct (String.eqb align "end"); reflexivity. }
  rewrite Hs. cbn [Z.to_nat skipn]. apply firstn_all2. unfold len in *. lia.
Qed.

Lemma chunk_contiguous_witness :
  exists res,
    chunk [1; 2; 3; 4; 5; 6; 7; 8] 3 0 "middle" = Ok res
    /\ shape res = [2; 3]%nat
    /\ data res = [2; 3; 4; 5; 6; 7].
Proof.
  destruct (@chunk_contiguous Z [1; 2; 3; 4; 5; 6; 7; 8] 3 "middle")
    as (res & H1 & H2 & H3 & _).
  - lia.
  - right. left. reflexivity.
  - exists res. split; [exact H1|]. split; [exact H2 | exact H3].
Defined.

(** An [align] that is none of the three is refused after the result was
    allocated: with a length and an overlap that [chunk] accepts, the
    call raises the [ValueError] of [align] (X18). *)
Theorem chunk_align :
  forall (A : Type) (x : list A) (length overlap : Z) (align : string),
    align <> "start"%string -> align <> "middle"%string -> align <> "end"%string ->
    len x < length \/ (0 <= length <= len x /\ overlap < length) ->
    chunk x length overlap align = Raise (ValueError msg_align).
Proof.
  intros A x length overlap align H1 H2 H3 Hcase. pose proof (len_nonneg x) as Hx.
  apply String.eqb_neq in H1, H2, H3. unfold chunk.
  destruct Hcase as [Hlt | [Hl Ho]].
  - destruct (Z.leb_spec length (len x)); [lia|]. cbn [bind].
    destruct (Z.ltb_spec length 0); [lia|]. cbn [Z.ltb orb].
    rewrite H1, H2, H3. reflexivity.
  - destruct (chunk_arith (proj1 Hl) Ho (proj2 Hl)) as (Hnum & _ & _).
    destruct (Z.leb_spec length (len x)); [|lia].
    destruct (Z.eqb_spec (length - overlap) 0); [lia|]. cbn [bind].
    destruct (Z.ltb_spec ((len x - length) / (length - overlap) + 1) 0); [lia|].
    destruct (Z.ltb_spec length 0); [lia|]. cbn [orb].
    rewrite H1, H2, H3. reflexivity.
Qed.

Lemma chunk_align_witness :
  chunk [1; 2; 3; 4; 5] 2 0 "centre" = Raise (ValueError msg_align).
Proof.
  apply (@chunk_align Z [1; 2; 3; 4; 5] 2 0 "centre").
  - discriminate.
  - discriminate.
  - discriminate.
  - right. cbn. lia.
Defined.

(** ** regular_to_ragged and ragged_to_regular *)

Lemma count_filter {A} (f : A -> bool) (row : list A) :
  sumZ (map bool_to_Z (map f row)) = len (filter f row).
Proof.
  unfold len. induction row as [|a row IH]; [reflexivity|].
  cbn [map sumZ filter]. rewrite IH.
  destruct (f a); cbn [bool_to_Z List.length]; lia.
Qed.

Lemma length_filter_le {A} (f : A -> bool) (l : list A) :
  (List.length (filter f l) <= List.length l)%nat.
Proof.
  induction l as [|a l IH]; [apply le_n|].
  cbn [filter]. destruct (f a); cbn [List.length]; lia.
Qed.

(** [regular_to_ragged] on the array of the rows [rows], all of [m]
    elements. *)
Lemma regular_to_ragged_rows {T} (isnan : T -> bool) (neq : T -> T -> bool)
      (fill_value : T) (m : nat) (rows : list (list T)) :
  Forall (fun row => List.length row = m) rows ->
  regular_to_ragged isnan neq (mk_nd [List.length rows; m] (concat rows)) fill_value
  = Ok (concat (map (filter (is_valid isnan neq fill_value)) rows),
        array1 (map (fun row => len (filter (is_valid isnan neq fill_value) row))
                    rows)).
Proof.
  intros Hlen. unfold regular_to_ragged, np_sum_axis1.
  cbn [shape data bind nd_size fold_right]. rewrite Nat.mul_1_r.
  rewrite np_compress_filter. f_equal. f_equal.
  - symmetry. apply concat_filter_map.
  - unfold array1. rewrite length_map. f_equal.
    rewrite concat_map.
    replace (List.length rows) with
      (List.length (map (map (is_valid isnan neq fill_value)) rows))
      by apply length_map.
    rewrite blocks_concat.
    + rewrite map_map.
      induction Hlen as [|row rows Hrow _ IH]; [reflexivity|].
      cbn [map concat]. rewrite IH.
      replace m with (List.length (map bool_to_Z
                        (map (is_valid isnan neq fill_value) row))) at 1
        by (rewrite !length_map; exact Hrow).
      rewrite sum_vectors_singletons, count_filter. reflexivity.
    + apply Forall_forall. intros blk Hblk. apply in_map_iff in Hblk.
      destruct Hblk as (row & <- & Hin).
      rewrite Forall_forall in Hlen. rewrite length_map. apply Hlen, Hin.
Qed.

(** [regular_to_ragged] on any two-dimensional array keeps, in their
    order, the elements that are not the fill value, wherever they are in
    their row, and counts them row by row: the sizes it returns sum to
    the length of the flat array it returns, and none exceeds the width.
    A one-dimensional array has no axis 1 to sum along (X19). *)
Theorem regular_to_ragged_spec :
  forall (T : Type) (isnan : T -> bool) (neq : T -> T -> bool) (fill_value : T),
    (forall (m : nat) (rows : list (list T)),
        Forall (fun row => List.length row = m) rows ->
        exists flat rowsize,
          regular_to_ragged isnan neq (mk_nd [List.length rows; m] (concat rows))
                            fill_value
          = Ok (flat, array1 rowsize)
          /\ flat = filter (fun a => if isnan fill_value then negb (isnan a)
                                     else neq a fill_value)
                           (concat rows)
          /\ List.length rowsize = List.length rows
          /\ split_rows flat rowsize
             = map (filter (fun a => if isnan fill_value then negb (isnan a)
                                     else neq a fill_value))
                   rows
          /\ sumZ rowsize = len flat
          /\ Forall (fun r => 0 <= r <= Z.of_nat m) rowsize)
    /\ (forall l : list T,
        regular_to_ragged isnan neq (array1 l) fill_value = Raise AxisError).
Proof.
  intros T isnan neq fill_value. split; [|reflexivity].
  intros m rows Hlen.
  exists (concat (map (filter (is_valid isnan neq fill_value)) rows)),
         (map (fun row => len (filter (is_valid isnan neq fill_value) row)) rows).
  split; [apply regular_to_ragged_rows; exact Hlen|].
  split; [apply concat_filter_map|].
  split; [apply length_map|].
  rewrite <- (map_map (filter (is_valid isnan neq fill_value)) len).
  split; [apply split_rows_concat|].
  split; [apply sumZ_lengths|].
  rewrite Forall_map, Forall_map. rewrite Forall_forall in *.
  intros row Hrow. specialize (Hlen row Hrow).
  pose proof (length_filter_le (is_valid isnan neq fill_value) row).
  unfold len. lia.
Qed.

Lemma regular_to_ragged_spec_witness :
  exists flat rowsize,
    regular_to_ragged Z_isnan Z_neq
      (mk_nd [List.length [[1; -999; 3]; [-999; 4; 5]]; 3%nat]
             (concat [[1; -999; 3]; [-999; 4; 5]])) (-999)
    = Ok (flat, array1 rowsize)
    /\ flat = [1; 3; 4; 5] /\ rowsize = [2; 2].
Proof.
  destruct (proj1 (@regular_to_ragged_spec Z Z_isnan Z_neq (-999))
                  3%nat [[1; -999; 3]; [-999; 4; 5]])
    as (flat & rowsize & H & -> & _).
  - repeat constructor.
  - exists (filter (fun a => if Z_isnan (-999) then negb (Z_isnan a)
                             else Z_neq a (-999))
                   (concat [[1; -999; 3]; [-999; 4; 5]])), rowsize.
    split; [exact H|]. split; [reflexivity|].
    assert (E : Ok (filter (fun a => if Z_isnan (-999) then negb (Z_isnan a)
                                     else Z_neq a (-999))
                           (concat [[1; -999; 3]; [-999; 4; 5]]), array1 rowsize)
                = Ok ([1; 3; 4; 5], array1 [2; 2]))
      by (rewrite <- H; reflexivity).
    injection E as _ E. exact E.
Defined.

Lemma py_max_In (l : list Z) (m : Z) : py_max l = Ok m -> In m l.
Proof.
  destruct l as [|a l]; [discriminate|]. cbn [py_max]. intros H. injection H as <-.
  revert a. induction l as [|b l IH]; intros a; [left; reflexivity|].
  cbn [fold_left]. destruct (IH (Z.max a b)) as [H | H].
  - rewrite <- H.
    destruct (Z.max_spec a b) as [[_ E] | [_ E]]; rewrite E;
      [right; left | left]; reflexivity.
  - right. right. exact H.
Qed.

(** X20.  [ragged_to_regular] on a flat ragged array with at least one
    row, of non-negative sizes that sum to its length.  When the product
    of the fill value and the ones of the dtype of the array is defined,
    the result is an array of [len(rowsize)] rows and [max(rowsize)]
    columns whose row [n] is the row [n] of the ragged array, converted
    to the dtype of the product, followed by the value of the product.
    When the product raises, as it does for an array of dates or of
    strings, [ragged_to_regular] raises its exception. *)
Theorem ragged_to_regular_spec :
  forall (T E : Type) (times_ones : T -> result T) (astype : E -> T)
         (ragged : list E) (rowsize : list Z) (fill_value : T),
    rowsize <> [] -> Forall (fun r => 0 <= r) rowsize ->
    sumZ rowsize = len ragged ->
    exists m : Z,
      In m rowsize /\ Forall (fun r => r <= m) rowsize
      /\ ragged_to_regular times_ones astype ragged rowsize fill_value
         = match times_ones fill_value with
           | Ok fill =>
               Ok (mk_nd [List.length rowsize; Z.to_nat m]
                     (concat (map (fun row =>
                                     map astype row
                                     ++ repeat fill (Z.to_nat m - List.length row))
                                  (split_rows ragged rowsize))))
           | Raise e => Raise e
           end.
Proof.
  intros T E times_ones astype ragged rowsize fill_value Hne Hpos Hsum.
  destruct (py_max_nonempty Hne) as (m & Hmax). exists m.
  split; [apply py_max_In; exact Hmax|].
  split; [apply py_max_bound; exact Hmax|].
  destruct (times_ones fill_value) as [fill|e] eqn:Hones.
  - rewrite (@ragged_to_regular_padded T E times_ones astype ragged rowsize
               fill_value fill m Hmax Hpos Hsum Hones).
    rewrite length_split_rows. reflexivity.
  - apply ragged_to_regular_times_ones_raise; assumption.
Qed.

Lemma ragged_to_regular_spec_witness :
  exists m : Z,
    In m [2; 1; 2] /\ Forall (fun r => r <= m) [2; 1; 2]
    /\ ragged_to_regular float64_times_ones float64_astype [1; 2; 3; 4; 5] [2; 1; 2] NaN
       = Ok (mk_nd [List.length [2; 1; 2]; Z.to_nat m]
               (concat (map (fun row => map float64_astype row
                                        ++ repeat NaN (Z.to_nat m - List.length row))
                            (split_rows [1; 2; 3; 4; 5] [2; 1; 2])))).
Proof.
  apply (@ragged_to_regular_spec float64 Z float64_times_ones float64_astype
           [1; 2; 3; 4; 5] [2; 1; 2] NaN).
  - discriminate.
  - repeat constructor; lia.
  - reflexivity.
Defined.

(** ** _mask_var *)






(** ** subset: the rows of the result *)

Lemma count_of_positive (u : Z) (l : list Z) : In u l -> 0 < count_of u l.
Proof.
  intros Hin. unfold count_of, len.
  assert (H : In u (filter (Z.eqb u) l))
    by (apply filter_In; split; [exact Hin | apply Z.eqb_refl]).
  destruct (filter (Z.eqb u) l); [destruct H | cbn [List.length]; lia].
Qed.

(** Every size that [subset] writes back counts at least one
    observation. *)
Lemma recomputed_rowsize_positive (l : list Z) :
  Forall (fun n => 0 < n) (recomputed_rowsize l).
Proof.
  unfold recomputed_rowsize, np_take. apply Forall_map, Forall_forall.
  intros i Hi.
  apply (Permutation_in _ (np_argsort_perm _)) in Hi.
  apply in_map_iff in Hi. destruct Hi as (j & <- & Hj). apply in_seq in Hj.
  rewrite length_map in Hj. rewrite Nat2Z.id.
  rewrite nth_indep with (d' := count_of (nth j (np_unique l) 0) l)
    by (rewrite length_map; lia).
  rewrite (map_nth (fun u => count_of u l)).
  apply count_of_positive, In_np_unique, nth_In. lia.
Qed.

Lemma count_true_positive (mask : list bool) :
  existsb id mask = true -> (1 <= count_true mask)%nat.
Proof.
  intros H. apply existsb_exists in H. destruct H as (b & Hin & Hb).
  unfold count_true, id in *. subst b.
  assert (H : In true (filter (fun x => x) mask))
    by (apply filter_In; split; [exact Hin | reflexivity]).
  destruct (filter (fun x => x) mask); [destruct H | cbn [List.length]; lia].
Qed.

(** On a ragged dataset, [subset] returns the dataset without anything,
    or a dataset with at least one row; in it, there is one identifier
    and one size for every row, and no size is 0: a row that keeps no
    observation is not kept (X23). *)
Theorem subset_rows_nonempty :
  forall (ds : Dataset) (criteria : list (key * criterion))
         (id_var_name rowsize_var_name row_dim_name obs_dim_name : string)
         (full_rows : bool) (ds' : Dataset),
    ragged_dataset ds id_var_name rowsize_var_name row_dim_name obs_dim_name ->
    subset ds criteria id_var_name rowsize_var_name row_dim_name obs_dim_name full_rows
    = Ok ds' ->
    ds' = empty_dataset
    \/ ((1 <= dim_size ds' row_dim_name)%nat
        /\ List.length (var_data ds' id_var_name) = dim_size ds' row_dim_name
        /\ List.length (var_data ds' rowsize_var_name) = dim_size ds' row_dim_name
        /\ Forall (fun n => 0 < n) (var_data ds' rowsize_var_name)).
Proof.
  intros ds criteria id_var_name rowsize_var_name row_dim_name obs_dim_name
         full_rows ds'
         (Hdims & Hnames & (ids & Hid & Hidlen) & (sizes & Hsize & Hsizelen)) Hsub.
  destruct (@subset_selection ds ds' criteria id_var_name rowsize_var_name
              row_dim_name obs_dim_name full_rows ids sizes Hid Hsize Hsub)
    as (masks & mr1 & mo2 & iw2 & _ & Hsel).
  destruct Hsel as (mo1 & rep & iw1 & E1 & E2 & E3 & E4 & E5 & Hres).
  destruct Hres as [[_ ->] | [Hany (ds_sub & Hisel & Hset)]]; [left; reflexivity|].
  right.
  destruct (@materialized ds ds_sub ds' id_var_name rowsize_var_name
              row_dim_name obs_dim_name ids sizes mr1 mo2 _
              Hdims Hnames Hid Hidlen Hsize Hsizelen Hisel Hset)
    as (_ & Hrows & Hvalues & Hids & Hvlen & Hmr & _).
  rewrite Hrows, Hvalues, Hids.
  split; [apply count_true_positive; exact Hany|].
  split; [apply length_np_compress; exact Hmr|].
  split; [exact Hvlen | apply recomputed_rowsize_positive].
Qed.

Lemma subset_rows_nonempty_witness :
  exists ds',
    subset example_dataset [(KName "lat", CRange 20 20)]
           "id" "rowsize" "rows" "obs" false = Ok ds'
    /\ (ds' = empty_dataset
        \/ ((1 <= dim_size ds' "rows")%nat
            /\ List.length (var_data ds' "id") = dim_size ds' "rows"
            /\ List.length (var_data ds' "rowsize") = dim_size ds' "rows"
            /\ Forall (fun n => 0 < n) (var_data ds' "rowsize"))).
Proof.
  eexists. split; [reflexivity|].
  refine (@subset_rows_nonempty example_dataset [(KName "lat", CRange 20 20)]
            "id" "rowsize" "rows" "obs" false _ _ eq_refl).
  split; [discriminate|]. split; [discriminate|]. split.
  - exists [7; 8]. split; reflexivity.
  - exists [1; 2]. split; reflexivity.
Defined.

(** ** subset: the observations of the result *)

(** A variable over the observation dimension keeps the values of the
    observations of the mask. *)
Lemma isel_obs_variable (ds : Dataset) (row_dim_name obs_dim_name : string)
      (mr mo : list bool) (values : list Z) :
  row_dim_name <> obs_dim_name ->
  List.length values = dim_size ds obs_dim_name ->
  isel_variable ds (indexers row_dim_name obs_dim_name mr mo)
                (mk_var [obs_dim_name] values)
  = mk_var [obs_dim_name] (np_compress mo values).
Proof.
  intros Hne Hlen. unfold isel_variable, indexers.
  destruct (String.eqb_spec row_dim_name obs_dim_name); [congruence|].
  cbn [var_dims var_values map fold_left]. unfold isel_dim at 2.
  cbn [fst snd index_of].
  destruct (String.eqb_spec row_dim_name obs_dim_name); [congruence|].
  unfold isel_dim. cbn [fst snd index_of]. rewrite String.eqb_refl.
  cbn [snd compress_axis nd_size fold_right]. rewrite <- Hlen.
  rewrite blocks_singletons, np_compress_map, concat_singletons. reflexivity.
Qed.

Lemma logical_and_true (n : nat) (m r : list bool) :
  logical_and (repeat true n) m = Ok r -> r = m /\ List.length m = n.
Proof.
  unfold logical_and. rewrite repeat_length.
  destruct (Nat.eqb_spec n (List.length m)) as [-> | _]; [|discriminate].
  intros [= <-]. split; [|reflexivity].
  induction m as [|b m IH]; [reflexivity|].
  cbn [List.length repeat combine map fst snd andb]. rewrite IH. reflexivity.
Qed.

Lemma np_where_from_none (k : Z) (n : nat) :
  np_where_from k (map negb (repeat true n)) = [].
Proof.
  revert k. induction n as [|n IH]; intros k; [reflexivity|].
  cbn [repeat map negb np_where_from]. apply IH.
Qed.

Lemma np_compress_nothing {A} (mask : list bool) (d : list A) :
  (forall p, nth_error mask p <> Some true) -> np_compress mask d = [].
Proof.
  intros Hnone. destruct (np_compress mask d) as [|a l] eqn:E; [reflexivity|].
  assert (Hin : In a (np_compress mask d)) by (rewrite E; left; reflexivity).
  apply In_np_compress in Hin. destruct Hin as (p & Hp & _).
  destruct (Hnone p Hp).
Qed.

(** The turn of the loop of [subset] for a criterion on a variable over
    the observation dimension. *)
Lemma subset_criterion_obs (ds : Dataset)
      (rowsize_var_name row_dim_name obs_dim_name name : string)
      (values sizes : list Z) (c : criterion)
      (masks masks' : list bool * list bool) :
  row_dim_name <> obs_dim_name ->
  lookup name (ds_variables ds) = Some (mk_var [obs_dim_name] values) ->
  lookup rowsize_var_name (ds_variables ds) = Some (mk_var [row_dim_name] sizes) ->
  subset_criterion ds rowsize_var_name row_dim_name obs_dim_name masks (KName name, c)
  = Ok masks' ->
  exists m,
    _mask_var (VarOne (mk_var [obs_dim_name] values)) c sizes = Ok m
    /\ logical_and (snd masks) m = Ok (snd masks')
    /\ fst masks' = fst masks.
Proof.
  intros Hne Hname Hsize. unfold subset_criterion. cbn [fst snd].
  destruct (key_known ds (KName name)); [|discriminate].
  cbn [key_variables]. rewrite (ds_getitem_variable _ _ Hname).
  cbn [bind fst snd var_dims mem existsb].
  destruct (String.eqb_spec row_dim_name obs_dim_name); [congruence|].
  rewrite String.eqb_refl. cbn [orb].
  rewrite (ds_getitem_variable _ _ Hsize). cbn [bind var_values].
  destruct (_mask_var _ c sizes) as [m|e]; [|discriminate]. cbn [bind].
  destruct (logical_and (snd masks) m) as [mo|e] eqn:E; [|discriminate].
  cbn [bind]. intros [= <-]. exists m. auto.
Qed.

(** With one criterion on a variable over the observation dimension and
    [full_rows] off, the result keeps, of every variable over that
    dimension, the values of the observations on which the criterion
    holds, in their order: for a range [(lo, hi)] the values [x] of the
    variable with [lo <= x <= hi], for a list the values in the list, for
    a single value the values equal to it (X24). *)
Theorem subset_observations :
  forall (ds : Dataset)
         (id_var_name rowsize_var_name row_dim_name obs_dim_name name : string)
         (values : list Z) (c : criterion) (ds' : Dataset),
    ragged_dataset ds id_var_name rowsize_var_name row_dim_name obs_dim_name ->
    lookup name (ds_variables ds) = Some (mk_var [obs_dim_name] values) ->
    subset ds [(KName name, c)] id_var_name rowsize_var_name row_dim_name
           obs_dim_name false = Ok ds' ->
    exists m,
      _mask_var (VarOne (mk_var [obs_dim_name] values)) c
                (var_data ds rowsize_var_name) = Ok m
      /\ (forall (w : string) (w_values : list Z),
             lookup w (ds_variables ds) = Some (mk_var [obs_dim_name] w_values) ->
             List.length w_values = dim_size ds obs_dim_name ->
             var_data ds' w = np_compress m w_values)
      /\ (forall lo hi, c = CRange lo hi ->
             m = map (fun x => (lo <=? x) && (x <=? hi)) values)
      /\ (forall vs, c = CValues vs ->
             m = map (fun x => existsb (Z.eqb x) vs) values)
      /\ (forall x0, c = CScalar x0 -> m = map (fun x => x =? x0) values).
Proof.
  intros ds id_var_name rowsize_var_name row_dim_name obs_dim_name name values c ds'
         (Hdims & Hnames & (ids & Hid & Hidlen) & (sizes & Hsize & Hsizelen))
         Hname Hsub.
  destruct (@subset_selection ds ds' [(KName name, c)] id_var_name rowsize_var_name
              row_dim_name obs_dim_name false ids sizes Hid Hsize Hsub)
    as (masks & mr1 & mo2 & iw2 & Hfold & Hsel).
  cbn [foldM] in Hfold.
  destruct (subset_criterion ds rowsize_var_name row_dim_name obs_dim_name _ _)
    as [masks'|e] eqn:Ecrit; [|discriminate].
  cbn [bind] in Hfold. injection Hfold as <-.
  destruct (@subset_criterion_obs ds rowsize_var_name row_dim_name obs_dim_name
              name values sizes c _ masks' Hdims Hname Hsize Ecrit)
    as (m & Hm & Hand & Hrow).
  cbn [fst snd] in Hand, Hrow.
  destruct (logical_and_true _ _ Hand) as [Hmo Hmlen].
  destruct masks' as [mr mo]. cbn [fst snd] in *. subst mr mo.
  exists m. unfold var_data at 1. rewrite Hsize. cbn [var_values].
  split; [exact Hm|]. split.
  - intros w w_values Hw Hwlen.
    destruct Hsel as (mo1 & rep & iw1 & E1 & E2 & E3 & E4 & [-> ->] & Hres).
    assert (Hmo1 : mo1 = m).
    { unfold np_where in E1. rewrite np_where_from_none in E1.
      cbn [set_rows] in E1. congruence. }
    subst mo1.
    assert (Hlen : List.length ids = List.length sizes) by congruence.
    destruct Hres as [[Hnone ->] | [_ (ds_sub & Hisel & Hset)]].
    + cbn. symmetry. apply np_compress_nothing. intros p Hp.
      destruct (bool_index_inv _ _ E3) as [Hreplen _].
      assert (Hplt : (p < List.length rep)%nat)
        by (rewrite Hreplen; apply nth_error_Some; congruence).
      destruct (nth_error rep p) as [u|] eqn:Eu;
        [|apply nth_error_None in Eu; lia].
      destruct (@kept_observation_row ids sizes _ m m mr1 rep iw1
                  Hlen E1 E2 E3 E4 p u Hp Eu) as (i & Hi & _).
      assert (Hex : existsb id mr1 = true).
      { apply existsb_exists. exists true. split; [|reflexivity].
        eapply nth_error_In, Hi. }
      congruence.
    + assert (Hwne : w <> rowsize_var_name).
      { intros ->. rewrite Hsize in Hw. injection Hw as Hd _. congruence. }
      destruct (set_values_variables _ _ _ Hset) as (_ & _ & _ & _ & Hother).
      unfold var_data. rewrite (Hother w Hwne), (@isel_variables ds ds_sub _ w Hisel), Hw.
      rewrite isel_obs_variable by assumption. reflexivity.
  - split; [|split]; intros; subst c; cbn [_mask_var] in Hm;
      injection Hm as <-; reflexivity.
Qed.

Lemma subset_observations_witness :
  exists ds',
    subset example_dataset [(KName "lat", CRange 20 30)]
           "id" "rowsize" "rows" "obs" false = Ok ds'
    /\ var_data ds' "lat" = [20; 30].
Proof.
  destruct (subset example_dataset [(KName "lat", CRange 20 30)]
                   "id" "rowsize" "rows" "obs" false) as [ds'|e] eqn:E;
    [|discriminate E].
  exists ds'. split; [reflexivity|].
  destruct (@subset_observations example_dataset "id" "rowsize" "rows" "obs" "lat"
              [10; 20; 30] (CRange 20 30) ds') as (m & _ & Hw & Hr & _).
  - split; [discriminate|]. split; [discriminate|]. split.
    + exists [7; 8]. split; reflexivity.
    + exists [1; 2]. split; reflexivity.
  - reflexivity.
  - exact E.
  - rewrite (Hw "lat"%string [10; 20; 30] eq_refl eq_refl).
    rewrite (Hr 20 30 eq_refl). reflexivity.
Defined.

(** ** subset: the conditions it raises *)

(** A turn of the loop that raises ends [subset]. *)
Lemma subset_raise_at (ds : Dataset) (pre post : list (key * criterion))
      (kc : key * criterion)
      (id_var_name rowsize_var_name row_dim_name obs_dim_name : string)
      (full_rows : bool) (masks : list bool * list bool) (e : exn) :
  foldM (subset_criterion ds rowsize_var_name row_dim_name obs_dim_name) pre
        (repeat true (dim_size ds row_dim_name),
         repeat true (dim_size ds obs_dim_name)) = Ok masks ->
  lookup row_dim_name (ds_sizes ds) <> None ->
  lookup obs_dim_name (ds_sizes ds) <> None ->
  subset_criterion ds rowsize_var_name row_dim_name obs_dim_name masks kc = Raise e ->
  subset ds (pre ++ kc :: post) id_var_name rowsize_var_name row_dim_name
         obs_dim_name full_rows = Raise e.
Proof.
  intros Hpre Hrow Hobs Hkc. unfold subset, ds_size.
  unfold dim_size in Hpre.
  destruct (lookup row_dim_name (ds_sizes ds)); [|congruence].
  destruct (lookup obs_dim_name (ds_sizes ds)); [|congruence].
  cbn [bind]. rewrite foldM_app, Hpre. cbn [bind foldM]. rewrite Hkc. reflexivity.
Qed.

Lemma mapM_getitem_known (ds : Dataset) (names : list string) (vars : list variable) :
  mapM (ds_getitem ds) names = Ok vars -> key_known ds (KTuple names) = true.
Proof.
  intros H. apply mapM_Forall2 in H. unfold key_known. cbn [key_names].
  apply forallb_forall. intros name Hin.
  destruct (Forall2_In_left name H Hin) as (v & _ & Hv).
  pose proof (ds_getitem_known _ _ Hv) as Hk.
  unfold key_known in Hk. cbn [key_names forallb] in Hk.
  rewrite andb_true_r in Hk. exact Hk.
Qed.

(** The conditions that [subset] raises on its arguments, at the first
    criterion that has one: a dimension that the dataset does not have
    is a [KeyError]; a key that names neither a variable nor a dimension
    is the [ValueError] of an unknown variable; a tuple of variables
    that do not share their dimensions is a [TypeError]; and so is a
    tuple of variables over the row or the observation dimension with a
    criterion that is not a function (X25). *)
Theorem subset_errors :
  forall (ds : Dataset)
         (id_var_name rowsize_var_name row_dim_name obs_dim_name : string)
         (full_rows : bool),
    (forall criteria,
        lookup row_dim_name (ds_sizes ds) = None ->
        subset ds criteria id_var_name rowsize_var_name row_dim_name obs_dim_name
               full_rows = Raise (KeyError row_dim_name))
    /\ (forall criteria,
        lookup row_dim_name (ds_sizes ds) <> None ->
        lookup obs_dim_name (ds_sizes ds) = None ->
        subset ds criteria id_var_name rowsize_var_name row_dim_name obs_dim_name
               full_rows = Raise (KeyError obs_dim_name))
    /\ (forall pre post k c masks,
        lookup row_dim_name (ds_sizes ds) <> None ->
        lookup obs_dim_name (ds_sizes ds) <> None ->
        foldM (subset_criterion ds rowsize_var_name row_dim_name obs_dim_name) pre
              (repeat true (dim_size ds row_dim_name),
               repeat true (dim_size ds obs_dim_name)) = Ok masks ->
        (key_known ds k = false ->
         subset ds (pre ++ (k, c) :: post) id_var_name rowsize_var_name
                row_dim_name obs_dim_name full_rows
         = Raise (ValueError msg_unknown_variable))
        /\ (forall names vars,
            k = KTuple names -> mapM (ds_getitem ds) names = Ok vars ->
            (exists v, In v vars /\ var_dims v <> var_dims (hd (mk_var [] []) vars)) ->
            subset ds (pre ++ (k, c) :: post) id_var_name rowsize_var_name
                   row_dim_name obs_dim_name full_rows
            = Raise (TypeError msg_callable_dims))
        /\ (forall names v vars rowsize,
            k = KTuple names -> mapM (ds_getitem ds) names = Ok (v :: vars) ->
            (forall v', In v' vars -> var_dims v' = var_dims v) ->
            In row_dim_name (var_dims v) \/ In obs_dim_name (var_dims v) ->
            ds_getitem ds rowsize_var_name = Ok rowsize ->
            (forall f, c <> CCallable f) ->
            subset ds (pre ++ (k, c) :: post) id_var_name rowsize_var_name
                   row_dim_name obs_dim_name full_rows
            = Raise (TypeError msg_callable_list))).
Proof.
  intros ds id_var_name rowsize_var_name row_dim_name obs_dim_name full_rows.
  split; [|split].
  - intros criteria Hrow. unfold subset, ds_size. rewrite Hrow. reflexivity.
  - intros criteria Hrow Hobs. unfold subset, ds_size.
    destruct (lookup row_dim_name (ds_sizes ds)); [|congruence].
    rewrite Hobs. reflexivity.
  - intros pre post k c masks Hrow Hobs Hpre. split; [|split].
    + intros Hk. apply subset_raise_at with (masks := masks); try assumption.
      unfold subset_criterion. cbn [fst]. rewrite Hk. reflexivity.
    + intros names vars -> Hvars (v & Hv & Hd).
      apply subset_raise_at with (masks := masks); try assumption.
      unfold subset_criterion. cbn [fst snd].
      rewrite (mapM_getitem_known _ _ Hvars). cbn [key_variables].
      rewrite Hvars. cbn [bind].
      assert (Hall : forallb (fun c0 => dims_eqb (var_dims c0)
                                          (var_dims (hd (mk_var [] []) vars)))
                             vars = false).
      { apply not_true_is_false. intros Hall.
        rewrite forallb_forall in Hall. specialize (Hall v Hv).
        unfold dims_eqb in Hall.
        destruct (list_eq_dec string_dec (var_dims v)
                              (var_dims (hd (mk_var [] []) vars)));
          [contradiction | discriminate]. }
      rewrite Hall. reflexivity.
    + intros names v vars rowsize -> Hvars Hsame Hdim Hsize Hc.
      apply subset_raise_at with (masks := masks); try assumption.
      unfold subset_criterion. cbn [fst snd].
      rewrite (mapM_getitem_known _ _ Hvars). cbn [key_variables].
      rewrite Hvars. cbn [bind hd].
      assert (Hall : forallb (fun c0 => dims_eqb (var_dims c0) (var_dims v))
                             (v :: vars) = true).
      { apply forallb_forall. intros v' [<- | Hv']; unfold dims_eqb.
        - destruct (list_eq_dec string_dec (var_dims v) (var_dims v));
            [reflexivity | congruence].
        - destruct (list_eq_dec string_dec (var_dims v') (var_dims v)) as [_ | Hne];
            [reflexivity | destruct (Hne (Hsame v' Hv'))]. }
      rewrite Hall. cbn [negb]. rewrite py_getitem_head. cbn [bind fst snd].
      assert (Hraise : _mask_var (VarList (v :: vars)) c (var_values rowsize)
                       = Raise (TypeError msg_callable_list)).
      { destruct c as [lo hi | values | f | x]; try reflexivity.
        destruct (Hc f eq_refl). }
      assert (Hmem : forall d, In d (var_dims v) -> mem d (var_dims v) = true).
      { intros d Hd. unfold mem. apply existsb_exists. exists d.
        split; [exact Hd | apply String.eqb_refl]. }
      destruct (mem row_dim_name (var_dims v)) eqn:Erow.
      * rewrite Hsize. cbn [bind]. rewrite Hraise. reflexivity.
      * destruct Hdim as [Hdim | Hdim]; [rewrite (Hmem _ Hdim) in Erow; discriminate|].
        rewrite (Hmem _ Hdim), Hsize. cbn [bind]. rewrite Hraise. reflexivity.
Qed.

Lemma subset_errors_witness :
  subset example_dataset ([] ++ (KName "lon", CRange 0 1) :: [])
         "id" "rowsize" "rows" "obs" false
  = Raise (ValueError msg_unknown_variable)
  /\ subset example_dataset ([] ++ (KTuple ["lat"; "z"]%string, CRange 0 1) :: [])
            "id" "rowsize" "rows" "obs" false
     = Raise (TypeError msg_callable_dims)
  /\ subset example_dataset ([] ++ (KTuple ["id"; "rowsize"]%string, CRange 0 1) :: [])
            "id" "rowsize" "rows" "obs" false
     = Raise (TypeError msg_callable_list).
Proof.
  pose proof (@subset_errors example_dataset "id" "rowsize" "rows" "obs" false)
    as (_ & _ & H).
  split; [|split].
  - refine (proj1 (H [] [] (KName "lon") (CRange 0 1) _ _ _ eq_refl) eq_refl);
      discriminate.
  - refine (proj1 (proj2 (H [] [] (KTuple ["lat"; "z"]%string) (CRange 0 1) _ _ _ eq_refl))
                  ["lat"; "z"]%string _ eq_refl eq_refl _); try discriminate.
    exists (mk_var ["depth"%string] [0; 100]).
    split; [right; left; reflexivity | discriminate].
  - refine (proj2 (proj2 (H [] [] (KTuple ["id"; "rowsize"]%string) (CRange 0 1) _ _ _ eq_refl))
                  ["id"; "rowsize"]%string _ _ _ eq_refl eq_refl _ _ eq_refl _);
      try discriminate.
    + intros v' [<- | []]. reflexivity.
    + left. left. reflexivity.
Defined.

(** ** obs_index_to_row and the rows of unpack *)

Lemma Forall_firstn_keep {A} (P : A -> Prop) (n : nat) (l : list A) :
  Forall P l -> Forall P (firstn n l).
Proof.
  intros H. revert n. induction H as [|a l Ha _ IH]; intros [|n]; cbn [firstn];
    constructor; [exact Ha | apply IH].
Qed.

Lemma nth_split_rows {A} (rowsize : list Z) :
  Forall (fun r => 0 <= r) rowsize ->
  forall (x : list A) (r : nat),
    (r < List.length rowsize)%nat ->
    nth r (split_rows x rowsize) []
    = firstn (Z.to_nat (nth r rowsize 0))
             (skipn (Z.to_nat (sumZ (firstn r rowsize))) x).
Proof.
  induction 1 as [|a rowsize Ha Hpos IH]; intros x r Hr; [cbn in Hr; lia|].
  destruct r as [|r]; [reflexivity|].
  cbn [List.length] in Hr. cbn [split_rows nth firstn sumZ].
  rewrite IH by lia. rewrite skipn_skipn.
  pose proof (@sumZ_nonneg (firstn r rowsize)
                (Forall_firstn_keep r Hpos)) as Hs.
  replace (Z.to_nat (sumZ (firstn r rowsize)) + Z.to_nat a)%nat
    with (Z.to_nat (a + sumZ (firstn r rowsize))) by lia.
  reflexivity.
Qed.

Lemma sumZ_firstn_succ (l : list Z) (r : nat) :
  (r < List.length l)%nat ->
  sumZ (firstn (S r) l) = sumZ (firstn r l) + nth r l 0.
Proof.
  revert r. induction l as [|a l IH]; intros r Hr; [cbn in Hr; lia|].
  destruct r as [|r]; [cbn; lia|].
  cbn [List.length] in Hr. cbn [firstn sumZ nth] in *.
  rewrite (IH r) by lia. cbn [firstn sumZ]. lia.
Qed.

(** The row that [obs_index_to_row] gives for an observation of a ragged
    array is the row of [unpack] that holds it: the row is not empty,
    it starts at or before the observation, and the observation is its
    element number [i - rowsize_to_index(rowsize)[row]] (X26). *)
Theorem obs_index_to_row_unpack :
  forall (A : Type) (x : list A) (rowsize : list Z) (i : Z),
    Forall (fun r => 0 <= r) rowsize -> sumZ rowsize = len x ->
    0 <= i < len x ->
    exists (row : Z) (rows : list (list A)),
      obs_index_to_row (IndexInt i) rowsize = Ok [row]
      /\ unpack (array1 x) rowsize None 0 = Ok (map array1 rows)
      /\ 0 <= row < len rowsize
      /\ 0 < nth (Z.to_nat row) rowsize 0
      /\ nth (Z.to_nat row) (rowsize_to_index rowsize) 0 <= i
      /\ nth_error (nth (Z.to_nat row) rows [])
                   (Z.to_nat (i - nth (Z.to_nat row) (rowsize_to_index rowsize) 0))
         = nth_error x (Z.to_nat i).
Proof.
  intros A x rowsize i Hpos Hsum Hi.
  destruct (@obs_index_to_row_rows [i] rowsize Hpos) as (rs & Hrs & Hall).
  { constructor; [lia | constructor]. }
  inversion Hall as [|i' row l1 l2 (Hrow & Hlo & Hhi) Hrest]; subst.
  inversion Hrest; subst.
  exists row, (split_rows x rowsize).
  split; [exact Hrs|]. split; [apply unpack_1d; assumption|].
  assert (Hr : (Z.to_nat row < List.length rowsize)%nat) by (unfold len in Hrow; lia).
  replace (Z.to_nat (row + 1)) with (S (Z.to_nat row)) in Hhi by lia.
  rewrite rowsize_to_index_cons in *.
  rewrite nth_cumsum_from in * by lia.
  rewrite sumZ_firstn_succ in Hhi by exact Hr.
  pose proof (@sumZ_nonneg (firstn (Z.to_nat row) rowsize)
                (Forall_firstn_keep (Z.to_nat row) Hpos)) as Hs.
  split; [exact Hrow|]. split; [lia|]. split; [lia|].
  rewrite nth_split_rows by assumption.
  rewrite nth_error_firstn.
  destruct (Nat.ltb_spec (Z.to_nat (i - (0 + sumZ (firstn (Z.to_nat row) rowsize))))
                         (Z.to_nat (nth (Z.to_nat row) rowsize 0))); [|lia].
  rewrite nth_error_skipn. f_equal. lia.
Qed.

Lemma obs_index_to_row_unpack_witness :
  exists (row : Z) (rows : list (list Z)),
    obs_index_to_row (IndexInt 5) [2; 4; 3] = Ok [row]
    /\ unpack (array1 [10; 11; 12; 13; 14; 15; 16; 17; 18]) [2; 4; 3] None 0
       = Ok (map array1 rows)
    /\ 0 <= row < len [2; 4; 3]
    /\ 0 < nth (Z.to_nat row) [2; 4; 3] 0
    /\ nth (Z.to_nat row) (rowsize_to_index [2; 4; 3]) 0 <= 5
    /\ nth_error (nth (Z.to_nat row) rows [])
                 (Z.to_nat (5 - nth (Z.to_nat row) (rowsize_to_index [2; 4; 3]) 0))
       = nth_error [10; 11; 12; 13; 14; 15; 16; 17; 18] (Z.to_nat 5).
Proof.
  apply (@obs_index_to_row_unpack Z [10; 11; 12; 13; 14; 15; 16; 17; 18] [2; 4; 3] 5).
  - repeat constructor; lia.
  - reflexivity.
  - cbn. lia.
Defined.

Lemma length_filter_mono (a : list Z) (i j : Z) :
  i <= j ->
  (List.length (filter (fun e => (e <=? i)%Z) a)
   <= List.length (filter (fun e => (e <=? j)%Z) a))%nat.
Proof.
  intros Hij. induction a as [|e a IH]; [apply le_n|].
  cbn [filter]. destruct (Z.leb_spec e i), (Z.leb_spec e j);
    cbn [List.length]; lia.
Qed.

(** The forms of the index of [obs_index_to_row]: an integer stands for
    the list of it; an array of NumPy integers is read as the list of
    their values, while a list that holds a NumPy integer is refused;
    no index gives no row; and the rows follow the order of the
    observations (X27). *)
Theorem obs_index_to_row_forms :
  forall rowsize : list Z,
    (forall i, obs_index_to_row (IndexInt i) rowsize
               = obs_index_to_row (IndexList [PyInt i]) rowsize)
    /\ (forall l, obs_index_to_row (IndexNdarray (map NpInt l)) rowsize
                  = obs_index_to_row (IndexList (map PyInt l)) rowsize)
    /\ (forall l, obs_index_to_row (IndexDataArray (map NpInt l)) rowsize
                  = obs_index_to_row (IndexList (map PyInt l)) rowsize)
    /\ (forall items z, In (NpInt z) items ->
           obs_index_to_row (IndexList items) rowsize
           = Raise (ValueError msg_index_type))
    /\ obs_index_to_row (IndexList []) rowsize = Ok []
    /\ (forall i j ri rj,
           i <= j ->
           obs_index_to_row (IndexList [PyInt i; PyInt j]) rowsize = Ok [ri; rj] ->
           ri <= rj).
Proof.
  intros rowsize.
  assert (Hint : forall l, map (fun i => PyInt (py_int i)) (map NpInt l) = map PyInt l).
  { intros l. rewrite map_map. reflexivity. }
  split; [reflexivity|]. split; [|split; [|split; [|split]]].
  - intros l. unfold obs_index_to_row. rewrite Hint. reflexivity.
  - intros l. unfold obs_index_to_row. rewrite Hint. reflexivity.
  - intros items z Hin. unfold obs_index_to_row. cbn [bind].
    assert (H : forallb is_py_int items = false).
    { apply not_true_is_false. intros H. rewrite forallb_forall in H.
      specialize (H _ Hin). discriminate. }
    rewrite H. reflexivity.
  - reflexivity.
  - intros i j ri rj Hij. unfold obs_index_to_row.
    cbn [bind forallb is_py_int andb negb map py_int].
    destruct (existsb _ [i; j]); [discriminate|].
    cbn [map]. intros [= <- <-]. unfold np_searchsorted_right, len.
    pose proof (length_filter_mono (rowsize_to_index rowsize) Hij). lia.
Qed.

Lemma obs_index_to_row_forms_witness :
  obs_index_to_row (IndexList [NpInt 5]) [2; 4; 3] = Raise (ValueError msg_index_type)
  /\ 0 <= 1.
Proof.
  destruct (obs_index_to_row_forms [2; 4; 3]) as (_ & _ & _ & Hnp & _ & Hmono).
  split.
  - apply (Hnp [NpInt 5] 5). left. reflexivity.
  - apply (Hmono 1 5 0 1); [lia | reflexivity].
Defined.

(** ** chunk on the rows of a ragged array *)

Lemma matrices_not_zero_dim {A} (c : nat) (ps : list (nat * list A)) :
  existsb (fun a : ndarray A => Nat.eqb (List.length (shape a)) 0)
          (map (fun p => mk_nd [fst p; c] (snd p)) ps) = false.
Proof. induction ps as [|q qs IH]; [reflexivity|]. cbn. exact IH. Qed.

Lemma matrices_two_dim {A} (c : nat) (ps : list (nat * list A)) :
  forallb (fun a : ndarray A => Nat.eqb (List.length (shape a)) 2)
          (map (fun p => mk_nd [fst p; c] (snd p)) ps) = true.
Proof. induction ps as [|q qs IH]; [reflexivity|]. cbn. exact IH. Qed.

Lemma matrices_same_width {A} (c : nat) (ps : list (nat * list A)) :
  forallb (fun a : ndarray A => shape_eqb (set_nth 0 O (shape a)) [O; c])
          (map (fun p => mk_nd [fst p; c] (snd p)) ps) = true.
Proof.
  apply forallb_forall. intros a Ha. apply in_map_iff in Ha.
  destruct Ha as (p & <- & _). cbn [shape set_nth].
  unfold shape_eqb. destruct (list_eq_dec Nat.eq_dec [O; c] [O; c]);
    [reflexivity | congruence].
Qed.

(** [np.concatenate] along axis 0 of two-dimensional arrays of the same
    width. *)
Lemma np_concatenate_rows {A} (c : nat) (ps : list (nat * list A)) :
  ps <> [] ->
  np_concatenate (map (fun p => mk_nd [fst p; c] (snd p)) ps) 0
  = Ok (mk_nd [fold_right Nat.add O (map fst ps); c] (concat (map snd ps))).
Proof.
  intros Hne. destruct ps as [|p0 ps]; [congruence|].
  pose proof (matrices_not_zero_dim c (p0 :: ps)) as H0.
  pose proof (matrices_two_dim c (p0 :: ps)) as H1.
  pose proof (matrices_same_width c (p0 :: ps)) as H2.
  unfold np_concatenate. cbn [map] in *.
  rewrite H0. cbn [shape List.length].
  change (norm_axis 2 0) with (Some O).
  rewrite H1. cbn [negb].
  change (set_nth 0 O [fst p0; c]) with [O; c].
  rewrite H2. cbn [negb concat_axis set_nth map fold_right shape data nth fst snd concat].
  rewrite !map_map. reflexivity.
Qed.

Lemma sum_to_nat {A} (f : A -> Z) (l : list A) :
  (forall a, 0 <= f a) ->
  fold_right Nat.add O (map (fun a => Z.to_nat (f a)) l) = Z.to_nat (sumZ (map f l)).
Proof.
  intros Hf. induction l as [|a l IH]; [reflexivity|].
  cbn [map fold_right sumZ]. rewrite IH.
  assert (0 <= sumZ (map f l)).
  { apply sumZ_nonneg. apply Forall_map, Forall_forall. intros b _. apply Hf. }
  pose proof (Hf a). lia.
Qed.

(** [chunk] applied by [apply_ragged] to the rows of a flat ragged array,
    as its documentation proposes: the chunks of every row, row after
    row, in one array of [length] columns; no chunk holds elements of
    two rows, and a row of less than [length] elements gives none
    (X28). *)
Theorem apply_ragged_chunk :
  forall (A : Type) (func : list (ndarray A) -> result (pyval A))
         (x : list A) (rowsize : list Z) (length : Z),
    (forall row, func [array1 row]
                 = (res <- chunk row length 0 "start" ;; Ok (Single (OArr res)))) ->
    0 < length ->
    rowsize <> [] -> Forall (fun r => 0 <= r) rowsize -> sumZ rowsize = len x ->
    apply_ragged func [array1 x] rowsize None 0
    = Ok (ROne (mk_nd [Z.to_nat (sumZ (map (fun r => r / length) rowsize));
                       Z.to_nat length]
                  (concat (map (fun row => firstn (Z.to_nat (len row / length * length))
                                                  row)
                               (split_rows x rowsize))))).
Proof.
  intros A func x rowsize length Hfunc Hl Hne Hpos Hsum.
  unfold apply_ragged. rewrite apply_rows_1d by assumption.
  set (piece := fun row : list A =>
                  (Z.to_nat (len row / length),
                   firstn (Z.to_nat (len row / length * length)) row)).
  rewrite mapM_ok with (g := fun rows : list (ndarray A) =>
      Single (OArr (mk_nd [fst (piece (data (hd (array1 []) rows))); Z.to_nat length]
                          (snd (piece (data (hd (array1 []) rows))))))).
  2:{ intros rows Hin. apply in_map_iff in Hin. destruct Hin as (row & <- & _).
      rewrite Hfunc, chunk_no_overlap by (assumption || (left; reflexivity)).
      reflexivity. }
  cbn [bind]. rewrite !map_map. cbn [hd array1 data wrap wrap_out].
  pose proof (split_rows_nonempty x Hne) as Hrows.
  pose proof (split_rows_lengths x Hpos Hsum) as Hlens.
  destruct (split_rows x rowsize) as [|row0 rows] eqn:Esplit; [congruence|].
  cbn [map].
  rewrite reassemble_single with (n := Z.of_nat (fst (piece row0))) by reflexivity.
  assert (Harr : forall l : list (list A),
             mapM item_array
                  (map (fun row => IArray (mk_nd [fst (piece row); Z.to_nat length]
                                                 (snd (piece row)))) l)
             = Ok (map (fun p => mk_nd [fst p; Z.to_nat length] (snd p))
                       (map piece l))).
  { induction l as [|a l IH]; [reflexivity|].
    cbn [map]. rewrite mapM_cons, IH. reflexivity. }
  change (IArray (mk_nd [fst (piece row0); Z.to_nat length] (snd (piece row0)))
          :: map (fun row => IArray (mk_nd [fst (piece row); Z.to_nat length]
                                           (snd (piece row)))) rows)
    with (map (fun row => IArray (mk_nd [fst (piece row); Z.to_nat length]
                                        (snd (piece row)))) (row0 :: rows)).
  rewrite Harr. cbn [bind].
  assert (Hcat : np_concatenate
                   (map (fun p => mk_nd [fst p; Z.to_nat length] (snd p))
                        (map piece (row0 :: rows)))
                   (if 1 <? Z.of_nat (fst (piece row0)) then 0 else 0)
                 = Ok (mk_nd [fold_right Nat.add O (map fst (map piece (row0 :: rows)));
                              Z.to_nat length]
                         (concat (map snd (map piece (row0 :: rows)))))).
  { destruct (1 <? Z.of_nat (fst (piece row0)));
      apply np_concatenate_rows; discriminate. }
  rewrite Hcat. cbn [bind]. rewrite !map_map. unfold piece. cbn [fst snd].
  rewrite (sum_to_nat (fun row : list A => len row / length)).
  2:{ intros a. apply Z.div_pos; [apply len_nonneg | lia]. }
  rewrite <- Hlens, map_map. reflexivity.
Qed.

Lemma apply_ragged_chunk_witness :
  apply_ragged (fun rows => res <- chunk (data (hd (array1 []) rows)) 2 0 "start" ;;
                            Ok (Single (OArr res)))
               [array1 [1; 2; 3; 4; 5]] [2; 1; 2] None 0
  = Ok (ROne (array2 [[1; 2]; [4; 5]])).
Proof.
  rewrite (@apply_ragged_chunk Z _ [1; 2; 3; 4; 5] [2; 1; 2] 2).
  - reflexivity.
  - reflexivity.
  - lia.
  - discriminate.
  - repeat constructor; lia.
  - reflexivity.
Defined.

(** ** subset: the sizes of the rows of the result *)

Lemma insert_by_key_payload (g : Z -> Z) (p : Z * Z) (l : list (Z * Z)) :
  map (on_snd g) (insert_by_key p l) = insert_by_key (on_snd g p) (map (on_snd g) l).
Proof.
  induction l as [|q l IH]; [reflexivity|].
  cbn [insert_by_key map]. change (fst (on_snd g q)) with (fst q).
  change (fst (on_snd g p)) with (fst p).
  destruct (fst q <? fst p); cbn [map]; [rewrite IH|]; reflexivity.
Qed.

(** The sort looks at the keys only. *)
Lemma sort_by_key_payload (g : Z -> Z) (l : list (Z * Z)) :
  map (on_snd g) (sort_by_key l) = sort_by_key (map (on_snd g) l).
Proof.
  induction l as [|p l IH]; [reflexivity|].
  cbn [sort_by_key fold_right map]. fold (sort_by_key l).
  fold (sort_by_key (map (on_snd g) l)).
  rewrite insert_by_key_payload, IH. reflexivity.
Qed.

Lemma sort_by_key_perm (l : list (Z * Z)) : Permutation (sort_by_key l) l.
Proof.
  induction l as [|p l IH]; [reflexivity|].
  cbn [sort_by_key fold_right]. fold (sort_by_key l).
  rewrite insert_by_key_perm, IH. reflexivity.
Qed.

Lemma insert_by_key_increasing (p : Z * Z) (l : list (Z * Z)) :
  forall lo : Z,
    increasing_from lo (map fst l) -> lo < fst p -> ~ In (fst p) (map fst l) ->
    increasing_from lo (map fst (insert_by_key p l)).
Proof.
  induction l as [|q l IH]; intros lo Hinc Hlo Hnot.
  - cbn. auto.
  - cbn [map increasing_from] in Hinc. destruct Hinc as [Hq Hinc].
    cbn [insert_by_key]. destruct (Z.ltb_spec (fst q) (fst p)).
    + cbn [map increasing_from]. split; [exact Hq|].
      apply IH; [exact Hinc | assumption |].
      intros Hin. apply Hnot. right. exact Hin.
    + assert (fst p <> fst q) by (intros E; apply Hnot; left; symmetry; exact E).
      cbn [map increasing_from]. split; [exact Hlo|]. split; [lia | exact Hinc].
Qed.

(** Distinct keys come out in increasing order. *)
Lemma sort_by_key_increasing (lo : Z) (l : list (Z * Z)) :
  NoDup (map fst l) -> Forall (fun p => lo < fst p) l ->
  increasing_from lo (map fst (sort_by_key l)).
Proof.
  induction l as [|p l IH]; intros Hnd Hlo; [exact I|].
  cbn [map] in Hnd. inversion Hnd as [|k ks Hnot Hnd']. subst.
  inversion Hlo as [|p' l' Hp Hlo']. subst.
  cbn [sort_by_key fold_right]. fold (sort_by_key l).
  apply insert_by_key_increasing; [apply IH; assumption | exact Hp |].
  intros Hin. apply Hnot.
  apply (Permutation_in _ (Permutation_map fst (sort_by_key_perm l))). exact Hin.
Qed.

(** The values in the order of [np.argsort] of their keys. *)
Lemma np_take_argsort (keys counts : list Z) :
  List.length keys = List.length counts ->
  np_take counts (np_argsort keys) = map snd (sort_by_key (combine keys counts)).
Proof.
  intros Hlen. unfold np_take, np_argsort. fold (sort_by_key
    (combine keys (map Z.of_nat (seq 0 (List.length keys))))).
  rewrite map_map.
  rewrite <- (map_map (on_snd (fun i => nth (Z.to_nat i) counts 0)) snd).
  rewrite sort_by_key_payload. do 2 f_equal.
  rewrite Hlen.
  transitivity (combine keys
                  (map (fun i => nth (Z.to_nat i) counts 0)
                       (map Z.of_nat (seq 0 (List.length counts)))));
    [|rewrite map_nth_positions; reflexivity].
  generalize (map Z.of_nat (seq 0 (List.length counts))). clear Hlen.
  induction keys as [|k keys IH]; intros [|i idx]; try reflexivity.
  cbn [combine map]. rewrite IH. reflexivity.
Qed.

Lemma first_index_nonneg (u : Z) (l : list Z) : 0 <= first_index u l.
Proof.
  induction l as [|y l IH]; cbn [first_index]; [lia|].
  destruct (u =? y); lia.
Qed.

Lemma first_index_nth (u : Z) (l : list Z) :
  In u l -> nth_error l (Z.to_nat (first_index u l)) = Some u.
Proof.
  induction l as [|y l IH]; intros Hin; [destruct Hin|].
  cbn [first_index]. destruct (Z.eqb_spec u y) as [-> | Hne]; [reflexivity|].
  destruct Hin as [E | Hin]; [congruence|].
  pose proof (first_index_nonneg u l).
  replace (Z.to_nat (1 + first_index u l)) with (S (Z.to_nat (first_index u l))) by lia.
  cbn [nth_error]. apply IH, Hin.
Qed.

Lemma first_index_inj (l : list Z) (a b : Z) :
  In a l -> In b l -> first_index a l = first_index b l -> a = b.
Proof.
  intros Ha Hb E. pose proof (first_index_nth _ _ Ha) as Ea.
  pose proof (first_index_nth _ _ Hb) as Eb. rewrite E in Ea. congruence.
Qed.

Lemma map_inj_on {A B} (f : A -> B) (l1 : list A) :
  forall l2 : list A,
    (forall a b, In a l1 -> In b l2 -> f a = f b -> a = b) ->
    map f l1 = map f l2 -> l1 = l2.
Proof.
  induction l1 as [|a l1 IH]; intros [|b l2] Hinj E; try discriminate;
    [reflexivity|].
  cbn [map] in E. injection E as E1 E2. f_equal.
  - apply Hinj; [left; reflexivity | left; reflexivity | exact E1].
  - apply IH; [|exact E2]. intros x y Hx Hy. apply Hinj; right; assumption.
Qed.

Lemma NoDup_map_inj_on {A B} (f : A -> B) (l : list A) :
  (forall a b, In a l -> In b l -> f a = f b -> a = b) ->
  NoDup l -> NoDup (map f l).
Proof.
  intros Hinj Hnd. induction Hnd as [|a l Hnot Hnd IH]; [constructor|].
  cbn [map]. constructor.
  - intros Hin. apply in_map_iff in Hin. destruct Hin as (b & E & Hb).
    apply Hnot. rewrite (Hinj a b); [exact Hb | left; reflexivity | right; exact Hb
                                    | symmetry; exact E].
  - apply IH. intros x y Hx Hy. apply Hinj; right; assumption.
Qed.

(** The sizes that [subset] writes back, told by the list of the
    distinct identifiers in the order in which they first appear. *)
Lemma recomputed_by_appearance (l W : list Z) :
  (forall u, In u W <-> In u l) ->
  increasing_from (-1) (map (fun u => first_index u l) W) ->
  recomputed_rowsize l = map (fun u => count_of u l) W.
Proof.
  intros HW Hinc. unfold recomputed_rowsize.
  set (U := np_unique l).
  rewrite np_take_argsort by (rewrite !length_map; reflexivity).
  set (T := map (fun u => (first_index u l, u)) U).
  assert (HT : combine (map (fun u => first_index u l) U)
                       (map (fun u => count_of u l) U)
               = map (on_snd (fun u => count_of u l)) T).
  { unfold T. rewrite map_map. clear. induction U as [|u U IH]; [reflexivity|].
    cbn [map combine]. rewrite IH. reflexivity. }
  rewrite HT, <- sort_by_key_payload, map_map.
  change (fun x : Z * Z => snd (on_snd (fun u => count_of u l) x))
    with (fun x : Z * Z => count_of (snd x) l).
  rewrite <- (map_map snd (fun u => count_of u l)). f_equal.
  assert (Hform : Forall (fun p : Z * Z => fst p = first_index (snd p) l)
                         (sort_by_key T)).
  { apply Forall_forall. intros p Hp.
    apply (Permutation_in _ (sort_by_key_perm T)) in Hp.
    unfold T in Hp. apply in_map_iff in Hp. destruct Hp as (u & <- & _).
    reflexivity. }
  assert (HV : forall u, In u (map snd (sort_by_key T)) <-> In u l).
  { assert (HU : map snd T = U).
    { unfold T. rewrite map_map. cbn [snd]. apply map_id. }
    intros u. split; intros Hu.
    - apply (proj1 (In_np_unique u l)). change (In u U). rewrite <- HU.
      revert Hu. apply Permutation_in, Permutation_map, sort_by_key_perm.
    - apply (proj2 (In_np_unique u l)) in Hu. change (In u U) in Hu.
      rewrite <- HU in Hu. revert Hu.
      apply Permutation_in, Permutation_map. symmetry. apply sort_by_key_perm. }
  assert (Hkeys : map fst (sort_by_key T)
                  = map (fun u => first_index u l) (map snd (sort_by_key T))).
  { rewrite map_map. clear -Hform.
    induction Hform as [|p ps Hp _ IH]; [reflexivity|].
    cbn [map]. rewrite Hp, IH. reflexivity. }
  assert (Hsorted : increasing_from (-1) (map fst (sort_by_key T))).
  { apply sort_by_key_increasing.
    - unfold T. rewrite map_map. cbn [fst].
      apply NoDup_map_inj_on; [|apply np_unique_NoDup].
      intros a b Ha Hb. apply first_index_inj; apply In_np_unique; assumption.
    - apply Forall_forall. intros p Hp. unfold T in Hp.
      apply in_map_iff in Hp. destruct Hp as (u & <- & _). cbn [fst].
      pose proof (first_index_nonneg u l). lia. }
  rewrite Hkeys in Hsorted.
  apply map_inj_on with (f := fun u => first_index u l).
  - intros a b Ha Hb. apply first_index_inj; [apply HV, Ha | apply HW, Hb].
  - apply increasing_from_ext with (lo := -1); [exact Hsorted | exact Hinc |].
    intros k. rewrite !in_map_iff. split; intros (u & E & Hu); exists u;
      (split; [exact E|]).
    + apply HW, HV, Hu.
    + apply HV, HW, Hu.
Qed.

Lemma repeat_rows_cons (id : Z) (ids : list Z) (k : Z) (ks : list Z) :
  repeat_rows (id :: ids) (k :: ks) = repeat id (Z.to_nat k) ++ repeat_rows ids ks.
Proof. reflexivity. Qed.

Lemma In_repeat_rows (ids ks : list Z) (u : Z) :
  In u (repeat_rows ids ks) -> In u ids.
Proof.
  revert ks. induction ids as [|id ids IH]; intros [|k ks] Hin;
    try (destruct Hin; fail).
  rewrite repeat_rows_cons in Hin. apply in_app_or in Hin.
  destruct Hin as [Hin | Hin].
  - apply repeat_spec in Hin. left. symmetry. exact Hin.
  - right. apply (IH ks), Hin.
Qed.

Lemma first_index_repeat_same (id : Z) (n : nat) (l : list Z) :
  (0 < n)%nat -> first_index id (repeat id n ++ l) = 0.
Proof.
  intros Hn. destruct n as [|n]; [lia|].
  cbn [repeat app first_index]. rewrite Z.eqb_refl. reflexivity.
Qed.

Lemma first_index_repeat_other (u id : Z) (n : nat) (l : list Z) :
  u <> id -> first_index u (repeat id n ++ l) = Z.of_nat n + first_index u l.
Proof.
  intros Hne. induction n as [|n IH]; [reflexivity|].
  cbn [repeat app first_index]. destruct (Z.eqb_spec u id); [congruence|].
  rewrite IH. lia.
Qed.

Lemma count_of_app (u : Z) (a b : list Z) :
  count_of u (a ++ b) = count_of u a + count_of u b.
Proof. unfold count_of, len. rewrite filter_app, length_app. lia. Qed.

Lemma count_of_repeat (u id : Z) (n : nat) :
  count_of u (repeat id n) = if u =? id then Z.of_nat n else 0.
Proof.
  unfold count_of, len. induction n as [|n IH].
  - destruct (u =? id); reflexivity.
  - cbn [repeat filter]. destruct (u =? id); cbn [List.length]; lia.
Qed.

Lemma count_of_absent (u : Z) (l : list Z) : ~ In u l -> count_of u l = 0.
Proof.
  intros Hnot. unfold count_of, len.
  rewrite filter_none; [reflexivity|].
  apply Forall_forall. intros x Hx. destruct (Z.eqb_spec u x); [|reflexivity].
  subst x. contradiction.
Qed.

Lemma increasing_from_shift (c lo : Z) (l : list Z) :
  increasing_from lo l -> increasing_from (c + lo) (map (fun k => c + k) l).
Proof.
  revert lo. induction l as [|a l IH]; intros lo H; [exact I|].
  destruct H as [Ha H]. cbn [map increasing_from]. split; [lia | apply IH, H].
Qed.

(** The identifiers of the rows that keep an observation, in the order of
    the rows: they are the identifiers that are left, in the order in
    which they first appear, and each is left as many times as its row
    keeps observations. *)
Lemma kept_rows_appearance (ids : list Z) :
  NoDup ids ->
  forall ks : list Z,
    List.length ids = List.length ks -> Forall (fun k => 0 <= k) ks ->
    let l := repeat_rows ids ks in
    let W := map fst (filter (fun p => 0 <? snd p) (combine ids ks)) in
    (forall u, In u W <-> In u l)
    /\ increasing_from (-1) (map (fun u => first_index u l) W)
    /\ map (fun u => count_of u l) W = filter (fun k => 0 <? k) ks.
Proof.
  induction 1 as [|id ids Hnot Hnd IH]; intros [|k ks] Hlen Hpos; try discriminate.
  - cbn. repeat split; tauto.
  - injection Hlen as Hlen. inversion Hpos as [|k' ks' Hk Hpos']. subst.
    destruct (IH ks Hlen Hpos') as (Hin & Hinc & Hcount).
    cbn zeta in *. rewrite repeat_rows_cons.
    set (l := repeat_rows ids ks) in *.
    set (W := map fst (filter (fun p => 0 <? snd p) (combine ids ks))) in *.
    assert (HWids : forall u, In u W -> In u ids).
    { intros u Hu. apply (In_repeat_rows ids ks), Hin, Hu. }
    assert (Hother : forall u, In u W -> u <> id).
    { intros u Hu ->. apply Hnot, HWids, Hu. }
    assert (Hfi : map (fun u => first_index u (repeat id (Z.to_nat k) ++ l)) W
                  = map (fun i => Z.of_nat (Z.to_nat k) + i)
                        (map (fun u => first_index u l) W)).
    { rewrite map_map. apply map_ext_in. intros u Hu.
      apply first_index_repeat_other, Hother, Hu. }
    assert (Hcnt : map (fun u => count_of u (repeat id (Z.to_nat k) ++ l)) W
                   = map (fun u => count_of u l) W).
    { apply map_ext_in. intros u Hu. rewrite count_of_app, count_of_repeat.
      destruct (Z.eqb_spec u id) as [E | _]; [destruct (Hother u Hu E) | lia]. }
    cbn [combine filter snd].
    destruct (Z.ltb_spec 0 k) as [Hk0 | Hk0].
    + cbn [map fst]. fold W. split; [|split].
      * intros u. cbn [In]. rewrite in_app_iff, Hin. split.
        -- intros [<- | Hu]; [left | right; exact Hu].
           destruct (Z.to_nat k) eqn:E; [lia | left; reflexivity].
        -- intros [Hu | Hu]; [left; symmetry; eapply repeat_spec, Hu | right; exact Hu].
      * cbn [map increasing_from].
        rewrite first_index_repeat_same by lia. split; [lia|].
        rewrite Hfi. apply increasing_from_weaken with (lo := Z.of_nat (Z.to_nat k) + -1);
          [lia | apply increasing_from_shift, Hinc].
      * cbn [map]. rewrite Hcnt, Hcount. f_equal.
        rewrite count_of_app, count_of_repeat, Z.eqb_refl.
        rewrite count_of_absent; [lia|].
        intros Hl. apply Hnot. apply (In_repeat_rows ids ks), Hl.
    + assert (Hz : Z.to_nat k = O) by lia. rewrite Hz in Hfi, Hcnt |- *.
      cbn [repeat app] in Hfi, Hcnt |- *. fold W. split; [exact Hin|]. split.
      * rewrite Hfi. cbn [Z.of_nat].
        rewrite map_ext with (g := fun i => i) by (intros; lia).
        rewrite map_id. exact Hinc.
      * exact Hcount.
Qed.

(** The sizes that [subset] writes back, for distinct identifiers: the
    numbers of the observations that are kept, of the rows that keep
    one. *)
Lemma recomputed_rowsize_rows (ids ks : list Z) :
  NoDup ids -> List.length ids = List.length ks -> Forall (fun k => 0 <= k) ks ->
  recomputed_rowsize (repeat_rows ids ks) = filter (fun k => 0 <? k) ks.
Proof.
  intros Hnd Hlen Hpos.
  destruct (@kept_rows_appearance ids Hnd ks Hlen Hpos) as (Hin & Hinc & Hcount).
  rewrite <- Hcount. apply recomputed_by_appearance; assumption.
Qed.

Lemma np_compress_app {A} (a b : list A) :
  forall mask : list bool,
    np_compress mask (a ++ b)
    = np_compress (firstn (List.length a) mask) a
      ++ np_compress (skipn (List.length a) mask) b.
Proof.
  induction a as [|x a IH]; intros mask.
  - cbn [List.length firstn skipn app]. destruct mask; reflexivity.
  - destruct mask as [|m mask]; [reflexivity|].
    cbn [List.length firstn skipn app np_compress]. rewrite IH.
    destruct m; reflexivity.
Qed.

Lemma np_compress_repeat {A} (x : A) (n : nat) :
  forall mask : list bool,
    (List.length mask <= n)%nat ->
    np_compress mask (repeat x n) = repeat x (count_true mask).
Proof.
  unfold count_true. induction n as [|n IH]; intros mask Hlen.
  - destruct mask; [reflexivity | cbn in Hlen; lia].
  - destruct mask as [|m mask]; [reflexivity|]. cbn [List.length] in Hlen.
    cbn [repeat np_compress filter]. rewrite IH by lia.
    destruct m; reflexivity.
Qed.

(** The identifiers of the observations that a mask keeps: every
    identifier as many times as its row keeps observations. *)
Lemma compress_rows (ids : list Z) :
  forall (sizes : list Z) (mask : list bool),
    List.length ids = List.length sizes ->
    np_compress mask (repeat_rows ids sizes)
    = repeat_rows ids (row_counts mask sizes).
Proof.
  induction ids as [|id ids IH]; intros [|s sizes] mask Hlen; try discriminate.
  - destruct mask; reflexivity.
  - injection Hlen as Hlen. unfold row_counts. cbn [split_rows map].
    rewrite !repeat_rows_cons, np_compress_app, repeat_length.
    rewrite np_compress_repeat by (rewrite length_firstn; lia).
    rewrite Nat2Z.id. f_equal. apply IH, Hlen.
Qed.

Lemma length_row_counts (mask : list bool) (sizes : list Z) :
  List.length (row_counts mask sizes) = List.length sizes.
Proof. unfold row_counts. rewrite length_map. apply length_split_rows. Qed.

Lemma row_counts_nonneg (mask : list bool) (sizes : list Z) :
  Forall (fun k => 0 <= k) (row_counts mask sizes).
Proof.
  unfold row_counts. apply Forall_map, Forall_forall. intros m _. lia.
Qed.

(** A part of a list without duplicates is told by its elements. *)
Lemma np_compress_as_filter (ids : list Z) :
  NoDup ids ->
  forall mask : list bool,
    np_compress mask ids
    = filter (fun u => existsb (Z.eqb u) (np_compress mask ids)) ids.
Proof.
  induction 1 as [|id ids Hnot Hnd IH]; intros mask.
  - destruct mask; reflexivity.
  - destruct mask as [|m mask]; [|].
    + cbn [np_compress existsb]. symmetry. apply filter_none.
      apply Forall_forall. reflexivity.
    + assert (Hsub : forall u, In u (np_compress mask ids) -> In u ids).
      { intros u Hu. apply In_np_compress in Hu. destruct Hu as (p & _ & Hp).
        eapply nth_error_In, Hp. }
      cbn [np_compress]. destruct m.
      * cbn [filter existsb]. rewrite Z.eqb_refl. cbn [orb]. f_equal.
        rewrite (IH mask) at 1. apply filter_ext_in. intros u Hu.
        destruct (Z.eqb_spec u id) as [-> | _]; [contradiction | reflexivity].
      * cbn [filter].
        destruct (existsb (Z.eqb id) (np_compress mask ids)) eqn:E.
        -- apply existsb_exists in E. destruct E as (u & Hu & E).
           apply Z.eqb_eq in E. subst u. destruct (Hnot (Hsub _ Hu)).
        -- apply IH.
Qed.

Lemma kept_ids_as_filter (ids : list Z) :
  NoDup ids ->
  forall ks : list Z,
    List.length ids = List.length ks ->
    let W := map fst (filter (fun p => 0 <? snd p) (combine ids ks)) in
    W = filter (fun u => existsb (Z.eqb u) W) ids.
Proof.
  induction 1 as [|id ids Hnot Hnd IH]; intros [|k ks] Hlen; try discriminate;
    [reflexivity|].
  injection Hlen as Hlen. specialize (IH ks Hlen). cbn zeta in *.
  set (W := map fst (filter (fun p => 0 <? snd p) (combine ids ks))) in *.
  assert (Hsub : forall u, In u W -> In u ids).
  { intros u Hu. unfold W in Hu. apply in_map_iff in Hu.
    destruct Hu as ([u' k'] & <- & Hp). apply filter_In in Hp.
    destruct Hp as [Hp _]. apply in_combine_l in Hp. exact Hp. }
  cbn [combine filter snd]. destruct (0 <? k).
  - cbn [map fst filter existsb]. fold W. rewrite Z.eqb_refl. cbn [orb]. f_equal.
    rewrite IH at 1. apply filter_ext_in. intros u Hu.
    destruct (Z.eqb_spec u id) as [-> | _]; [contradiction | reflexivity].
  - fold W. cbn [filter].
    destruct (existsb (Z.eqb id) W) eqn:E; [|exact IH].
    apply existsb_exists in E. destruct E as (u & Hu & E).
    apply Z.eqb_eq in E. subst u. destruct (Hnot (Hsub _ Hu)).
Qed.

Lemma existsb_eqb_iff (u : Z) (l : list Z) : existsb (Z.eqb u) l = true <-> In u l.
Proof.
  rewrite existsb_exists. split.
  - intros (x & Hx & E). apply Z.eqb_eq in E. subst x. exact Hx.
  - intros H. exists u. split; [exact H | apply Z.eqb_refl].
Qed.

(** Two parts of a list without duplicates that hold the same elements
    are the same. *)
Lemma kept_ids_compress (ids ks : list Z) (mask : list bool) :
  NoDup ids -> List.length ids = List.length ks ->
  (forall u, In u (np_compress mask ids)
             <-> In u (map fst (filter (fun p => 0 <? snd p) (combine ids ks)))) ->
  np_compress mask ids = map fst (filter (fun p => 0 <? snd p) (combine ids ks)).
Proof.
  intros Hnd Hlen Hsame.
  set (A := np_compress mask ids) in *.
  set (W := map fst (filter (fun p => 0 <? snd p) (combine ids ks))) in *.
  transitivity (filter (fun u => existsb (Z.eqb u) A) ids);
    [apply np_compress_as_filter; exact Hnd|].
  transitivity (filter (fun u => existsb (Z.eqb u) W) ids);
    [|symmetry; apply kept_ids_as_filter; assumption].
  apply filter_ext. intros u.
  destruct (existsb (Z.eqb u) A) eqn:E1, (existsb (Z.eqb u) W) eqn:E2;
    try reflexivity.
  - apply existsb_eqb_iff, Hsame, existsb_eqb_iff in E1. congruence.
  - apply existsb_eqb_iff, Hsame, existsb_eqb_iff in E2. congruence.
Qed.

Lemma count_true_none (m : list bool) :
  Forall (fun b => b = false) m -> count_true m = O.
Proof.
  intros H. unfold count_true. rewrite filter_none; [reflexivity|].
  eapply Forall_impl; [|exact H]. intros b ->. reflexivity.
Qed.

Lemma Forall_skipn_keep {A} (P : A -> Prop) (n : nat) (l : list A) :
  Forall P l -> Forall P (skipn n l).
Proof.
  intros H. revert n. induction H as [|a l Ha Hl IH]; intros [|n]; cbn [skipn];
    [constructor | constructor | constructor; assumption | apply IH].
Qed.

Lemma row_counts_none (sizes : list Z) :
  forall mask : list bool,
    Forall (fun b => b = false) mask ->
    Forall (fun k => k = 0) (row_counts mask sizes).
Proof.
  unfold row_counts. induction sizes as [|s sizes IH]; intros mask H; [constructor|].
  cbn [split_rows map]. constructor.
  - rewrite count_true_none; [reflexivity | apply Forall_firstn_keep, H].
  - apply IH, Forall_skipn_keep, H.
Qed.

(** The structure of the result of [subset], on a ragged dataset whose
    identifiers are distinct: there is a mask over the observations such
    that every variable over the observation dimension keeps the values
    of the observations of the mask, the row sizes of the result are the
    numbers of observations that the mask keeps in every row, and the
    identifiers of the result are those of the rows, each left out when
    its row keeps none (X29). *)
Theorem subset_structure :
  forall (ds : Dataset) (criteria : list (key * criterion))
         (id_var_name rowsize_var_name row_dim_name obs_dim_name : string)
         (full_rows : bool) (ds' : Dataset),
    ragged_dataset ds id_var_name rowsize_var_name row_dim_name obs_dim_name ->
    NoDup (var_data ds id_var_name) ->
    subset ds criteria id_var_name rowsize_var_name row_dim_name obs_dim_name full_rows
    = Ok ds' ->
    exists mask_obs : list bool,
      let kept := map (fun m => Z.of_nat (count_true m))
                      (split_rows mask_obs (var_data ds rowsize_var_name)) in
      List.length mask_obs = dim_size ds obs_dim_name
      /\ var_data ds' rowsize_var_name = filter (fun k => 0 <? k) kept
      /\ var_data ds' id_var_name
         = map fst (filter (fun p => 0 <? snd p)
                           (combine (var_data ds id_var_name) kept))
      /\ (forall (w : string) (w_values : list Z),
             lookup w (ds_variables ds) = Some (mk_var [obs_dim_name] w_values) ->
             List.length w_values = dim_size ds obs_dim_name ->
             var_data ds' w = np_compress mask_obs w_values).
Proof.
  intros ds criteria id_var_name rowsize_var_name row_dim_name obs_dim_name
         full_rows ds'
         (Hdims & Hnames & (ids & Hid & Hidlen) & (sizes & Hsize & Hsizelen))
         Hnd Hsub.
  assert (Eids : var_data ds id_var_name = ids)
    by (unfold var_data; rewrite Hid; reflexivity).
  assert (Esizes : var_data ds rowsize_var_name = sizes)
    by (unfold var_data; rewrite Hsize; reflexivity).
  rewrite Eids in Hnd. rewrite Eids, Esizes.
  destruct (@subset_selection ds ds' criteria id_var_name rowsize_var_name
              row_dim_name obs_dim_name full_rows ids sizes Hid Hsize Hsub)
    as (masks & mr1 & mo2 & iw2 & _ & Hsel).
  destruct Hsel as (mo1 & rep & iw1 & E1 & E2 & E3 & E4 & E5 & Hres).
  assert (Hlen : List.length ids = List.length sizes) by congruence.
  destruct Hres as [[_ ->] | [_ (ds_sub & Hisel & Hset)]].
  - exists (repeat false (dim_size ds obs_dim_name)).
    change (map (fun m => Z.of_nat (count_true m))
                (split_rows (repeat false (dim_size ds obs_dim_name)) sizes))
      with (row_counts (repeat false (dim_size ds obs_dim_name)) sizes).
    assert (Hzero : Forall (fun k => k = 0)
                           (row_counts (repeat false (dim_size ds obs_dim_name)) sizes)).
    { apply row_counts_none, Forall_forall. intros b Hb.
      apply repeat_spec in Hb. exact Hb. }
    cbn zeta. split; [apply repeat_length|]. split; [|split].
    + cbn. symmetry. apply filter_none.
      eapply Forall_impl; [|exact Hzero]. intros k ->. reflexivity.
    + cbn [var_data empty_dataset ds_variables lookup]. symmetry.
      rewrite filter_none; [reflexivity|].
      apply Forall_forall. intros [u k] Hp. apply in_combine_r in Hp.
      rewrite Forall_forall in Hzero. rewrite (Hzero k Hp). reflexivity.
    + intros w w_values _ _. cbn. symmetry. apply np_compress_nothing.
      intros p Hp. apply nth_error_In, repeat_spec in Hp. discriminate.
  - destruct (@materialized ds ds_sub ds' id_var_name rowsize_var_name
                row_dim_name obs_dim_name ids sizes mr1 mo2 _
                Hdims Hnames Hid Hidlen Hsize Hsizelen Hisel Hset)
      as (Hobs & _ & Hvalues & Hids & Hvlen & Hmr & Hmo).
    assert (Hiw2 : List.length rep = List.length mo2 /\ iw2 = np_compress mo2 rep).
    { destruct full_rows.
      - destruct E5 as [_ E6]. apply bool_index_inv, E6.
      - destruct E5 as [-> ->]. apply bool_index_inv, E3. }
    destruct Hiw2 as [Hreplen Hiw2].
    destruct (np_repeat_rows ids sizes Hlen E2) as [Hrep _].
    exists mo2.
    change (map (fun m => Z.of_nat (count_true m)) (split_rows mo2 sizes))
      with (row_counts mo2 sizes).
    set (kept := row_counts mo2 sizes).
    assert (Hklen : List.length ids = List.length kept)
      by (unfold kept; rewrite length_row_counts; exact Hlen).
    assert (Hkpos : Forall (fun k => 0 <= k) kept) by apply row_counts_nonneg.
    assert (Hblocks : iw2 = repeat_rows ids kept).
    { rewrite Hiw2, Hrep. apply compress_rows, Hlen. }
    destruct (@kept_rows_appearance ids Hnd kept Hklen Hkpos)
      as (HinW & _ & HcountW).
    cbn zeta in HinW, HcountW. rewrite <- Hblocks in HinW, HcountW.
    assert (Hrs : recomputed_rowsize iw2 = filter (fun k => 0 <? k) kept).
    { rewrite Hblocks. apply recomputed_rowsize_rows; assumption. }
    cbn zeta. split; [exact Hmo|]. split; [|split].
    + rewrite Hvalues. exact Hrs.
    + rewrite Hids. apply kept_ids_compress; [exact Hnd | exact Hklen |].
      set (W := map fst (filter (fun p => 0 <? snd p) (combine ids kept))) in *.
      assert (Hincl : incl W (np_compress mr1 ids)).
      { intros u Hu. apply HinW in Hu. rewrite Hiw2 in Hu.
        apply (proj1 (In_np_compress _ _ _)) in Hu. destruct Hu as (p & Hp & Hrepp).
        apply In_np_compress.
        destruct full_rows.
        - destruct E5 as [E5 _].
          apply (@kept_observation_row_full ids sizes (fst masks) (snd masks) mo1 mr1
                   rep iw1 Hlen E1 E2 E3 E4 mo2 p u E5 Hp Hrepp).
        - destruct E5 as [-> _].
          apply (@kept_observation_row ids sizes (fst masks) (snd masks) mo1 mr1
                   rep iw1 Hlen E1 E2 E3 E4 p u Hp Hrepp). }
      assert (HWnd : NoDup W).
      { unfold W. rewrite (@kept_ids_as_filter ids Hnd kept Hklen).
        apply NoDup_filter, Hnd. }
      assert (HWlen : List.length (np_compress mr1 ids) = List.length W).
      { rewrite length_np_compress by exact Hmr. rewrite <- Hvlen, Hrs, <- HcountW.
        rewrite length_map. reflexivity. }
      intros u. split; [|apply Hincl].
      apply (NoDup_length_incl HWnd); [rewrite HWlen; apply le_n | exact Hincl].
    + intros w w_values Hw Hwlen.
      assert (Hwne : w <> rowsize_var_name).
      { intros ->. rewrite Hsize in Hw. injection Hw as Hd _. congruence. }
      destruct (set_values_variables _ _ _ Hset) as (_ & _ & _ & _ & Hother).
      unfold var_data.
      rewrite (Hother w Hwne), (@isel_variables ds ds_sub _ w Hisel), Hw.
      rewrite isel_obs_variable by assumption. reflexivity.
Qed.

Lemma subset_structure_witness :
  exists ds' mask_obs,
    subset example_dataset [(KName "lat", CRange 20 20)]
           "id" "rowsize" "rows" "obs" false = Ok ds'
    /\ var_data ds' "rowsize"
       = filter (fun k => 0 <? k)
                (map (fun m => Z.of_nat (count_true m))
                     (split_rows mask_obs (var_data example_dataset "rowsize")))
    /\ var_data ds' "lat" = np_compress mask_obs [10; 20; 30].
Proof.
  destruct (subset example_dataset [(KName "lat", CRange 20 20)]
                   "id" "rowsize" "rows" "obs" false) as [ds'|e] eqn:E;
    [|discriminate E].
  destruct (@subset_structure example_dataset [(KName "lat", CRange 20 20)]
              "id" "rowsize" "rows" "obs" false ds')
    as (mask_obs & _ & Hrs & _ & Hw).
  - split; [discriminate|]. split; [discriminate|]. split.
    + exists [7; 8]. split; reflexivity.
    + exists [1; 2]. split; reflexivity.
  - repeat constructor; cbn; intuition discriminate.
  - exact E.
  - exists ds', mask_obs. split; [reflexivity|]. split; [exact Hrs|].
    apply (Hw "lat"%string [10; 20; 30]); reflexivity.
Defined.

(** ** subset returns *)

Lemma set_rows_ok (traj_idx : list Z) (v : bool) (rows : list Z) :
  Forall (fun i => 0 <= i /\ i + 1 < len traj_idx) rows ->
  forall mask, exists mask', set_rows traj_idx v rows mask = Ok mask'.
Proof.
  induction 1 as [|i rows [Hi0 Hi1] _ IH]; intros mask.
  - exists mask. reflexivity.
  - cbn [set_rows].
    rewrite (@py_getitem_inside _ traj_idx i 0) by lia.
    rewrite (@py_getitem_inside _ traj_idx (i + 1) 0) by lia.
    cbn [bind]. apply IH.
Qed.

Lemma np_where_bound (mask : list bool) :
  Forall (fun i => 0 <= i /\ i + 1 < len mask + 1) (np_where mask).
Proof.
  apply Forall_forall. intros j Hj. apply np_where_spec in Hj.
  destruct Hj as (i & Hi & ->).
  assert (i < List.length mask)%nat by (apply nth_error_Some; congruence).
  unfold len. lia.
Qed.

Lemma np_repeat_ok (ids sizes : list Z) :
  Forall (fun r => 0 <= r) sizes -> List.length ids = List.length sizes ->
  np_repeat ids sizes = Ok (repeat_rows ids sizes).
Proof.
  intros Hpos Hlen. unfold np_repeat.
  assert (H : existsb (fun r => r <? 0) sizes = false).
  { apply not_true_is_false. intros H. apply existsb_exists in H.
    destruct H as (r & Hr & Hneg). rewrite Forall_forall in Hpos.
    specialize (Hpos r Hr). apply Z.ltb_lt in Hneg. lia. }
  rewrite H, Hlen, Nat.eqb_refl. reflexivity.
Qed.

Lemma length_repeat_rows (ids : list Z) :
  forall sizes : list Z,
    List.length ids = List.length sizes -> Forall (fun r => 0 <= r) sizes ->
    Z.of_nat (List.length (repeat_rows ids sizes)) = sumZ sizes.
Proof.
  induction ids as [|id ids IH]; intros [|s sizes] Hlen Hpos; try discriminate;
    [reflexivity|].
  injection Hlen as Hlen. inversion Hpos; subst.
  rewrite repeat_rows_cons, length_app, repeat_length. cbn [sumZ].
  rewrite Nat2Z.inj_add, IH by assumption. lia.
Qed.

Lemma logical_and_ok (a b : list bool) :
  List.length a = List.length b ->
  exists r, logical_and a b = Ok r /\ List.length r = List.length a.
Proof.
  intros Hlen. unfold logical_and. rewrite Hlen, Nat.eqb_refl.
  eexists. split; [reflexivity|].
  rewrite length_map, length_combine, Hlen. apply Nat.min_id.
Qed.

Lemma isel_ok (ds : Dataset) (row_dim_name obs_dim_name : string)
      (mr mo : list bool) :
  lookup row_dim_name (ds_sizes ds) = Some (List.length mr) ->
  lookup obs_dim_name (ds_sizes ds) = Some (List.length mo) ->
  exists ds_sub, isel ds (indexers row_dim_name obs_dim_name mr mo) = Ok ds_sub.
Proof.
  intros Hrow Hobs. unfold isel, indexers, ds_size.
  destruct (String.eqb row_dim_name obs_dim_name);
    cbn [mapM fst snd]; rewrite ?Hrow, ?Hobs; cbn [bind];
    rewrite ?Nat.eqb_refl; cbn [bind]; eexists; reflexivity.
Qed.

Lemma set_values_ok (ds : Dataset) (name : string) (v : variable) (values : list Z) :
  lookup name (ds_variables ds) = Some v ->
  is_dimension_coordinate name v = false ->
  List.length (var_dims v) = 1%nat ->
  List.length values = List.length (var_values v) ->
  exists ds', set_values ds name values = Ok ds'.
Proof.
  intros Hv Hc Hd Hlen. unfold set_values.
  rewrite Hv, Hc, Hd, Hlen, !Nat.eqb_refl.
  eexists. reflexivity.
Qed.

(** A plain criterion is accepted and leaves the masks over their
    dimensions. *)
Lemma plain_criterion_ok (ds : Dataset)
      (rowsize_var_name row_dim_name obs_dim_name : string) (sizes : list Z)
      (kc : key * criterion) (masks : list bool * list bool) :
  row_dim_name <> obs_dim_name ->
  lookup rowsize_var_name (ds_variables ds) = Some (mk_var [row_dim_name] sizes) ->
  plain_criterion ds row_dim_name obs_dim_name kc ->
  List.length (fst masks) = dim_size ds row_dim_name ->
  List.length (snd masks) = dim_size ds obs_dim_name ->
  exists masks',
    subset_criterion ds rowsize_var_name row_dim_name obs_dim_name masks kc = Ok masks'
    /\ List.length (fst masks') = dim_size ds row_dim_name
    /\ List.length (snd masks') = dim_size ds obs_dim_name.
Proof.
  intros Hne Hsize (name & v & Hk & Hv & Hdim & Hc) Hmr Hmo.
  destruct kc as [k c]. cbn [fst snd] in Hk, Hc. subst k.
  unfold subset_criterion. cbn [fst snd].
  assert (Hknown : key_known ds (KName name) = true).
  { unfold key_known. cbn [key_names forallb].
    rewrite (lookup_mem _ _ Hv). reflexivity. }
  rewrite Hknown. cbn [key_variables]. rewrite (ds_getitem_variable _ _ Hv).
  cbn [bind fst snd].
  assert (Hmask : exists m, _mask_var (VarOne v) c sizes = Ok m
                            /\ List.length m = List.length (var_values v)).
  { destruct c as [lo hi | values | f | x];
      try (eexists; split; [reflexivity | apply length_map]).
    destruct (Hc f eq_refl). }
  destruct Hmask as (m & Hm & Hmlen).
  destruct Hdim as [[Hd Hlen] | [Hd Hlen]]; rewrite Hd; cbn [mem existsb].
  - rewrite String.eqb_refl. cbn [orb].
    rewrite (ds_getitem_variable _ _ Hsize). cbn [bind var_values]. rewrite Hm.
    cbn [bind].
    destruct (@logical_and_ok (fst masks) m) as (r & Hr & Hrlen); [congruence|].
    rewrite Hr. cbn [bind]. eexists. split; [reflexivity|].
    cbn [fst snd]. split; [congruence | exact Hmo].
  - destruct (String.eqb_spec row_dim_name obs_dim_name); [congruence|].
    rewrite String.eqb_refl. cbn [orb].
    rewrite (ds_getitem_variable _ _ Hsize). cbn [bind var_values]. rewrite Hm.
    cbn [bind].
    destruct (@logical_and_ok (snd masks) m) as (r & Hr & Hrlen); [congruence|].
    rewrite Hr. cbn [bind]. eexists. split; [reflexivity|].
    cbn [fst snd]. split; [exact Hmr | congruence].
Qed.

Lemma plain_criteria_ok (ds : Dataset)
      (rowsize_var_name row_dim_name obs_dim_name : string) (sizes : list Z)
      (criteria : list (key * criterion)) :
  row_dim_name <> obs_dim_name ->
  lookup rowsize_var_name (ds_variables ds) = Some (mk_var [row_dim_name] sizes) ->
  Forall (plain_criterion ds row_dim_name obs_dim_name) criteria ->
  forall masks : list bool * list bool,
    List.length (fst masks) = dim_size ds row_dim_name ->
    List.length (snd masks) = dim_size ds obs_dim_name ->
    exists masks',
      foldM (subset_criterion ds rowsize_var_name row_dim_name obs_dim_name)
            criteria masks = Ok masks'
      /\ List.length (fst masks') = dim_size ds row_dim_name
      /\ List.length (snd masks') = dim_size ds obs_dim_name.
Proof.
  intros Hne Hsize. induction 1 as [|kc criteria Hkc _ IH]; intros masks Hmr Hmo.
  - exists masks. split; [reflexivity | split; assumption].
  - destruct (@plain_criterion_ok ds rowsize_var_name row_dim_name obs_dim_name
                sizes kc masks Hne Hsize Hkc Hmr Hmo) as (masks1 & H1 & Hmr1 & Hmo1).
    destruct (IH masks1 Hmr1 Hmo1) as (masks' & H' & Hlens).
    exists masks'. cbn [foldM]. rewrite H1. cbn [bind]. split; assumption.
Qed.

Section KeptRows.
Variables ids sizes : list Z.
Variables mask_row mask_obs mask_obs1 mask_row1 mask_obs2 : list bool.
Variables repeated ids_with_mask_obs1 ids_with_mask_obs2 : list Z.
Variable full_rows : bool.
Hypothesis Hnd : NoDup ids.
Hypothesis Hlen : List.length ids = List.length sizes.
Hypothesis Hrows :
  set_rows (rowsize_to_index sizes) false (np_where (map negb mask_row)) mask_obs
  = Ok mask_obs1.
Hypothesis Hrepeat : np_repeat ids sizes = Ok repeated.
Hypothesis Hindex : bool_index repeated mask_obs1 = Ok ids_with_mask_obs1.
Hypothesis Hand :
  logical_and mask_row (np_in1d ids (np_unique ids_with_mask_obs1)) = Ok mask_row1.
Hypothesis Hfull :
  if full_rows
  then set_rows (rowsize_to_index sizes) true (np_where mask_row1) mask_obs1
       = Ok mask_obs2
       /\ bool_index repeated mask_obs2 = Ok ids_with_mask_obs2
  else mask_obs2 = mask_obs1 /\ ids_with_mask_obs2 = ids_with_mask_obs1.

Lemma kept_rows_final :
  List.length repeated = List.length mask_obs2
  /\ ids_with_mask_obs2 = np_compress mask_obs2 repeated.
Proof.
  destruct full_rows.
  - destruct Hfull as [_ E]. apply bool_index_inv, E.
  - destruct Hfull as [-> ->]. apply bool_index_inv, Hindex.
Qed.

(** An identifier that is left after the first propagation is left at
    the end. *)
Lemma kept_rows_grow (u : Z) :
  In u ids_with_mask_obs1 -> In u ids_with_mask_obs2.
Proof.
  destruct full_rows; [|destruct Hfull as [_ ->]; exact (fun H => H)].
  destruct Hfull as [E5 E6]. intros Hu.
  destruct (bool_index_inv _ _ Hindex) as [Hl1 ->].
  destruct (bool_index_inv _ _ E6) as [_ ->].
  apply (proj1 (In_np_compress _ _ _)) in Hu. destruct Hu as (p & Hp & Hrep).
  apply In_np_compress. exists p. split; [|exact Hrep].
  assert (Hpos : Forall (fun r => 0 <= r) sizes)
    by (eapply np_repeat_nonneg, Hrepeat).
  assert (Htraj : Forall (fun t => 0 <= t) (rowsize_to_index sizes)).
  { rewrite rowsize_to_index_cons. apply cumsum_from_nonneg; [lia | exact Hpos]. }
  destruct (@set_rows_nth (rowsize_to_index sizes) true (np_where mask_row1)
              mask_obs1 mask_obs2 Htraj (np_where_nonneg _) E5) as [_ Hnth].
  assert (Hplt : (p < List.length mask_obs1)%nat)
    by (apply nth_error_Some; congruence).
  destruct (Hnth p Hplt) as [[Hv _] | [Hsame _]]; congruence.
Qed.

(** The rows that are left are the rows that keep an observation. *)
Lemma kept_rows_ids :
  np_compress mask_row1 ids
  = map fst (filter (fun p => 0 <? snd p)
                    (combine ids (row_counts mask_obs2 sizes))).
Proof.
  destruct kept_rows_final as [Hreplen Hiw2].
  destruct (np_repeat_rows ids sizes Hlen Hrepeat) as [Hrep Hpos].
  set (kept := row_counts mask_obs2 sizes).
  assert (Hklen : List.length ids = List.length kept)
    by (unfold kept; rewrite length_row_counts; exact Hlen).
  assert (Hblocks : ids_with_mask_obs2 = repeat_rows ids kept).
  { rewrite Hiw2, Hrep. apply compress_rows, Hlen. }
  destruct (@kept_rows_appearance ids Hnd kept Hklen (row_counts_nonneg _ _))
    as (HinW & _ & _).
  cbn zeta in HinW. rewrite <- Hblocks in HinW.
  apply kept_ids_compress; [exact Hnd | exact Hklen |].
  intros u. rewrite HinW. split; intros Hu.
  - apply kept_rows_grow.
    apply (proj1 (In_np_compress _ _ _)) in Hu. destruct Hu as (i & Hi & Hid).
    destruct (logical_and_inv _ _ Hand) as (Hlen_and & _ & Hnth).
    assert (Hlt : (i < List.length mask_row)%nat).
    { rewrite Hlen_and. unfold np_in1d. rewrite length_map.
      apply nth_error_Some. congruence. }
    destruct (nth_error mask_row i) as [x|] eqn:Ex;
      [|apply nth_error_None in Ex; lia].
    rewrite (Hnth i x _ Ex (@nth_error_np_in1d ids _ i u Hid)) in Hi.
    injection Hi as Hi. apply andb_true_iff in Hi. destruct Hi as [_ Hi].
    apply In_np_unique, existsb_eqb_iff, Hi.
  - rewrite Hiw2 in Hu.
    apply (proj1 (In_np_compress _ _ _)) in Hu. destruct Hu as (p & Hp & Hrepp).
    apply In_np_compress.
    destruct full_rows.
    + destruct Hfull as [E5 _].
      apply (@kept_observation_row_full ids sizes mask_row mask_obs mask_obs1
               mask_row1 repeated ids_with_mask_obs1 Hlen Hrows Hrepeat Hindex Hand
               mask_obs2 p u E5 Hp Hrepp).
    + destruct Hfull as [E _]. rewrite E in Hp.
      apply (@kept_observation_row ids sizes mask_row mask_obs mask_obs1
               mask_row1 repeated ids_with_mask_obs1 Hlen Hrows Hrepeat Hindex Hand
               p u Hp Hrepp).
Qed.

(** There is one size to write back for every row that is left. *)
Lemma kept_rows_sizes :
  recomputed_rowsize ids_with_mask_obs2
  = filter (fun k => 0 <? k) (row_counts mask_obs2 sizes)
  /\ List.length (recomputed_rowsize ids_with_mask_obs2)
     = List.length (np_compress mask_row1 ids).
Proof.
  destruct kept_rows_final as [Hreplen Hiw2].
  destruct (np_repeat_rows ids sizes Hlen Hrepeat) as [Hrep Hpos].
  set (kept := row_counts mask_obs2 sizes).
  assert (Hklen : List.length ids = List.length kept)
    by (unfold kept; rewrite length_row_counts; exact Hlen).
  assert (Hblocks : ids_with_mask_obs2 = repeat_rows ids kept).
  { rewrite Hiw2, Hrep. apply compress_rows, Hlen. }
  destruct (@kept_rows_appearance ids Hnd kept Hklen (row_counts_nonneg _ _))
    as (_ & _ & HcountW).
  cbn zeta in HcountW.
  assert (Hrs : recomputed_rowsize ids_with_mask_obs2 = filter (fun k => 0 <? k) kept).
  { rewrite Hblocks. apply recomputed_rowsize_rows;
      [exact Hnd | exact Hklen | apply row_counts_nonneg]. }
  split; [exact Hrs|].
  rewrite Hrs, <- HcountW, length_map, kept_rows_ids. reflexivity.
Qed.

End KeptRows.

(** With masks over the two dimensions, on a ragged dataset whose
    identifiers are distinct and whose row sizes are not negative and sum
    to the number of observations, [subset_select] returns. *)
Lemma subset_select_returns (ds : Dataset)
      (id_var_name rowsize_var_name row_dim_name obs_dim_name : string)
      (full_rows : bool) (ids sizes : list Z) (mask_row mask_obs : list bool) :
  row_dim_name <> obs_dim_name ->
  rowsize_var_name <> row_dim_name ->
  lookup id_var_name (ds_variables ds) = Some (mk_var [row_dim_name] ids) ->
  lookup rowsize_var_name (ds_variables ds) = Some (mk_var [row_dim_name] sizes) ->
  List.length ids = dim_size ds row_dim_name ->
  List.length sizes = dim_size ds row_dim_name ->
  lookup row_dim_name (ds_sizes ds) <> None ->
  lookup obs_dim_name (ds_sizes ds) <> None ->
  NoDup ids ->
  Forall (fun r => 0 <= r) sizes ->
  sumZ sizes = Z.of_nat (dim_size ds obs_dim_name) ->
  List.length mask_row = dim_size ds row_dim_name ->
  List.length mask_obs = dim_size ds obs_dim_name ->
  exists ds',
    subset_select ds id_var_name rowsize_var_name row_dim_name obs_dim_name
                  full_rows mask_row mask_obs = Ok ds'.
Proof.
  intros Hne Hcoord Hid Hsize Hidlen Hszlen Hrowdim Hobsdim Hnd Hpos Hsum Hmr Hmo.
  assert (Hlen : List.length ids = List.length sizes) by congruence.
  assert (Htraj : Forall (fun t => 0 <= t) (rowsize_to_index sizes)).
  { rewrite rowsize_to_index_cons. apply cumsum_from_nonneg; [lia | exact Hpos]. }
  assert (Hbound : forall m : list bool,
             List.length m = dim_size ds row_dim_name ->
             Forall (fun i => 0 <= i /\ i + 1 < len (rowsize_to_index sizes))
                    (np_where m)).
  { intros m Hm. eapply Forall_impl; [|apply np_where_bound].
    cbn beta. intros i Hi. unfold len in *.
    rewrite length_rowsize_to_index, Hszlen, <- Hm. lia. }
  unfold subset_select.
  rewrite (ds_getitem_variable _ _ Hsize). cbn [bind var_values].
  destruct (@set_rows_ok (rowsize_to_index sizes) false (np_where (map negb mask_row)))
    with (mask := mask_obs) as (mask_obs1 & E1).
  { apply Hbound. rewrite length_map. exact Hmr. }
  rewrite E1. cbn [bind].
  rewrite (ds_getitem_variable _ _ Hid). cbn [bind var_values].
  pose proof (@np_repeat_ok ids sizes Hpos Hlen) as E2. rewrite E2. cbn [bind].
  destruct (@set_rows_nth _ _ _ _ _ Htraj (np_where_nonneg _) E1) as [Hmo1 _].
  assert (Hreplen : forall m : list bool,
             List.length m = List.length mask_obs ->
             bool_index (repeat_rows ids sizes) m
             = Ok (np_compress m (repeat_rows ids sizes))).
  { intros m Hm. unfold bool_index.
    assert (Hl : List.length (repeat_rows ids sizes) = List.length m).
    { apply Nat2Z.inj. rewrite (@length_repeat_rows ids sizes Hlen Hpos). lia. }
    rewrite Hl, Nat.eqb_refl. reflexivity. }
  pose proof (Hreplen mask_obs1 Hmo1) as E3. rewrite E3. cbn [bind].
  destruct (@logical_and_ok mask_row
              (np_in1d ids (np_unique (np_compress mask_obs1 (repeat_rows ids sizes)))))
    as (mask_row1 & E4 & Hmr1).
  { unfold np_in1d. rewrite length_map. congruence. }
  rewrite E4. cbn [bind].
  assert (Hfull : exists mask_obs2 ids_with_mask_obs2,
             (if full_rows
              then mask_obs3 <- set_rows (rowsize_to_index sizes) true
                                         (np_where mask_row1) mask_obs1 ;;
                   ids_with_mask_obs <- bool_index (repeat_rows ids sizes) mask_obs3 ;;
                   Ok (mask_obs3, ids_with_mask_obs)
              else Ok (mask_obs1, np_compress mask_obs1 (repeat_rows ids sizes)))
             = Ok (mask_obs2, ids_with_mask_obs2)
             /\ List.length mask_obs2 = List.length mask_obs
             /\ (if full_rows
                 then set_rows (rowsize_to_index sizes) true (np_where mask_row1)
                               mask_obs1 = Ok mask_obs2
                      /\ bool_index (repeat_rows ids sizes) mask_obs2
                         = Ok ids_with_mask_obs2
                 else mask_obs2 = mask_obs1
                      /\ ids_with_mask_obs2
                         = np_compress mask_obs1 (repeat_rows ids sizes))).
  { destruct full_rows.
    - destruct (@set_rows_ok (rowsize_to_index sizes) true (np_where mask_row1))
        with (mask := mask_obs1) as (mask_obs2 & E5).
      { apply Hbound. congruence. }
      destruct (@set_rows_nth _ _ _ _ _ Htraj (np_where_nonneg _) E5) as [Hmo2 _].
      assert (Hl2 : List.length mask_obs2 = List.length mask_obs) by congruence.
      exists mask_obs2, (np_compress mask_obs2 (repeat_rows ids sizes)).
      rewrite E5. cbn [bind]. rewrite (Hreplen mask_obs2 Hl2). cbn [bind].
      repeat split; assumption.
    - exists mask_obs1, (np_compress mask_obs1 (repeat_rows ids sizes)).
      repeat split; assumption. }
  destruct Hfull as (mask_obs2 & ids_with_mask_obs2 & E5 & Hmo2 & Hfull).
  rewrite E5. cbn [bind fst snd].
  destruct (existsb id mask_row1); cbn [negb]; [|eexists; reflexivity].
  destruct (@isel_ok ds row_dim_name obs_dim_name mask_row1 mask_obs2)
    as (ds_sub & E6).
  { unfold dim_size in Hmr. destruct (lookup row_dim_name (ds_sizes ds));
      [congruence | contradiction]. }
  { unfold dim_size in Hmo. destruct (lookup obs_dim_name (ds_sizes ds));
      [congruence | contradiction]. }
  rewrite E6. cbn [bind].
  fold (recomputed_rowsize ids_with_mask_obs2).
  apply set_values_ok with (v := mk_var [row_dim_name] (np_compress mask_row1 sizes)).
  - rewrite (@isel_variables _ _ _ rowsize_var_name E6), Hsize.
    rewrite isel_row_variable by assumption. reflexivity.
  - unfold is_dimension_coordinate. cbn [var_dims].
    destruct (String.eqb_spec row_dim_name rowsize_var_name); congruence.
  - reflexivity.
  - cbn [var_values].
    destruct (@kept_rows_sizes ids sizes mask_row mask_obs mask_obs1 mask_row1
                mask_obs2 (repeat_rows ids sizes)
                (np_compress mask_obs1 (repeat_rows ids sizes))
                ids_with_mask_obs2 full_rows Hnd Hlen E1 E2 E3 E4 Hfull) as [_ Hl].
    rewrite Hl, !length_np_compress by congruence. reflexivity.
Qed.

(** X30.  On a ragged dataset whose identifiers are distinct, whose row
    sizes are not negative and sum to the number of observations, and
    whose row-size variable is not the coordinate of the row dimension
    (it does not bear the name of that dimension), [subset] with criteria
    of ranges, lists of values or single values, on variables over the
    row or the observation dimension alone, raises nothing: it returns a
    dataset, with or without [full_rows]. *)
Theorem subset_returns (ds : Dataset) (criteria : list (key * criterion))
        (id_var_name rowsize_var_name row_dim_name obs_dim_name : string)
        (full_rows : bool) :
  ragged_dataset ds id_var_name rowsize_var_name row_dim_name obs_dim_name ->
  rowsize_var_name <> row_dim_name ->
  lookup row_dim_name (ds_sizes ds) <> None ->
  lookup obs_dim_name (ds_sizes ds) <> None ->
  NoDup (var_data ds id_var_name) ->
  Forall (fun r => 0 <= r) (var_data ds rowsize_var_name) ->
  sumZ (var_data ds rowsize_var_name) = Z.of_nat (dim_size ds obs_dim_name) ->
  Forall (plain_criterion ds row_dim_name obs_dim_name) criteria ->
  exists ds',
    subset ds criteria id_var_name rowsize_var_name row_dim_name obs_dim_name
           full_rows = Ok ds'.
Proof.
  intros (Hne & _ & (ids & Hid & Hidlen) & (sizes & Hsize & Hszlen))
         Hcoord Hrowdim Hobsdim Hnd Hpos Hsum Hcrit.
  unfold var_data in Hnd, Hpos, Hsum.
  rewrite Hid in Hnd. rewrite Hsize in Hpos. rewrite Hsize in Hsum.
  cbn [var_values] in Hnd, Hpos, Hsum.
  unfold subset, ds_size.
  pose proof (eq_refl : dim_size ds row_dim_name = dim_size ds row_dim_name) as Er.
  pose proof (eq_refl : dim_size ds obs_dim_name = dim_size ds obs_dim_name) as Eo.
  unfold dim_size at 1 in Er. unfold dim_size at 1 in Eo.
  destruct (lookup row_dim_name (ds_sizes ds)) as [n_rows|] eqn:Erow;
    [|contradiction].
  destruct (lookup obs_dim_name (ds_sizes ds)) as [n_obs|] eqn:Eobs;
    [|contradiction].
  cbn [bind].
  destruct (@plain_criteria_ok ds rowsize_var_name row_dim_name obs_dim_name sizes
              criteria Hne Hsize Hcrit (repeat true n_rows, repeat true n_obs))
    as (masks & Hmasks & Hmr & Hmo).
  { cbn [fst]. rewrite repeat_length. exact Er. }
  { cbn [snd]. rewrite repeat_length. exact Eo. }
  rewrite Hmasks. cbn [bind].
  apply subset_select_returns with (ids := ids) (sizes := sizes);
    try assumption; try (rewrite ?Erow, ?Eobs; discriminate).
Qed.

Lemma subset_returns_witness :
  exists ds',
    subset example_dataset [(KName "lat", CRange 15 30); (KName "id", CValues [8])]
           "id" "rowsize" "rows" "obs" true = Ok ds'.
Proof.
  apply subset_returns.
  - split; [discriminate|]. split; [discriminate|]. split.
    + exists [7; 8]. split; reflexivity.
    + exists [1; 2]. split; reflexivity.
  - discriminate.
  - discriminate.
  - discriminate.
  - repeat constructor; cbn; intuition discriminate.
  - repeat constructor; cbn; discriminate.
  - reflexivity.
  - constructor; [|constructor; [|constructor]].
    + exists "lat"%string, (mk_var ["obs"%string] [10; 20; 30]).
      split; [reflexivity|]. split; [reflexivity|].
      split; [right; split; reflexivity | discriminate].
    + exists "id"%string, (mk_var ["rows"%string] [7; 8]).
      split; [reflexivity|]. split; [reflexivity|].
      split; [left; split; reflexivity | discriminate].
Defined.
